(* ===== verification/_CoqProject ===== *)
-Q . S2P
Prelude.v
GoLib.v
Sha256.v
K8s.v
Metrics.v
Api.v
Resolve.v
Labels.v
Listeners.v
Builder.v
Service.v
Render.v
Webhook.v
Program.v
Managed.v
YanetController.v
Reconciler.v
Reconcile.v
ConfigController.v
System.v
Flags.v
Startup.v
GoHeap.v
DeepCopy.v
Snapshot.v
Instances.v
StopSpec.v
SystemSpec.v
SafetySpec.v
ManagedSpec.v
ConvergenceSpec.v
ErrorSpec.v
StatusSpec.v
MetricsSpec.v
GaugeSpec.v
ExclusionSpec.v
ThrottleSpec.v
ServicesSpec.v
ServiceConvergenceSpec.v
LabelsSpec.v
PodsSpec.v
RenderSpec.v
PassSpec.v
ResolveSpec.v
SidecarSpec.v
WebhookSpec.v
StartupSpec.v
DeepCopySpec.v
SnapshotSpec.v
