(* ===== verification/Prelude.v ===== *)
(** * Verification of yanet-operator

    yanet-operator is a Kubernetes operator for YANET installations.  A
    cluster-wide [YanetConfig] (the palette of components, operators, sidecars,
    patches and box types) and one [Yanet] per installation are turned into
    Deployments, inline ConfigMaps and shared Services.  This library models the
    operator from its Go source under src/ and proves the properties that make it
    safe to run next to live network hardware.

    ** The program and how its parts interact

    - api/v1alpha1: the resource types, their validators and the two admission
      webhooks.
    - internal/helpers: resolution of a box type of the palette, together with the
      overrides of an installation, to resolved components.
    - internal/manifests: the pure renderer.  A resolved component becomes
      Deployments (a fan-out per NUMA node for the controlplane), sidecars are
      composed into the dataplane Pod, named patches and installation overrides are
      applied, the workload identity is restored, networks, listeners and the
      runtime environment are configured, and the Pod is validated.  Service plans
      come from the same resolved components.
    - internal/controller: two controllers.  [YanetReconciler] reconciles one
      installation: finalizer, configuration snapshot, node exclusivity, preflight
      of everything, then apply per node and component, prune, status.
      [YanetConfigReconciler] publishes the configuration snapshot that the first
      one reads under a lock, and owns the shared Services.

    ** Files

    Foundations.
    - Prelude.v: Go errors and results, folds with errors, the iteration order of Go
      maps (class [MapOrder]: a range over a map visits its entries in an arbitrary
      order), shared list and map lemmas, tactics and hints.
    - GoLib.v: machine integers with their wrap-around, the [strings] and [fmt]
      functions the source calls.  Sha256.v: crypto/sha256, executable.
    - Flags.v: the [flag] and [strconv] functions of the command line.
    - K8s.v: the Kubernetes object types, field for field where the source reads or
      writes them; the remaining fields of an object are carried opaquely in its
      [_other] field.  The classes [QuantityLib], [K8sValidation] and [MetaLib] are
      the library functions the source calls on quantities, names and selectors.
    - Metrics.v: the collectors of internal/controller/metrics.go and the operations the
      controllers ask of them.

    The model, one file per component, in the order of the calls.
    - Api.v: api/v1alpha1 types, config_source.go, network_attachments.go,
      operator_validation.go.
    - Resolve.v: internal/helpers/resolve.go and ptr.go.
    - Labels.v: labels.go and the naming helpers of builder.go.
    - Listeners.v: listeners.go and pod_ports.go.
    - Builder.v: builder.go.  Service.v: service.go.
    - Render.v: patcher.go, installation_overrides.go, dataplane_networks.go,
      runtime_network.go and operator_placement.go of internal/manifests; the
      strategic-merge and JSON libraries are the class [PatchLib].
    - Webhook.v: yanetconfig_webhook.go and yanet_webhook.go.
    - Program.v: the effects.  A controller is a value of [prog]: a tree of API calls
      ([call], with the type of each [answer]) that ends in a result.  [run p t r]
      says that [p] can make the calls of the trace [t], receive its answers and end
      with [r]; the answers are unconstrained, so a theorem about every [run] holds
      for every API server and every interleaving with other writers.  [exec] runs
      a program against an executable handler.  [wp] is the trace logic used for the
      safety proofs.  [RetryOnConflict] and [CreateOrUpdate] of the client libraries
      are the class [ClientUtil], constrained by what they document: they only run
      the closure (any number of times), or get, mutate and write one object.
    - Managed.v: the pure helpers of internal/controller: managed metadata,
      ownership, precedence, throttle, sync status, conditions.
    - YanetController.v: global stop, status writes, pruning, deletion, exclusivity.
    - Reconciler.v: ConfigMaps, [applyDeployment], placement transitions, preflight.
    - Reconcile.v: the node and component loop, [reconcileYanet], [Reconcile] and the
      watch mappers.
    - ConfigController.v: snapshot refresh and the shared Services.
    - System.v: the running process.  The manager runs the reconciles and the watch
      mappers as goroutines ([job]); they share the snapshot ([MutexYanetConfigSpec])
      and the throttle, each behind a mutex.  [lock_step] acquires, uses and releases a
      mutex in separate steps that others may interleave; [atomic_step] is its
      specification, one step per call; [abstraction] relates them.
    - Startup.v: cmd/main.go, internal/events and the two [SetupWithManager].  [main] is a
      sequence of calls into the manager library, each of which may fail;
      [controller_jobs] says which jobs of System.v a change of a watched object starts.
      The event handlers of the library are the class [EventHandlers], the flags other
      packages put on the command line the class [OtherFlags].
    - GoHeap.v: the memory of a Go program: cells, pointers, slices, maps; the value a
      piece of memory denotes, closed regions, and what a deep copy is.
    - DeepCopy.v: zz_generated.deepcopy.go and the API structs on that memory.
    - Snapshot.v: the hand-over of the configuration between goroutines on that memory,
      where each writes to whatever it reaches; [config_of] takes a value from memory to
      the record of Api.v.
    - Instances.v: concrete instances of the classes and a small in-memory API
      server; used only by the witnesses.

    The theorems.
    - StopSpec.v: the global stop guards every write of every job.
    - SystemSpec.v: the mutexes refine atomic calls and every job of the concurrent
      process is a run of its program, so that the theorems about runs hold under every
      interleaving; a stop that stays published leaves at most the request in flight; a
      refresh that fails lifts it; the snapshot is always the newest read.
    - SafetySpec.v: report-only installations never write workloads; deletes and
      updates touch owned objects only; ConfigMaps in use are kept; the finalizer
      outlives the Deployments; nothing is brought up before every enabled component has
      rendered on every node.
    - ErrorSpec.v: after a failure a pass deletes nothing and is retried; a healthy
      finalization deletes every owned Deployment and ends.
    - ConvergenceSpec.v: applying a Deployment settles under server defaulting and is
      then quiet; what a pass applied it does not delete.
    - PassSpec.v: whole passes converge: a pass writes settled forms of wanted Deployments
      only, and over a settled cluster it writes no workload at all.
    - ManagedSpec.v: managed metadata merges converge; the key list round-trips.
    - StatusSpec.v: conditions and sync status report what was observed; what a finished pass
      publishes as Ready.
    - MetricsSpec.v: the counters count exactly the changes made, and no operation on a
      collector panics.  GaugeSpec.v: the gauge agrees with the status the pass writes.
    - ExclusionSpec.v: a node has one owner, and a contested node, by itself, a winner
      (two installations that own one node each of a shared pair block each other); the
      placement guard is sound; the boundary of the update window.
    - ThrottleSpec.v: in every schedule of the process, updates of different hosts are a
      window apart.
    - ServicesSpec.v: a shared Service is pruned only when no installation plans it and no
      planning in its scope failed.
    - ServiceConvergenceSpec.v: a pass over the shared Services writes settled forms of
      planned ones, reaches every plan, and writes nothing over a settled cluster.
    - LabelsSpec.v: patches cannot change the identity of a workload.
    - PodsSpec.v: the Pod validators decide exactly the declarative specification
      [well_formed_pod].
    - RenderSpec.v: what the renderer returns, and that Services reach it.
    - SidecarSpec.v: Services of sidecar roles reach the dataplane Pod exactly when the
      role is enabled.
    - ResolveSpec.v: sidecar resolution, port slots, hugepages, derived names.
    - WebhookSpec.v: what admission guarantees to the reconciler.
    - StartupSpec.v: the manager starts only when everything before it succeeded and with
      the safe defaults; every change that concerns an installation or the shared Services
      wakes the controller that handles it.
    - DeepCopySpec.v: every generated deep copy denotes the same value in memory of its own.
    - SnapshotSpec.v: the published configuration behaves as an immutable value, which is
      what lets the other files work with values instead of memory.

    ** Fuel and bounds

    Every loop of the source ranges over a finite list or map and is a fold or a
    structural recursion.  The only fuel is in [blocks] of Sha256.v, which cuts the
    padded message into 64-byte blocks: the length of the message is enough.
    Go's int32 and int64 are [Z] with explicit wrap-around where the source
    computes with them; instants and durations are nanoseconds, [Time.Sub] saturates.
    The number of retries of the client library is not bounded in the model, so the
    theorems hold for every retry policy.  A [prog] is an inductive tree, so
    that a job makes finitely many calls whatever the answers are: this is a property of
    the model (the loops of the source range over finite lists), not a theorem about it.

    ** Not modelled

    The manager library behind the calls of [main], the work queues (the pool of
    System.v may start any job at any time, also two for one object), the storage of the
    Prometheus client and its conversion to floating point,
    logging, the event text (an event is the call [EmitEvent] with its
    reason), the preconditions (UID, resource version) and propagation policy of a
    deletion request, which the server checks, nil receivers that the framework never passes.  Outside GoHeap.v, DeepCopy.v
    and Snapshot.v values are immutable: a reconcile works on objects and on a copy of the
    configuration that are its own.  Maps and slices of the source that are only nil or
    empty are not distinguished, as [equality.Semantic.DeepEqual] does not either,
    except where the source tests for nil. *)

From stdpp Require Export base gmap strings list sorting pretty numbers option.
From stdpp Require Export fin_maps.

(** ** Go errors

    [fmt.Errorf] is kept unrendered: the format string of the source with its
    arguments in order, and rendered by [Error] of GoLib.v where its text is
    used.  [%w] wraps an error ([AErr]); [errors.Join] keeps the list; [errGlobalStop] is the package-level sentinel of the controller; the
    errors of the API server are classified by the predicates the source uses
    ([IsNotFound], [IsConflict], [IsGone]). *)
Inductive api_reason :=
| ReasonNotFound
| ReasonConflict
| ReasonGone
| ReasonOther.

#[export] Instance api_reason_eq_dec : EqDecision api_reason.
Proof. solve_decision. Defined.

Inductive goerror :=
| Errorf (format : string) (args : list errarg)
| Joined (errs : list goerror)
| ErrGlobalStop
| APIError (reason : api_reason) (message : string)
with errarg :=
| AStr (s : string)
| AInt (n : Z)
| AStrs (l : list string)
| AErr (e : goerror).

(** The status reason of an API error, found through the wrapping layers
    ([errors.As] in [apierrors.ReasonForError]): depth first. *)
Fixpoint err_reason (e : goerror) : option api_reason :=
  match e with
  | Errorf _ args =>
      (fix go l := match l with
                   | [] => None
                   | a :: l => match arg_reason a with Some r => Some r | None => go l end
                   end) args
  | Joined errs =>
      (fix go l := match l with
                   | [] => None
                   | a :: l => match err_reason a with Some r => Some r | None => go l end
                   end) errs
  | ErrGlobalStop => None
  | APIError reason _ => Some reason
  end
with arg_reason (a : errarg) : option api_reason :=
  match a with AErr e => err_reason e | _ => None end.

Definition IsNotFound (e : goerror) : bool := bool_decide (err_reason e = Some ReasonNotFound).
Definition IsConflict (e : goerror) : bool := bool_decide (err_reason e = Some ReasonConflict).
Definition IsGone (e : goerror) : bool := bool_decide (err_reason e = Some ReasonGone).

(** [errors.Is(err, errGlobalStop)]. *)
Fixpoint is_global_stop (e : goerror) : bool :=
  match e with
  | Errorf _ args =>
      (fix go l := match l with [] => false | a :: l => arg_global_stop a || go l end) args
  | Joined errs =>
      (fix go l := match l with [] => false | a :: l => is_global_stop a || go l end) errs
  | ErrGlobalStop => true
  | APIError _ _ => false
  end
with arg_global_stop (a : errarg) : bool :=
  match a with AErr e => is_global_stop e | _ => false end.

(** [errors.Join]: nil errors are dropped, and nothing left is nil. *)
Definition errors_Join (errs : list (option goerror)) : option goerror :=
  match omap id errs with [] => None | l => Some (Joined l) end.

(** ** The result monad: a Go function that returns [(T, error)] *)
Inductive result (A : Type) :=
| Ok (a : A)
| Err (e : goerror).
Arguments Ok {A} a.
Arguments Err {A} e.

#[export] Instance result_ret : MRet result := λ A a, Ok a.
#[export] Instance result_bind : MBind result :=
  λ A B f r, match r with Ok a => f a | Err e => Err e end.
#[export] Instance result_fmap : FMap result :=
  λ A B f r, match r with Ok a => Ok (f a) | Err e => Err e end.

(** [return fmt.Errorf(...)] under a condition. *)
Definition err_if (c : bool) (e : goerror) : result unit := if c then Err e else Ok tt.

Definition wrap_err {A} (w : goerror → goerror) (r : result A) : result A :=
  match r with Ok a => Ok a | Err e => Err (w e) end.

Definition is_ok {A} (r : result A) : bool := match r with Ok _ => true | Err _ => false end.

(** [for _, x := range xs] with an accumulator and early return on error. *)
Fixpoint foldM {S A} (f : S → A → result S) (s : S) (l : list A) : result S :=
  match l with
  | [] => Ok s
  | x :: l => s' ← f s x; foldM f s' l
  end.

(** [for _, x := range xs { if err := f(x); err != nil { return err } }]. *)
Fixpoint check_all {A} (f : A → result unit) (l : list A) : result unit :=
  match l with
  | [] => Ok tt
  | x :: l => f x;; check_all f l
  end.

(** [for _, x := range xs { y, err := f(x); ...; out = append(out, y) }]. *)
Fixpoint mapR {A B} (f : A → result B) (l : list A) : result (list B) :=
  match l with
  | [] => Ok []
  | x :: l => y ← f x; ys ← mapR f l; Ok (y :: ys)
  end.

(** [for i, x := range xs]. *)
Definition enumerate {A} (l : list A) : list (nat * A) := imap pair l.

Definition default_Z (d : Z) (o : option Z) : Z := match o with Some z => z | None => d end.

(** ** Go maps

    A Go map is a [gmap]; a nil map reads as the empty one and, in every
    comparison the source makes ([Semantic.DeepEqual]), equals it.  The order of
    [for k, v := range m] is unspecified by the language: it is a parameter of
    the model, an enumeration of the entries of the map in some order. *)
Class MapOrder := {
  map_range : ∀ {K} `{Countable K} {A : Type}, gmap K A → list (K * A);
  map_range_perm : ∀ {K} `{Countable K} {A} (m : gmap K A), map_range m ≡ₚ map_to_list m;
}.

#[export] Instance canonical_order : MapOrder | 100 :=
  {| map_range _ _ _ _ m := map_to_list m; map_range_perm _ _ _ _ m := reflexivity _ |}.

(** ** Tactics

    [inv_ok] takes a successful run of monadic code apart: every bind in a
    hypothesis [... = Ok _] becomes the success of its parts. *)
Ltac inv_ok_step :=
  match goal with
  | H : Ok _ = Ok _ |- _ => injection H; clear H; intros; subst
  | H : Err _ = Ok _ |- _ => discriminate H
  | H : Ok _ = Err _ |- _ => discriminate H
  | H : mbind ?f ?r = Ok _ |- _ =>
      unfold mbind, result_bind in H; destruct r eqn:?; [|discriminate H]
  | H : fmap ?f ?r = Ok _ |- _ =>
      unfold fmap, result_fmap in H; destruct r eqn:?; [|discriminate H]
  | H : (match ?r with Ok _ => _ | Err _ => _ end) = Ok _ |- _ =>
      destruct r eqn:?; [|discriminate H]
  | H : err_if ?c _ = Ok _ |- _ =>
      unfold err_if in H; destruct c eqn:?; [discriminate H|clear H]
  | H : wrap_err _ ?r = Ok _ |- _ =>
      unfold wrap_err in H; destruct r eqn:?; [|discriminate H]
  | H : (if decide ?P then Err _ else _) = Ok _ |- _ =>
      destruct (decide P); [discriminate H|]
  | H : (if ?b then Err _ else _) = Ok _ |- _ =>
      destruct b eqn:?; [discriminate H|]
  | H : unit |- _ => destruct H
  | H : bool_decide _ = true |- _ => apply bool_decide_eq_true_1 in H
  | H : bool_decide _ = false |- _ => apply bool_decide_eq_false_1 in H
  | H : _ || _ = false |- _ => apply orb_false_iff in H; destruct H
  | H : _ && _ = true |- _ => apply andb_true_iff in H; destruct H
  | H : negb _ = false |- _ => apply negb_false_iff in H
  | H : negb _ = true |- _ => apply negb_true_iff in H
  end.
Ltac inv_ok := repeat (inv_ok_step; simpl in * ); simplify_eq.

(** ** Lemmas on loops *)

Create HintDb yanet discriminated.

Lemma bind_Ok {A B} (f : A → result B) r b :
  r ≫= f = Ok b ↔ ∃ a, r = Ok a ∧ f a = Ok b.
Proof. destruct r; simpl; naive_solver. Qed.

Lemma err_if_Ok c e u : err_if c e = Ok u ↔ c = false.
Proof. destruct c, u; simpl; split; congruence. Qed.

Lemma wrap_err_Ok {A} w (r : result A) a : wrap_err w r = Ok a ↔ r = Ok a.
Proof. destruct r; simpl; naive_solver. Qed.

Lemma is_ok_spec {A} (r : result A) : is_ok r = true ↔ ∃ a, r = Ok a.
Proof. destruct r; naive_solver. Qed.

Lemma check_all_Ok {A} (f : A → result unit) l :
  check_all f l = Ok tt ↔ Forall (λ x, f x = Ok tt) l.
Proof.
  induction l as [|x l IH]; simpl; [by split|].
  rewrite bind_Ok, Forall_cons, <-IH. split; [intros ([] & ? & ?)|]; naive_solver.
Qed.

Lemma check_all_perm {A} (f : A → result unit) l k :
  l ≡ₚ k → check_all f l = Ok tt ↔ check_all f k = Ok tt.
Proof. intros Hp. by rewrite !check_all_Ok, Hp. Qed.

Lemma foldM_app {S A} (f : S → A → result S) s l k :
  foldM f s (l ++ k) = s' ← foldM f s l; foldM f s' k.
Proof.
  revert s; induction l as [|x l IH]; intros s; simpl; [done|].
  destruct (f s x); simpl; [apply IH|done].
Qed.

(** The invariant rule of a loop: [P done s] relates the elements already
    visited to the accumulator. *)
Lemma foldM_ind {S A} (P : list A → S → Prop) (f : S → A → result S) s0 l s :
  P [] s0 →
  (∀ k x s s', P k s → f s x = Ok s' → P (k ++ [x]) s') →
  foldM f s0 l = Ok s → P l s.
Proof.
  intros H0 Hs. revert s. induction l as [|x l IH] using rev_ind; intros s.
  { simpl. by intros [= <-]. }
  rewrite foldM_app. destruct (foldM f s0 l) as [s1|] eqn:E; [|done]. simpl.
  destruct (f s1 x) as [s2|] eqn:E2; [|done]. simpl. intros [= <-]. eauto.
Qed.

(** Total correctness of a loop: under an invariant that makes every step
    succeed, the loop returns. *)
Lemma foldM_total {S A} (P : list A → S → Prop) (f : S → A → result S) s0 l :
  P [] s0 →
  (∀ k x k' s, l = k ++ x :: k' → P k s → ∃ s', f s x = Ok s' ∧ P (k ++ [x]) s') →
  ∃ s, foldM f s0 l = Ok s ∧ P l s.
Proof.
  intros H0 Hs.
  cut (∀ k r s, l = k ++ r → P k s → ∃ s', foldM f s r = Ok s' ∧ P (k ++ r) s').
  { intros H. apply (H [] l s0); done. }
  intros k r. revert k. induction r as [|x r IH]; intros k s -> HP; simpl.
  { exists s. by rewrite app_nil_r. }
  destruct (Hs k x r s eq_refl HP) as (s1 & -> & HP1). simpl.
  destruct (IH (k ++ [x]) s1) as (s2 & E & HP2).
  - by rewrite <-app_assoc.
  - done.
  - exists s2. rewrite E. by rewrite <-app_assoc in HP2.
Qed.

Lemma foldM_ext {S A} (f g : S → A → result S) s l :
  (∀ s x, x ∈ l → f s x = g s x) → foldM f s l = foldM g s l.
Proof.
  revert s; induction l as [|x l IH]; intros s H; simpl; [done|].
  rewrite (H s x) by set_solver. destruct (g s x); simpl; [|done].
  apply IH. set_solver.
Qed.

Lemma mapR_Ok {A B} (f : A → result B) l k :
  mapR f l = Ok k ↔ Forall2 (λ x y, f x = Ok y) l k.
Proof.
  revert k; induction l as [|x l IH]; intros k; simpl.
  - split; [by intros [= <-]|]. by inversion 1.
  - rewrite bind_Ok. split.
    + intros (y & Hy & H). rewrite bind_Ok in H. destruct H as (ys & Hys & [= <-]).
      constructor; [done|]. by apply IH.
    + inversion 1; subst. eexists; split; [done|]. apply bind_Ok. eexists.
      split; [by apply IH|done].
Qed.

Lemma mapR_total {A B} (f : A → result B) l :
  Forall (λ x, ∃ y, f x = Ok y) l → ∃ k, mapR f l = Ok k.
Proof.
  induction 1 as [|x l (y & Hy) _ (k & IH)]; [by exists []|].
  exists (y :: k). simpl. by rewrite Hy, IH.
Qed.

(** ** Lemmas on lists and maps *)

Lemma filter_all {A} (P : A → Prop) `{∀ x, Decision (P x)} (l : list A) : Forall P l → filter P l = l.
Proof. induction 1 as [|x l Hx _ IH]; [done|]. by rewrite filter_cons_True, IH. Qed.

Lemma filter_none {A} (P : A → Prop) `{∀ x, Decision (P x)} (l : list A) : Forall (λ x, ¬ P x) l → filter P l = [].
Proof. induction 1 as [|x l Hx _ IH]; [done|]. by rewrite filter_cons_False. Qed.

Lemma enumerate_lookup {A} (l : list A) i : enumerate l !! i = pair i <$> l !! i.
Proof. unfold enumerate. apply list_lookup_imap. Qed.

Lemma length_enumerate {A} (l : list A) : length (enumerate l) = length l.
Proof. apply length_imap. Qed.

Lemma snd_enumerate {A} (l : list A) : (enumerate l).*2 = l.
Proof.
  apply list_eq. intros i. rewrite list_lookup_fmap, enumerate_lookup.
  by destruct (l !! i).
Qed.

Lemma enumerate_snoc {A} (l : list A) x :
  enumerate (l ++ [x]) = enumerate l ++ [(length l, x)].
Proof. unfold enumerate. rewrite imap_app. simpl. by rewrite Nat.add_0_r. Qed.

Section map_order.
Context `{MapOrder}.

Lemma elem_of_map_range {A} (m : gmap string A) k v :
  (k, v) ∈ map_range m ↔ m !! k = Some v.
Proof. rewrite map_range_perm. apply elem_of_map_to_list. Qed.

Lemma map_range_NoDup {K} `{Countable K} {A} (m : gmap K A) : NoDup (map_range m).*1.
Proof. rewrite map_range_perm. apply NoDup_fst_map_to_list. Qed.

(** Rebuilding a map from its enumeration, whatever the order, is the
    identity: [out := make(...); for k, v := range m { out[k] = v }]. *)
Lemma list_to_map_range {A} (m : gmap string A) :
  list_to_map (map_range m) = m.
Proof.
  rewrite (list_to_map_proper (map_range m) (map_to_list m)).
  - apply list_to_map_to_list.
  - apply map_range_NoDup.
  - apply map_range_perm.
Qed.

Lemma check_all_range {A} (f : string * A → result unit) (m : gmap string A) :
  check_all f (map_range m) = Ok tt ↔ ∀ k v, m !! k = Some v → f (k, v) = Ok tt.
Proof.
  rewrite check_all_Ok, Forall_forall. split.
  - intros Hf k v Hk. apply Hf. by apply elem_of_map_range.
  - intros Hf [k v] Hk. apply Hf. by apply elem_of_map_range.
Qed.

(** [for k, v := range m { if p(k) { out[k] = v } }]: the result of a guarded
    copy does not depend on the order of the range. *)
Lemma lookup_copy_list {A} (p : string → bool) (l : list (string * A)) (out : gmap string A) k :
  NoDup l.*1 →
  foldl (λ out kv, if p kv.1 then <[kv.1 := kv.2]> out else out) out l !! k =
  if p k then match (list_to_map l : gmap string A) !! k with Some v => Some v | None => out !! k end
  else out !! k.
Proof.
  revert out. induction l as [|[k' v] l IH]; intros out Hnd; csimpl in *; [rewrite lookup_empty; by destruct (p k)|].
  inversion Hnd as [|? ? Hni Hnd']; subst. rewrite IH by done.
  destruct (decide (k' = k)) as [->|Hne].
  - rewrite lookup_insert_eq, not_elem_of_list_to_map_1 by done.
    destruct (p k); [by rewrite lookup_insert_eq|done].
  - rewrite lookup_insert_ne by done. destruct (p k'); [by rewrite lookup_insert_ne|done].
Qed.

Lemma lookup_copy_if {A} (p : string → bool) (m out : gmap string A) k :
  foldl (λ out kv, if p kv.1 then <[kv.1 := kv.2]> out else out) out (map_range m) !! k =
  if p k then match m !! k with Some v => Some v | None => out !! k end else out !! k.
Proof. rewrite lookup_copy_list by apply map_range_NoDup. by rewrite list_to_map_range. Qed.

Lemma lookup_copy {A} (m out : gmap string A) k :
  foldl (λ out kv, <[kv.1 := kv.2]> out) out (map_range m) !! k =
  match m !! k with Some v => Some v | None => out !! k end.
Proof. exact (lookup_copy_if (λ _, true) m out k). Qed.

(** [for k := range m { if p(k) { delete(out, k) } }]. *)
Lemma lookup_delete_range {A B} (p : string → bool) (m : gmap string A) (out : gmap string B) k :
  foldl (λ out kv, if p kv.1 then delete kv.1 out else out) out (map_range m) !! k =
  if p k && bool_decide (is_Some (m !! k)) then None else out !! k.
Proof.
  assert (Hl : ∀ l : list (string * A), foldl (λ out kv, if p kv.1 then delete kv.1 out else out) out l !! k =
                    if p k && bool_decide (k ∈ l.*1) then None else out !! k).
  { intros l. revert out. induction l as [|[k' v] l IH]; intros out; csimpl; [by rewrite andb_false_r|].
    rewrite IH. destruct (decide (k' = k)) as [->|Hne].
    - rewrite (bool_decide_true (k ∈ k :: l.*1)) by set_solver. rewrite andb_true_r.
      destruct (p k); simpl; [|done]. rewrite lookup_delete_eq. by case_bool_decide.
    - rewrite (bool_decide_ext (k ∈ k' :: l.*1) (k ∈ l.*1)) by set_solver.
      destruct (p k'); [by rewrite lookup_delete_ne|done]. }
  rewrite Hl, (bool_decide_ext (k ∈ (map_range m).*1) (is_Some (m !! k))); [done|].
  rewrite list_elem_of_fmap. split.
  - intros ([k' v] & -> & Hin%elem_of_map_range). by exists v.
  - intros [v Hv]. exists (k, v). by rewrite elem_of_map_range.
Qed.
End map_order.

(** [for _, k := range keys { if p(k) { delete(out, k) } }]. *)
Lemma lookup_delete_keys {A} (p : string → bool) (keys : list string) (out : gmap string A) k :
  foldl (λ out k, if p k then delete k out else out) out keys !! k =
  if p k && bool_decide (k ∈ keys) then None else out !! k.
Proof.
  revert out. induction keys as [|k' l IH]; intros out; simpl; [by rewrite andb_false_r|].
  rewrite IH. destruct (decide (k' = k)) as [->|Hne].
  - rewrite (bool_decide_true (k ∈ k :: l)) by set_solver. rewrite andb_true_r.
    destruct (p k); simpl; [|done]. rewrite lookup_delete_eq. by case_bool_decide.
  - rewrite (bool_decide_ext (k ∈ k' :: l) (k ∈ l)) by set_solver.
    destruct (p k'); [by rewrite lookup_delete_ne|done].
Qed.

Lemma fst_enumerate_snd {A} (l : list A) i x :
  (i, x) ∈ enumerate l ↔ l !! i = Some x.
Proof.
  rewrite list_elem_of_lookup. split.
  - intros (j & Hj). rewrite enumerate_lookup in Hj.
    destruct (l !! j) eqn:E; simplify_eq/=. done.
  - intros Hi. exists i. by rewrite enumerate_lookup, Hi.
Qed.

(** Elements of a list with distinct keys are determined by their key. *)
Lemma NoDup_key_inj {A K} (key : A → K) (l : list A) x y :
  NoDup (key <$> l) → x ∈ l → y ∈ l → key x = key y → x = y.
Proof.
  intros Hn Hx Hy Hk. apply list_elem_of_lookup in Hx as [i Hi], Hy as [j Hj].
  assert (i = j) as ->; [|congruence].
  eapply (NoDup_lookup _ _ _ (key x)); [exact Hn| |]; rewrite list_lookup_fmap; [by rewrite Hi|by rewrite Hj, Hk].
Qed.
