(* ===== verification/GoLib.v ===== *)
(** * The parts of the Go language and standard library the operator uses

    Byte strings ([strings], [fmt] verbs [%d]/[%s]), [sort.Strings], fixed-width
    integers, [crypto/sha256] and [encoding/hex].  A Go string is a byte string:
    [String.string] over 8-bit characters. *)

From S2P Require Import Prelude.
From Stdlib Require Import Ascii.
#[local] Open Scope Z_scope.

(** ** Fixed-width integers *)
Definition MaxInt32 : Z := 2147483647.
Definition MaxInt64 : Z := 9223372036854775807.

Definition wrap_int32 (z : Z) : Z := (z + 2 ^ 31) mod 2 ^ 32 - 2 ^ 31.
Definition wrap_int64 (z : Z) : Z := (z + 2 ^ 63) mod 2 ^ 64 - 2 ^ 63.
Definition is_int32 (z : Z) : Prop := - 2 ^ 31 ≤ z < 2 ^ 31.
Definition is_int64 (z : Z) : Prop := - 2 ^ 63 ≤ z < 2 ^ 63.

(** Integer division truncates toward zero. *)
Definition go_div (a b : Z) : Z := Z.quot a b.
Definition go_mod (a b : Z) : Z := Z.rem a b.

Lemma wrap_int32_id z : is_int32 z → wrap_int32 z = z.
Proof. unfold is_int32, wrap_int32. intros. rewrite Z.mod_small; lia. Qed.

Lemma wrap_int64_id z : is_int64 z → wrap_int64 z = z.
Proof. unfold is_int64, wrap_int64. intros. rewrite Z.mod_small; lia. Qed.

(** ** Strings *)
Definition slen (s : string) : nat := String.length s.
Definition HasPrefix (s p : string) : bool := String.prefix p s.

Fixpoint drop_str (n : nat) (s : string) : string :=
  match n, s with
  | O, _ => s
  | S n, "" => ""
  | S n, String _ s => drop_str n s
  end.

Fixpoint take_str (n : nat) (s : string) : string :=
  match n, s with
  | O, _ => ""
  | S n, "" => ""
  | S n, String a s => String a (take_str n s)
  end.

Definition TrimPrefix (s p : string) : string :=
  if HasPrefix s p then drop_str (slen p) s else s.

Definition HasSuffix (s p : string) : bool :=
  (slen p <=? slen s)%nat && bool_decide (drop_str (slen s - slen p) s = p).

(** [strings.TrimRight(s, c)] for a one-character cutset. *)
Fixpoint TrimRight (s : string) (c : ascii) : string :=
  match s with
  | "" => ""
  | String a s' =>
      match TrimRight s' c with
      | "" => if decide (a = c) then "" else String a ""
      | t => String a t
      end
  end.

(** [strings.ReplaceAll(s, old, new)] for a non-empty [old]: leftmost,
    non-overlapping occurrences; [skip] counts the bytes of the occurrence being
    consumed. *)
Fixpoint replace_go (skip : nat) (old new s : string) : string :=
  match s with
  | "" => ""
  | String a s' =>
      match skip with
      | S k => replace_go k old new s'
      | O =>
          if HasPrefix s old
          then new +:+ replace_go (slen old - 1) old new s'
          else String a (replace_go 0 old new s')
      end
  end.
Definition ReplaceAll (s old new : string) : string := replace_go 0 old new s.

(** [strings.Split(s, c)] for a one-character separator. *)
Fixpoint Split (s : string) (c : ascii) : list string :=
  match s with
  | "" => [""]
  | String a s' =>
      if decide (a = c) then "" :: Split s' c
      else match Split s' c with
           | [] => [String a ""]
           | h :: t => String a h :: t
           end
  end.

Fixpoint Join (l : list string) (sep : string) : string :=
  match l with
  | [] => ""
  | [x] => x
  | x :: l => x +:+ sep +:+ Join l sep
  end.

(** [strings.Cut(s, c)]: the part before the first separator, the part after
    it, and whether there is one. *)
Fixpoint Cut (s : string) (c : ascii) : string * string * bool :=
  match s with
  | "" => ("", "", false)
  | String a s' =>
      if decide (a = c) then ("", s', true)
      else match Cut s' c with
           | (b, after, true) => (String a b, after, true)
           | (_, _, false) => (s, "", false)
           end
  end.

(** ** Rendering of errors ([fmt.Errorf], [fmt.Sprintf])

    The verbs the source uses: [%d], [%s], [%q], [%v] and [%w].  A list of
    strings under [%s] stands for [strings.Join(list, "; ")].  [%q] escapes the
    way [strconv.Quote] does for ASCII; bytes from 128 on are printed as they
    are. *)
Definition hex_nibble (n : N) : ascii := ascii_of_N (if (n <? 10)%N then 48 + n else 87 + n)%N.

Definition quote_byte (a : ascii) : string :=
  let n := N_of_ascii a in
  let back c := String "\" (String c "") in
  if (n =? 34)%N || (n =? 92)%N then back a
  else if (n =? 7)%N then back "a"%char else if (n =? 8)%N then back "b"%char
  else if (n =? 12)%N then back "f"%char else if (n =? 10)%N then back "n"%char
  else if (n =? 13)%N then back "r"%char else if (n =? 9)%N then back "t"%char
  else if (n =? 11)%N then back "v"%char
  else if (n <? 32)%N || (n =? 127)%N
       then String "\" (String "x" (String (hex_nibble (n / 16)) (String (hex_nibble (n mod 16)) "")))
  else String a "".

Fixpoint quote_bytes (s : string) : string :=
  match s with "" => "" | String a s => quote_byte a +:+ quote_bytes s end.
Definition Quote (s : string) : string :=
  String (ascii_of_N 34) (quote_bytes s +:+ String (ascii_of_N 34) "").

(** Each argument is rendered for the verb that consumes it. *)
Fixpoint format (s : string) (args : list (ascii → string)) : string :=
  match s with
  | "" => ""
  | String "%" (String verb s) =>
      match args with
      | [] => "%!" +:+ String verb "(MISSING)" +:+ format s []
      | arg :: args => arg verb +:+ format s args
      end
  | String a s => String a (format s args)
  end.

Fixpoint Error (e : goerror) : string :=
  match e with
  | Errorf f args => format f (map render_arg args)
  | Joined errs => Join (map Error errs) (String (ascii_of_N 10) "")
  | ErrGlobalStop => "YanetConfig.spec.stop is true"
  | APIError _ message => message
  end
with render_arg (a : errarg) (verb : ascii) : string :=
  match a with
  | AStr s => if bool_decide (verb = "q"%char) then Quote s else s
  | AInt n => pretty n
  | AStrs l => if bool_decide (verb = "v"%char) then "[" +:+ Join l " " +:+ "]" else Join l "; "
  | AErr e => Error e
  end.

Definition Sprintf (f : string) (args : list errarg) : string := Error (Errorf f args).

(** [strings.Contains(s, c)] for one byte. *)
Fixpoint contains_char (c : ascii) (s : string) : bool :=
  match s with
  | "" => false
  | String a s' => bool_decide (a = c) || contains_char c s'
  end.

(** [fmt.Sprintf("%d", n)]. *)
Definition sprint_d (n : Z) : string := pretty n.

(** [sort.Strings] / [slices.Sort]: bytewise lexicographic order. *)
Definition sort_strings (l : list string) : list string := merge_sort String.le l.

(** [a < b] on strings. *)
Definition str_lt (a b : string) : bool := String.ltb a b.

(** ** Lemmas on strings *)

Lemma slen_app s t : slen (s +:+ t) = (slen s + slen t)%nat.
Proof.
  induction s as [|a s IH]; [done|].
  change (String a s +:+ t) with (String a (s +:+ t)). simpl. by rewrite IH.
Qed.

Lemma app_str_assoc s t u : s +:+ (t +:+ u) = (s +:+ t) +:+ u.
Proof.
  induction s as [|a s IH]; [done|].
  change (String a (s +:+ (t +:+ u)) = String a ((s +:+ t) +:+ u)). by rewrite IH.
Qed.

Lemma app_str_nil s : s +:+ "" = s.
Proof.
  induction s as [|a s IH]; [done|]. change (String a (s +:+ "") = String a s). by rewrite IH.
Qed.

Lemma slen_take n s : slen (take_str n s) = Nat.min n (slen s).
Proof. revert s; induction n as [|n IH]; intros [|a s]; simpl; auto. Qed.

Lemma slen_TrimRight s c : (slen (TrimRight s c) ≤ slen s)%nat.
Proof.
  induction s as [|a s IH]; simpl; [done|].
  destruct (TrimRight s c) eqn:E; simpl in *; [case_decide; simpl; lia|lia].
Qed.

Lemma HasPrefix_app p s : HasPrefix (p +:+ s) p = true.
Proof.
  unfold HasPrefix. induction p as [|a p IH]; [by destruct s|].
  change (String a p +:+ s) with (String a (p +:+ s)). simpl.
  destruct (ascii_dec a a); [done|congruence].
Qed.

Lemma HasPrefix_inv s p : HasPrefix s p = true → ∃ t, s = p +:+ t.
Proof.
  unfold HasPrefix. revert s; induction p as [|a p IH]; intros s; [by exists s|].
  destruct s as [|b s]; simpl; [done|]. destruct (ascii_dec a b) as [->|]; [|done].
  intros (t & ->)%IH. by exists t.
Qed.

Lemma drop_str_app p s : drop_str (slen p) (p +:+ s) = s.
Proof.
  induction p as [|a p IH]; [done|].
  change (String a p +:+ s) with (String a (p +:+ s)). apply IH.
Qed.

Lemma TrimPrefix_app p s : TrimPrefix (p +:+ s) p = s.
Proof. unfold TrimPrefix. by rewrite HasPrefix_app, drop_str_app. Qed.

Lemma app_str_inj_l p s t : p +:+ s = p +:+ t → s = t.
Proof. intros H. apply (f_equal (drop_str (slen p))) in H. by rewrite !drop_str_app in H. Qed.

Lemma app_str_inj_length s1 s2 t1 t2 :
  slen s1 = slen s2 → s1 +:+ t1 = s2 +:+ t2 → s1 = s2 ∧ t1 = t2.
Proof.
  revert s2; induction s1 as [|a s1 IH]; intros [|b s2]; simpl; try done.
  intros [= Hl] H.
  change (String a (s1 +:+ t1) = String b (s2 +:+ t2)) in H. injection H as -> H.
  destruct (IH s2 Hl H) as [-> ->]. done.
Qed.

Lemma str_lt_irrefl a : str_lt a a = false.
Proof.
  unfold str_lt, String.ltb. pose proof (String.compare_antisym a a) as H.
  by destruct (a ?= a)%string.
Qed.

Lemma str_lt_asym a b : str_lt a b = true → str_lt b a = false.
Proof.
  unfold str_lt, String.ltb. rewrite (String.compare_antisym a b).
  by destruct (b ?= a)%string.
Qed.

Lemma str_lt_total a b : a ≠ b → str_lt a b = negb (str_lt b a).
Proof.
  unfold str_lt, String.ltb. rewrite (String.compare_antisym a b).
  intros Hne. destruct (b ?= a)%string eqn:E; simpl; try done.
  apply String.compare_eq_iff in E. congruence.
Qed.

Lemma str_lt_iff a b : str_lt a b = true ↔ String.le a b ∧ a ≠ b.
Proof.
  unfold str_lt, String.ltb, String.le, String.leb. destruct (a ?= b)%string eqn:E; split; try done.
  - apply String.compare_eq_iff in E. naive_solver.
  - intros _. split; [done|]. intros ->.
    pose proof (String.compare_antisym b b) as H. by rewrite E in H.
  - by intros [? _].
Qed.

Lemma str_lt_trans a b c : str_lt a b = true → str_lt b c = true → str_lt a c = true.
Proof.
  rewrite !str_lt_iff. intros [Hab Hne] [Hbc Hne']. split; [by transitivity b|].
  intros ->. apply Hne. by apply (anti_symm String.le).
Qed.

(** Sorting is a function of the multiset: the order in which Go enumerates a
    map does not matter once the names are sorted. *)
Lemma sort_strings_perm l : sort_strings l ≡ₚ l.
Proof. apply merge_sort_Permutation. Qed.

Lemma sort_strings_sorted l : Sorted String.le (sort_strings l).
Proof. apply (Sorted_merge_sort _). Qed.

Lemma sort_strings_proper l k : l ≡ₚ k → sort_strings l = sort_strings k.
Proof.
  intros Hp. apply (StronglySorted_unique String.le).
  - apply (StronglySorted_merge_sort _).
  - apply (StronglySorted_merge_sort _).
  - by rewrite !sort_strings_perm.
Qed.

Lemma elem_of_sort_strings x l : x ∈ sort_strings l ↔ x ∈ l.
Proof. by rewrite sort_strings_perm. Qed.

Lemma contains_char_app c s t :
  contains_char c (s +:+ t) = contains_char c s || contains_char c t.
Proof.
  induction s as [|a s IH]; [done|].
  change (String a s +:+ t) with (String a (s +:+ t)). simpl. rewrite IH. apply orb_assoc.
Qed.

(** [Split] undoes [Join] on parts without the separator. *)
Lemma Split_no_sep s c : contains_char c s = false → Split s c = [s].
Proof.
  induction s as [|a s IH]; simpl; [done|]. intros [Ha Hs]%orb_false_iff.
  apply bool_decide_eq_false_1 in Ha. rewrite decide_False by done. by rewrite IH.
Qed.

Lemma Split_sep_app s t c :
  contains_char c s = false → Split (s +:+ String c t) c = s :: Split t c.
Proof.
  induction s as [|a s IH]; simpl.
  - intros _. change ("" +:+ String c t) with (String c t). simpl. by rewrite decide_True.
  - intros [Ha Hs]%orb_false_iff. apply bool_decide_eq_false_1 in Ha.
    change (String a s +:+ String c t) with (String a (s +:+ String c t)). simpl.
    rewrite decide_False by done. by rewrite IH.
Qed.

Lemma Split_Join l c :
  l ≠ [] → Forall (λ s, contains_char c s = false) l → Split (Join l (String c "")) c = l.
Proof.
  intros Hne Hl. induction Hl as [|x l Hx Hl IH]; [done|]. destruct l as [|y l].
  - simpl. by apply Split_no_sep.
  - change (Join (x :: y :: l) (String c "")) with (x +:+ String c "" +:+ Join (y :: l) (String c "")).
    change (String c "" +:+ Join (y :: l) (String c "")) with (String c (Join (y :: l) (String c ""))).
    rewrite Split_sep_app by done. by rewrite IH.
Qed.
