(* ===== verification/Sha256.v ===== *)
(** * crypto/sha256 and encoding/hex

    The Go standard library's SHA-256 ([sha256.Sum256]) and lower-case
    hexadecimal encoding ([hex.EncodeToString]), as the operator uses them for
    the short identities in generated names.  Words are 32-bit integers in [Z]
    with the wrap-around written out. *)

From S2P Require Import Prelude GoLib.
From Stdlib Require Import Ascii.
#[local] Open Scope Z_scope.

Definition byte_list (s : string) : list Z := (λ a, Z.of_N (N_of_ascii a)) <$> String.list_ascii_of_string s.

Module Sha256.
Definition w32 (z : Z) : Z := z mod 2 ^ 32.
Definition add32 (a b : Z) : Z := w32 (a + b).
Definition rotr (n x : Z) : Z := Z.lor (Z.shiftr x n) (w32 (Z.shiftl x (32 - n))).
Definition not32 (x : Z) : Z := 4294967295 - x.

Definition ch (x y z : Z) : Z := Z.lxor (Z.land x y) (Z.land (not32 x) z).
Definition maj (x y z : Z) : Z := Z.lxor (Z.lxor (Z.land x y) (Z.land x z)) (Z.land y z).
Definition bsig0 (x : Z) : Z := Z.lxor (Z.lxor (rotr 2 x) (rotr 13 x)) (rotr 22 x).
Definition bsig1 (x : Z) : Z := Z.lxor (Z.lxor (rotr 6 x) (rotr 11 x)) (rotr 25 x).
Definition ssig0 (x : Z) : Z := Z.lxor (Z.lxor (rotr 7 x) (rotr 18 x)) (Z.shiftr x 3).
Definition ssig1 (x : Z) : Z := Z.lxor (Z.lxor (rotr 17 x) (rotr 19 x)) (Z.shiftr x 10).

(** *** The constants

    FIPS 180-4 derives them: the first 32 bits of the fractional parts of the
    cube roots (round constants) and square roots (initial state) of the first
    primes. *)
Definition is_prime (n : Z) : bool :=
  forallb (λ d, negb (bool_decide (n mod d = 0))) (seqZ 2 (n - 2)).

(** The first 64 primes. *)
Definition primes : list Z := List.filter is_prime (seqZ 2 310).

(** The integer cube root of [n], by its bits [k - 1 ... 0]. *)
Fixpoint cube_root (k : nat) (n root : Z) : Z :=
  match k with
  | O => root
  | S k =>
      let next := Z.setbit root (Z.of_nat k) in
      cube_root k n (if bool_decide (next * next * next ≤ n) then next else root)
  end.

Definition k_table : list Z := Eval vm_compute in (λ p, w32 (cube_root 36 (p * 2 ^ 96) 0)) <$> primes.

Definition h_init : list Z := Eval vm_compute in (λ p, w32 (Z.sqrt (p * 2 ^ 64))) <$> take 8 primes.

(** Big-endian split of [z] into [n] bytes. *)
Fixpoint be_bytes (n : nat) (z : Z) : list Z :=
  match n with
  | O => []
  | S n => Z.land (Z.shiftr z (8 * Z.of_nat n)) 255 :: be_bytes n z
  end.

Definition pad (msg : list Z) : list Z :=
  let len := length msg in
  let zeros := Z.to_nat ((55 - Z.of_nat len) mod 64) in
  msg ++ [128] ++ replicate zeros 0 ++ be_bytes 8 (8 * Z.of_nat len).

Fixpoint be_words (l : list Z) : list Z :=
  match l with
  | a :: b :: c :: d :: l =>
      Z.lor (Z.lor (Z.shiftl a 24) (Z.shiftl b 16)) (Z.lor (Z.shiftl c 8) d) :: be_words l
  | _ => []
  end.

(** The message schedule, newest word first. *)
Fixpoint extend (n : nat) (rw : list Z) : list Z :=
  match n with
  | O => rw
  | S n =>
      let w := λ i, nth i rw 0 in
      extend n (w32 (ssig1 (w 1%nat) + w 6%nat + ssig0 (w 14%nat) + w 15%nat) :: rw)
  end.

Definition schedule (block : list Z) : list Z := reverse (extend 48 (reverse (be_words block))).

Definition round (s : list Z) (kw : Z * Z) : list Z :=
  match s with
  | [a; b; c; d; e; f; g; h] =>
      let t1 := w32 (h + bsig1 e + ch e f g + kw.1 + kw.2) in
      let t2 := w32 (bsig0 a + maj a b c) in
      [add32 t1 t2; a; b; c; add32 d t1; e; f; g]
  | _ => s
  end.

Definition compress (h : list Z) (block : list Z) : list Z :=
  zip_with add32 h (foldl round h (zip k_table (schedule block))).

Fixpoint blocks (fuel : nat) (l : list Z) : list (list Z) :=
  match fuel, l with
  | O, _ | _, [] => []
  | S fuel, _ => take 64 l :: blocks fuel (drop 64 l)
  end.

(** [sha256.Sum256]: every block consumes 64 bytes, so the length of the
    padded message is enough fuel. *)
Definition sum256 (msg : list Z) : list Z :=
  let padded := pad msg in
  mjoin (be_bytes 4 <$> foldl compress h_init (blocks (length padded) padded)).
End Sha256.

Definition hex_digit (n : Z) : ascii :=
  ascii_of_N (Z.to_N (if n <? 10 then 48 + n else 87 + n)).

(** [hex.EncodeToString]. *)
Fixpoint hex_encode (l : list Z) : string :=
  match l with
  | [] => ""
  | b :: l => String (hex_digit (Z.shiftr b 4)) (String (hex_digit (Z.land b 15)) (hex_encode l))
  end.

(** FIPS 180-4 test vectors. *)
Example sha256_abc :
  hex_encode (Sha256.sum256 (byte_list "abc"))
  = "ba7816bf8f01cfea414140de5dae2223b00361a396177a9cb410ff61f20015ad".
Proof. vm_compute. reflexivity. Qed.

Example sha256_two_blocks :
  hex_encode (Sha256.sum256 (byte_list "abcdbcdecdefdefgefghfghighijhijkijkljklmklmnlmnomnopnopq"))
  = "248d6a61d20638b8e5c026930c3e6039a33ce45964ff2167f6ecedd419db06c1".
Proof. vm_compute. reflexivity. Qed.

Example sha256_empty :
  hex_encode (Sha256.sum256 [])
  = "e3b0c44298fc1c149afbf4c8996fb92427ae41e4649b934ca495991b7852b855".
Proof. vm_compute. reflexivity. Qed.
