(* ===== verification/K8s.v ===== *)
(** * Kubernetes objects and the third-party functions the operator calls

    The API types of k8s.io/api are not part of the repository.  They appear
    here as records with the fields the operator reads or writes; everything
    else a patch or another actor may put into an object is carried by the
    opaque [*_other] fields, so that comparing or copying an object compares or
    copies that part too.

    The functions of k8s.io/apimachinery the operator calls are parameters of
    the model: type classes with their documented laws.  Every class has an
    instance below, used when definitions are evaluated. *)

From S2P Require Import Prelude GoLib.
From Stdlib Require Import Ascii.
#[local] Open Scope Z_scope.

(** ** Documents *)
Inductive json :=
| JNull
| JBool (b : bool)
| JNumber (literal : string)
| JString (s : string)
| JArray (items : list json)
| JObject (fields : list (string * json)).

(** [runtime.RawExtension] up to decoding: no bytes, bytes that are not JSON,
    or a document. *)
Inductive RawExtension :=
| RawEmpty
| RawInvalid
| RawJSON (doc : json).

(** Decoding an object into a Go map: the last duplicate of a key wins. *)
Definition json_fields (l : list (string * json)) : gmap string json :=
  foldl (λ m kv, <[kv.1 := kv.2]> m) ∅ l.

(** ** Quantities

    [resource.Quantity] is a fixed-point number with nano precision; its format
    (binary or decimal suffix) is presentation only. *)
Record Quantity := MkQuantity { q_nano : Z }.
#[export] Instance Quantity_eq_dec : EqDecision Quantity.
Proof. solve_decision. Defined.

Definition nano : Z := 1000000000.
Definition ResourceList := gmap string Quantity.

Class QuantityLib := {
  ParseQuantity : string → result Quantity;
  NewQuantity : Z → Quantity;
  QString : Quantity → string;
  QSign : Quantity → Z;
  QValue : Quantity → Z;
  QCmp : Quantity → Quantity → comparison;
  AsInt64 : Quantity → option Z;
  NewQuantity_spec : ∀ v, NewQuantity v = MkQuantity (v * nano);
  QSign_spec : ∀ q, QSign q = Z.sgn (q_nano q);
  QCmp_spec : ∀ p q, QCmp p q = (q_nano p ?= q_nano q);
  (** [Value] of a whole number of int64 range is that number. *)
  QValue_whole : ∀ v, is_int64 v → QValue (MkQuantity (v * nano)) = v;
  QValue_int64 : ∀ q, is_int64 (QValue q);
  (** [AsInt64] succeeds only on an exact int64. *)
  AsInt64_exact : ∀ q v, AsInt64 q = Some v → q_nano q = v * nano ∧ is_int64 v;
}.

(** ** Names

    The validators of k8s.io/apimachinery/pkg/util/validation return the list
    of problems, empty when the value is valid. *)
Class K8sValidation := {
  IsDNS1123Label : string → list string;
  IsDNS1123Subdomain : string → list string;
  IsDNS1035Label : string → list string;
  IsQualifiedName : string → list string;
  IsValidPortName : string → list string;
}.

(** ** Metadata *)
Record OwnerReference := MkOwnerReference {
  or_APIVersion : string;
  or_Kind : string;
  or_Name : string;
  or_UID : string;
  or_Controller : option bool;
  or_BlockOwnerDeletion : option bool;
}.
#[export] Instance OwnerReference_eq_dec : EqDecision OwnerReference.
Proof. solve_decision. Defined.

Record ObjectMeta := MkObjectMeta {
  om_Name : string;
  om_Namespace : string;
  om_UID : string;
  om_ResourceVersion : string;
  om_Generation : Z;
  om_CreationTimestamp : Z;
  om_DeletionTimestamp : option Z;
  om_Labels : gmap string string;
  om_Annotations : gmap string string;
  om_OwnerReferences : list OwnerReference;
  om_Finalizers : list string;
  om_other : string;
}.
#[export] Instance ObjectMeta_eq_dec : EqDecision ObjectMeta.
Proof. solve_decision. Defined.

Definition empty_meta : ObjectMeta :=
  MkObjectMeta "" "" "" "" 0 0 None ∅ ∅ [] [] "".

(** The metadata helpers of k8s.io/apimachinery: [metav1.GetControllerOf]
    returns an owner reference that has the controller bit, and nil when there is
    none; [metav1.NewControllerRef] makes such a reference; [labels.SelectorFromSet(sel).Matches(labels)] compares every pair of the
    selector, and the empty selector matches everything; [AddFinalizer],
    [RemoveFinalizer] and [ContainsFinalizer] of controllerutil treat the
    finalizers as a set. *)
Class MetaLib := {
  GetControllerOf : ObjectMeta → option OwnerReference;
  GetControllerOf_Some : ∀ m r,
    GetControllerOf m = Some r → r ∈ om_OwnerReferences m ∧ or_Controller r = Some true;
  GetControllerOf_None : ∀ m r,
    GetControllerOf m = None → r ∈ om_OwnerReferences m → or_Controller r ≠ Some true;
  (** It looks at nothing but the owner references. *)
  GetControllerOf_owners : ∀ m m',
    om_OwnerReferences m = om_OwnerReferences m' → GetControllerOf m = GetControllerOf m';
  NewControllerRef : ObjectMeta → string → string → OwnerReference;
  NewControllerRef_spec : ∀ m apiVersion kind,
    NewControllerRef m apiVersion kind =
      MkOwnerReference apiVersion kind (om_Name m) (om_UID m) (Some true) (Some true);
  SelectorMatches : gmap string string → gmap string string → bool;
  SelectorMatches_spec : ∀ sel labels, SelectorMatches sel labels = true ↔ sel ⊆ labels;
  ContainsFinalizer : list string → string → bool;
  AddFinalizer : list string → string → list string;
  RemoveFinalizer : list string → string → list string;
  ContainsFinalizer_spec : ∀ l f, ContainsFinalizer l f = true ↔ f ∈ l;
  AddFinalizer_spec : ∀ l f g, g ∈ AddFinalizer l f ↔ g = f ∨ g ∈ l;
  RemoveFinalizer_spec : ∀ l f g, g ∈ RemoveFinalizer l f ↔ g ≠ f ∧ g ∈ l;
}.

(** ** Volumes *)
Record ResourceFieldSelector := MkResourceFieldSelector {
  rf_ContainerName : string;
  rf_other : string;
}.
#[export] Instance ResourceFieldSelector_eq_dec : EqDecision ResourceFieldSelector.
Proof. solve_decision. Defined.

Record DownwardAPIVolumeFile := MkDownwardAPIVolumeFile {
  da_ResourceFieldRef : option ResourceFieldSelector;
  da_other : string;
}.
#[export] Instance DownwardAPIVolumeFile_eq_dec : EqDecision DownwardAPIVolumeFile.
Proof. solve_decision. Defined.

Record VolumeProjection := MkVolumeProjection {
  vp_ConfigMap : option string;
  vp_DownwardAPI : option (list DownwardAPIVolumeFile);
  vp_other : string;
}.
#[export] Instance VolumeProjection_eq_dec : EqDecision VolumeProjection.
Proof. solve_decision. Defined.

Record HostPathVolumeSource := MkHostPath {
  hp_Path : string;
  hp_Type : option string;
}.
#[export] Instance HostPathVolumeSource_eq_dec : EqDecision HostPathVolumeSource.
Proof. solve_decision. Defined.

Record Volume := MkVolume {
  v_Name : string;
  v_HostPath : option HostPathVolumeSource;
  v_ConfigMap : option string;
  v_Projected : option (list VolumeProjection);
  v_DownwardAPI : option (list DownwardAPIVolumeFile);
  v_other : string;
}.
#[export] Instance Volume_eq_dec : EqDecision Volume.
Proof. solve_decision. Defined.

Record VolumeMount := MkVolumeMount {
  vm_Name : string;
  vm_MountPath : string;
  vm_ReadOnly : bool;
  vm_other : string;
}.
#[export] Instance VolumeMount_eq_dec : EqDecision VolumeMount.
Proof. solve_decision. Defined.

Record VolumeDevice := MkVolumeDevice { vd_Name : string; vd_other : string }.
#[export] Instance VolumeDevice_eq_dec : EqDecision VolumeDevice.
Proof. solve_decision. Defined.

(** ** Containers *)
Record ContainerPort := MkContainerPort {
  cp_Name : string;
  cp_ContainerPort : Z;
  cp_HostPort : Z;
  cp_Protocol : string;
  cp_other : string;
}.
#[export] Instance ContainerPort_eq_dec : EqDecision ContainerPort.
Proof. solve_decision. Defined.

Inductive IntOrString :=
| IntVal (n : Z)
| StrVal (s : string).
#[export] Instance IntOrString_eq_dec : EqDecision IntOrString.
Proof. solve_decision. Defined.

(** [HTTPGetAction] and [TCPSocketAction]: the port and the host. *)
Record PortAction := MkPortAction { pa_Port : IntOrString; pa_Host : string; pa_other : string }.
#[export] Instance PortAction_eq_dec : EqDecision PortAction.
Proof. solve_decision. Defined.

Record LifecycleHandler := MkLifecycleHandler {
  lh_HTTPGet : option PortAction;
  lh_TCPSocket : option PortAction;
  lh_other : string;
}.
#[export] Instance LifecycleHandler_eq_dec : EqDecision LifecycleHandler.
Proof. solve_decision. Defined.

Record Probe := MkProbe {
  pr_HTTPGet : option PortAction;
  pr_TCPSocket : option PortAction;
  pr_GRPC : option Z;
  pr_other : string;
}.
#[export] Instance Probe_eq_dec : EqDecision Probe.
Proof. solve_decision. Defined.

Record Lifecycle := MkLifecycle {
  lc_PostStart : option LifecycleHandler;
  lc_PreStop : option LifecycleHandler;
}.
#[export] Instance Lifecycle_eq_dec : EqDecision Lifecycle.
Proof. solve_decision. Defined.

Record EnvVarSource := MkEnvVarSource {
  es_ResourceFieldRef : option ResourceFieldSelector;
  es_ConfigMapKeyRef : option string;
  es_other : string;
}.
#[export] Instance EnvVarSource_eq_dec : EqDecision EnvVarSource.
Proof. solve_decision. Defined.

Record EnvVar := MkEnvVar {
  ev_Name : string;
  ev_Value : string;
  ev_ValueFrom : option EnvVarSource;
}.
#[export] Instance EnvVar_eq_dec : EqDecision EnvVar.
Proof. solve_decision. Defined.

Record EnvFromSource := MkEnvFromSource { ef_ConfigMapRef : option string; ef_other : string }.
#[export] Instance EnvFromSource_eq_dec : EqDecision EnvFromSource.
Proof. solve_decision. Defined.

Record SecurityContext := MkSecurityContext { sc_Privileged : option bool; sc_other : string }.
#[export] Instance SecurityContext_eq_dec : EqDecision SecurityContext.
Proof. solve_decision. Defined.

Record ResourceRequirements := MkResources { rr_Requests : ResourceList; rr_Limits : ResourceList }.
#[export] Instance ResourceRequirements_eq_dec : EqDecision ResourceRequirements.
Proof. solve_decision. Defined.

Record Container := MkContainer {
  c_Name : string;
  c_Image : string;
  c_ImagePullPolicy : string;
  c_Args : list string;
  c_Ports : list ContainerPort;
  c_Env : list EnvVar;
  c_EnvFrom : list EnvFromSource;
  c_VolumeMounts : list VolumeMount;
  c_VolumeDevices : list VolumeDevice;
  c_Resources : ResourceRequirements;
  c_SecurityContext : option SecurityContext;
  c_RestartPolicy : option string;
  c_StartupProbe : option Probe;
  c_ReadinessProbe : option Probe;
  c_LivenessProbe : option Probe;
  c_Lifecycle : option Lifecycle;
  c_other : string;
}.
#[export] Instance Container_eq_dec : EqDecision Container.
Proof. solve_decision. Defined.

(** ** Pods and workloads *)
Record Toleration := MkToleration { t_Operator : string; t_Effect : string; t_other : string }.
#[export] Instance Toleration_eq_dec : EqDecision Toleration.
Proof. solve_decision. Defined.

Record PodSpec := MkPodSpec {
  ps_Containers : list Container;
  ps_InitContainers : list Container;
  ps_Volumes : list Volume;
  ps_ImagePullSecrets : list string;
  ps_NodeName : string;
  ps_NodeSelector : gmap string string;
  ps_Tolerations : list Toleration;
  ps_HostIPC : bool;
  ps_HostNetwork : bool;
  ps_other : string;
}.
#[export] Instance PodSpec_eq_dec : EqDecision PodSpec.
Proof. solve_decision. Defined.

Record PodTemplateSpec := MkPodTemplateSpec {
  pt_Labels : gmap string string;
  pt_Annotations : gmap string string;
  pt_Spec : PodSpec;
  pt_other : string;
}.
#[export] Instance PodTemplateSpec_eq_dec : EqDecision PodTemplateSpec.
Proof. solve_decision. Defined.

Record LabelSelector := MkLabelSelector { ls_MatchLabels : gmap string string; ls_other : string }.
#[export] Instance LabelSelector_eq_dec : EqDecision LabelSelector.
Proof. solve_decision. Defined.

Record DeploymentStrategy := MkStrategy { st_Type : string; st_other : string }.
#[export] Instance DeploymentStrategy_eq_dec : EqDecision DeploymentStrategy.
Proof. solve_decision. Defined.

Record DeploymentSpec := MkDeploymentSpec {
  ds_Replicas : option Z;
  ds_Selector : option LabelSelector;
  ds_Strategy : DeploymentStrategy;
  ds_Template : PodTemplateSpec;
  ds_other : string;
}.
#[export] Instance DeploymentSpec_eq_dec : EqDecision DeploymentSpec.
Proof. solve_decision. Defined.

Record DeploymentStatus := MkDeploymentStatus {
  dst_ObservedGeneration : Z;
  dst_Replicas : Z;
  dst_UpdatedReplicas : Z;
  dst_other : string;
}.
#[export] Instance DeploymentStatus_eq_dec : EqDecision DeploymentStatus.
Proof. solve_decision. Defined.

Record Deployment := MkDeployment {
  d_Kind : string;
  d_APIVersion : string;
  d_Meta : ObjectMeta;
  d_Spec : DeploymentSpec;
  d_Status : DeploymentStatus;
}.
#[export] Instance Deployment_eq_dec : EqDecision Deployment.
Proof. solve_decision. Defined.

(** ** Field updates *)
Definition set_om_Name (x : string) (r : ObjectMeta) : ObjectMeta :=
  {| om_Name := x; om_Namespace := om_Namespace r; om_UID := om_UID r; om_ResourceVersion := om_ResourceVersion r; om_Generation := om_Generation r; om_CreationTimestamp := om_CreationTimestamp r; om_DeletionTimestamp := om_DeletionTimestamp r; om_Labels := om_Labels r; om_Annotations := om_Annotations r; om_OwnerReferences := om_OwnerReferences r; om_Finalizers := om_Finalizers r; om_other := om_other r |}.
Definition set_om_Namespace (x : string) (r : ObjectMeta) : ObjectMeta :=
  {| om_Name := om_Name r; om_Namespace := x; om_UID := om_UID r; om_ResourceVersion := om_ResourceVersion r; om_Generation := om_Generation r; om_CreationTimestamp := om_CreationTimestamp r; om_DeletionTimestamp := om_DeletionTimestamp r; om_Labels := om_Labels r; om_Annotations := om_Annotations r; om_OwnerReferences := om_OwnerReferences r; om_Finalizers := om_Finalizers r; om_other := om_other r |}.
Definition set_om_ResourceVersion (x : string) (r : ObjectMeta) : ObjectMeta :=
  {| om_Name := om_Name r; om_Namespace := om_Namespace r; om_UID := om_UID r; om_ResourceVersion := x; om_Generation := om_Generation r; om_CreationTimestamp := om_CreationTimestamp r; om_DeletionTimestamp := om_DeletionTimestamp r; om_Labels := om_Labels r; om_Annotations := om_Annotations r; om_OwnerReferences := om_OwnerReferences r; om_Finalizers := om_Finalizers r; om_other := om_other r |}.
Definition set_om_Labels (x : gmap string string) (r : ObjectMeta) : ObjectMeta :=
  {| om_Name := om_Name r; om_Namespace := om_Namespace r; om_UID := om_UID r; om_ResourceVersion := om_ResourceVersion r; om_Generation := om_Generation r; om_CreationTimestamp := om_CreationTimestamp r; om_DeletionTimestamp := om_DeletionTimestamp r; om_Labels := x; om_Annotations := om_Annotations r; om_OwnerReferences := om_OwnerReferences r; om_Finalizers := om_Finalizers r; om_other := om_other r |}.
Definition set_om_Annotations (x : gmap string string) (r : ObjectMeta) : ObjectMeta :=
  {| om_Name := om_Name r; om_Namespace := om_Namespace r; om_UID := om_UID r; om_ResourceVersion := om_ResourceVersion r; om_Generation := om_Generation r; om_CreationTimestamp := om_CreationTimestamp r; om_DeletionTimestamp := om_DeletionTimestamp r; om_Labels := om_Labels r; om_Annotations := x; om_OwnerReferences := om_OwnerReferences r; om_Finalizers := om_Finalizers r; om_other := om_other r |}.
Definition set_om_OwnerReferences (x : list OwnerReference) (r : ObjectMeta) : ObjectMeta :=
  {| om_Name := om_Name r; om_Namespace := om_Namespace r; om_UID := om_UID r; om_ResourceVersion := om_ResourceVersion r; om_Generation := om_Generation r; om_CreationTimestamp := om_CreationTimestamp r; om_DeletionTimestamp := om_DeletionTimestamp r; om_Labels := om_Labels r; om_Annotations := om_Annotations r; om_OwnerReferences := x; om_Finalizers := om_Finalizers r; om_other := om_other r |}.
Definition set_om_Finalizers (x : list string) (r : ObjectMeta) : ObjectMeta :=
  {| om_Name := om_Name r; om_Namespace := om_Namespace r; om_UID := om_UID r; om_ResourceVersion := om_ResourceVersion r; om_Generation := om_Generation r; om_CreationTimestamp := om_CreationTimestamp r; om_DeletionTimestamp := om_DeletionTimestamp r; om_Labels := om_Labels r; om_Annotations := om_Annotations r; om_OwnerReferences := om_OwnerReferences r; om_Finalizers := x; om_other := om_other r |}.
Definition set_om_DeletionTimestamp (x : option Z) (r : ObjectMeta) : ObjectMeta :=
  {| om_Name := om_Name r; om_Namespace := om_Namespace r; om_UID := om_UID r; om_ResourceVersion := om_ResourceVersion r; om_Generation := om_Generation r; om_CreationTimestamp := om_CreationTimestamp r; om_DeletionTimestamp := x; om_Labels := om_Labels r; om_Annotations := om_Annotations r; om_OwnerReferences := om_OwnerReferences r; om_Finalizers := om_Finalizers r; om_other := om_other r |}.
Definition set_rf_ContainerName (x : string) (r : ResourceFieldSelector) : ResourceFieldSelector :=
  {| rf_ContainerName := x; rf_other := rf_other r |}.
Definition set_da_ResourceFieldRef (x : option ResourceFieldSelector) (r : DownwardAPIVolumeFile) : DownwardAPIVolumeFile :=
  {| da_ResourceFieldRef := x; da_other := da_other r |}.
Definition set_vp_DownwardAPI (x : option (list DownwardAPIVolumeFile)) (r : VolumeProjection) : VolumeProjection :=
  {| vp_ConfigMap := vp_ConfigMap r; vp_DownwardAPI := x; vp_other := vp_other r |}.
Definition set_v_Name (x : string) (r : Volume) : Volume :=
  {| v_Name := x; v_HostPath := v_HostPath r; v_ConfigMap := v_ConfigMap r; v_Projected := v_Projected r; v_DownwardAPI := v_DownwardAPI r; v_other := v_other r |}.
Definition set_v_Projected (x : option (list VolumeProjection)) (r : Volume) : Volume :=
  {| v_Name := v_Name r; v_HostPath := v_HostPath r; v_ConfigMap := v_ConfigMap r; v_Projected := x; v_DownwardAPI := v_DownwardAPI r; v_other := v_other r |}.
Definition set_v_DownwardAPI (x : option (list DownwardAPIVolumeFile)) (r : Volume) : Volume :=
  {| v_Name := v_Name r; v_HostPath := v_HostPath r; v_ConfigMap := v_ConfigMap r; v_Projected := v_Projected r; v_DownwardAPI := x; v_other := v_other r |}.
Definition set_vm_Name (x : string) (r : VolumeMount) : VolumeMount :=
  {| vm_Name := x; vm_MountPath := vm_MountPath r; vm_ReadOnly := vm_ReadOnly r; vm_other := vm_other r |}.
Definition set_vd_Name (x : string) (r : VolumeDevice) : VolumeDevice :=
  {| vd_Name := x; vd_other := vd_other r |}.
Definition set_es_ResourceFieldRef (x : option ResourceFieldSelector) (r : EnvVarSource) : EnvVarSource :=
  {| es_ResourceFieldRef := x; es_ConfigMapKeyRef := es_ConfigMapKeyRef r; es_other := es_other r |}.
Definition set_ev_ValueFrom (x : option EnvVarSource) (r : EnvVar) : EnvVar :=
  {| ev_Name := ev_Name r; ev_Value := ev_Value r; ev_ValueFrom := x |}.
Definition set_c_Name (x : string) (r : Container) : Container :=
  {| c_Name := x; c_Image := c_Image r; c_ImagePullPolicy := c_ImagePullPolicy r; c_Args := c_Args r; c_Ports := c_Ports r; c_Env := c_Env r; c_EnvFrom := c_EnvFrom r; c_VolumeMounts := c_VolumeMounts r; c_VolumeDevices := c_VolumeDevices r; c_Resources := c_Resources r; c_SecurityContext := c_SecurityContext r; c_RestartPolicy := c_RestartPolicy r; c_StartupProbe := c_StartupProbe r; c_ReadinessProbe := c_ReadinessProbe r; c_LivenessProbe := c_LivenessProbe r; c_Lifecycle := c_Lifecycle r; c_other := c_other r |}.
Definition set_c_Image (x : string) (r : Container) : Container :=
  {| c_Name := c_Name r; c_Image := x; c_ImagePullPolicy := c_ImagePullPolicy r; c_Args := c_Args r; c_Ports := c_Ports r; c_Env := c_Env r; c_EnvFrom := c_EnvFrom r; c_VolumeMounts := c_VolumeMounts r; c_VolumeDevices := c_VolumeDevices r; c_Resources := c_Resources r; c_SecurityContext := c_SecurityContext r; c_RestartPolicy := c_RestartPolicy r; c_StartupProbe := c_StartupProbe r; c_ReadinessProbe := c_ReadinessProbe r; c_LivenessProbe := c_LivenessProbe r; c_Lifecycle := c_Lifecycle r; c_other := c_other r |}.
Definition set_c_Args (x : list string) (r : Container) : Container :=
  {| c_Name := c_Name r; c_Image := c_Image r; c_ImagePullPolicy := c_ImagePullPolicy r; c_Args := x; c_Ports := c_Ports r; c_Env := c_Env r; c_EnvFrom := c_EnvFrom r; c_VolumeMounts := c_VolumeMounts r; c_VolumeDevices := c_VolumeDevices r; c_Resources := c_Resources r; c_SecurityContext := c_SecurityContext r; c_RestartPolicy := c_RestartPolicy r; c_StartupProbe := c_StartupProbe r; c_ReadinessProbe := c_ReadinessProbe r; c_LivenessProbe := c_LivenessProbe r; c_Lifecycle := c_Lifecycle r; c_other := c_other r |}.
Definition set_c_Ports (x : list ContainerPort) (r : Container) : Container :=
  {| c_Name := c_Name r; c_Image := c_Image r; c_ImagePullPolicy := c_ImagePullPolicy r; c_Args := c_Args r; c_Ports := x; c_Env := c_Env r; c_EnvFrom := c_EnvFrom r; c_VolumeMounts := c_VolumeMounts r; c_VolumeDevices := c_VolumeDevices r; c_Resources := c_Resources r; c_SecurityContext := c_SecurityContext r; c_RestartPolicy := c_RestartPolicy r; c_StartupProbe := c_StartupProbe r; c_ReadinessProbe := c_ReadinessProbe r; c_LivenessProbe := c_LivenessProbe r; c_Lifecycle := c_Lifecycle r; c_other := c_other r |}.
Definition set_c_Env (x : list EnvVar) (r : Container) : Container :=
  {| c_Name := c_Name r; c_Image := c_Image r; c_ImagePullPolicy := c_ImagePullPolicy r; c_Args := c_Args r; c_Ports := c_Ports r; c_Env := x; c_EnvFrom := c_EnvFrom r; c_VolumeMounts := c_VolumeMounts r; c_VolumeDevices := c_VolumeDevices r; c_Resources := c_Resources r; c_SecurityContext := c_SecurityContext r; c_RestartPolicy := c_RestartPolicy r; c_StartupProbe := c_StartupProbe r; c_ReadinessProbe := c_ReadinessProbe r; c_LivenessProbe := c_LivenessProbe r; c_Lifecycle := c_Lifecycle r; c_other := c_other r |}.
Definition set_c_VolumeMounts (x : list VolumeMount) (r : Container) : Container :=
  {| c_Name := c_Name r; c_Image := c_Image r; c_ImagePullPolicy := c_ImagePullPolicy r; c_Args := c_Args r; c_Ports := c_Ports r; c_Env := c_Env r; c_EnvFrom := c_EnvFrom r; c_VolumeMounts := x; c_VolumeDevices := c_VolumeDevices r; c_Resources := c_Resources r; c_SecurityContext := c_SecurityContext r; c_RestartPolicy := c_RestartPolicy r; c_StartupProbe := c_StartupProbe r; c_ReadinessProbe := c_ReadinessProbe r; c_LivenessProbe := c_LivenessProbe r; c_Lifecycle := c_Lifecycle r; c_other := c_other r |}.
Definition set_c_VolumeDevices (x : list VolumeDevice) (r : Container) : Container :=
  {| c_Name := c_Name r; c_Image := c_Image r; c_ImagePullPolicy := c_ImagePullPolicy r; c_Args := c_Args r; c_Ports := c_Ports r; c_Env := c_Env r; c_EnvFrom := c_EnvFrom r; c_VolumeMounts := c_VolumeMounts r; c_VolumeDevices := x; c_Resources := c_Resources r; c_SecurityContext := c_SecurityContext r; c_RestartPolicy := c_RestartPolicy r; c_StartupProbe := c_StartupProbe r; c_ReadinessProbe := c_ReadinessProbe r; c_LivenessProbe := c_LivenessProbe r; c_Lifecycle := c_Lifecycle r; c_other := c_other r |}.
Definition set_c_Resources (x : ResourceRequirements) (r : Container) : Container :=
  {| c_Name := c_Name r; c_Image := c_Image r; c_ImagePullPolicy := c_ImagePullPolicy r; c_Args := c_Args r; c_Ports := c_Ports r; c_Env := c_Env r; c_EnvFrom := c_EnvFrom r; c_VolumeMounts := c_VolumeMounts r; c_VolumeDevices := c_VolumeDevices r; c_Resources := x; c_SecurityContext := c_SecurityContext r; c_RestartPolicy := c_RestartPolicy r; c_StartupProbe := c_StartupProbe r; c_ReadinessProbe := c_ReadinessProbe r; c_LivenessProbe := c_LivenessProbe r; c_Lifecycle := c_Lifecycle r; c_other := c_other r |}.
Definition set_c_SecurityContext (x : option SecurityContext) (r : Container) : Container :=
  {| c_Name := c_Name r; c_Image := c_Image r; c_ImagePullPolicy := c_ImagePullPolicy r; c_Args := c_Args r; c_Ports := c_Ports r; c_Env := c_Env r; c_EnvFrom := c_EnvFrom r; c_VolumeMounts := c_VolumeMounts r; c_VolumeDevices := c_VolumeDevices r; c_Resources := c_Resources r; c_SecurityContext := x; c_RestartPolicy := c_RestartPolicy r; c_StartupProbe := c_StartupProbe r; c_ReadinessProbe := c_ReadinessProbe r; c_LivenessProbe := c_LivenessProbe r; c_Lifecycle := c_Lifecycle r; c_other := c_other r |}.
Definition set_c_RestartPolicy (x : option string) (r : Container) : Container :=
  {| c_Name := c_Name r; c_Image := c_Image r; c_ImagePullPolicy := c_ImagePullPolicy r; c_Args := c_Args r; c_Ports := c_Ports r; c_Env := c_Env r; c_EnvFrom := c_EnvFrom r; c_VolumeMounts := c_VolumeMounts r; c_VolumeDevices := c_VolumeDevices r; c_Resources := c_Resources r; c_SecurityContext := c_SecurityContext r; c_RestartPolicy := x; c_StartupProbe := c_StartupProbe r; c_ReadinessProbe := c_ReadinessProbe r; c_LivenessProbe := c_LivenessProbe r; c_Lifecycle := c_Lifecycle r; c_other := c_other r |}.
Definition set_ps_Containers (x : list Container) (r : PodSpec) : PodSpec :=
  {| ps_Containers := x; ps_InitContainers := ps_InitContainers r; ps_Volumes := ps_Volumes r; ps_ImagePullSecrets := ps_ImagePullSecrets r; ps_NodeName := ps_NodeName r; ps_NodeSelector := ps_NodeSelector r; ps_Tolerations := ps_Tolerations r; ps_HostIPC := ps_HostIPC r; ps_HostNetwork := ps_HostNetwork r; ps_other := ps_other r |}.
Definition set_ps_InitContainers (x : list Container) (r : PodSpec) : PodSpec :=
  {| ps_Containers := ps_Containers r; ps_InitContainers := x; ps_Volumes := ps_Volumes r; ps_ImagePullSecrets := ps_ImagePullSecrets r; ps_NodeName := ps_NodeName r; ps_NodeSelector := ps_NodeSelector r; ps_Tolerations := ps_Tolerations r; ps_HostIPC := ps_HostIPC r; ps_HostNetwork := ps_HostNetwork r; ps_other := ps_other r |}.
Definition set_ps_Volumes (x : list Volume) (r : PodSpec) : PodSpec :=
  {| ps_Containers := ps_Containers r; ps_InitContainers := ps_InitContainers r; ps_Volumes := x; ps_ImagePullSecrets := ps_ImagePullSecrets r; ps_NodeName := ps_NodeName r; ps_NodeSelector := ps_NodeSelector r; ps_Tolerations := ps_Tolerations r; ps_HostIPC := ps_HostIPC r; ps_HostNetwork := ps_HostNetwork r; ps_other := ps_other r |}.
Definition set_ps_NodeName (x : string) (r : PodSpec) : PodSpec :=
  {| ps_Containers := ps_Containers r; ps_InitContainers := ps_InitContainers r; ps_Volumes := ps_Volumes r; ps_ImagePullSecrets := ps_ImagePullSecrets r; ps_NodeName := x; ps_NodeSelector := ps_NodeSelector r; ps_Tolerations := ps_Tolerations r; ps_HostIPC := ps_HostIPC r; ps_HostNetwork := ps_HostNetwork r; ps_other := ps_other r |}.
Definition set_ps_NodeSelector (x : gmap string string) (r : PodSpec) : PodSpec :=
  {| ps_Containers := ps_Containers r; ps_InitContainers := ps_InitContainers r; ps_Volumes := ps_Volumes r; ps_ImagePullSecrets := ps_ImagePullSecrets r; ps_NodeName := ps_NodeName r; ps_NodeSelector := x; ps_Tolerations := ps_Tolerations r; ps_HostIPC := ps_HostIPC r; ps_HostNetwork := ps_HostNetwork r; ps_other := ps_other r |}.
Definition set_ps_HostIPC (x : bool) (r : PodSpec) : PodSpec :=
  {| ps_Containers := ps_Containers r; ps_InitContainers := ps_InitContainers r; ps_Volumes := ps_Volumes r; ps_ImagePullSecrets := ps_ImagePullSecrets r; ps_NodeName := ps_NodeName r; ps_NodeSelector := ps_NodeSelector r; ps_Tolerations := ps_Tolerations r; ps_HostIPC := x; ps_HostNetwork := ps_HostNetwork r; ps_other := ps_other r |}.
Definition set_pt_Labels (x : gmap string string) (r : PodTemplateSpec) : PodTemplateSpec :=
  {| pt_Labels := x; pt_Annotations := pt_Annotations r; pt_Spec := pt_Spec r; pt_other := pt_other r |}.
Definition set_pt_Annotations (x : gmap string string) (r : PodTemplateSpec) : PodTemplateSpec :=
  {| pt_Labels := pt_Labels r; pt_Annotations := x; pt_Spec := pt_Spec r; pt_other := pt_other r |}.
Definition set_pt_Spec (x : PodSpec) (r : PodTemplateSpec) : PodTemplateSpec :=
  {| pt_Labels := pt_Labels r; pt_Annotations := pt_Annotations r; pt_Spec := x; pt_other := pt_other r |}.
Definition set_ls_MatchLabels (x : gmap string string) (r : LabelSelector) : LabelSelector :=
  {| ls_MatchLabels := x; ls_other := ls_other r |}.
Definition set_ds_Replicas (x : option Z) (r : DeploymentSpec) : DeploymentSpec :=
  {| ds_Replicas := x; ds_Selector := ds_Selector r; ds_Strategy := ds_Strategy r; ds_Template := ds_Template r; ds_other := ds_other r |}.
Definition set_ds_Selector (x : option LabelSelector) (r : DeploymentSpec) : DeploymentSpec :=
  {| ds_Replicas := ds_Replicas r; ds_Selector := x; ds_Strategy := ds_Strategy r; ds_Template := ds_Template r; ds_other := ds_other r |}.
Definition set_ds_Strategy (x : DeploymentStrategy) (r : DeploymentSpec) : DeploymentSpec :=
  {| ds_Replicas := ds_Replicas r; ds_Selector := ds_Selector r; ds_Strategy := x; ds_Template := ds_Template r; ds_other := ds_other r |}.
Definition set_ds_Template (x : PodTemplateSpec) (r : DeploymentSpec) : DeploymentSpec :=
  {| ds_Replicas := ds_Replicas r; ds_Selector := ds_Selector r; ds_Strategy := ds_Strategy r; ds_Template := x; ds_other := ds_other r |}.
Definition set_d_Meta (x : ObjectMeta) (r : Deployment) : Deployment :=
  {| d_Kind := d_Kind r; d_APIVersion := d_APIVersion r; d_Meta := x; d_Spec := d_Spec r; d_Status := d_Status r |}.
Definition set_d_Spec (x : DeploymentSpec) (r : Deployment) : Deployment :=
  {| d_Kind := d_Kind r; d_APIVersion := d_APIVersion r; d_Meta := d_Meta r; d_Spec := x; d_Status := d_Status r |}.
Definition set_d_Status (x : DeploymentStatus) (r : Deployment) : Deployment :=
  {| d_Kind := d_Kind r; d_APIVersion := d_APIVersion r; d_Meta := d_Meta r; d_Spec := d_Spec r; d_Status := x |}.

Definition d_Name (d : Deployment) : string := om_Name (d_Meta d).
Definition d_Namespace (d : Deployment) : string := om_Namespace (d_Meta d).
Definition d_Labels (d : Deployment) : gmap string string := om_Labels (d_Meta d).
Definition d_Template (d : Deployment) : PodTemplateSpec := ds_Template (d_Spec d).
Definition d_Pod (d : Deployment) : PodSpec := pt_Spec (d_Template d).

Definition upd_meta (f : ObjectMeta → ObjectMeta) (d : Deployment) : Deployment :=
  set_d_Meta (f (d_Meta d)) d.
Definition upd_spec (f : DeploymentSpec → DeploymentSpec) (d : Deployment) : Deployment :=
  set_d_Spec (f (d_Spec d)) d.
Definition upd_template (f : PodTemplateSpec → PodTemplateSpec) : Deployment → Deployment :=
  upd_spec (λ s, set_ds_Template (f (ds_Template s)) s).
Definition upd_pod (f : PodSpec → PodSpec) : Deployment → Deployment :=
  upd_template (λ t, set_pt_Spec (f (pt_Spec t)) t).

(** The containers of a Pod in the order every check of the operator visits
    them: application containers, then init containers. *)
Definition pod_containers (p : PodSpec) : list Container := ps_Containers p ++ ps_InitContainers p.
