(* ===== verification/Metrics.v ===== *)
(** * Metrics (internal/controller/metrics.go)

    The collectors of the operator and the operations the controllers ask of
    them.  The collectors themselves belong to the Prometheus client; here are
    their declarations and what is recorded with which label values. *)

From S2P Require Import Prelude GoLib.
#[local] Open Scope Z_scope.

Inductive metric :=
| yanetReconcileTotal
| yanetReconcileDuration
| yanetDeploymentsOutOfSync
| yanetOrphansPruned
| yanetDeploymentsCreatedTotal
| yanetDeploymentsUpdatedTotal
| yanetUpdateThrottledTotal.
#[export] Instance metric_eq_dec : EqDecision metric.
Proof. solve_decision. Defined.

Inductive metric_type := CounterVec | HistogramVec | GaugeVec.
#[export] Instance metric_type_eq_dec : EqDecision metric_type.
Proof. solve_decision. Defined.

(** The arguments of [prometheus.New...Vec]: the exported name and the label
    names; the constructor says the type. *)
Record metric_desc := MkDesc { md_Type : metric_type; md_Name : string; md_Labels : list string }.

Definition describe (m : metric) : metric_desc :=
  match m with
  | yanetReconcileTotal => MkDesc CounterVec "yanet_reconcile_total" ["name"; "namespace"; "result"]
  | yanetReconcileDuration => MkDesc HistogramVec "yanet_reconcile_duration_seconds" ["name"; "namespace"]
  | yanetDeploymentsOutOfSync => MkDesc GaugeVec "yanet_deployments_out_of_sync" ["name"; "namespace"]
  | yanetOrphansPruned => MkDesc CounterVec "yanet_orphans_pruned_total" ["name"; "namespace"]
  | yanetDeploymentsCreatedTotal => MkDesc CounterVec "yanet_deployments_created_total" ["deployment"; "namespace"]
  | yanetDeploymentsUpdatedTotal => MkDesc CounterVec "yanet_deployments_updated_total" ["deployment"; "namespace"]
  | yanetUpdateThrottledTotal => MkDesc CounterVec "yanet_update_throttled_total" ["deployment"; "namespace"]
  end.

(** The collectors [init] registers, in order. *)
Definition registered : list metric :=
  [yanetReconcileTotal; yanetReconcileDuration; yanetDeploymentsOutOfSync; yanetOrphansPruned;
   yanetDeploymentsCreatedTotal; yanetDeploymentsUpdatedTotal; yanetUpdateThrottledTotal].

(** [m.WithLabelValues(labelValues...)] followed by [Add], [Set] or [Observe].
    Counts are integers and durations nanoseconds, before their conversion to
    [float64]. *)
Inductive observation :=
| Add (m : metric) (labelValues : list string) (n : Z)
| SetTo (m : metric) (labelValues : list string) (n : Z)
| ObserveValue (m : metric) (labelValues : list string) (n : Z).

Definition Inc (m : metric) (labelValues : list string) : observation := Add m labelValues 1.

(** What the client library panics on: a number of label values that is not the
    number of labels, an operation the collector does not have, a counter that is
    asked to decrease. *)
Definition observation_panics (o : observation) : bool :=
  let mismatched m labelValues type :=
    bool_decide (length labelValues ≠ length (md_Labels (describe m))) || bool_decide (md_Type (describe m) ≠ type) in
  match o with
  | Add m labelValues n => mismatched m labelValues CounterVec || bool_decide (n < 0)
  | SetTo m labelValues _ => mismatched m labelValues GaugeVec
  | ObserveValue m labelValues _ => mismatched m labelValues HistogramVec
  end.
