(* ===== verification/Api.v ===== *)
(** * The v1alpha1 API: types and the checks shared by admission and rendering

    api/v1alpha1: yanet_types.go, yanetconfig_types.go, config_source.go,
    network_attachments.go and operator_validation.go.  A Go pointer is an
    [option]; a slice is an [option (list _)] exactly where the source
    distinguishes nil from empty; sized integers are [Z]. *)

From S2P Require Import Prelude GoLib K8s.
From Stdlib Require Import Ascii.
#[local] Open Scope Z_scope.

(** ** Palette types *)
Record ImageRef := MkImageRef {
  ir_Registry : option string;
  ir_Prefix : option string;
  ir_Name : string;
  ir_Tag : string;
}.

Record ConfigSource := MkConfigSource {
  cs_Inline : string;
  cs_HostPath : string;
  cs_MountPath : string;
  cs_Args : list string;
}.

Record Hugepages := MkHugepages { hg_Size : string; hg_Count : Z }.

Record NetworkAttachment := MkNetworkAttachment {
  na_Name : string;
  na_Namespace : string;
  na_Interface : string;
  na_ResourceName : string;
}.
#[export] Instance NetworkAttachment_eq_dec : EqDecision NetworkAttachment.
Proof. solve_decision. Defined.

Record SidecarSpec := MkSidecarSpec {
  sd_Name : string;
  sd_Image : ImageRef;
  sd_Config : option ConfigSource;
  sd_Listeners : option (list string);
}.

Record ControlplaneSpec := MkControlplaneSpec {
  cpl_Image : ImageRef;
  cpl_Config : option ConfigSource;
  cpl_Numa : option Z;
  cpl_DisabledNuma : list Z;
}.

Record DataplaneSpec := MkDataplaneSpec {
  dpl_Image : ImageRef;
  dpl_Config : option ConfigSource;
  dpl_Hugepages : option Hugepages;
  dpl_Networks : option (list NetworkAttachment);
  dpl_Sidecars : list SidecarSpec;
}.

Record BirdAdapterComp := MkBirdAdapterComp {
  ba_Image : ImageRef;
  ba_Config : option ConfigSource;
}.

Record OperatorContainer := MkOperatorContainer {
  oc_Name : string;
  oc_Image : ImageRef;
  oc_Config : option ConfigSource;
}.

Record OperatorSpec := MkOperatorSpec {
  op_Name : string;
  op_Containers : list OperatorContainer;
  op_Listeners : option (list string);
}.

Record ComponentsSpec := MkComponentsSpec {
  cmp_Controlplane : ControlplaneSpec;
  cmp_Dataplane : DataplaneSpec;
  cmp_BirdAdapter : option BirdAdapterComp;
  cmp_Operators : list OperatorSpec;
}.

Record ImagesSpec := MkImagesSpec {
  im_Registry : string;
  im_Prefix : string;
  im_Tag : string;
  im_PullPolicy : string;
  im_PullSecrets : list string;
}.

Record NamedPatch := MkNamedPatch { np_Name : string; np_Patch : RawExtension }.

Record BoxComponent := MkBoxComponent { bc_Patches : list string }.
Record BoxDataplaneSidecar := MkBoxDataplaneSidecar {
  bs_Enabled : option bool;
  bs_Patches : list string;
}.
Record BoxDataplane := MkBoxDataplane {
  bd_Patches : list string;
  bd_Sidecars : gmap string BoxDataplaneSidecar;
}.
Record BoxOperator := MkBoxOperator { bo_Patches : list string }.
Record BoxComponents := MkBoxComponents {
  bcs_Controlplane : option BoxComponent;
  bcs_Dataplane : option BoxDataplane;
  bcs_BirdAdapter : option BoxComponent;
}.
Record BoxType := MkBoxType {
  bt_Name : string;
  bt_Components : BoxComponents;
  bt_Operators : gmap string BoxOperator;
}.

Record YanetConfigSpec := MkYanetConfigSpec {
  yc_Stop : bool;
  yc_UpdateWindow : Z;
  yc_Images : ImagesSpec;
  yc_Components : ComponentsSpec;
  yc_Patches : list NamedPatch;
  yc_BoxTypes : list BoxType;
}.

(** ** Installation types *)
Record YanetContainerOverride := MkContainerOverride {
  co_Enabled : option bool;
  co_Name : string;
  co_Tag : string;
}.

Record YanetComponentOverride := MkComponentOverride {
  cov_Enabled : option bool;
  cov_Containers : gmap string YanetContainerOverride;
}.

Record YanetControlplaneOverride := MkControlplaneOverride {
  cpo_Component : YanetComponentOverride;
  cpo_DisabledNuma : option (list Z);
}.

Record YanetDataplaneOverride := MkDataplaneOverride {
  dpo_Component : YanetComponentOverride;
  dpo_Hugepages : option Hugepages;
  dpo_Networks : option (list NetworkAttachment);
  dpo_Sidecars : gmap string YanetContainerOverride;
}.

Record YanetComponentsOverride := MkComponentsOverride {
  yo_Controlplane : option YanetControlplaneOverride;
  yo_Dataplane : option YanetDataplaneOverride;
  yo_BirdAdapter : option YanetComponentOverride;
  yo_Operators : gmap string YanetComponentOverride;
}.

Record YanetSpec := MkYanetSpec {
  ys_BoxType : string;
  ys_NodeSelector : gmap string string;
  ys_Enabled : option bool;
  ys_AutoSync : option bool;
  ys_Components : option YanetComponentsOverride;
}.

(** [&YanetSpec{BoxType: name}]. *)
Definition bare_spec (boxType : string) : YanetSpec := MkYanetSpec boxType ∅ None None None.

(** ** Configuration sources *)

(** [ConfigSource.IsZero], a method on a possibly nil pointer. *)
Definition ConfigSource_IsZero (c : option ConfigSource) : bool :=
  match c with
  | None => true
  | Some c => bool_decide (cs_Inline c = "") && bool_decide (cs_HostPath c = "")
  end.

Definition VariantsSet (c : option ConfigSource) : Z :=
  match c with
  | None => 0
  | Some c =>
      let n := 0 in
      let n := if bool_decide (cs_Inline c ≠ "") then n + 1 else n in
      if bool_decide (cs_HostPath c ≠ "") then n + 1 else n
  end.

(** ** Numeric limits *)
Definition RuntimeGRPCPort : Z := 8080.
Definition RuntimeHTTPPort : Z := 8081.
Definition MaxDataplaneSidecars : Z := go_div (65535 - RuntimeHTTPPort) 2 + 1.
Definition MaxControlplaneNuma : Z := 4.

Definition ValidateControlplaneNuma (count : Z) : result unit :=
  err_if (bool_decide (count < 1) || bool_decide (count > MaxControlplaneNuma))
    (Errorf "spec.components.controlplane.numa must be between 1 and %d, got %d"
       [AInt MaxControlplaneNuma; AInt count]).

(** ** Hugepages *)
Definition TotalQuantity `{QuantityLib} (h : Hugepages) : result Quantity :=
  pageQty ← wrap_err (λ e, Errorf "size %q is not a valid Kubernetes quantity: %w" [AStr (hg_Size h); AErr e])
              (ParseQuantity (hg_Size h));
  err_if (bool_decide (QSign pageQty ≤ 0))
    (Errorf "size must be greater than zero, got %q" [AStr (hg_Size h)]);;
  err_if (bool_decide (hg_Count h ≤ 0))
    (Errorf "count must be greater than zero, got %d" [AInt (hg_Count h)]);;
  let pageBytes := QValue pageQty in
  err_if (bool_decide (pageBytes ≤ 0) || bool_decide (QCmp (NewQuantity pageBytes) pageQty ≠ Eq))
    (Errorf "size %q must be a whole number of bytes that fits in int64" [AStr (hg_Size h)]);;
  err_if (bool_decide (pageBytes > go_div MaxInt64 (hg_Count h)))
    (Errorf "size %q multiplied by count %d overflows int64" [AStr (hg_Size h); AInt (hg_Count h)]);;
  Ok (NewQuantity (wrap_int64 (pageBytes * hg_Count h))).

(** ** Network attachments *)

(** [^[a-zA-Z0-9_.-]+$]. *)
Definition interface_char (a : ascii) : bool :=
  let n := Z.of_N (N_of_ascii a) in
  ((97 <=? n) && (n <=? 122)) || ((65 <=? n) && (n <=? 90)) || ((48 <=? n) && (n <=? 57))
  || (n =? 95) || (n =? 46) || (n =? 45).
Definition networkInterfaceName (s : string) : bool :=
  bool_decide (s ≠ "") && forallb interface_char (String.list_ascii_of_string s).

Definition validate_attachment `{K8sValidation}
    (st : gset string * gmap string string) (item : nat * NetworkAttachment)
    : result (gset string * gmap string string) :=
  let '(interfaces, nadResources) := st in
  let '(index, network) := item in
  let field := AInt (Z.of_nat index) in
  err_if (bool_decide (IsDNS1123Subdomain (na_Name network) ≠ []))
    (Errorf "networks[%d].name is invalid: %s" [field; AStrs (IsDNS1123Subdomain (na_Name network))]);;
  err_if (bool_decide (na_Namespace network ≠ "") && bool_decide (IsDNS1123Label (na_Namespace network) ≠ []))
    (Errorf "networks[%d].namespace is invalid: %s" [field; AStrs (IsDNS1123Label (na_Namespace network))]);;
  err_if ((15 <? slen (na_Interface network))%nat || negb (networkInterfaceName (na_Interface network))
          || bool_decide (na_Interface network = ".") || bool_decide (na_Interface network = "..")
          || bool_decide (na_Interface network = "lo") || bool_decide (na_Interface network = "eth0"))
    (Errorf "networks[%d].interface must be a non-reserved interface name of 1-15 characters" [field]);;
  err_if (bool_decide (na_Interface network ∈ interfaces))
    (Errorf "networks[%d].interface %q is duplicated" [field; AStr (na_Interface network)]);;
  let interfaces := {[na_Interface network]} ∪ interfaces in
  let '(prefix, _, qualified) := Cut (na_ResourceName network) "/" in
  err_if (bool_decide (IsQualifiedName (na_ResourceName network) ≠ []) || negb qualified
          || bool_decide (prefix = "kubernetes.io") || HasSuffix prefix ".kubernetes.io"
          || HasPrefix (na_ResourceName network) "requests.")
    (Errorf "networks[%d].resourceName must be a qualified extended resource name" [field]);;
  let identity := na_Namespace network +:+ "/" +:+ na_Name network in
  err_if (match nadResources !! identity with
          | Some resource => bool_decide (resource ≠ na_ResourceName network)
          | None => false
          end)
    (Errorf "networks[%d].resourceName conflicts with another attachment of NAD %q" [field; AStr identity]);;
  Ok (interfaces, <[identity := na_ResourceName network]> nadResources).

Definition ValidateNetworkAttachments `{K8sValidation} (networks : list NetworkAttachment) : result unit :=
  foldM validate_attachment (∅, ∅) (enumerate networks);;
  Ok tt.

(** ** Listeners *)
Definition ValidateListeners (name : string) (listeners : option (list string)) : result unit :=
  match listeners with
  | None => Ok tt
  | Some listeners =>
      foldM (λ (seen : gset string) listener,
        err_if ((bool_decide (listener ≠ "grpc") && bool_decide (listener ≠ "http"))
                || bool_decide (listener ∈ seen))
          (Errorf "role %q has unsupported or duplicate listener %q" [AStr name; AStr listener]);;
        Ok ({[listener]} ∪ seen)) ∅ listeners;;
      Ok tt
  end.

Definition ValidateOperatorListeners (operator : OperatorSpec) : result unit :=
  ValidateListeners (op_Name operator) (op_Listeners operator).

(** ** Sidecar patches *)

(** [json.Unmarshal] into a [map[string]json.RawMessage]: null gives a nil map. *)
Definition decode_object (j : json) : result (gmap string json) :=
  match j with
  | JNull => Ok ∅
  | JObject l => Ok (json_fields l)
  | _ => Err (Errorf "json: cannot unmarshal into Go value of type map" [])
  end.

Definition decode_raw_object (raw : RawExtension) : result (gmap string json) :=
  match raw with
  | RawEmpty => Err (Errorf "unexpected end of JSON input" [])
  | RawInvalid => Err (Errorf "invalid character" [])
  | RawJSON j => decode_object j
  end.

Definition sidecar_patch_keys : list string :=
  ["containers"; "initContainers"; "volumes"; "$setElementOrder/containers";
   "$setElementOrder/initContainers"; "$setElementOrder/volumes"].

(** [json.Unmarshal] into a [[]map[string]json.RawMessage]. *)
Definition decode_items (value : json) : result (list (gmap string json)) :=
  match value with
  | JNull => Ok []
  | JArray items => mapR decode_object items
  | _ => Err (Errorf "json: cannot unmarshal into Go value of type []map" [])
  end.

(** The [name] of an item when it decodes to a non-empty string. *)
Definition item_name (item : gmap string json) : option string :=
  match item !! "name" with
  | Some (JString name) => if bool_decide (name = "") then None else Some name
  | _ => None
  end.

Definition validate_patch_item (key : string) (seen : gset string) (item : gmap string json)
    : result (gset string) :=
  match item_name item with
  | Some name =>
      err_if (bool_decide (name ∈ seen)) (Errorf "%s requires unique nonempty names" [AStr key]);;
      Ok ({[name]} ∪ seen)
  | None => Err (Errorf "%s requires unique nonempty names" [AStr key])
  end.

Definition validate_patch_items (key : string) (value : json) : result unit :=
  items ← wrap_err (λ e, Errorf "invalid %s: %w" [AStr key; AErr e]) (decode_items value);
  foldM (validate_patch_item key) ∅ items;;
  Ok tt.

(** The descent through [spec.template.spec]; [None] is the early success of an
    empty object. *)
Fixpoint sidecar_patch_descend (levels : list string) (object : gmap string json)
    : result (option (gmap string json)) :=
  match levels with
  | [] => Ok (Some object)
  | level :: levels =>
      if bool_decide (object = ∅) then Ok None
      else
        let bad := Errorf "sidecar patches support only spec.template.spec containers, initContainers and volumes" [] in
        match object !! level with
        | None => Err bad
        | Some child =>
            if bool_decide (size object ≠ 1%nat) || match child with JNull => true | _ => false end
            then Err bad
            else object ← decode_object child; sidecar_patch_descend levels object
        end
  end.

Definition ValidateSidecarPatch `{MapOrder} (raw : RawExtension) : result unit :=
  object ← decode_raw_object raw;
  pod ← sidecar_patch_descend ["spec"; "template"; "spec"] object;
  match pod with
  | None => Ok tt
  | Some object =>
      check_all (λ '(key, value),
        if bool_decide (key ∈ sidecar_patch_keys) then validate_patch_items key value
        else Err (Errorf "sidecar patch cannot set pod field %q" [AStr key])) (map_range object)
  end.

(** ** Private networking *)
Definition ValidatePrivatePodNetwork (pod : PodSpec) : result unit :=
  err_if (ps_HostNetwork pod)
    (Errorf "a private network namespace is required; hostNetwork is unsupported" []);;
  check_all (λ container,
    check_all (λ port,
      err_if (bool_decide (cp_HostPort port ≠ 0))
        (Errorf "container %q must not declare hostPort %d" [AStr (c_Name container); AInt (cp_HostPort port)]))
      (c_Ports container)) (pod_containers pod).

(** The contract of private networking: what [ValidatePrivatePodNetwork]
    accepts. *)
Definition private_pod (pod : PodSpec) : Prop :=
  ps_HostNetwork pod = false ∧
  ∀ c p, c ∈ pod_containers pod → p ∈ c_Ports c → cp_HostPort p = 0.

Lemma ValidatePrivatePodNetwork_spec pod :
  ValidatePrivatePodNetwork pod = Ok tt ↔ private_pod pod.
Proof.
  unfold ValidatePrivatePodNetwork, private_pod. rewrite bind_Ok. split.
  - intros (u & Hu & H). apply err_if_Ok in Hu. split; [done|].
    rewrite check_all_Ok, Forall_forall in H. intros c p Hc Hp.
    specialize (H c Hc). rewrite check_all_Ok, Forall_forall in H.
    specialize (H p Hp). apply err_if_Ok, bool_decide_eq_false_1 in H. lia.
  - intros [Hn H]. exists tt. split; [by apply err_if_Ok|].
    apply check_all_Ok, Forall_forall. intros c Hc.
    apply check_all_Ok, Forall_forall. intros p Hp.
    apply err_if_Ok, bool_decide_eq_false_2. rewrite (H c p) by done. auto.
Qed.
