(* ===== verification/Resolve.v ===== *)
(** * Resolution of a box type (internal/helpers)

    resolve.go and ptr.go: the palette, the box wiring and the typed overrides
    of one installation are combined into the immutable rendering input of each
    workload and sidecar. *)

From S2P Require Import Prelude GoLib Sha256 K8s Api.
#[local] Open Scope Z_scope.

(** ** Identities *)

(** [hex.EncodeToString(sha256.Sum256(nodeName)[:4])]. *)
Definition ShortNodeKey (nodeName : string) : string :=
  hex_encode (take 4 (Sha256.sum256 (byte_list nodeName))).

Inductive ComponentKind :=
| KindControlplane
| KindDataplane
| KindBirdAdapter
| KindOperator
| KindSidecar
| KindUnknown (name : string).
#[export] Instance ComponentKind_eq_dec : EqDecision ComponentKind.
Proof. solve_decision. Defined.

Definition kind_string (k : ComponentKind) : string :=
  match k with
  | KindControlplane => "controlplane"
  | KindDataplane => "dataplane"
  | KindBirdAdapter => "birdAdapter"
  | KindOperator => "operator"
  | KindSidecar => "sidecar"
  | KindUnknown s => s
  end.

(** ** Pointers *)
Definition BoolValue (p : option bool) (def : bool) : bool :=
  match p with None => def | Some b => b end.
Definition Int32Value (p : option Z) (def : Z) : Z :=
  match p with None => def | Some i => i end.

(** ** Resolved rendering inputs *)
Record ResolvedImage := MkResolvedImage {
  ri_Registry : string;
  ri_Prefix : string;
  ri_Name : string;
  ri_Tag : string;
}.
#[export] Instance ResolvedImage_eq_dec : EqDecision ResolvedImage.
Proof. solve_decision. Defined.

Record ResolvedContainer := MkResolvedContainer {
  rk_Name : string;
  rk_Image : ResolvedImage;
  rk_Config : option ConfigSource;
}.

Inductive ResolvedComponent := MkResolvedComponent {
  rc_Kind : ComponentKind;
  rc_Name : string;
  rc_Enabled : bool;
  rc_Image : ResolvedImage;
  rc_Config : option ConfigSource;
  rc_Hugepages : option Hugepages;
  rc_Numa : Z;
  rc_DisabledNuma : list Z;
  rc_Networks : option (list NetworkAttachment);
  rc_NetworkResources : list string;
  rc_Containers : list ResolvedContainer;
  rc_Sidecars : list ResolvedComponent;
  rc_ListenerNames : option (list string);
  rc_PortIndex : Z;
  rc_Patches : list string;
  rc_Overrides : option YanetComponentOverride;
  rc_SidecarOverride : option YanetContainerOverride;
}.

Definition zero_image : ResolvedImage := MkResolvedImage "" "" "" "".

(** The zero value of the struct: the fields a literal omits. *)
Definition zero_component : ResolvedComponent :=
  MkResolvedComponent (KindUnknown "") "" false zero_image None None 0 [] None [] [] [] None 0 [] None None.

Definition set_rc_Kind (x : ComponentKind) (r : ResolvedComponent) : ResolvedComponent :=
  {| rc_Kind := x; rc_Name := rc_Name r; rc_Enabled := rc_Enabled r; rc_Image := rc_Image r; rc_Config := rc_Config r; rc_Hugepages := rc_Hugepages r; rc_Numa := rc_Numa r; rc_DisabledNuma := rc_DisabledNuma r; rc_Networks := rc_Networks r; rc_NetworkResources := rc_NetworkResources r; rc_Containers := rc_Containers r; rc_Sidecars := rc_Sidecars r; rc_ListenerNames := rc_ListenerNames r; rc_PortIndex := rc_PortIndex r; rc_Patches := rc_Patches r; rc_Overrides := rc_Overrides r; rc_SidecarOverride := rc_SidecarOverride r |}.
Definition set_rc_Name (x : string) (r : ResolvedComponent) : ResolvedComponent :=
  {| rc_Kind := rc_Kind r; rc_Name := x; rc_Enabled := rc_Enabled r; rc_Image := rc_Image r; rc_Config := rc_Config r; rc_Hugepages := rc_Hugepages r; rc_Numa := rc_Numa r; rc_DisabledNuma := rc_DisabledNuma r; rc_Networks := rc_Networks r; rc_NetworkResources := rc_NetworkResources r; rc_Containers := rc_Containers r; rc_Sidecars := rc_Sidecars r; rc_ListenerNames := rc_ListenerNames r; rc_PortIndex := rc_PortIndex r; rc_Patches := rc_Patches r; rc_Overrides := rc_Overrides r; rc_SidecarOverride := rc_SidecarOverride r |}.
Definition set_rc_Enabled (x : bool) (r : ResolvedComponent) : ResolvedComponent :=
  {| rc_Kind := rc_Kind r; rc_Name := rc_Name r; rc_Enabled := x; rc_Image := rc_Image r; rc_Config := rc_Config r; rc_Hugepages := rc_Hugepages r; rc_Numa := rc_Numa r; rc_DisabledNuma := rc_DisabledNuma r; rc_Networks := rc_Networks r; rc_NetworkResources := rc_NetworkResources r; rc_Containers := rc_Containers r; rc_Sidecars := rc_Sidecars r; rc_ListenerNames := rc_ListenerNames r; rc_PortIndex := rc_PortIndex r; rc_Patches := rc_Patches r; rc_Overrides := rc_Overrides r; rc_SidecarOverride := rc_SidecarOverride r |}.
Definition set_rc_Image (x : ResolvedImage) (r : ResolvedComponent) : ResolvedComponent :=
  {| rc_Kind := rc_Kind r; rc_Name := rc_Name r; rc_Enabled := rc_Enabled r; rc_Image := x; rc_Config := rc_Config r; rc_Hugepages := rc_Hugepages r; rc_Numa := rc_Numa r; rc_DisabledNuma := rc_DisabledNuma r; rc_Networks := rc_Networks r; rc_NetworkResources := rc_NetworkResources r; rc_Containers := rc_Containers r; rc_Sidecars := rc_Sidecars r; rc_ListenerNames := rc_ListenerNames r; rc_PortIndex := rc_PortIndex r; rc_Patches := rc_Patches r; rc_Overrides := rc_Overrides r; rc_SidecarOverride := rc_SidecarOverride r |}.
Definition set_rc_Config (x : option ConfigSource) (r : ResolvedComponent) : ResolvedComponent :=
  {| rc_Kind := rc_Kind r; rc_Name := rc_Name r; rc_Enabled := rc_Enabled r; rc_Image := rc_Image r; rc_Config := x; rc_Hugepages := rc_Hugepages r; rc_Numa := rc_Numa r; rc_DisabledNuma := rc_DisabledNuma r; rc_Networks := rc_Networks r; rc_NetworkResources := rc_NetworkResources r; rc_Containers := rc_Containers r; rc_Sidecars := rc_Sidecars r; rc_ListenerNames := rc_ListenerNames r; rc_PortIndex := rc_PortIndex r; rc_Patches := rc_Patches r; rc_Overrides := rc_Overrides r; rc_SidecarOverride := rc_SidecarOverride r |}.
Definition set_rc_Hugepages (x : option Hugepages) (r : ResolvedComponent) : ResolvedComponent :=
  {| rc_Kind := rc_Kind r; rc_Name := rc_Name r; rc_Enabled := rc_Enabled r; rc_Image := rc_Image r; rc_Config := rc_Config r; rc_Hugepages := x; rc_Numa := rc_Numa r; rc_DisabledNuma := rc_DisabledNuma r; rc_Networks := rc_Networks r; rc_NetworkResources := rc_NetworkResources r; rc_Containers := rc_Containers r; rc_Sidecars := rc_Sidecars r; rc_ListenerNames := rc_ListenerNames r; rc_PortIndex := rc_PortIndex r; rc_Patches := rc_Patches r; rc_Overrides := rc_Overrides r; rc_SidecarOverride := rc_SidecarOverride r |}.
Definition set_rc_Numa (x : Z) (r : ResolvedComponent) : ResolvedComponent :=
  {| rc_Kind := rc_Kind r; rc_Name := rc_Name r; rc_Enabled := rc_Enabled r; rc_Image := rc_Image r; rc_Config := rc_Config r; rc_Hugepages := rc_Hugepages r; rc_Numa := x; rc_DisabledNuma := rc_DisabledNuma r; rc_Networks := rc_Networks r; rc_NetworkResources := rc_NetworkResources r; rc_Containers := rc_Containers r; rc_Sidecars := rc_Sidecars r; rc_ListenerNames := rc_ListenerNames r; rc_PortIndex := rc_PortIndex r; rc_Patches := rc_Patches r; rc_Overrides := rc_Overrides r; rc_SidecarOverride := rc_SidecarOverride r |}.
Definition set_rc_DisabledNuma (x : list Z) (r : ResolvedComponent) : ResolvedComponent :=
  {| rc_Kind := rc_Kind r; rc_Name := rc_Name r; rc_Enabled := rc_Enabled r; rc_Image := rc_Image r; rc_Config := rc_Config r; rc_Hugepages := rc_Hugepages r; rc_Numa := rc_Numa r; rc_DisabledNuma := x; rc_Networks := rc_Networks r; rc_NetworkResources := rc_NetworkResources r; rc_Containers := rc_Containers r; rc_Sidecars := rc_Sidecars r; rc_ListenerNames := rc_ListenerNames r; rc_PortIndex := rc_PortIndex r; rc_Patches := rc_Patches r; rc_Overrides := rc_Overrides r; rc_SidecarOverride := rc_SidecarOverride r |}.
Definition set_rc_Networks (x : option (list NetworkAttachment)) (r : ResolvedComponent) : ResolvedComponent :=
  {| rc_Kind := rc_Kind r; rc_Name := rc_Name r; rc_Enabled := rc_Enabled r; rc_Image := rc_Image r; rc_Config := rc_Config r; rc_Hugepages := rc_Hugepages r; rc_Numa := rc_Numa r; rc_DisabledNuma := rc_DisabledNuma r; rc_Networks := x; rc_NetworkResources := rc_NetworkResources r; rc_Containers := rc_Containers r; rc_Sidecars := rc_Sidecars r; rc_ListenerNames := rc_ListenerNames r; rc_PortIndex := rc_PortIndex r; rc_Patches := rc_Patches r; rc_Overrides := rc_Overrides r; rc_SidecarOverride := rc_SidecarOverride r |}.
Definition set_rc_NetworkResources (x : list string) (r : ResolvedComponent) : ResolvedComponent :=
  {| rc_Kind := rc_Kind r; rc_Name := rc_Name r; rc_Enabled := rc_Enabled r; rc_Image := rc_Image r; rc_Config := rc_Config r; rc_Hugepages := rc_Hugepages r; rc_Numa := rc_Numa r; rc_DisabledNuma := rc_DisabledNuma r; rc_Networks := rc_Networks r; rc_NetworkResources := x; rc_Containers := rc_Containers r; rc_Sidecars := rc_Sidecars r; rc_ListenerNames := rc_ListenerNames r; rc_PortIndex := rc_PortIndex r; rc_Patches := rc_Patches r; rc_Overrides := rc_Overrides r; rc_SidecarOverride := rc_SidecarOverride r |}.
Definition set_rc_Containers (x : list ResolvedContainer) (r : ResolvedComponent) : ResolvedComponent :=
  {| rc_Kind := rc_Kind r; rc_Name := rc_Name r; rc_Enabled := rc_Enabled r; rc_Image := rc_Image r; rc_Config := rc_Config r; rc_Hugepages := rc_Hugepages r; rc_Numa := rc_Numa r; rc_DisabledNuma := rc_DisabledNuma r; rc_Networks := rc_Networks r; rc_NetworkResources := rc_NetworkResources r; rc_Containers := x; rc_Sidecars := rc_Sidecars r; rc_ListenerNames := rc_ListenerNames r; rc_PortIndex := rc_PortIndex r; rc_Patches := rc_Patches r; rc_Overrides := rc_Overrides r; rc_SidecarOverride := rc_SidecarOverride r |}.
Definition set_rc_Sidecars (x : list ResolvedComponent) (r : ResolvedComponent) : ResolvedComponent :=
  {| rc_Kind := rc_Kind r; rc_Name := rc_Name r; rc_Enabled := rc_Enabled r; rc_Image := rc_Image r; rc_Config := rc_Config r; rc_Hugepages := rc_Hugepages r; rc_Numa := rc_Numa r; rc_DisabledNuma := rc_DisabledNuma r; rc_Networks := rc_Networks r; rc_NetworkResources := rc_NetworkResources r; rc_Containers := rc_Containers r; rc_Sidecars := x; rc_ListenerNames := rc_ListenerNames r; rc_PortIndex := rc_PortIndex r; rc_Patches := rc_Patches r; rc_Overrides := rc_Overrides r; rc_SidecarOverride := rc_SidecarOverride r |}.
Definition set_rc_ListenerNames (x : option (list string)) (r : ResolvedComponent) : ResolvedComponent :=
  {| rc_Kind := rc_Kind r; rc_Name := rc_Name r; rc_Enabled := rc_Enabled r; rc_Image := rc_Image r; rc_Config := rc_Config r; rc_Hugepages := rc_Hugepages r; rc_Numa := rc_Numa r; rc_DisabledNuma := rc_DisabledNuma r; rc_Networks := rc_Networks r; rc_NetworkResources := rc_NetworkResources r; rc_Containers := rc_Containers r; rc_Sidecars := rc_Sidecars r; rc_ListenerNames := x; rc_PortIndex := rc_PortIndex r; rc_Patches := rc_Patches r; rc_Overrides := rc_Overrides r; rc_SidecarOverride := rc_SidecarOverride r |}.
Definition set_rc_PortIndex (x : Z) (r : ResolvedComponent) : ResolvedComponent :=
  {| rc_Kind := rc_Kind r; rc_Name := rc_Name r; rc_Enabled := rc_Enabled r; rc_Image := rc_Image r; rc_Config := rc_Config r; rc_Hugepages := rc_Hugepages r; rc_Numa := rc_Numa r; rc_DisabledNuma := rc_DisabledNuma r; rc_Networks := rc_Networks r; rc_NetworkResources := rc_NetworkResources r; rc_Containers := rc_Containers r; rc_Sidecars := rc_Sidecars r; rc_ListenerNames := rc_ListenerNames r; rc_PortIndex := x; rc_Patches := rc_Patches r; rc_Overrides := rc_Overrides r; rc_SidecarOverride := rc_SidecarOverride r |}.
Definition set_rc_Patches (x : list string) (r : ResolvedComponent) : ResolvedComponent :=
  {| rc_Kind := rc_Kind r; rc_Name := rc_Name r; rc_Enabled := rc_Enabled r; rc_Image := rc_Image r; rc_Config := rc_Config r; rc_Hugepages := rc_Hugepages r; rc_Numa := rc_Numa r; rc_DisabledNuma := rc_DisabledNuma r; rc_Networks := rc_Networks r; rc_NetworkResources := rc_NetworkResources r; rc_Containers := rc_Containers r; rc_Sidecars := rc_Sidecars r; rc_ListenerNames := rc_ListenerNames r; rc_PortIndex := rc_PortIndex r; rc_Patches := x; rc_Overrides := rc_Overrides r; rc_SidecarOverride := rc_SidecarOverride r |}.
Definition set_rc_Overrides (x : option YanetComponentOverride) (r : ResolvedComponent) : ResolvedComponent :=
  {| rc_Kind := rc_Kind r; rc_Name := rc_Name r; rc_Enabled := rc_Enabled r; rc_Image := rc_Image r; rc_Config := rc_Config r; rc_Hugepages := rc_Hugepages r; rc_Numa := rc_Numa r; rc_DisabledNuma := rc_DisabledNuma r; rc_Networks := rc_Networks r; rc_NetworkResources := rc_NetworkResources r; rc_Containers := rc_Containers r; rc_Sidecars := rc_Sidecars r; rc_ListenerNames := rc_ListenerNames r; rc_PortIndex := rc_PortIndex r; rc_Patches := rc_Patches r; rc_Overrides := x; rc_SidecarOverride := rc_SidecarOverride r |}.
Definition set_rc_SidecarOverride (x : option YanetContainerOverride) (r : ResolvedComponent) : ResolvedComponent :=
  {| rc_Kind := rc_Kind r; rc_Name := rc_Name r; rc_Enabled := rc_Enabled r; rc_Image := rc_Image r; rc_Config := rc_Config r; rc_Hugepages := rc_Hugepages r; rc_Numa := rc_Numa r; rc_DisabledNuma := rc_DisabledNuma r; rc_Networks := rc_Networks r; rc_NetworkResources := rc_NetworkResources r; rc_Containers := rc_Containers r; rc_Sidecars := rc_Sidecars r; rc_ListenerNames := rc_ListenerNames r; rc_PortIndex := rc_PortIndex r; rc_Patches := rc_Patches r; rc_Overrides := rc_Overrides r; rc_SidecarOverride := x |}.

(** The fields every struct literal of this package sets. *)
Definition literal_component (kind : ComponentKind) (name : string) (enabled : bool)
    (image : ResolvedImage) : ResolvedComponent :=
  set_rc_Kind kind (set_rc_Name name (set_rc_Enabled enabled (set_rc_Image image zero_component))).

Definition IsColocated (c : ResolvedComponent) : bool := bool_decide (rc_Kind c = KindSidecar).

(** ** Lookups in the palette *)
Definition FindBoxType (config : option YanetConfigSpec) (name : string) : result BoxType :=
  match config with
  | None => Err (Errorf "yanetConfig is nil" [])
  | Some config =>
      match list_find (λ b, bt_Name b = name) (yc_BoxTypes config) with
      | Some (_, box) => Ok box
      | None => Err (Errorf "boxType %q not found in YanetConfig" [AStr name])
      end
  end.

Definition FindOperator (config : option YanetConfigSpec) (name : string) : result OperatorSpec :=
  match config with
  | None => Err (Errorf "yanetConfig is nil" [])
  | Some config =>
      match list_find (λ o, op_Name o = name) (cmp_Operators (yc_Components config)) with
      | Some (_, operator) => Ok operator
      | None => Err (Errorf "operator %q not found in YanetConfig.spec.components.operators" [AStr name])
      end
  end.

(** ** Overrides *)
Definition resolveDisabledNuma (clusterWide : list Z) (yanet : YanetSpec) : list Z :=
  match (ys_Components yanet ≫= yo_Controlplane) ≫= cpo_DisabledNuma with
  | Some disabled => disabled
  | None => clusterWide
  end.

Definition componentOverride (yanet : YanetSpec) (kind : ComponentKind) (operatorName : string)
    : option YanetComponentOverride :=
  match ys_Components yanet with
  | None => None
  | Some components =>
      match kind with
      | KindControlplane => cpo_Component <$> yo_Controlplane components
      | KindDataplane => dpo_Component <$> yo_Dataplane components
      | KindBirdAdapter => yo_BirdAdapter components
      | KindOperator => yo_Operators components !! operatorName
      | _ => None
      end
  end.

Definition resolveEnabled (override : option YanetComponentOverride) : bool :=
  match override with
  | None => true
  | Some override => BoolValue (cov_Enabled override) true
  end.

Definition mergeImage (images : ImagesSpec) (base : ImageRef)
    (override : option YanetContainerOverride) : ResolvedImage :=
  let tag := if bool_decide (ir_Tag base ≠ "") then ir_Tag base else im_Tag images in
  let registry := match ir_Registry base with Some r => r | None => im_Registry images end in
  let prefix := match ir_Prefix base with Some p => p | None => im_Prefix images end in
  match override with
  | None => MkResolvedImage registry prefix (ir_Name base) tag
  | Some override =>
      MkResolvedImage registry prefix
        (if bool_decide (co_Name override ≠ "") then co_Name override else ir_Name base)
        (if bool_decide (co_Tag override ≠ "") then co_Tag override else tag)
  end.

Definition containerOverride (override : option YanetComponentOverride) (name : string)
    : option YanetContainerOverride :=
  match override with
  | Some override => cov_Containers override !! name
  | None => None
  end.

Definition FullPath (i : ResolvedImage) : string :=
  let path := ri_Name i in
  let path := if bool_decide (ri_Prefix i ≠ "") then ri_Prefix i +:+ "/" +:+ path else path in
  let path := if bool_decide (ri_Registry i ≠ "") then ri_Registry i +:+ "/" +:+ path else path in
  if bool_decide (ri_Tag i ≠ "") then path +:+ ":" +:+ ri_Tag i else path.

(** A non-nil listener list is canonicalised to the order grpc, http. *)
Definition resolveListeners (listeners : option (list string)) : option (list string) :=
  match listeners with
  | None => None
  | Some listeners =>
      Some (mjoin ((λ protocol, filter (λ l, l = protocol) listeners) <$> ["grpc"; "http"]))
  end.

(** ** Dataplane *)
Definition resolveDataplaneNetworks `{K8sValidation, MapOrder}
    (defaults : option (list NetworkAttachment)) (yanet : YanetSpec)
    : result (option (list NetworkAttachment) * list string) :=
  ValidateNetworkAttachments (default [] defaults);;
  let selected :=
    match (ys_Components yanet ≫= yo_Dataplane) ≫= dpo_Networks with
    | Some networks => Some networks
    | None => defaults
    end in
  ValidateNetworkAttachments (default [] selected);;
  let resources : gmap string bool :=
    foldl (λ resources attachment, <[na_ResourceName attachment := true]> resources) ∅
      (default [] defaults ++ default [] selected) in
  Ok (selected, sort_strings (map_range resources).*1).

Section sidecars.
Context `{MapOrder}.
Variables (config : YanetConfigSpec) (yanet : YanetSpec) (boxDataplane : BoxDataplane).

(** The override of one wired sidecar. *)
Definition sidecar_override (name : string) : option YanetContainerOverride :=
  match bd_Sidecars boxDataplane !! name with
  | None => None
  | Some _ => (ys_Components yanet ≫= yo_Dataplane) ≫= λ dp, dpo_Sidecars dp !! name
  end.

Definition sidecar_enabled (name : string) : bool :=
  let wired_enabled :=
    match bd_Sidecars boxDataplane !! name with
    | None => false
    | Some slot => BoolValue (bs_Enabled slot) true
    end in
  match sidecar_override name ≫= co_Enabled with
  | Some enabled => enabled
  | None => wired_enabled
  end.

Definition resolve_sidecar (index : nat) (sidecar : SidecarSpec) : ResolvedComponent :=
  let name := sd_Name sidecar in
  let override := sidecar_override name in
  set_rc_Config (sd_Config sidecar)
    (set_rc_ListenerNames (resolveListeners (sd_Listeners sidecar))
      (set_rc_PortIndex (Z.of_nat index)
        (set_rc_Patches (match bd_Sidecars boxDataplane !! name with Some slot => bs_Patches slot | None => [] end)
          (set_rc_SidecarOverride override
            (literal_component KindSidecar name (sidecar_enabled name)
              (mergeImage (yc_Images config) (sd_Image sidecar) override)))))).

(** One iteration over the palette: declared names, identities, result. *)
Definition resolve_sidecar_step
    (st : gset string * gmap string string * list ResolvedComponent) (item : nat * SidecarSpec)
    : result (gset string * gmap string string * list ResolvedComponent) :=
  let '(declared, identities, resolved) := st in
  let '(index, sidecar) := item in
  err_if (bool_decide (sd_Name sidecar ∈ declared))
    (Errorf "duplicate dataplane sidecar %q" [AStr (sd_Name sidecar)]);;
  let declared := {[sd_Name sidecar]} ∪ declared in
  let identity := ShortNodeKey (sd_Name sidecar) in
  match identities !! identity with
  | Some previous =>
      Err (Errorf "sidecars %q and %q have colliding role identities" [AStr previous; AStr (sd_Name sidecar)])
  | None =>
      ValidateListeners (sd_Name sidecar) (sd_Listeners sidecar);;
      Ok (declared, <[identity := sd_Name sidecar]> identities,
          resolved ++ [resolve_sidecar index sidecar])
  end.

Definition resolveDataplaneSidecars (boxName : string) : result (list ResolvedComponent) :=
  let palette := dpl_Sidecars (cmp_Dataplane (yc_Components config)) in
  err_if (bool_decide (Z.of_nat (length palette) > MaxDataplaneSidecars))
    (Errorf "dataplane sidecars exhaust the listener port range" []);;
  '(declared, _, resolved) ← foldM resolve_sidecar_step (∅, ∅, []) (enumerate palette);
  check_all (λ '(name, _),
    err_if (bool_decide (name ∉ (declared : gset string)))
      (Errorf "boxType %q wires dataplane sidecar %q but the palette does not define it"
         [AStr boxName; AStr name])) (map_range (bd_Sidecars boxDataplane));;
  Ok resolved.
End sidecars.

(** ** Standalone operators *)
Definition resolveOperator (config : YanetConfigSpec) (yanet : YanetSpec) (box : BoxType) (name : string)
    : result (option ResolvedComponent) :=
  match bt_Operators box !! name with
  | None => Ok None
  | Some slot =>
      operator ← FindOperator (Some config) name;
      match op_Containers operator with
      | [] => Err (Errorf "operator %q has no containers" [AStr name])
      | first :: _ =>
          ValidateListeners name (op_Listeners operator);;
          let override := componentOverride yanet KindOperator name in
          let resolve container :=
            MkResolvedContainer (oc_Name container)
              (mergeImage (yc_Images config) (oc_Image container) (containerOverride override (oc_Name container)))
              (oc_Config container) in
          Ok (Some
            (set_rc_Containers (resolve <$> op_Containers operator)
              (set_rc_Patches (bo_Patches slot)
                (set_rc_ListenerNames (resolveListeners (op_Listeners operator))
                  (set_rc_Overrides override
                    (literal_component KindOperator name (resolveEnabled override)
                      (rk_Image (resolve first))))))))
      end
  end.

(** ** The resolver *)
Section resolve.
Context `{K8sValidation, MapOrder}.

Definition ResolveBoxComponent (config : option YanetConfigSpec) (yanet : option YanetSpec)
    (kind : ComponentKind) (operatorName : string) : result (option ResolvedComponent) :=
  match config, yanet with
  | None, _ => Err (Errorf "yanetConfig is nil" [])
  | _, None => Err (Errorf "yanet is nil" [])
  | Some config, Some yanet =>
      box ← FindBoxType (Some config) (ys_BoxType yanet);
      match kind with
      | KindControlplane =>
          match bcs_Controlplane (bt_Components box) with
          | None => Ok None
          | Some slot =>
              let cp := cmp_Controlplane (yc_Components config) in
              match cpl_Numa cp with
              | Some numa => ValidateControlplaneNuma numa
              | None => Ok tt
              end;;
              let override := componentOverride yanet kind "" in
              Ok (Some
                (set_rc_Config (cpl_Config cp)
                  (set_rc_Numa (Int32Value (cpl_Numa cp) 0)
                    (set_rc_DisabledNuma (resolveDisabledNuma (cpl_DisabledNuma cp) yanet)
                      (set_rc_Patches (bc_Patches slot)
                        (set_rc_Overrides override
                          (literal_component kind (kind_string kind) (resolveEnabled override)
                            (mergeImage (yc_Images config) (cpl_Image cp)
                               (containerOverride override "controlplane")))))))))
          end
      | KindDataplane =>
          match bcs_Dataplane (bt_Components box) with
          | None => Ok None
          | Some slot =>
              sidecars ← resolveDataplaneSidecars config yanet slot (bt_Name box);
              let dp := cmp_Dataplane (yc_Components config) in
              '(networks, resources) ← resolveDataplaneNetworks (dpl_Networks dp) yanet;
              let override := componentOverride yanet kind "" in
              let hugepages :=
                match (ys_Components yanet ≫= yo_Dataplane) ≫= dpo_Hugepages with
                | Some hugepages => Some hugepages
                | None => dpl_Hugepages dp
                end in
              Ok (Some
                (set_rc_Config (dpl_Config dp)
                  (set_rc_Hugepages hugepages
                    (set_rc_Sidecars sidecars
                      (set_rc_Patches (bd_Patches slot)
                        (set_rc_Networks networks
                          (set_rc_NetworkResources resources
                            (set_rc_Overrides override
                              (literal_component kind (kind_string kind) (resolveEnabled override)
                                (mergeImage (yc_Images config) (dpl_Image dp)
                                   (containerOverride override "dataplane")))))))))))
          end
      | KindSidecar =>
          match bcs_Dataplane (bt_Components box) with
          | None => Ok None
          | Some slot =>
              match bd_Sidecars slot !! operatorName with
              | None => Ok None
              | Some _ =>
                  sidecars ← resolveDataplaneSidecars config yanet slot (bt_Name box);
                  match list_find (λ s, rc_Name s = operatorName) sidecars with
                  | Some (_, sidecar) => Ok (Some sidecar)
                  | None =>
                      Err (Errorf "sidecar %q is not declared in the dataplane palette" [AStr operatorName])
                  end
              end
          end
      | KindBirdAdapter =>
          match bcs_BirdAdapter (bt_Components box) with
          | None => Ok None
          | Some slot =>
              match cmp_BirdAdapter (yc_Components config) with
              | None =>
                  Err (Errorf "boxType %q wires birdAdapter but YanetConfig.spec.components.birdAdapter is not defined"
                         [AStr (bt_Name box)])
              | Some adapter =>
                  let override := componentOverride yanet kind "" in
                  Ok (Some
                    (set_rc_Config (ba_Config adapter)
                      (set_rc_Patches (bc_Patches slot)
                        (set_rc_Overrides override
                          (literal_component kind (kind_string kind) (resolveEnabled override)
                            (mergeImage (yc_Images config) (ba_Image adapter)
                               (containerOverride override "bird-adapter")))))))
              end
          end
      | KindOperator => resolveOperator config yanet box operatorName
      | KindUnknown s => Err (Errorf "unknown component kind %q" [AStr s])
      end
  end.

(** Shared Services ignore installation enablement and NUMA opt-outs. *)
Definition ResolveBoxServiceComponent (config : option YanetConfigSpec) (boxName : string)
    (kind : ComponentKind) (operatorName : string) : result (option ResolvedComponent) :=
  ResolveBoxComponent config (Some (bare_spec boxName)) kind operatorName.

Record ComponentRef := MkComponentRef { ref_Kind : ComponentKind; ref_OperatorName : string }.

Definition EnabledComponentsForBox (config : YanetConfigSpec) (boxName : string)
    : result (list ComponentRef) :=
  box ← FindBoxType (Some config) boxName;
  check_all (λ '(name, _), FindOperator (Some config) name;; Ok tt) (map_range (bt_Operators box));;
  let comps := bt_Components box in
  dataplane ←
    match bcs_Dataplane comps with
    | None => Ok []
    | Some slot =>
        sidecars ← resolveDataplaneSidecars config (bare_spec boxName) slot (bt_Name box);
        Ok (MkComponentRef KindDataplane "" ::
            ((λ s, MkComponentRef KindSidecar (rc_Name s)) <$>
               filter (λ s, is_Some (bd_Sidecars slot !! rc_Name s)) sidecars))
    end;
  Ok ((match bcs_Controlplane comps with Some _ => [MkComponentRef KindControlplane ""] | None => [] end)
      ++ dataplane
      ++ (match bcs_BirdAdapter comps with Some _ => [MkComponentRef KindBirdAdapter ""] | None => [] end)
      ++ ((λ o, MkComponentRef KindOperator (op_Name o)) <$>
            filter (λ o, is_Some (bt_Operators box !! op_Name o)) (cmp_Operators (yc_Components config)))).
End resolve.
