(* ===== verification/Labels.v ===== *)
(** * Names, labels and workload identity (internal/manifests)

    labels.go, the label constants and name builders of builder.go and the
    identity helpers of operator_placement.go. *)

From S2P Require Import Prelude GoLib Sha256 K8s Api Resolve.
From Stdlib Require Import Ascii.
#[local] Open Scope Z_scope.

(** ** Constants *)
Definition labelYanet : string := "yanet.yanet-platform.io/yanet".
Definition labelBoxType : string := "yanet.yanet-platform.io/box-type".
Definition labelComponent : string := "yanet.yanet-platform.io/component".
Definition labelNuma : string := "yanet.yanet-platform.io/numa".
Definition labelNode : string := "yanet.yanet-platform.io/node".
Definition labelSharedService : string := "yanet.yanet-platform.io/shared-service".
Definition annotationConfigMap : string := "yanet.yanet-platform.io/configmap".
Definition annotationManagedLabels : string := "yanet.yanet-platform.io/managed-labels".
Definition annotationManagedAnnotations : string := "yanet.yanet-platform.io/managed-annotations".
Definition operatorContainerPrefix : string := "op-".
Definition operatorMembershipPrefix : string := "yanet.yanet-platform.io/operator-".
Definition DataplaneContainerName : string := "dataplane".
Definition ContainerRestartPolicyAlways : string := "Always".

(** ** Names *)
Definition shortHash (s : string) : string := ShortNodeKey s.

Definition is_upper (c : ascii) : bool :=
  let n := N_of_ascii c in (65 <=? n)%N && (n <=? 90)%N.

(** One byte at a time; [first] is [i == 0]. *)
Fixpoint kebab_go (first : bool) (s : string) : string :=
  match s with
  | "" => ""
  | String c s =>
      if is_upper c then
        let low := String (ascii_of_N (N_of_ascii c + 32)) (kebab_go false s) in
        if first then low else String "-" low
      else String c (kebab_go false s)
  end.
Definition toLowerKebab (s : string) : string := kebab_go true s.

Definition OperatorMembershipLabel (operator : string) : string :=
  operatorMembershipPrefix +:+ shortHash operator.

Definition scopedOperatorName (operator name : string) : string :=
  let result := operatorContainerPrefix +:+ shortHash operator +:+ "-" +:+ name in
  if (63 <? slen result)%nat
  then TrimRight (take_str 54 result) "-" +:+ "-" +:+ shortHash result
  else result.

Definition colocatedTargetPort (operator listener : string) : string :=
  operatorContainerPrefix +:+ shortHash operator +:+ "-" +:+ take_str 1 listener.

Definition isManagedNativeContainer (name : string) : bool := HasPrefix name operatorContainerPrefix.

(** [m[k]] on a [map[string]string]: the empty string when absent. *)
Definition get (m : gmap string string) (k : string) : string := default "" (m !! k).

(** ** Workload identity *)
Record WorkloadIdentity := MkWorkloadIdentity {
  wi_Name : string;
  wi_Namespace : string;
  wi_OwnerReferences : list OwnerReference;
  wi_Deployment : gmap string string;
  wi_Selector : option LabelSelector;
  wi_Pod : gmap string string;
  wi_NodeName : string;
  wi_NodeSelector : gmap string string;
  wi_Strategy : DeploymentStrategy;
  wi_ManageNativeSidecars : bool;
  wi_NativeSidecars : list Container;
}.

Definition workloadIdentityLabels : list string :=
  [labelYanet; labelBoxType; labelComponent; labelNuma; labelNode; "app"].

(** The labels a patch cannot touch. *)
Definition reserved_label (key : string) : bool :=
  bool_decide (key ∈ workloadIdentityLabels) || HasPrefix key operatorMembershipPrefix.

Section labels.
Context `{MapOrder}.

Definition copyMap (m : gmap string string) : gmap string string :=
  foldl (λ out kv, <[kv.1 := kv.2]> out) ∅ (map_range m).

Definition reservedLabels (labels : gmap string string) : gmap string string :=
  foldl (λ out kv, if reserved_label kv.1 then <[kv.1 := kv.2]> out else out) ∅ (map_range labels).

Definition mergeIdentityLabels (labels identity : gmap string string) : gmap string string :=
  let labels := foldl (λ m key, delete key m) labels workloadIdentityLabels in
  let labels :=
    foldl (λ m kv, if HasPrefix kv.1 operatorMembershipPrefix then delete kv.1 m else m)
      labels (map_range labels) in
  foldl (λ m kv, <[kv.1 := kv.2]> m) labels (map_range identity).

Definition CaptureWorkloadIdentity (deployment : Deployment) : WorkloadIdentity :=
  let pod := reservedLabels (pt_Labels (d_Template deployment)) in
  let manage := bool_decide (get pod labelComponent = kind_string KindDataplane) in
  {| wi_Name := d_Name deployment;
     wi_Namespace := d_Namespace deployment;
     wi_OwnerReferences := om_OwnerReferences (d_Meta deployment);
     wi_Deployment := reservedLabels (d_Labels deployment);
     wi_Selector := ds_Selector (d_Spec deployment);
     wi_Pod := pod;
     wi_NodeName := ps_NodeName (d_Pod deployment);
     wi_NodeSelector := copyMap (ps_NodeSelector (d_Pod deployment));
     wi_Strategy := ds_Strategy (d_Spec deployment);
     wi_ManageNativeSidecars := manage;
     wi_NativeSidecars :=
       if manage
       then filter (λ c, isManagedNativeContainer (c_Name c)) (ps_InitContainers (d_Pod deployment))
       else [] |}.

(** *** Native sidecars *)

(** [patched[name]] and [lastFixed] after the first pass. *)
Definition scan_managed (managed : gset string) (init : list Container)
    : gmap string Container * option nat :=
  foldl (λ '(patched, lastFixed) '(i, container),
    if bool_decide (c_Name container ∈ managed)
    then (<[c_Name container := container]> patched, Some i)
    else (patched, lastFixed)) (∅, None) (enumerate init).

Definition restore_expected (patched : gmap string Container) (baseline : Container) : Container :=
  set_c_RestartPolicy (c_RestartPolicy baseline) (default baseline (patched !! c_Name baseline)).

(** One step of the second pass: the result so far and [nextExpected]. *)
Definition restore_step (managed : gset string) (restoredExpected : list Container)
    (lastFixed : option nat) (st : list Container * nat) (item : nat * Container)
    : list Container * nat :=
  let '(restored, nextExpected) := st in
  let '(i, container) := item in
  if bool_decide (c_Name container ∈ managed) then
    let '(restored, nextExpected) :=
      match restoredExpected !! nextExpected with
      | Some c => (restored ++ [c], S nextExpected)
      | None => (restored, nextExpected)
      end in
    if bool_decide (lastFixed = Some i)
    then (restored ++ drop nextExpected restoredExpected, length restoredExpected)
    else (restored, nextExpected)
  else (restored ++ [container], nextExpected).

Definition restore_init (init expected : list Container) : list Container :=
  let managed : gset string := list_to_set (c_Name <$> expected) in
  let '(patched, lastFixed) := scan_managed managed init in
  let restoredExpected := restore_expected patched <$> expected in
  let restored := match lastFixed with None => restoredExpected | Some _ => [] end in
  (foldl (restore_step managed restoredExpected lastFixed) (restored, 0%nat) (enumerate init)).1.

Definition restoreNativeSidecars (pod : PodSpec) (expected : list Container) : PodSpec :=
  set_ps_InitContainers (restore_init (ps_InitContainers pod) expected) pod.

Definition RestoreWorkloadIdentity (deployment : Deployment) (identity : WorkloadIdentity) : Deployment :=
  let d := upd_meta (λ m,
    set_om_Labels (mergeIdentityLabels (om_Labels m) (wi_Deployment identity))
      (set_om_OwnerReferences (wi_OwnerReferences identity)
        (set_om_Namespace (wi_Namespace identity)
          (set_om_Name (wi_Name identity) m)))) deployment in
  let d := upd_spec (set_ds_Selector (wi_Selector identity)) d in
  let d := upd_template (λ t, set_pt_Labels (mergeIdentityLabels (pt_Labels t) (wi_Pod identity)) t) d in
  let d := upd_pod (λ p,
    set_ps_NodeSelector (copyMap (wi_NodeSelector identity)) (set_ps_NodeName (wi_NodeName identity) p)) d in
  let d := upd_spec (set_ds_Strategy (wi_Strategy identity)) d in
  if wi_ManageNativeSidecars identity
  then upd_pod (λ p, restoreNativeSidecars p (wi_NativeSidecars identity)) d
  else d.
End labels.

(** *** Container names *)
Definition check_container_names (deployment : Deployment) (kind : string)
    (seen : gmap string string) (containers : list Container) : result (gmap string string) :=
  foldM (λ seen container,
    let name := c_Name container in
    err_if (bool_decide (kind = "regular")
            && bool_decide (get (pt_Labels (d_Template deployment)) labelComponent = kind_string KindDataplane)
            && isManagedNativeContainer name)
      (Errorf "deployment %s must place dataplane sidecar %q in initContainers"
         [AStr (d_Name deployment); AStr name]);;
    match seen !! name with
    | Some previous =>
        Err (Errorf "deployment %s uses container name %q in both %s and %s containers"
               [AStr (d_Name deployment); AStr name; AStr previous; AStr kind])
    | None => Ok (<[name := kind]> seen)
    end) seen containers.

Definition ValidatePodContainerNames (deployment : Deployment) : result unit :=
  seen ← check_container_names deployment "regular" ∅ (ps_Containers (d_Pod deployment));
  check_container_names deployment "init" seen (ps_InitContainers (d_Pod deployment));;
  Ok tt.
