(* ===== verification/Listeners.v ===== *)
(** * Listener ports (internal/manifests/listeners.go, pod_ports.go)

    The Service protocols of a role, the port slots of dataplane sidecars, the
    named container ports the operator owns, and the port checks on a Pod. *)

From S2P Require Import Prelude GoLib K8s Api Resolve Labels.
#[local] Open Scope Z_scope.

Definition ListenerGRPC : string := "grpc".
Definition ListenerHTTP : string := "http".
Definition ServiceGRPCPort : Z := RuntimeGRPCPort.
Definition ServiceHTTPPort : Z := RuntimeHTTPPort.
Definition ProtocolTCP : string := "TCP".
Definition ProtocolUDP : string := "UDP".
Definition ProtocolSCTP : string := "SCTP".

Record ListenerPort := MkListenerPort {
  lp_Name : string;
  lp_TargetPortName : string;
  lp_ServicePort : Z;
}.
#[export] Instance ListenerPort_eq_dec : EqDecision ListenerPort.
Proof. solve_decision. Defined.

(** ** Roles and their listeners *)
Definition listener_names (component : ResolvedComponent) : list string :=
  if bool_decide (rc_Kind component = KindControlplane) then [ListenerGRPC; ListenerHTTP]
  else match rc_ListenerNames component with
       | None => [ListenerGRPC]
       | Some names => names
       end.

Definition ListenerPorts (component : ResolvedComponent) : list ListenerPort :=
  if bool_decide (rc_Kind component = KindDataplane) then []
  else
    (λ name,
      MkListenerPort name
        (if IsColocated component then colocatedTargetPort (rc_Name component) name else "")
        (if bool_decide (name = ListenerHTTP) then ServiceHTTPPort else ServiceGRPCPort))
    <$> listener_names component.

Definition ListenerContainerName (component : ResolvedComponent) : string :=
  match rc_Kind component with
  | KindDataplane => ""
  | KindOperator => match rc_Containers component with [] => "" | c :: _ => rk_Name c end
  | KindSidecar => rc_Name component
  | kind => toLowerKebab (kind_string kind)
  end.

Definition listenerTargetPortName (listener : ListenerPort) : string :=
  if bool_decide (lp_TargetPortName listener ≠ "") then lp_TargetPortName listener else lp_Name listener.

(** The (grpc, http) pair a role binds: the fixed pair, or the slot of a
    sidecar.  The arithmetic is on int32. *)
Definition runtimePortPair (component : ResolvedComponent) : result (Z * Z) :=
  if IsColocated component then
    err_if (bool_decide (rc_PortIndex component < 0)
            || bool_decide (MaxDataplaneSidecars ≤ rc_PortIndex component))
      (Errorf "sidecar %q has invalid port slot %d" [AStr (rc_Name component); AInt (rc_PortIndex component)]);;
    let offset := wrap_int32 (2 * wrap_int32 (rc_PortIndex component)) in
    Ok (wrap_int32 (ServiceGRPCPort + offset), wrap_int32 (ServiceHTTPPort + offset))
  else Ok (ServiceGRPCPort, ServiceHTTPPort).

(** ** Containers of a Deployment *)

(** A pointer to the unique container with this name. *)
Definition findContainer (deployment : Deployment) (name : string) : result Container :=
  match filter (λ c, c_Name c = name) (pod_containers (d_Pod deployment)) with
  | [] => Err (Errorf "deployment %s has no container %q" [AStr (d_Name deployment); AStr name])
  | [c] => Ok c
  | _ => Err (Errorf "deployment %s has duplicate container %q" [AStr (d_Name deployment); AStr name])
  end.

(** Writing through the pointer [findContainer] returned: the name is unique in
    the Pod, so the container with that name is the one that changes. *)
Definition upd_container (name : string) (f : Container → Container) (deployment : Deployment) : Deployment :=
  let g c := if bool_decide (c_Name c = name) then f c else c in
  upd_pod (λ p, set_ps_InitContainers (g <$> ps_InitContainers p)
                  (set_ps_Containers (g <$> ps_Containers p) p)) deployment.

Definition validatePortNameOwner (deployment : Deployment) (owner portName : string) : result unit :=
  check_all (λ container,
    if bool_decide (c_Name container = owner) then Ok tt
    else check_all (λ port,
      err_if (bool_decide (cp_Name port = portName))
        (Errorf "deployment %s listener target port name %q is reserved for %q, but used by container %q"
           [AStr (d_Name deployment); AStr portName; AStr owner; AStr (c_Name container)]))
      (c_Ports container)) (pod_containers (d_Pod deployment)).

(** The port a listener owns in its container. *)
Definition listener_port (pair : Z * Z) (listener : ListenerPort) : ContainerPort :=
  MkContainerPort (listenerTargetPortName listener)
    (if bool_decide (lp_Name listener = ListenerHTTP) then pair.2 else pair.1) 0 ProtocolTCP "".

Definition configureComponentListeners (deployment : Deployment) (component : ResolvedComponent)
    (composed : bool) : result Deployment :=
  match ListenerPorts component with
  | [] => Ok deployment
  | listeners =>
      let name := ListenerContainerName component in
      let name := if composed then scopedOperatorName (rc_Name component) name else name in
      container ← findContainer deployment name;
      pair ← runtimePortPair component;
      check_all (λ listener, validatePortNameOwner deployment name (listenerTargetPortName listener)) listeners;;
      let owned : gset string := list_to_set (listenerTargetPortName <$> listeners) in
      let ports := (listener_port pair <$> listeners)
                     ++ filter (λ port, cp_Name port ∉ owned) (c_Ports container) in
      Ok (upd_container name (set_c_Ports ports) deployment)
  end.

Definition configure_sidecar_listeners (deployment : Deployment) (sidecar : ResolvedComponent)
    : result Deployment :=
  let owner := scopedOperatorName (rc_Name sidecar) (rc_Name sidecar) in
  check_all (λ protocol, validatePortNameOwner deployment owner (colocatedTargetPort (rc_Name sidecar) protocol))
    [ListenerGRPC; ListenerHTTP];;
  if rc_Enabled sidecar then configureComponentListeners deployment sidecar true else Ok deployment.

Definition ConfigureListeners (deployment : Deployment) (component : ResolvedComponent) : result Deployment :=
  deployment ← configureComponentListeners deployment component false;
  foldM configure_sidecar_listeners deployment (rc_Sidecars component).

(** ** Ports of a Pod *)

(** The ports [visitContainerPortActions] visits, in order. *)
Definition action_ports (http tcp : option PortAction) : list IntOrString :=
  pa_Port <$> (option_list http ++ option_list tcp).

Definition container_probes (c : Container) : list Probe :=
  option_list (c_StartupProbe c) ++ option_list (c_ReadinessProbe c) ++ option_list (c_LivenessProbe c).

Definition visitContainerPortActions (c : Container) : list IntOrString :=
  mjoin ((λ p, action_ports (pr_HTTPGet p) (pr_TCPSocket p)) <$> container_probes c)
  ++ match c_Lifecycle c with
     | None => []
     | Some lc =>
         mjoin ((λ h, action_ports (lh_HTTPGet h) (lh_TCPSocket h))
                  <$> (option_list (lc_PostStart lc) ++ option_list (lc_PreStop lc)))
     end.

Definition is_tcp (protocol : string) : bool :=
  bool_decide (protocol = "") || bool_decide (protocol = ProtocolTCP).

(** The last offending port reports the error. *)
Definition validateContainerProbePorts (container : Container) : result unit :=
  let names : gset string :=
    list_to_set (cp_Name <$> filter (λ p, is_tcp (cp_Protocol p)) (c_Ports container)) in
  let portErr := foldl (λ (acc : result unit) port,
    match port with
    | StrVal s =>
        if bool_decide (s = "") || bool_decide (s ∉ names)
        then Err (Errorf "container %q probe/lifecycle port %q does not name a TCP port in that container"
                    [AStr (c_Name container); AStr s])
        else acc
    | IntVal n =>
        if bool_decide (n < 1) || bool_decide (n > 65535)
        then Err (Errorf "container %q probe/lifecycle has invalid port %d" [AStr (c_Name container); AInt n])
        else acc
    end) (Ok tt) (visitContainerPortActions container) in
  portErr;;
  check_all (λ probe,
    match pr_GRPC probe with
    | None => Ok tt
    | Some port =>
        err_if (bool_decide (port < 1) || bool_decide (port > 65535))
          (Errorf "container %q gRPC probe has invalid port %d" [AStr (c_Name container); AInt port])
    end) (container_probes container).

(** Port number and protocol, with the default protocol made explicit. *)
Definition port_key (port : ContainerPort) : Z * string :=
  (cp_ContainerPort port, if bool_decide (cp_Protocol port = "") then ProtocolTCP else cp_Protocol port).

Definition check_ports (occupied : gmap (Z * string) string) (container : Container) : result unit :=
  check_all (λ port,
    err_if (match occupied !! port_key port with
            | Some owner => bool_decide (owner ≠ c_Name container)
            | None => false
            end)
      (Errorf "containers %q and %q run concurrently and use the same %s port %d"
         [AStr (default "" (occupied !! port_key port)); AStr (c_Name container);
          AStr (port_key port).2; AInt (cp_ContainerPort port)])) (c_Ports container).

Definition reserve_ports (occupied : gmap (Z * string) string) (container : Container)
    : gmap (Z * string) string :=
  foldl (λ m port, <[port_key port := c_Name container]> m) occupied (c_Ports container).

Definition restartable (container : Container) : bool :=
  bool_decide (c_RestartPolicy container = Some ContainerRestartPolicyAlways).

Definition concurrent_step_app (persistent : gmap (Z * string) string) (container : Container)
    : result (gmap (Z * string) string) :=
  check_ports persistent container;; Ok (reserve_ports persistent container).

Definition concurrent_step_init (st : gmap (Z * string) string * gmap (Z * string) string)
    (container : Container) : result (gmap (Z * string) string * gmap (Z * string) string) :=
  let '(persistent, sidecars) := st in
  if restartable container then
    check_ports persistent container;;
    Ok (reserve_ports persistent container, reserve_ports sidecars container)
  else check_ports sidecars container;; Ok (persistent, sidecars).

Definition validateConcurrentPodPorts (pod : PodSpec) : result unit :=
  persistent ← foldM concurrent_step_app ∅ (ps_Containers pod);
  foldM concurrent_step_init (persistent, ∅) (ps_InitContainers pod);;
  Ok tt.
