(* ===== verification/Builder.v ===== *)
(** * The Deployment builder (internal/manifests/builder.go)

    Base Deployment skeletons: NUMA fan-out for the controlplane, hugepages and
    the security baseline of the dataplane, configuration volumes, names and
    labels. *)

From S2P Require Import Prelude GoLib Sha256 K8s Api Resolve Labels Listeners.
#[local] Open Scope Z_scope.

Record BuildContext := MkBuildContext {
  bx_YanetName : string;
  bx_Namespace : string;
  bx_BoxType : string;
  bx_NodeName : string;
  bx_NodeAllocatable : ResourceList;
  bx_PullPolicy : string;
  bx_PullSecrets : list string;
  bx_OwnerRef : OwnerReference;
  bx_GatewayEndpoints : list string;
}.

Definition set_bx_GatewayEndpoints (x : list string) (r : BuildContext) : BuildContext :=
  {| bx_YanetName := bx_YanetName r; bx_Namespace := bx_Namespace r; bx_BoxType := bx_BoxType r;
     bx_NodeName := bx_NodeName r; bx_NodeAllocatable := bx_NodeAllocatable r;
     bx_PullPolicy := bx_PullPolicy r; bx_PullSecrets := bx_PullSecrets r;
     bx_OwnerRef := bx_OwnerRef r; bx_GatewayEndpoints := x |}.

(** ** NUMA *)
Definition disabledNumaSet (c : ResolvedComponent) : gset Z := list_to_set (rc_DisabledNuma c).

Definition effectiveNuma (c : ResolvedComponent) : Z :=
  if bool_decide (rc_Numa c ≠ 0) then rc_Numa c else 1.

Definition numaConfigArgs (args : list string) (numa : Z) : list string :=
  (λ a, ReplaceAll a "{numa}" (sprint_d numa)) <$> args.

(** The physical indices of the fan-out, in ascending order:
    [for i := int32(0); i < numa; i++ { if _, skip := disabled[i]; skip { continue } ... }]. *)
Definition enabled_numa (c : ResolvedComponent) : list Z :=
  filter (λ i, i ∉ disabledNumaSet c) (seqZ 0 (effectiveNuma c)).

(** ** Names *)
Definition numaDeploymentName (ctx : BuildContext) (c : ResolvedComponent) (numa : Z) : string :=
  if bool_decide (bx_NodeName ctx ≠ "")
  then bx_YanetName ctx +:+ "-" +:+ shortHash (bx_NodeName ctx) +:+ "-" +:+ toLowerKebab (rc_Name c)
       +:+ "-numa" +:+ sprint_d numa
  else bx_YanetName ctx +:+ "-" +:+ toLowerKebab (rc_Name c) +:+ "-numa" +:+ sprint_d numa.

Definition singleDeploymentName (ctx : BuildContext) (c : ResolvedComponent) : string :=
  if bool_decide (bx_NodeName ctx ≠ "")
  then bx_YanetName ctx +:+ "-" +:+ shortHash (bx_NodeName ctx) +:+ "-" +:+ toLowerKebab (rc_Name c)
  else bx_YanetName ctx +:+ "-" +:+ toLowerKebab (rc_Name c).

Definition inlineConfigMapName (ctx : BuildContext) (c : ResolvedComponent) (content : string) : string :=
  singleDeploymentName ctx c +:+ "-" +:+ toLowerKebab (rc_Name c) +:+ "-cfg-" +:+ shortHash content.

Definition inlineContainerConfigMapName (ctx : BuildContext) (c : ResolvedComponent) (idx : nat)
    (content : string) : string :=
  singleDeploymentName ctx c +:+ "-" +:+ toLowerKebab (rc_Name c) +:+ "-c" +:+ sprint_d (Z.of_nat idx)
  +:+ "-cfg-" +:+ shortHash content.

(** ** Labels and placement *)
Definition baseLabels (ctx : BuildContext) (c : ResolvedComponent) : gmap string string :=
  let out : gmap string string :=
    <["app" := rc_Name c]> (<[labelComponent := rc_Name c]> (<[labelYanet := bx_YanetName ctx]> ∅)) in
  if bool_decide (bx_NodeName ctx ≠ "") then <[labelNode := bx_NodeName ctx]> out else out.

Definition workloadLabels `{MapOrder} (ctx : BuildContext) (selectorLabels : gmap string string)
    : gmap string string :=
  let out := copyMap selectorLabels in
  if bool_decide (bx_BoxType ctx ≠ "") then <[labelBoxType := bx_BoxType ctx]> out else out.

Definition nodeSelector (ctx : BuildContext) : gmap string string :=
  if bool_decide (bx_NodeName ctx = "") then ∅ else {["kubernetes.io/hostname" := bx_NodeName ctx]}.

Definition replicasFor (c : ResolvedComponent) : option Z :=
  if rc_Enabled c then Some 1 else Some 0.

Definition runtimeTolerations : list Toleration :=
  [MkToleration "Exists" "NoSchedule" ""; MkToleration "Exists" "NoExecute" ""].

(** ** Configuration volumes *)
Definition defaultConfigMountPath : string := "/etc/yanet2".

Definition host_volume (name path : string) (t : option string) : Volume :=
  MkVolume name (Some (MkHostPath path t)) None None None "".
Definition configmap_volume (name configMap : string) : Volume :=
  MkVolume name None (Some configMap) None None "".

(** The shared body of [buildConfigVolumes] and
    [buildConfigVolumesForContainer]: they differ in the volume name and in the
    name of the generated ConfigMap. *)
Definition config_volumes (volName : string) (cmName : string → string) (source : option ConfigSource)
    : list Volume * list VolumeMount * string * list string :=
  match source with
  | None => ([], [], "", [])
  | Some cs =>
      if ConfigSource_IsZero source then ([], [], "", [])
      else
        let mountPath := if bool_decide (cs_MountPath cs ≠ "") then cs_MountPath cs else defaultConfigMountPath in
        let mounts := [MkVolumeMount volName mountPath true ""] in
        if bool_decide (cs_HostPath cs ≠ "") then
          ([host_volume volName (cs_HostPath cs) None], mounts, "", cs_Args cs)
        else if bool_decide (cs_Inline cs ≠ "") then
          let configMapName := cmName (cs_Inline cs) in
          ([configmap_volume volName configMapName], mounts, configMapName, cs_Args cs)
        else ([], [], "", cs_Args cs)
  end.

Definition buildConfigVolumes (ctx : BuildContext) (c : ResolvedComponent)
    : list Volume * list VolumeMount * string * list string :=
  config_volumes "config" (inlineConfigMapName ctx c) (rc_Config c).

Definition buildConfigVolumesForContainer (ctx : BuildContext) (c : ResolvedComponent)
    (rc : ResolvedContainer) (idx : nat) : list Volume * list VolumeMount * string * list string :=
  config_volumes ("config-" +:+ sprint_d (Z.of_nat idx)) (inlineContainerConfigMapName ctx c idx) (rk_Config rc).

(** The inline body of a configuration source, when there is one. *)
Definition inline_body (source : option ConfigSource) : option string :=
  match source with
  | Some cs => if negb (ConfigSource_IsZero source) && bool_decide (cs_Inline cs ≠ "") then Some (cs_Inline cs) else None
  | None => None
  end.

(** The ConfigMaps of the component itself. *)
Definition own_config_maps (ctx : BuildContext) (c : ResolvedComponent) (out : gmap string string)
    : gmap string string :=
  if bool_decide (rc_Kind c = KindOperator) then
    foldl (λ out '(i, rc),
      match inline_body (rk_Config rc) with
      | Some body => <[inlineContainerConfigMapName ctx c i body := body]> out
      | None => out
      end) out (enumerate (rc_Containers c))
  else
    match inline_body (rc_Config c) with
    | Some body => <[inlineConfigMapName ctx c body := body]> out
    | None => out
    end.

Fixpoint InlineConfigMaps `{MapOrder} (ctx : BuildContext) (c : ResolvedComponent) : gmap string string :=
  let out : gmap string string :=
    foldl (λ out sidecar,
      if rc_Enabled sidecar
      then foldl (λ out kv, <[kv.1 := kv.2]> out) out (map_range (InlineConfigMaps ctx sidecar))
      else out) ∅ (rc_Sidecars c) in
  own_config_maps ctx c out.

(** ** Security baseline *)
Definition hostDevVolume (name path : string) (t : option string) : Volume := host_volume name path t.
Definition shmemVolName : string := "hugepages".
Definition shmemDir : string := "/dev/hugepages".
Definition shmemMount : VolumeMount := MkVolumeMount shmemVolName shmemDir false "".
Definition shmemVolume : Volume := host_volume shmemVolName shmemDir None.

Definition applyDataplaneSecurity (cv : Container * list Volume) : Container * list Volume :=
  let '(c, volumes) := cv in
  let dir := Some "Directory" in
  (set_c_SecurityContext (Some (MkSecurityContext (Some true) ""))
     (set_c_VolumeMounts (c_VolumeMounts c ++
       [MkVolumeMount "host-vfio" "/dev/vfio" false "";
        MkVolumeMount "host-vhost-net" "/dev/vhost-net" false "";
        MkVolumeMount "host-net" "/dev/net" false "";
        MkVolumeMount "host-sys" "/sys" true ""]) c),
   volumes ++
     [hostDevVolume "host-vfio" "/dev/vfio" dir;
      hostDevVolume "host-vhost-net" "/dev/vhost-net" None;
      hostDevVolume "host-net" "/dev/net" dir;
      hostDevVolume "host-sys" "/sys" dir]).

Definition applyControlplaneShmem (cv : Container * list Volume) : Container * list Volume :=
  let '(c, volumes) := cv in
  (set_c_VolumeMounts (c_VolumeMounts c ++ [shmemMount]) c, volumes ++ [shmemVolume]).

(** ** Hugepages *)
Definition ResourceHugePagesPrefix : string := "hugepages-".

Section hugepages.
Context `{QuantityLib, MapOrder}.

Definition zero_quantity : Quantity := MkQuantity 0.

(** The tail of [resolveNodeHugepages]: every page of one size the node has. *)
Definition node_hugepages (ctx : BuildContext) (requested : Hugepages) : result (option Hugepages) :=
  let resolved := MkHugepages (hg_Size requested) 1 in
  page ← TotalQuantity resolved;
  let name := ResourceHugePagesPrefix +:+ hg_Size resolved in
  let quantity := default zero_quantity (bx_NodeAllocatable ctx !! name) in
  err_if (bool_decide (QSign quantity ≤ 0))
    (Errorf "no allocatable %s; reserve hugepages on the node or set an explicit count" [AStr name]);;
  let bad := Errorf "allocatable %s=%s must be a whole number of %s pages"
               [AStr name; AStr (QString quantity); AStr (hg_Size resolved)] in
  match AsInt64 quantity with
  | None => Err bad
  | Some bytes =>
      err_if (bool_decide (go_mod bytes (QValue page) ≠ 0)) bad;;
      let count := go_div bytes (QValue page) in
      err_if (bool_decide (count < 1) || bool_decide (count > MaxInt32))
        (Errorf "allocatable %s page count %d must be between 1 and %d" [AStr name; AInt count; AInt MaxInt32]);;
      Ok (Some (MkHugepages (hg_Size requested) (wrap_int32 count)))
  end.

Definition resolveNodeHugepages (ctx : BuildContext) (requested : option Hugepages)
    : result (option Hugepages) :=
  match requested with
  | Some h => if bool_decide (hg_Count h ≠ 0) then Ok requested else node_hugepages ctx h
  | None =>
      let sizes :=
        (λ kv : string * Quantity, TrimPrefix kv.1 ResourceHugePagesPrefix) <$>
          filter (λ kv : string * Quantity, HasPrefix kv.1 ResourceHugePagesPrefix ∧ QSign kv.2 > 0)
            (map_range (bx_NodeAllocatable ctx)) in
      match sizes with
      | [] => Ok None
      | [size] => node_hugepages ctx (MkHugepages size 0)
      | _ => Err (Errorf "multiple hugepage sizes (%s); set spec.components.dataplane.hugepages.size"
                    [AStr (Join (sort_strings sizes) ", ")])
      end
  end.

Definition applyHugepages (cv : Container * list Volume) (hp : Hugepages) : Container * list Volume :=
  let '(c, volumes) := cv in
  let volName := "hugepages" in
  let volumes := volumes ++ [host_volume volName "/dev/hugepages" None] in
  let c := set_c_VolumeMounts (c_VolumeMounts c ++ [MkVolumeMount volName "/dev/hugepages" false ""]) c in
  let resourceName := "hugepages-" +:+ hg_Size hp in
  match TotalQuantity hp with
  | Err _ => (c, volumes)
  | Ok totalQty =>
      (set_c_Resources
         (MkResources (<[resourceName := totalQty]> (rr_Requests (c_Resources c)))
            (<[resourceName := totalQty]> (rr_Limits (c_Resources c)))) c, volumes)
  end.
End hugepages.

(** ** Skeletons *)
Definition empty_container : Container :=
  MkContainer "" "" "" [] [] [] [] [] [] (MkResources ∅ ∅) None None None None None None "".
Definition empty_pod : PodSpec := MkPodSpec [] [] [] [] "" ∅ [] false false "".

Section build.
Context `{QuantityLib, MapOrder}.

(** The base container: name, image, pull policy, mounts, args. *)
Definition base_container (name image pullPolicy : string) (mounts : list VolumeMount)
    (args : list string) : Container :=
  MkContainer name image pullPolicy args [] [] [] mounts [] (MkResources ∅ ∅) None None None None None None "".

(** The Deployment object around a Pod. *)
Definition deployment_skeleton (ctx : BuildContext) (c : ResolvedComponent)
    (annotations : gmap string string) (pod : PodSpec) : Deployment :=
  let selectorLabels := baseLabels ctx c in
  let labels := workloadLabels ctx selectorLabels in
  {| d_Kind := "Deployment";
     d_APIVersion := "apps/v1";
     d_Meta := MkObjectMeta (singleDeploymentName ctx c) (bx_Namespace ctx) "" "" 0 0 None
                 labels annotations [bx_OwnerRef ctx] [] "";
     d_Spec := MkDeploymentSpec (replicasFor c)
                 (Some (MkLabelSelector (copyMap selectorLabels) ""))
                 (MkStrategy "Recreate" "")
                 (MkPodTemplateSpec (copyMap labels) ∅ pod "") "";
     d_Status := MkDeploymentStatus 0 0 0 "" |}.

Definition buildSingle (ctx : BuildContext) (c : ResolvedComponent) : Deployment :=
  let '(volumes, volumeMounts, configMapName, configArgs) := buildConfigVolumes ctx c in
  let name := if bool_decide (rc_Kind c = KindSidecar) then rc_Name c
              else toLowerKebab (kind_string (rc_Kind c)) in
  let cv := (base_container name (FullPath (rc_Image c)) (bx_PullPolicy ctx) volumeMounts configArgs, volumes) in
  let cv := match rc_Hugepages c with Some hp => applyHugepages cv hp | None => cv end in
  let cv := match rc_Kind c with
            | KindDataplane => applyDataplaneSecurity cv
            | KindControlplane => applyControlplaneShmem cv
            | _ => cv
            end in
  let hostIPC := match rc_Kind c with KindDataplane | KindControlplane => true | _ => false end in
  let pod := MkPodSpec [cv.1] [] cv.2 (bx_PullSecrets ctx) "" (nodeSelector ctx) runtimeTolerations
               hostIPC false "" in
  deployment_skeleton ctx c
    (if bool_decide (configMapName ≠ "") then {[annotationConfigMap := configMapName]} else ∅) pod.

(** The controlplane instance of physical NUMA domain [i]. *)
Definition numa_instance (ctx : BuildContext) (c : ResolvedComponent) (i : Z) : Deployment :=
  let label m := <[labelNuma := sprint_d i]> m in
  let d := buildSingle ctx c in
  let d := upd_meta (λ m, set_om_Labels (label (om_Labels m)) (set_om_Name (numaDeploymentName ctx c i) m)) d in
  let d := upd_spec (λ s,
    set_ds_Selector ((λ sel, set_ls_MatchLabels (label (ls_MatchLabels sel)) sel) <$> ds_Selector s) s) d in
  let d := upd_template (λ t, set_pt_Labels (label (pt_Labels t)) t) d in
  upd_pod (λ p, set_ps_Containers
    (match ps_Containers p with
     | cont :: rest => set_c_Args (numaConfigArgs (c_Args cont) i) cont :: rest
     | [] => []
     end) p) d.

Definition buildControlplaneFanout (ctx : BuildContext) (c : ResolvedComponent) : list Deployment :=
  numa_instance ctx c <$> enabled_numa c.

Definition buildOperator (ctx : BuildContext) (c : ResolvedComponent) : Deployment :=
  let '(volumes, containers) :=
    foldl (λ '(volumes, containers) '(i, rc),
      let '(vs, mounts, _, configArgs) := buildConfigVolumesForContainer ctx c rc i in
      (volumes ++ vs,
       containers ++ [base_container (rk_Name rc) (FullPath (rk_Image rc)) (bx_PullPolicy ctx) mounts configArgs]))
      ([], []) (enumerate (rc_Containers c)) in
  deployment_skeleton ctx c ∅
    (MkPodSpec containers [] volumes (bx_PullSecrets ctx) "" (nodeSelector ctx) runtimeTolerations
       false false "").

(** The node-specific hugepages of the dataplane. *)
Definition resolve_build_hugepages (ctx : BuildContext) (c : ResolvedComponent)
    : result ResolvedComponent :=
  if bool_decide (rc_Kind c = KindDataplane) then
    if negb (rc_Enabled c)
       && match rc_Hugepages c with None => true | Some h => bool_decide (hg_Count h = 0) end
    then Ok (set_rc_Hugepages None c)
    else
      hugepages ← wrap_err (λ e, Errorf "buildDeployments: node %q hugepages: %w" [AStr (bx_NodeName ctx); AErr e])
                    (resolveNodeHugepages ctx (rc_Hugepages c));
      Ok (set_rc_Hugepages hugepages c)
  else Ok c.

Definition BuildDeployments (ctx : BuildContext) (c : ResolvedComponent) : result (list Deployment) :=
  c ← resolve_build_hugepages ctx c;
  (if bool_decide (rc_Kind c = KindControlplane) then ValidateControlplaneNuma (effectiveNuma c) else Ok tt);;
  match rc_Hugepages c with
  | None => Ok tt
  | Some h =>
      wrap_err (λ e, Errorf "buildDeployments: invalid hugepages for component %q: %w" [AStr (rc_Name c); AErr e])
        (TotalQuantity h);;
      Ok tt
  end;;
  let deployments :=
    match rc_Kind c with
    | KindControlplane => buildControlplaneFanout ctx c
    | KindOperator => [buildOperator ctx c]
    | _ => [buildSingle ctx c]
    end in
  mapR (λ deployment,
    wrap_err (λ e, Errorf "buildDeployments: component %q: %w" [AStr (rc_Name c); AErr e])
      (configureComponentListeners deployment c false)) deployments.
End build.
