(* ===== verification/Service.v ===== *)
(** * Shared Service plans (internal/manifests/service.go) *)

From S2P Require Import Prelude GoLib Sha256 K8s Api Resolve Labels Listeners Builder.
From Stdlib Require Import Ascii.
#[local] Open Scope Z_scope.

(** ** Kubernetes Services *)
Record ServicePort := MkServicePort {
  sp_Name : string;
  sp_Port : Z;
  sp_Protocol : string;
  sp_TargetPort : IntOrString;
}.
#[export] Instance ServicePort_eq_dec : EqDecision ServicePort.
Proof. solve_decision. Defined.

Record ServiceSpec := MkServiceSpec {
  ss_Type : string;
  ss_Selector : gmap string string;
  ss_Ports : list ServicePort;
  ss_InternalTrafficPolicy : option string;
  ss_SessionAffinity : string;
  ss_ClusterIP : string;
  ss_ClusterIPs : list string;
  ss_IPFamilies : list string;
  ss_IPFamilyPolicy : option string;
  ss_other : string;
}.
#[export] Instance ServiceSpec_eq_dec : EqDecision ServiceSpec.
Proof. solve_decision. Defined.

Record Service := MkService { sv_Meta : ObjectMeta; sv_Spec : ServiceSpec }.
#[export] Instance Service_eq_dec : EqDecision Service.
Proof. solve_decision. Defined.

(** ** Plans *)
Record ServicePortPlan := MkServicePortPlan {
  spp_Name : string;
  spp_Port : Z;
  spp_TargetPort : Z;
  spp_TargetPortName : string;
}.
#[export] Instance ServicePortPlan_eq_dec : EqDecision ServicePortPlan.
Proof. solve_decision. Defined.

Record ServicePlan := MkServicePlan {
  pl_Name : string;
  pl_BoxType : string;
  pl_Component : string;
  pl_Selector : gmap string string;
  pl_Ports : list ServicePortPlan;
  pl_Local : bool;
}.
#[export] Instance ServicePlan_eq_dec : EqDecision ServicePlan.
Proof. solve_decision. Defined.

Definition validate_port_plan (name : string) (st : gset string * gset Z) (item : nat * ServicePortPlan)
    : result (gset string * gset Z) :=
  let '(portNames, portNumbers) := st in
  let '(i, port) := item in
  err_if (bool_decide (spp_Name port = ""))
    (Errorf "shared Service %q port[%d] has an empty name" [AStr name; AInt (Z.of_nat i)]);;
  err_if (bool_decide (spp_Name port ∈ portNames))
    (Errorf "shared Service %q port name %q is duplicated" [AStr name; AStr (spp_Name port)]);;
  err_if (bool_decide (spp_Port port ≤ 0) || bool_decide (spp_Port port > 65535))
    (Errorf "shared Service %q port %d must be in 1..65535" [AStr name; AInt (spp_Port port)]);;
  err_if (bool_decide (spp_Port port ∈ portNumbers))
    (Errorf "shared Service %q port %d is duplicated" [AStr name; AInt (spp_Port port)]);;
  err_if (bool_decide (spp_TargetPort port < 0) || bool_decide (spp_TargetPort port > 65535))
    (Errorf "shared Service %q target port %d must be in 0..65535" [AStr name; AInt (spp_TargetPort port)]);;
  Ok ({[spp_Name port]} ∪ portNames, {[spp_Port port]} ∪ portNumbers).

Definition ServicePlan_Validate `{K8sValidation} (p : ServicePlan) : result unit :=
  err_if (bool_decide (IsDNS1035Label (pl_Name p) ≠ []))
    (Errorf "invalid Service name %q: %s" [AStr (pl_Name p); AStrs (IsDNS1035Label (pl_Name p))]);;
  err_if (bool_decide (pl_BoxType p = "")) (Errorf "shared Service %q has an empty box type" [AStr (pl_Name p)]);;
  err_if (bool_decide (pl_Component p = "")) (Errorf "shared Service %q has an empty component" [AStr (pl_Name p)]);;
  err_if (bool_decide (pl_Selector p = ∅)) (Errorf "shared Service %q has an empty selector" [AStr (pl_Name p)]);;
  err_if (bool_decide (pl_Ports p = [])) (Errorf "shared Service %q has no ports" [AStr (pl_Name p)]);;
  foldM (validate_port_plan (pl_Name p)) (∅, ∅) (enumerate (pl_Ports p));;
  Ok tt.

Definition SharedServiceName (boxType component : string) (numa : option Z) : string :=
  let name := "yanet-" +:+ toLowerKebab boxType +:+ "-" +:+ toLowerKebab component in
  let name := match numa with Some n => name +:+ "-numa" +:+ sprint_d n | None => name end in
  if (slen name <=? 63)%nat then name
  else
    let hashLength := 8%nat in
    let prefixLength := (63 - hashLength - 1)%nat in
    TrimRight (take_str prefixLength name) "-" +:+ "-" +:+ shortHash name.

Definition buildServicePlan (ctx : BuildContext) (component : ResolvedComponent) (numa : option Z)
    (listeners : list ListenerPort) : ServicePlan :=
  let serviceComponent := rc_Name component in
  let selector : gmap string string :=
    <[labelComponent := rc_Name component]> (<[labelBoxType := bx_BoxType ctx]> ∅) in
  let selector :=
    if IsColocated component
    then <[OperatorMembershipLabel (rc_Name component) := rc_Name component]>
           (<[labelComponent := kind_string KindDataplane]> selector)
    else selector in
  let selector := match numa with Some n => <[labelNuma := sprint_d n]> selector | None => selector end in
  let ports :=
    (λ listener, MkServicePortPlan (lp_Name listener) (lp_ServicePort listener) 0 (listenerTargetPortName listener))
      <$> listeners in
  MkServicePlan (SharedServiceName (bx_BoxType ctx) serviceComponent numa) (bx_BoxType ctx)
    serviceComponent selector ports true.

Definition BuildServices (ctx : BuildContext) (component : ResolvedComponent) : list ServicePlan :=
  match ListenerPorts component with
  | [] => []
  | listeners =>
      if bool_decide (rc_Kind component ≠ KindControlplane)
      then [buildServicePlan ctx component None listeners]
      else
        let numa := effectiveNuma component in
        match ValidateControlplaneNuma numa with
        | Err _ => []
        | Ok _ => (λ index, buildServicePlan ctx component (Some index) listeners) <$> seqZ 0 numa
        end
  end.

Definition service_port (port : ServicePortPlan) : ServicePort :=
  MkServicePort (spp_Name port) (spp_Port port) ProtocolTCP
    (if bool_decide (spp_TargetPortName port ≠ "") then StrVal (spp_TargetPortName port)
     else if bool_decide (spp_TargetPort port = 0) then IntVal (spp_Port port)
     else IntVal (spp_TargetPort port)).

Definition ToService (p : ServicePlan) (namespace : string) (owner : OwnerReference) : Service :=
  let labels : gmap string string :=
    <[labelComponent := pl_Component p]> (<[labelBoxType := pl_BoxType p]> (<[labelSharedService := "true"]> ∅)) in
  let labels := match pl_Selector p !! labelNuma with Some numa => <[labelNuma := numa]> labels | None => labels end in
  MkService
    (MkObjectMeta (pl_Name p) namespace "" "" 0 0 None labels ∅
       (if bool_decide (or_Name owner ≠ "") then [owner] else []) [] "")
    (MkServiceSpec "ClusterIP" (pl_Selector p) (service_port <$> pl_Ports p)
       (if pl_Local p then Some "Local" else None) "" "" [] [] None "").
