(* ===== verification/Render.v ===== *)
(** * The rendering path (internal/manifests)

    patcher.go, installation_overrides.go, dataplane_networks.go,
    runtime_network.go and operator_placement.go: a resolved component becomes
    patched, validated Deployments.  Strategic merge and the JSON mapping of the
    Kubernetes types belong to k8s.io/apimachinery: they are the class
    [PatchLib], and no theorem assumes anything about what a patch does. *)

From S2P Require Import Prelude GoLib Sha256 K8s Api Resolve Labels Listeners Builder Service.
From Stdlib Require Import Ascii.
#[local] Open Scope Z_scope.

(** ** Patches (patcher.go) *)
Class PatchLib := {
  doc : Type;
  (** The document [{}]. *)
  empty_doc : doc;
  marshal_deployment : Deployment → result doc;
  (** [strategicpatch.StrategicMergePatch(current, patch, appsv1.Deployment{})]. *)
  StrategicMergePatch : doc → RawExtension → result doc;
  unmarshal_deployment : doc → result Deployment;
  (** A document decoded into [map[string]any] and encoded again. *)
  reencode : RawExtension → RawExtension;
}.

Definition PatchRegistry := gmap string NamedPatch.

Definition NewPatchRegistry (patches : list NamedPatch) : gmap string NamedPatch :=
  foldl (λ r p, <[np_Name p := p]> r) ∅ patches.

Section patcher.
Context `{PatchLib}.

Definition apply_patch (registry : gmap string NamedPatch) (current : doc) (name : string) : result doc :=
  match registry !! name with
  | None => Err (Errorf "applyPatches: patch %q is not defined in YanetConfig.spec.patches" [AStr name])
  | Some patch =>
      match np_Patch patch with
      | RawEmpty => Err (Errorf "applyPatches: patch %q is empty" [AStr name])
      | raw =>
          wrap_err (λ e, Errorf "applyPatches: patch %q is not valid JSON: %w" [AStr name; AErr e])
            (decode_raw_object raw);;
          wrap_err (λ e, Errorf "applyPatches: patch %q failed strategic merge: %w" [AStr name; AErr e])
            (StrategicMergePatch current (reencode raw))
      end
  end.

Definition ApplyPatches (d : Deployment) (patchNames : list string) (registry : gmap string NamedPatch)
    : result Deployment :=
  match patchNames with
  | [] => Ok d
  | _ =>
      current ← wrap_err (λ e, Errorf "applyPatches: marshal base: %w" [AErr e]) (marshal_deployment d);
      current ← foldM (apply_patch registry) current patchNames;
      wrap_err (λ e, Errorf "applyPatches: decode merged Deployment: %w" [AErr e]) (unmarshal_deployment current)
  end.
End patcher.

(** ** Installation overrides (installation_overrides.go) *)
Definition applyImageOverride (deployment : Deployment) (name : string) (image : ResolvedImage)
    (override : option YanetContainerOverride) : result Deployment :=
  match override with
  | None => Ok deployment
  | Some override =>
      if bool_decide (co_Name override = "") && bool_decide (co_Tag override = "") then Ok deployment
      else
        findContainer deployment name;;
        Ok (upd_container name (set_c_Image (FullPath image)) deployment)
  end.

Definition hugepage_key (name : string) : bool := HasPrefix name ResourceHugePagesPrefix.

Section overrides.
Context `{MapOrder}.

Definition hasHugepages (resources : ResourceList) : bool :=
  existsb (λ kv, hugepage_key kv.1) (map_range resources).

Definition restoreHugepages (patched original : ResourceList) : ResourceList :=
  let patched := foldl (λ m kv, if hugepage_key kv.1 then delete kv.1 m else m) patched (map_range patched) in
  foldl (λ m kv, if hugepage_key kv.1 then <[kv.1 := kv.2]> m else m) patched (map_range original).

(** The image an override entry refers to; [None] for a container the palette
    no longer declares. *)
Definition override_image (component : ResolvedComponent) (name : string) : option ResolvedImage :=
  match list_find (λ c, rk_Name c = name) (rc_Containers component) with
  | Some (_, container) => Some (rk_Image container)
  | None => if bool_decide (rc_Kind component ≠ KindOperator) then Some (rc_Image component) else None
  end.

Definition apply_container_override (component : ResolvedComponent) (deployment : Deployment)
    (entry : string * YanetContainerOverride) : result Deployment :=
  let '(name, override) := entry in
  match override_image component name with
  | None => Ok deployment
  | Some image => applyImageOverride deployment name image (Some override)
  end.

Definition apply_sidecar_override (deployment : Deployment) (sidecar : ResolvedComponent) : result Deployment :=
  if rc_Enabled sidecar
  then applyImageOverride deployment (scopedOperatorName (rc_Name sidecar) (rc_Name sidecar))
         (rc_Image sidecar) (rc_SidecarOverride sidecar)
  else Ok deployment.

Definition first_container (d : Deployment) : Container :=
  match ps_Containers (d_Pod d) with c :: _ => c | [] => empty_container end.

Definition applyInstallationOverrides (deployment unpatched : Deployment) (component : ResolvedComponent)
    : result Deployment :=
  let deployment :=
    if negb (rc_Enabled component)
       || bool_decide (is_Some (rc_Overrides component ≫= cov_Enabled))
    then upd_spec (set_ds_Replicas (replicasFor component)) deployment
    else deployment in
  deployment ←
    match rc_Overrides component with
    | None => Ok deployment
    | Some overrides =>
        foldM (apply_container_override component) deployment (map_range (cov_Containers overrides))
    end;
  deployment ← foldM apply_sidecar_override deployment (rc_Sidecars component);
  if bool_decide (rc_Kind component = KindDataplane) then
    let original := first_container unpatched in
    if hasHugepages (rr_Requests (c_Resources original)) then
      container ← findContainer deployment DataplaneContainerName;
      Ok (upd_container DataplaneContainerName
            (set_c_Resources
               (MkResources
                  (restoreHugepages (rr_Requests (c_Resources container)) (rr_Requests (c_Resources original)))
                  (restoreHugepages (rr_Limits (c_Resources container)) (rr_Limits (c_Resources original)))))
            deployment)
    else Ok deployment
  else Ok deployment.
End overrides.

(** ** Dataplane networks (dataplane_networks.go) *)
Definition multusNetworksAnnotation : string := "k8s.v1.cni.cncf.io/networks".

(** [json.Marshal] of the selections.  The strings are validated DNS and
    interface names by then, so only the characters below 128 are escaped. *)
Definition quote_char : ascii := ascii_of_N 34.
Definition json_escape (a : ascii) : string :=
  let n := N_of_ascii a in
  let u00 := String "\" "u00" +:+ hex_encode [Z.of_N n] in
  if (n =? 34)%N || (n =? 92)%N then String "\" (String a "")
  else if (n =? 8)%N then String "\" "b"
  else if (n =? 12)%N then String "\" "f"
  else if (n =? 10)%N then String "\" "n"
  else if (n =? 13)%N then String "\" "r"
  else if (n =? 9)%N then String "\" "t"
  else if (n <? 32)%N || (n =? 60)%N || (n =? 62)%N || (n =? 38)%N then u00
  else String a "".
Fixpoint json_escape_string (s : string) : string :=
  match s with "" => "" | String a s => json_escape a +:+ json_escape_string s end.
Definition json_string (s : string) : string :=
  String quote_char (json_escape_string s +:+ String quote_char "").
Definition json_selection (network : NetworkAttachment) : string :=
  "{" +:+ json_string "name" +:+ ":" +:+ json_string (na_Name network)
  +:+ "," +:+ json_string "namespace" +:+ ":" +:+ json_string (na_Namespace network)
  +:+ "," +:+ json_string "interface" +:+ ":" +:+ json_string (na_Interface network) +:+ "}".
Definition json_selections (networks : list NetworkAttachment) : string :=
  "[" +:+ Join (json_selection <$> networks) "," +:+ "]".

(** [counts[resource]++] over the attachments. *)
Definition resource_counts (networks : list NetworkAttachment) : gmap string Z :=
  foldl (λ m n, <[na_ResourceName n := default 0 (m !! na_ResourceName n) + 1]> m) ∅ networks.

Definition default_namespace (namespace : string) (n : NetworkAttachment) : NetworkAttachment :=
  if bool_decide (na_Namespace n = "")
  then MkNetworkAttachment (na_Name n) namespace (na_Interface n) (na_ResourceName n)
  else n.

Section networks.
Context `{QuantityLib, K8sValidation, MapOrder}.

(** No container may already reserve a managed device resource. *)
Definition check_network_resources (names : list string) (container : Container) : result unit :=
  check_all (λ name,
    check_all (λ quantities : ResourceList,
      err_if (bool_decide (is_Some (quantities !! name)))
        (Errorf "dataplane network resource %q conflicts with patched resources in container %q"
           [AStr name; AStr (c_Name container)]))
      [rr_Requests (c_Resources container); rr_Limits (c_Resources container)]) names.

Definition add_quantities (counts : gmap string Z) (resources : ResourceList) : ResourceList :=
  foldl (λ m kc, <[kc.1 := NewQuantity kc.2]> m) resources (map_range counts).

(** [pod.Containers[0].Resources] gains the counts. *)
Definition reserve_devices (counts : gmap string Z) (p : PodSpec) : PodSpec :=
  match ps_Containers p with
  | [] => p
  | c :: rest =>
      set_ps_Containers
        (set_c_Resources
           (MkResources (add_quantities counts (rr_Requests (c_Resources c)))
              (add_quantities counts (rr_Limits (c_Resources c)))) c :: rest) p
  end.

Definition configureDataplaneNetworks (deployment : Deployment) (component : ResolvedComponent)
    : result Deployment :=
  match rc_Networks component with
  | None => Ok deployment
  | Some declared =>
      err_if (bool_decide (is_Some (pt_Annotations (d_Template deployment) !! multusNetworksAnnotation)))
        (Errorf "dataplane networks conflict with a patched %s annotation" [AStr multusNetworksAnnotation]);;
      check_all (check_network_resources (rc_NetworkResources component)) (pod_containers (d_Pod deployment));;
      let networks := default_namespace (d_Namespace deployment) <$> declared in
      ValidateNetworkAttachments networks;;
      match networks with
      | [] => Ok deployment
      | _ =>
          let deployment := upd_template (λ t,
            set_pt_Annotations (<[multusNetworksAnnotation := json_selections networks]> (pt_Annotations t)) t)
            deployment in
          Ok (upd_pod (reserve_devices (resource_counts networks)) deployment)
      end
  end.
End networks.

(** ** Runtime network (runtime_network.go) *)
Definition serviceEndpoint (ctx : BuildContext) (name : string) (port : Z) : string :=
  name +:+ "." +:+ bx_Namespace ctx +:+ ".svc.cluster.local:" +:+ sprint_d port.

Definition WithRuntimeNetwork `{K8sValidation, MapOrder} (ctx : BuildContext) (config : YanetConfigSpec)
    (spec : YanetSpec) : result BuildContext :=
  controlplane ← ResolveBoxComponent (Some config) (Some spec) KindControlplane "";
  match controlplane with
  | None => Ok ctx
  | Some controlplane =>
      Ok (set_bx_GatewayEndpoints
            ((λ index, serviceEndpoint ctx
                         (SharedServiceName (bx_BoxType ctx) (rc_Name controlplane) (Some index)) ServiceGRPCPort)
               <$> enabled_numa controlplane) ctx)
  end.

Definition managedHostConfig (pod : PodSpec) (container : Container) (name : string) : bool :=
  existsb (λ mount, bool_decide (vm_Name mount = name)) (c_VolumeMounts container)
  && match list_find (λ v, v_Name v = name) (ps_Volumes pod) with
     | Some (_, volume) => bool_decide (is_Some (v_HostPath volume))
     | None => false
     end.

Definition bind_address (port : Z) : string := "[::]:" +:+ sprint_d port.

Definition env_var (name value : string) : EnvVar := MkEnvVar name value None.

(** The environment the operator owns for a role. *)
Definition runtime_variables (ctx : BuildContext) (component : ResolvedComponent) (pair : Z * Z) : list EnvVar :=
  let '(grpcPort, httpPort) := pair in
  match rc_Kind component with
  | KindControlplane =>
      [env_var "YANET_GATEWAY_SERVER_ENDPOINT" (bind_address grpcPort);
       env_var "YANET_GATEWAY_SERVER_HTTP_ENDPOINT" (bind_address httpPort)]
  | KindBirdAdapter =>
      [env_var "YANET_LISTEN_ADDR" (bind_address grpcPort);
       env_var "YANET_ROUTE_OPERATOR_ENDPOINT"
         (serviceEndpoint ctx (SharedServiceName (bx_BoxType ctx) "route" None) ServiceGRPCPort)]
  | _ =>
      let endpoint := if bool_decide (rc_ListenerNames component = Some [ListenerHTTP]) then httpPort else grpcPort in
      [env_var "YANET_SERVER_ENDPOINT" (bind_address endpoint)]
      ++ ((λ _, env_var "YANET_SERVER_ADVERTISE_ENDPOINT"
                  (serviceEndpoint ctx (SharedServiceName (bx_BoxType ctx) (rc_Name component) None) ServiceGRPCPort))
            <$> filter (λ l, lp_Name l = ListenerGRPC) (ListenerPorts component))
      ++ ((λ '(index, endpoint),
             env_var ("YANET_GATEWAYS_" +:+ sprint_d (Z.of_nat index) +:+ "_ENDPOINT") endpoint)
            <$> enumerate (bx_GatewayEndpoints ctx))
  end.

Definition configureRuntimeContainer (deployment : Deployment) (ctx : BuildContext)
    (component : ResolvedComponent) (composed : bool) : result Deployment :=
  let name := ListenerContainerName component in
  '(configName, source) ←
    match rc_Kind component with
    | KindOperator =>
        match rc_Containers component with
        | [] => Err (Errorf "operator %q has no primary container" [AStr (rc_Name component)])
        | c :: _ => Ok ("config-0", rk_Config c)
        end
    | _ => Ok ("config", rc_Config component)
    end;
  if ConfigSource_IsZero source then Ok deployment
  else
    let name := if composed then scopedOperatorName (rc_Name component) name else name in
    let configName := if composed then scopedOperatorName (rc_Name component) configName else configName in
    container ← findContainer deployment name;
    if negb (managedHostConfig (d_Pod deployment) container configName) then Ok deployment
    else
      pair ← runtimePortPair component;
      let variables := runtime_variables ctx component pair in
      let owned : gset string := list_to_set (ev_Name <$> variables) in
      Ok (upd_container name
            (set_c_Env (variables ++ filter (λ v, ev_Name v ∉ owned) (c_Env container))) deployment).

Definition ConfigureRuntimeNetwork (deployment : Deployment) (ctx : BuildContext)
    (component : ResolvedComponent) : result Deployment :=
  deployment ←
    (if bool_decide (rc_Kind component ≠ KindDataplane)
     then configureRuntimeContainer deployment ctx component false else Ok deployment);
  foldM (λ deployment sidecar,
    if rc_Enabled sidecar then configureRuntimeContainer deployment ctx sidecar true else Ok deployment)
    deployment (rc_Sidecars component).

(** ** Resource field references (operator_placement.go)

    [visitResourceFieldRefs] with a visitor that rewrites each reference, and
    the list of the references it visits. *)
Definition map_env_ref (f : ResourceFieldSelector → ResourceFieldSelector) (v : EnvVar) : EnvVar :=
  set_ev_ValueFrom ((λ s, set_es_ResourceFieldRef (f <$> es_ResourceFieldRef s) s) <$> ev_ValueFrom v) v.
Definition map_item_ref (f : ResourceFieldSelector → ResourceFieldSelector) (i : DownwardAPIVolumeFile)
    : DownwardAPIVolumeFile :=
  set_da_ResourceFieldRef (f <$> da_ResourceFieldRef i) i.
Definition map_volume_refs (f : ResourceFieldSelector → ResourceFieldSelector) (v : Volume) : Volume :=
  let items (l : list DownwardAPIVolumeFile) := map_item_ref f <$> l in
  let sources (l : list VolumeProjection) :=
    (λ s, set_vp_DownwardAPI (items <$> vp_DownwardAPI s) s) <$> l in
  set_v_Projected (sources <$> v_Projected v)
    (set_v_DownwardAPI (items <$> v_DownwardAPI v) v).
Definition map_resource_refs (f : ResourceFieldSelector → ResourceFieldSelector) (pod : PodSpec) : PodSpec :=
  let container c := set_c_Env (map_env_ref f <$> c_Env c) c in
  set_ps_Volumes (map_volume_refs f <$> ps_Volumes pod)
    (set_ps_InitContainers (container <$> ps_InitContainers pod)
      (set_ps_Containers (container <$> ps_Containers pod) pod)).

Definition resource_refs (pod : PodSpec) : list ResourceFieldSelector :=
  let items (l : list DownwardAPIVolumeFile) := omap da_ResourceFieldRef l in
  mjoin ((λ c, omap (λ v, ev_ValueFrom v ≫= es_ResourceFieldRef) (c_Env c)) <$> pod_containers pod)
  ++ mjoin ((λ v, items (default [] (v_DownwardAPI v))
                   ++ mjoin ((λ s, items (default [] (vp_DownwardAPI s))) <$> default [] (v_Projected v)))
              <$> ps_Volumes pod).

(** ** Validation of the composed Pod *)
Section validate.
Context `{K8sValidation}.

Definition check_volume (volumes : gset string) (volume : Volume) : result (gset string) :=
  err_if (bool_decide (IsDNS1123Label (v_Name volume) ≠ []) || bool_decide (v_Name volume ∈ volumes))
    (Errorf "invalid or duplicate volume name %q" [AStr (v_Name volume)]);;
  Ok ({[v_Name volume]} ∪ volumes).

Definition valid_protocol (protocol : string) : bool :=
  bool_decide (protocol = "") || bool_decide (protocol = ProtocolTCP)
  || bool_decide (protocol = ProtocolUDP) || bool_decide (protocol = ProtocolSCTP).

Definition check_port (container : Container) (ports : gset string) (port : ContainerPort)
    : result (gset string) :=
  err_if (negb (valid_protocol (cp_Protocol port)))
    (Errorf "container %q has invalid port protocol %q" [AStr (c_Name container); AStr (cp_Protocol port)]);;
  err_if (bool_decide (cp_ContainerPort port < 1) || bool_decide (cp_ContainerPort port > 65535)
          || bool_decide (cp_HostPort port < 0) || bool_decide (cp_HostPort port > 65535))
    (Errorf "container %q has invalid port %d/%d"
       [AStr (c_Name container); AInt (cp_ContainerPort port); AInt (cp_HostPort port)]);;
  if bool_decide (cp_Name port ≠ "") then
    err_if (bool_decide (IsValidPortName (cp_Name port) ≠ []) || bool_decide (cp_Name port ∈ ports))
      (Errorf "invalid or duplicate port name %q" [AStr (cp_Name port)]);;
    Ok ({[cp_Name port]} ∪ ports)
  else Ok ports.

Definition check_container (volumes : gset string) (ports : gset string) (container : Container)
    : result (gset string) :=
  err_if (match c_RestartPolicy container with
          | Some policy => bool_decide (policy ≠ ContainerRestartPolicyAlways)
          | None => false
          end)
    (Errorf "container %q has unsupported restartPolicy %q"
       [AStr (c_Name container); AStr (default "" (c_RestartPolicy container))]);;
  err_if (bool_decide (IsDNS1123Label (c_Name container) ≠ []))
    (Errorf "invalid container name %q" [AStr (c_Name container)]);;
  check_all (λ mount, err_if (bool_decide (vm_Name mount ∉ volumes))
    (Errorf "container %q references missing volume %q" [AStr (c_Name container); AStr (vm_Name mount)]))
    (c_VolumeMounts container);;
  check_all (λ device, err_if (bool_decide (vd_Name device ∉ volumes))
    (Errorf "container %q references missing volume device %q" [AStr (c_Name container); AStr (vd_Name device)]))
    (c_VolumeDevices container);;
  ports ← foldM (check_port container) ports (c_Ports container);
  validateContainerProbePorts container;;
  Ok ports.

(** The last dangling reference reports the error. *)
Definition check_resource_refs (pod : PodSpec) : result unit :=
  let names : gset string := list_to_set (c_Name <$> pod_containers pod) in
  foldl (λ (acc : result unit) ref,
    if bool_decide (rf_ContainerName ref ≠ "") && bool_decide (rf_ContainerName ref ∉ names)
    then Err (Errorf "resourceFieldRef refers to missing container %q" [AStr (rf_ContainerName ref)])
    else acc) (Ok tt) (resource_refs pod).

Definition ValidateComposedPod (deployment : Deployment) : result unit :=
  ValidatePrivatePodNetwork (d_Pod deployment);;
  ValidatePodContainerNames deployment;;
  err_if (bool_decide (IsDNS1123Subdomain (d_Name deployment) ≠ []))
    (Errorf "invalid Deployment name %q: %v" [AStr (d_Name deployment); AStrs (IsDNS1123Subdomain (d_Name deployment))]);;
  let pod := d_Pod deployment in
  err_if (bool_decide (ps_Containers pod = []))
    (Errorf "deployment %q has no application containers" [AStr (d_Name deployment)]);;
  volumes ← foldM check_volume ∅ (ps_Volumes pod);
  foldM (check_container volumes) ∅ (pod_containers pod);;
  check_resource_refs pod;;
  validateConcurrentPodPorts pod.
End validate.

(** The expected native sidecars of a dataplane Pod, by scoped name. *)
Definition expected_sidecars (component : ResolvedComponent) : list string :=
  (λ s, scopedOperatorName (rc_Name s) (rc_Name s)) <$> filter (λ s, rc_Enabled s = true) (rc_Sidecars component).

Definition validateSidecarComposition (pod : PodSpec) (component : ResolvedComponent) : result unit :=
  err_if (match ps_Containers pod with
          | [c] => bool_decide (c_Name c ≠ DataplaneContainerName)
          | _ => true
          end)
    (Errorf "dataplane patches must retain its primary container; declare sidecars in dataplane.sidecars" []);;
  let expected := expected_sidecars component in
  index ← foldM (λ (index : nat) container,
    match c_RestartPolicy container with
    | None => Ok index
    | Some policy =>
        err_if (bool_decide (policy ≠ ContainerRestartPolicyAlways)
                || bool_decide (expected !! index ≠ Some (c_Name container)))
          (Errorf "dataplane patch changed declared native sidecar composition/order/restartPolicy" []);;
        Ok (S index)
    end) 0%nat (ps_InitContainers pod);
  err_if (bool_decide (index ≠ length expected))
    (Errorf "dataplane patch removed a declared native sidecar or its restartPolicy" []).

(** [owners[grpcPort], owners[httpPort] = owner, owner]. *)
Definition port_owners (sidecars : list ResolvedComponent) : result (gmap Z string) :=
  foldM (λ (owners : gmap Z string) sidecar,
    let owner := scopedOperatorName (rc_Name sidecar) (rc_Name sidecar) in
    '(grpcPort, httpPort) ← runtimePortPair sidecar;
    Ok (<[httpPort := owner]> (<[grpcPort := owner]> owners))) ∅ sidecars.

Definition validateReservedColocatedPorts (deployment : Deployment) (component : ResolvedComponent) : result unit :=
  owners ← port_owners (rc_Sidecars component);
  check_all (λ container,
    check_all (λ port,
      match owners !! cp_ContainerPort port with
      | Some owner =>
          err_if (bool_decide (owner ≠ c_Name container) && is_tcp (cp_Protocol port))
            (Errorf "port %d is reserved for %q, not %q"
               [AInt (cp_ContainerPort port); AStr owner; AStr (c_Name container)])
      | None => Ok tt
      end) (c_Ports container)) (pod_containers (d_Pod deployment)).

(** ** Composition and the rendering path *)
Section render.
Context `{PatchLib, QuantityLib, K8sValidation, MapOrder}.

Definition check_sidecar_patch (registry : gmap string NamedPatch) (name : string) : result unit :=
  match registry !! name with
  | None => Err (Errorf "patch %q is not defined" [AStr name])
  | Some patch =>
      wrap_err (λ e, Errorf "patch %q: %w" [AStr name; AErr e]) (ValidateSidecarPatch (np_Patch patch))
  end.

(** Renaming a container of sidecar [role] for the composed Pod. *)
Definition scope_container (role : string) (always : bool) (c : Container) : Container :=
  let c := set_c_Name (scopedOperatorName role (c_Name c)) c in
  let c := if always then set_c_RestartPolicy (Some ContainerRestartPolicyAlways) c else c in
  let c := set_c_VolumeMounts ((λ m, set_vm_Name (scopedOperatorName role (vm_Name m)) m) <$> c_VolumeMounts c) c in
  set_c_VolumeDevices ((λ d, set_vd_Name (scopedOperatorName role (vd_Name d)) d) <$> c_VolumeDevices c) c.

Definition scope_ref (role : string) (ref : ResourceFieldSelector) : ResourceFieldSelector :=
  if bool_decide (rf_ContainerName ref ≠ "")
  then set_rf_ContainerName (scopedOperatorName role (rf_ContainerName ref)) ref else ref.

(** Moving the containers and volumes of the sidecar's own Pod into the
    dataplane Deployment. *)
Definition merge_sidecar (deployment : Deployment) (role : string) (pod : PodSpec) : Deployment :=
  let pod := map_resource_refs (scope_ref role) pod in
  let volumes := (λ v, set_v_Name (scopedOperatorName role (v_Name v)) v) <$> ps_Volumes pod in
  let containers := (scope_container role false <$> ps_InitContainers pod)
                      ++ (scope_container role true <$> ps_Containers pod) in
  let d := upd_pod (λ p,
    set_ps_InitContainers (ps_InitContainers p ++ containers)
      (set_ps_Volumes (ps_Volumes p ++ volumes) p)) deployment in
  upd_template (λ t, set_pt_Labels (<[OperatorMembershipLabel role := role]> (pt_Labels t)) t) d.

Definition composeSidecar (ctx : BuildContext) (deployment : Deployment) (sidecar : ResolvedComponent)
    (registry : gmap string NamedPatch) : result Deployment :=
  check_all (check_sidecar_patch registry) (rc_Patches sidecar);;
  let op := buildSingle ctx sidecar in
  op ← ApplyPatches op (rc_Patches sidecar) registry;
  op ← applyImageOverride op (rc_Name sidecar) (rc_Image sidecar) (rc_SidecarOverride sidecar);
  ValidatePrivatePodNetwork (d_Pod op);;
  err_if (match ps_Containers (d_Pod op) with
          | [c] => bool_decide (c_Name c ≠ rc_Name sidecar)
          | _ => true
          end)
    (Errorf "sidecar %q patches must retain exactly its declared container" [AStr (rc_Name sidecar)]);;
  check_all (λ container, err_if (bool_decide (is_Some (c_RestartPolicy container)))
    (Errorf "sidecar %q patch adds a restartable container; declare it in dataplane.sidecars"
       [AStr (rc_Name sidecar)])) (ps_InitContainers (d_Pod op));;
  op ← configureComponentListeners op sidecar false;
  ValidateComposedPod op;;
  if negb (rc_Enabled sidecar) then Ok deployment
  else Ok (merge_sidecar deployment (rc_Name sidecar) (d_Pod op)).

(** One Deployment of the component through composition, patches, overrides,
    identity restoration and validation. *)
Definition render_one (ctx : BuildContext) (component : ResolvedComponent)
    (registry : gmap string NamedPatch) (deployment : Deployment) : result Deployment :=
  deployment ← foldM (λ deployment sidecar,
    wrap_err (λ e, Errorf "compose sidecar %q: %w" [AStr (rc_Name sidecar); AErr e])
      (composeSidecar ctx deployment sidecar registry)) deployment (rc_Sidecars component);
  let identity := CaptureWorkloadIdentity deployment in
  let unpatched := deployment in
  deployment ← ApplyPatches deployment (rc_Patches component) registry;
  deployment ← applyInstallationOverrides deployment unpatched component;
  (if bool_decide (rc_Kind component = KindDataplane)
   then validateSidecarComposition (d_Pod deployment) component else Ok tt);;
  let deployment := RestoreWorkloadIdentity deployment identity in
  deployment ←
    (if bool_decide (rc_Kind component = KindDataplane)
     then configureDataplaneNetworks deployment component else Ok deployment);
  ValidatePrivatePodNetwork (d_Pod deployment);;
  deployment ← ConfigureListeners deployment component;
  deployment ← ConfigureRuntimeNetwork deployment ctx component;
  ValidateComposedPod deployment;;
  (if bool_decide (rc_Sidecars component ≠ [])
   then validateReservedColocatedPorts deployment component else Ok tt);;
  Ok deployment.

Definition RenderDeployments (ctx : BuildContext) (component : ResolvedComponent)
    (registry : gmap string NamedPatch) : result (list Deployment) :=
  if IsColocated component then Ok []
  else
    deployments ← BuildDeployments ctx component;
    mapR (render_one ctx component registry) deployments.
End render.
