(* ===== verification/Webhook.v ===== *)
(** * Admission (api/v1alpha1/yanetconfig_webhook.go, yanet_webhook.go)

    The two validating webhooks.  Logging is not modelled; the API read of the
    Yanet webhook is the argument [config], the result of [Client.Get]. *)

From S2P Require Import Prelude GoLib K8s Api Labels Render.
#[local] Open Scope Z_scope.

(** ** YanetConfig *)
Definition YanetConfigName : string := "config".
Definition second : Z := 1000000000.
Definition maxUpdateWindow : Z := go_div MaxInt64 second.

Definition validateYanetConfigIdentity (name : string) : result unit :=
  err_if (bool_decide (name ≠ YanetConfigName))
    (Errorf "metadata.name must be %q for the cluster-wide YanetConfig singleton" [AStr YanetConfigName]).

(** *** Uniqueness *)
Definition patch_unique_step (seen : gset string) (item : nat * NamedPatch) : result (gset string) :=
  let '(i, p) := item in
  let name := np_Name p in
  err_if (bool_decide (name = "")) (Errorf "spec.patches[%d].name is empty" [AInt (Z.of_nat i)]);;
  err_if (bool_decide (name ∈ seen))
    (Errorf "spec.patches[%d].name %q is duplicated" [AInt (Z.of_nat i); AStr name]);;
  Ok ({[name]} ∪ seen).

Definition validatePatchUniqueness (patches : list NamedPatch) : result unit :=
  foldM patch_unique_step ∅ (enumerate patches);; Ok tt.

Definition reservedNames : list string := ["controlplane"; "dataplane"; "bird-adapter"].

Section config_webhook.
Context `{K8sValidation}.

Definition container_unique_step (i : nat) (name : string) (seen : gset string)
    (item : nat * OperatorContainer) : result (gset string) :=
  let '(j, container) := item in
  let cname := oc_Name container in
  err_if (bool_decide (cname = "")) (Errorf "spec.components.operators[%d:%s].containers[%d].name is required"
       [AInt (Z.of_nat i); AStr name; AInt (Z.of_nat j)]);;
  err_if (bool_decide (IsDNS1123Label cname ≠ []))
    (Errorf "spec.components.operators[%d:%s].containers[%d].name %q is invalid: %s"
       [AInt (Z.of_nat i); AStr name; AInt (Z.of_nat j); AStr cname; AStrs (IsDNS1123Label cname)]);;
  err_if (bool_decide (cname ∈ seen))
    (Errorf "spec.components.operators[%d:%s].containers[%d].name %q is duplicated"
       [AInt (Z.of_nat i); AStr name; AInt (Z.of_nat j); AStr cname]);;
  Ok ({[cname]} ∪ seen).

Definition operator_unique_step (seen : gset string) (item : nat * OperatorSpec) : result (gset string) :=
  let '(i, op) := item in
  let name := op_Name op in
  err_if (bool_decide (name = "")) (Errorf "spec.components.operators[%d].name is empty"
       [AInt (Z.of_nat i)]);;
  err_if (bool_decide (IsDNS1123Label name ≠ [])) (Errorf "spec.components.operators[%d].name %q is invalid: %s"
       [AInt (Z.of_nat i); AStr name; AStrs (IsDNS1123Label name)]);;
  err_if (bool_decide (name ∈ reservedNames))
    (Errorf "spec.components.operators[%d].name %q is reserved for a built-in component"
       [AInt (Z.of_nat i); AStr name]);;
  err_if (bool_decide (name ∈ seen)) (Errorf "spec.components.operators[%d].name %q is duplicated"
       [AInt (Z.of_nat i); AStr name]);;
  let seen := {[name]} ∪ seen in
  ValidateOperatorListeners op;;
  err_if (bool_decide (length (op_Containers op) < 1)%nat || bool_decide (8 < length (op_Containers op))%nat)
    (Errorf "spec.components.operators[%d:%s].containers must contain between 1 and 8 entries, got %d"
       [AInt (Z.of_nat i); AStr name; AInt (Z.of_nat (length (op_Containers op)))]);;
  foldM (container_unique_step i name) ∅ (enumerate (op_Containers op));;
  Ok seen.

Definition validateOperatorUniqueness (ops : list OperatorSpec) : result unit :=
  foldM operator_unique_step ∅ (enumerate ops);; Ok tt.

Definition box_unique_step (seen : gset string) (item : nat * BoxType) : result (gset string) :=
  let '(i, box) := item in
  let name := bt_Name box in
  err_if (bool_decide (name = "")) (Errorf "spec.boxTypes[%d].name is empty"
       [AInt (Z.of_nat i)]);;
  err_if (bool_decide (IsDNS1123Label name ≠ [])) (Errorf "spec.boxTypes[%d].name %q is invalid: %s"
       [AInt (Z.of_nat i); AStr name; AStrs (IsDNS1123Label name)]);;
  err_if (bool_decide (name ∈ seen)) (Errorf "spec.boxTypes[%d].name %q is duplicated"
       [AInt (Z.of_nat i); AStr name]);;
  Ok ({[name]} ∪ seen).

Definition validateBoxTypeUniqueness (boxes : list BoxType) : result unit :=
  err_if (bool_decide (boxes = [])) (Errorf "spec.boxTypes must contain at least one entry" []);;
  foldM box_unique_step ∅ (enumerate boxes);;
  Ok tt.

Definition sidecar_unique_step (seen : gset string) (item : nat * SidecarSpec) : result (gset string) :=
  let '(index, sidecar) := item in
  let name := sd_Name sidecar in
  err_if (bool_decide (IsDNS1123Label name ≠ []))
    (Errorf "spec.components.dataplane.sidecars[%d].name %q is invalid: %s"
       [AInt (Z.of_nat index); AStr name; AStrs (IsDNS1123Label name)]);;
  err_if (bool_decide (name ∈ seen))
    (Errorf "spec.components.dataplane.sidecars[%d].name %q duplicates a role or is reserved"
       [AInt (Z.of_nat index); AStr name]);;
  let seen := {[name]} ∪ seen in
  ValidateListeners name (sd_Listeners sidecar);;
  Ok seen.

Definition validateSidecarUniqueness (components : ComponentsSpec) : result unit :=
  let sidecars := dpl_Sidecars (cmp_Dataplane components) in
  err_if (bool_decide (Z.of_nat (length sidecars) > MaxDataplaneSidecars))
    (Errorf "spec.components.dataplane.sidecars exhausts the listener port range" []);;
  let seen : gset string := list_to_set reservedNames ∪ list_to_set (op_Name <$> cmp_Operators components) in
  foldM sidecar_unique_step seen (enumerate sidecars);;
  Ok tt.
End config_webhook.

(** *** Images and configuration sources *)
Definition validate_image (path : string) (image : ImageRef) : result unit :=
  err_if (bool_decide (ir_Name image = "")) (Errorf "%s.name is required" [AStr path]).

Definition validateComponentImages (components : ComponentsSpec) : result unit :=
  validate_image "spec.components.controlplane.image" (cpl_Image (cmp_Controlplane components));;
  validate_image "spec.components.dataplane.image" (dpl_Image (cmp_Dataplane components));;
  check_all (λ '(i, s),
    validate_image (Sprintf "spec.components.dataplane.sidecars[%d:%s].image" [AInt (Z.of_nat i); AStr (sd_Name s)])
      (sd_Image s)) (enumerate (dpl_Sidecars (cmp_Dataplane components)));;
  match cmp_BirdAdapter components with
  | Some adapter => validate_image "spec.components.birdAdapter.image" (ba_Image adapter)
  | None => Ok tt
  end;;
  check_all (λ '(i, op),
    check_all (λ '(j, c),
      validate_image (Sprintf "spec.components.operators[%d].containers[%d].image"
                        [AInt (Z.of_nat i); AInt (Z.of_nat j)]) (oc_Image c))
      (enumerate (op_Containers op))) (enumerate (cmp_Operators components)).

(** [path.IsAbs]. *)
Definition IsAbs (path : string) : bool := HasPrefix path "/".

Definition validate_source (fieldPath : string) (source : option ConfigSource) : result unit :=
  match source with
  | None => Ok tt
  | Some cs =>
      err_if (bool_decide (VariantsSet source ≠ 1))
        (Errorf "%s must define exactly one of inline or hostPath, got %d" [AStr fieldPath; AInt (VariantsSet source)]);;
      err_if (bool_decide (cs_HostPath cs ≠ "") && negb (IsAbs (cs_HostPath cs)))
        (Errorf "%s.hostPath must be an absolute path" [AStr fieldPath]);;
      err_if (bool_decide (cs_MountPath cs ≠ "") && negb (IsAbs (cs_MountPath cs)))
        (Errorf "%s.mountPath must be an absolute path" [AStr fieldPath])
  end.

Definition validateConfigSources (components : ComponentsSpec) : result unit :=
  validate_source "spec.components.controlplane.config" (cpl_Config (cmp_Controlplane components));;
  validate_source "spec.components.dataplane.config" (dpl_Config (cmp_Dataplane components));;
  check_all (λ '(i, s),
    validate_source (Sprintf "spec.components.dataplane.sidecars[%d:%s].config" [AInt (Z.of_nat i); AStr (sd_Name s)])
      (sd_Config s)) (enumerate (dpl_Sidecars (cmp_Dataplane components)));;
  match cmp_BirdAdapter components with
  | Some adapter => validate_source "spec.components.birdAdapter.config" (ba_Config adapter)
  | None => Ok tt
  end;;
  check_all (λ '(i, op),
    check_all (λ '(j, c),
      validate_source (Sprintf "spec.components.operators[%d:%s].containers[%d:%s].config"
                         [AInt (Z.of_nat i); AStr (op_Name op); AInt (Z.of_nat j); AStr (oc_Name c)]) (oc_Config c))
      (enumerate (op_Containers op))) (enumerate (cmp_Operators components)).

(** *** NUMA *)
Definition validateDisabledNuma (cp : ControlplaneSpec) : result unit :=
  match cpl_Numa cp with Some numa => ValidateControlplaneNuma numa | None => Ok tt end;;
  match cpl_DisabledNuma cp with
  | [] => Ok tt
  | disabledNuma =>
      seen ← foldM (λ (seen : gset Z) n,
        err_if (bool_decide (n < 0))
          (Errorf "spec.components.controlplane.disabledNuma must contain non-negative indices, got %d" [AInt n]);;
        Ok ({[n]} ∪ seen)) ∅ disabledNuma;
      let count := default_Z 1 (cpl_Numa cp) in
      let disabled := Z.of_nat (length (filter (λ index, index < count) (elements seen))) in
      err_if (bool_decide (count ≤ disabled))
        (Errorf "spec.components.controlplane.disabledNuma disables every one of the %d NUMA domains; drop the controlplane from the boxType instead"
           [AInt count])
  end.

(** *** Hugepages *)
Definition validateHugepages `{QuantityLib} (hugepages : option Hugepages) : result unit :=
  match hugepages with
  | None => Ok tt
  | Some h =>
      let check := if bool_decide (hg_Count h = 0) then MkHugepages (hg_Size h) 1 else h in
      wrap_err (λ e, Errorf "spec.components.dataplane.hugepages.%w" [AErr e]) (TotalQuantity check);;
      Ok tt
  end.

(** *** References *)
Definition assertPatchesExist (path : string) (refs : list string) (registry : gset string) : result unit :=
  check_all (λ '(i, name),
    err_if (bool_decide (name ∉ registry))
      (Errorf "%s[%d]: patch %q is not defined in spec.patches" [AStr path; AInt (Z.of_nat i); AStr name]))
    (enumerate refs).

Section refs.
Context `{PatchLib, K8sValidation, MapOrder}.

Definition validate_sidecar_slot (spec : YanetConfigSpec) (path : string) (declared patchSet : gset string)
    (entry : string * BoxDataplaneSidecar) : result unit :=
  let '(name, slot) := entry in
  let field := path +:+ ".components.dataplane.sidecars[" +:+ name +:+ "]" in
  err_if (bool_decide (name ∉ declared))
    (Errorf "%s has no matching spec.components.dataplane.sidecars entry" [AStr field]);;
  assertPatchesExist (field +:+ ".patches") (bs_Patches slot) patchSet;;
  check_all (λ patchName,
    check_all (λ patch,
      if bool_decide (np_Name patch = patchName)
      then wrap_err (λ e, Errorf "%s patch %q: %w" [AStr field; AStr patchName; AErr e])
             (ValidateSidecarPatch (np_Patch patch))
      else Ok tt) (yc_Patches spec)) (bs_Patches slot).

Definition validateDataplaneSidecarRefs (path : string) (spec : YanetConfigSpec) (box : BoxDataplane)
    (patchSet : gset string) : result unit :=
  let declared : gset string := list_to_set (sd_Name <$> dpl_Sidecars (cmp_Dataplane (yc_Components spec))) in
  check_all (validate_sidecar_slot spec path declared patchSet) (map_range (bd_Sidecars box)).

(** The patch list of every wired role; a later entry replaces an earlier one
    with the same key. *)
Definition patch_groups (box : BoxType) (controlplane : BoxComponent) (dataplane : BoxDataplane)
    : gmap string (list string) :=
  let groups : gmap string (list string) :=
    <["dataplane" := bd_Patches dataplane]> (<["controlplane" := bc_Patches controlplane]> ∅) in
  let groups := match bcs_BirdAdapter (bt_Components box) with
                | Some slot => <["birdAdapter" := bc_Patches slot]> groups
                | None => groups
                end in
  let groups := foldl (λ g kv, <[kv.1 := bo_Patches kv.2]> g) groups (map_range (bt_Operators box)) in
  foldl (λ g kv, <[kv.1 := bs_Patches kv.2]> g) groups (map_range (bd_Sidecars dataplane)).

Definition validateBoxPrivateNetwork (spec : YanetConfigSpec) (box : BoxType)
    (controlplane : BoxComponent) (dataplane : BoxDataplane) : result unit :=
  let registry : gmap string RawExtension :=
    foldl (λ r p, <[np_Name p := np_Patch p]> r) ∅ (yc_Patches spec) in
  check_all (λ '(role, names),
    merged ← foldM (λ merged name,
      wrap_err (λ e, Errorf "%s patch %q: %w" [AStr role; AStr name; AErr e])
        (StrategicMergePatch merged (default RawEmpty (registry !! name)))) empty_doc names;
    effective ← wrap_err (λ e, Errorf "decode patched %s: %w" [AStr role; AErr e]) (unmarshal_deployment merged);
    wrap_err (λ e, Errorf "%s: %w" [AStr role; AErr e]) (ValidatePrivatePodNetwork (d_Pod effective)))
    (map_range (patch_groups box controlplane dataplane)).

Definition validate_box_refs (spec : YanetConfigSpec) (patchSet operatorSet : gset string)
    (item : nat * BoxType) : result unit :=
  let '(i, box) := item in
  let path := "spec.boxTypes[" +:+ sprint_d (Z.of_nat i) +:+ ":" +:+ bt_Name box +:+ "]" in
  match bcs_Controlplane (bt_Components box) with
  | None => Err (Errorf "%s.components.controlplane is required" [AStr path])
  | Some controlplane =>
      match bcs_Dataplane (bt_Components box) with
      | None => Err (Errorf "%s.components.dataplane is required" [AStr path])
      | Some dataplane =>
          assertPatchesExist (path +:+ ".components.controlplane.patches") (bc_Patches controlplane) patchSet;;
          assertPatchesExist (path +:+ ".components.dataplane.patches") (bd_Patches dataplane) patchSet;;
          validateDataplaneSidecarRefs path spec dataplane patchSet;;
          match bcs_BirdAdapter (bt_Components box) with
          | None => Ok tt
          | Some slot =>
              match cmp_BirdAdapter (yc_Components spec) with
              | None => Err (Errorf "%s.components.birdAdapter has no matching spec.components.birdAdapter" [AStr path])
              | Some _ => assertPatchesExist (path +:+ ".components.birdAdapter.patches") (bc_Patches slot) patchSet
              end
          end;;
          check_all (λ '(opName, opSlot),
            err_if (bool_decide (opName ∉ operatorSet))
              (Errorf "%s.operators[%s]: operator is not declared in spec.components.operators" [AStr path; AStr opName]);;
            assertPatchesExist (path +:+ ".operators[" +:+ opName +:+ "].patches") (bo_Patches opSlot) patchSet)
            (map_range (bt_Operators box));;
          wrap_err (λ e, Errorf "%s: %w" [AStr path; AErr e])
            (validateBoxPrivateNetwork spec box controlplane dataplane)
      end
  end.

Definition validateBoxTypeRefs (spec : YanetConfigSpec) : result unit :=
  let patchSet : gset string := list_to_set (np_Name <$> yc_Patches spec) in
  let operatorSet : gset string := list_to_set (op_Name <$> cmp_Operators (yc_Components spec)) in
  check_all (validate_box_refs spec patchSet operatorSet) (enumerate (yc_BoxTypes spec)).

(** The empty Deployment the dry run merges into. *)
Definition empty_deployment : Deployment :=
  MkDeployment "" "" empty_meta
    (MkDeploymentSpec None None (MkStrategy "" "")
       (MkPodTemplateSpec ∅ ∅ (MkPodSpec [] [] [] [] "" ∅ [] false false "") "") "")
    (MkDeploymentStatus 0 0 0 "").

Definition dry_run_patch (skeleton : doc) (item : nat * NamedPatch) : result unit :=
  let '(i, p) := item in
  let at_ e := [AInt (Z.of_nat i); AStr (np_Name p); AErr e] in
  match np_Patch p with
  | RawEmpty => Err (Errorf "spec.patches[%d:%s].patch is empty" [AInt (Z.of_nat i); AStr (np_Name p)])
  | RawJSON JNull =>
      Err (Errorf "spec.patches[%d:%s].patch must be a JSON object, not null" [AInt (Z.of_nat i); AStr (np_Name p)])
  | raw =>
      wrap_err (λ e, Errorf "spec.patches[%d:%s].patch is not valid JSON: %w" (at_ e)) (decode_raw_object raw);;
      merged ← wrap_err (λ e, Errorf "spec.patches[%d:%s].patch is not a valid strategic merge fragment of appsv1.Deployment: %w" (at_ e))
                 (StrategicMergePatch skeleton raw);
      wrap_err (λ e, Errorf "spec.patches[%d:%s].patch has invalid Deployment field types: %w" (at_ e))
        (unmarshal_deployment merged);;
      Ok tt
  end.

Definition dryRunPatches (patches : list NamedPatch) : result unit :=
  skeleton ← wrap_err (λ e, Errorf "internal: marshal empty Deployment: %w" [AErr e])
               (marshal_deployment empty_deployment);
  check_all (dry_run_patch skeleton) (enumerate patches).

Context `{QuantityLib}.

Definition validateYanetConfig (spec : YanetConfigSpec) : result unit :=
  err_if (bool_decide (yc_UpdateWindow spec < 0))
    (Errorf "spec.updateWindow must be >= 0, got %d" [AInt (yc_UpdateWindow spec)]);;
  err_if (bool_decide (yc_UpdateWindow spec > maxUpdateWindow))
    (Errorf "spec.updateWindow must not exceed %d seconds, got %d" [AInt maxUpdateWindow; AInt (yc_UpdateWindow spec)]);;
  validatePatchUniqueness (yc_Patches spec);;
  dryRunPatches (yc_Patches spec);;
  validateOperatorUniqueness (cmp_Operators (yc_Components spec));;
  validateSidecarUniqueness (yc_Components spec);;
  validateBoxTypeUniqueness (yc_BoxTypes spec);;
  validateBoxTypeRefs spec;;
  validateHugepages (dpl_Hugepages (cmp_Dataplane (yc_Components spec)));;
  wrap_err (λ e, Errorf "spec.components.dataplane.%w" [AErr e])
    (ValidateNetworkAttachments (default [] (dpl_Networks (cmp_Dataplane (yc_Components spec)))));;
  validateComponentImages (yc_Components spec);;
  validateConfigSources (yc_Components spec);;
  validateDisabledNuma (cmp_Controlplane (yc_Components spec)).

(** [ValidateCreate] and [ValidateUpdate] of the config webhook. *)
Definition config_admission (name : string) (spec : YanetConfigSpec) : result unit :=
  validateYanetConfigIdentity name;; validateYanetConfig spec.

(** [ValidateDelete] of the config webhook: no error and no warnings. *)
Definition config_ValidateDelete : result unit := Ok tt.
End refs.

(** ** Yanet *)
Section yanet_webhook.
Context `{QuantityLib, K8sValidation, MapOrder}.

Definition validateOverrideDisabledNuma (disabled : list Z) : result unit :=
  check_all (λ n, err_if (bool_decide (n < 0))
    (Errorf "spec.components.controlplane.disabledNuma must contain non-negative indices, got %d" [AInt n])) disabled.

Definition validateHardcodedContainerKeys (fieldName containerName : string)
    (ovr : option YanetComponentOverride) : result unit :=
  match ovr with
  | None => Ok tt
  | Some ovr =>
      check_all (λ '(k, container),
        err_if (bool_decide (k ≠ containerName))
          (Errorf "spec.components.%s.containers[%q]: only key %q is allowed for fixed workloads"
             [AStr fieldName; AStr k; AStr containerName]);;
        err_if (bool_decide (is_Some (co_Enabled container)))
          (Errorf "spec.components.%s.containers[%q].enabled is only supported for dataplane native sidecars"
             [AStr fieldName; AStr k])) (map_range (cov_Containers ovr))
  end.

Definition validateDataplaneOverrideShape (override : option YanetDataplaneOverride) : result unit :=
  match override with
  | None => Ok tt
  | Some override =>
      validateHardcodedContainerKeys "dataplane" DataplaneContainerName (Some (dpo_Component override));;
      wrap_err (λ e, Errorf "spec.components.dataplane.%w" [AErr e])
        (ValidateNetworkAttachments (default [] (dpo_Networks override)));;
      validateHugepages (dpo_Hugepages override);;
      check_all (λ '(name, _), err_if (bool_decide (IsDNS1123Label name ≠ []))
        (Errorf "spec.components.dataplane.sidecars[%q] is invalid: %s" [AStr name; AStrs (IsDNS1123Label name)]))
        (map_range (dpo_Sidecars override))
  end.

Definition validateYanetComponentOverrideShape (overrides : option YanetComponentsOverride) : result unit :=
  match overrides with
  | None => Ok tt
  | Some overrides =>
      match yo_Controlplane overrides with
      | None => Ok tt
      | Some cp =>
          validateHardcodedContainerKeys "controlplane" "controlplane" (Some (cpo_Component cp));;
          validateOverrideDisabledNuma (default [] (cpo_DisabledNuma cp))
      end;;
      validateDataplaneOverrideShape (yo_Dataplane overrides);;
      validateHardcodedContainerKeys "birdAdapter" "bird-adapter" (yo_BirdAdapter overrides);;
      check_all (λ '(operatorName, override),
        check_all (λ '(containerName, container),
          err_if (bool_decide (is_Some (co_Enabled container)))
            (Errorf "spec.components.operators[%q].containers[%q].enabled is only supported for dataplane native sidecars"
               [AStr operatorName; AStr containerName])) (map_range (cov_Containers override)))
        (map_range (yo_Operators overrides))
  end.

Definition validateDataplaneOverride (override : option YanetDataplaneOverride) (declared : DataplaneSpec)
    (box : option BoxDataplane) : result unit :=
  match override with
  | None => Ok tt
  | Some override =>
      let names : gset string := list_to_set (sd_Name <$> dpl_Sidecars declared) in
      check_all (λ '(name, _),
        err_if (bool_decide (name ∉ names))
          (Errorf "spec.components.dataplane.sidecars[%q] has no matching YanetConfig sidecar" [AStr name]);;
        let unwired := Errorf "spec.components.dataplane.sidecars[%q] is not wired by the selected boxType" [AStr name] in
        match box with
        | None => Err unwired
        | Some box => err_if (bool_decide (bd_Sidecars box !! name = None)) unwired
        end) (map_range (dpo_Sidecars override))
  end.

(** [declaredSet]: on duplicate names the last declaration wins. *)
Definition declared_set (operators : list OperatorSpec) : gmap string OperatorSpec :=
  foldl (λ m op, <[op_Name op := op]> m) ∅ operators.

Definition validate_operator_override (declared : ComponentsSpec) (box : BoxType)
    (entry : string * YanetComponentOverride) : result unit :=
  let '(opName, ovr) := entry in
  match declared_set (cmp_Operators declared) !! opName with
  | None => Err (Errorf "spec.components.operators[%q] is not declared in YanetConfig.spec.components.operators" [AStr opName])
  | Some op =>
      err_if (bool_decide (bt_Operators box !! opName = None))
        (Errorf "spec.components.operators[%q] is not wired by the selected boxType" [AStr opName]);;
      let containerNames : gset string := list_to_set (oc_Name <$> op_Containers op) in
      check_all (λ '(cname, _), err_if (bool_decide (cname ∉ containerNames))
        (Errorf "spec.components.operators[%q].containers[%q] is not declared in YanetConfig.spec.components.operators[%q].containers"
          [AStr opName; AStr cname; AStr opName]))
        (map_range (cov_Containers ovr))
  end.

Definition ValidateYanetComponentOverrides (overrides : option YanetComponentsOverride)
    (declared : option ComponentsSpec) (box : option BoxType) : result unit :=
  validateYanetComponentOverrideShape overrides;;
  match overrides, declared, box with
  | None, _, _ => Ok tt
  | _, None, _ => Err (Errorf "YanetConfig component palette is nil" [])
  | _, _, None => Err (Errorf "selected YanetConfig boxType is nil" [])
  | Some overrides, Some declared, Some box =>
      validateDataplaneOverride (yo_Dataplane overrides) (cmp_Dataplane declared) (bcs_Dataplane (bt_Components box));;
      match yo_BirdAdapter overrides with
      | None => Ok tt
      | Some _ =>
          err_if (bool_decide (¬ is_Some (cmp_BirdAdapter declared)))
            (Errorf "spec.components.birdAdapter override has no matching YanetConfig component" []);;
          err_if (bool_decide (¬ is_Some (bcs_BirdAdapter (bt_Components box))))
            (Errorf "spec.components.birdAdapter override is not wired by the selected boxType" [])
      end;;
      check_all (validate_operator_override declared box) (map_range (yo_Operators overrides))
  end.

(** The overrides that can affect the selected box: entries for unwired roles
    and for containers the palette no longer declares are dropped. *)
Definition effective_operator (declared : ComponentsSpec) (name : string) (override : YanetComponentOverride)
    : YanetComponentOverride :=
  match list_find (λ o, op_Name o = name) (cmp_Operators declared) with
  | None => override
  | Some (_, operator) =>
      let containerNames : gset string := list_to_set (oc_Name <$> op_Containers operator) in
      MkComponentOverride (cov_Enabled override)
        (foldl (λ m kv, if bool_decide (kv.1 ∉ containerNames) then delete kv.1 m else m)
           (cov_Containers override) (map_range (cov_Containers override)))
  end.

Definition effective_overrides (overrides : YanetComponentsOverride) (declared : ComponentsSpec)
    (box : BoxType) : YanetComponentsOverride :=
  MkComponentsOverride
    (match bcs_Controlplane (bt_Components box) with None => None | Some _ => yo_Controlplane overrides end)
    (match bcs_Dataplane (bt_Components box) with
     | None => None
     | Some slot =>
         (λ dp, MkDataplaneOverride (dpo_Component dp) (dpo_Hugepages dp) (dpo_Networks dp)
                  (foldl (λ m kv, if bool_decide (bd_Sidecars slot !! kv.1 = None) then delete kv.1 m else m)
                     (dpo_Sidecars dp) (map_range (dpo_Sidecars dp))))
           <$> yo_Dataplane overrides
     end)
    (match bcs_BirdAdapter (bt_Components box) with None => None | Some _ => yo_BirdAdapter overrides end)
    (foldl (λ m kv,
       if bool_decide (bt_Operators box !! kv.1 = None) then delete kv.1 m
       else <[kv.1 := effective_operator declared kv.1 kv.2]> m)
       (yo_Operators overrides) (map_range (yo_Operators overrides))).

Definition ValidateEffectiveYanetComponentOverrides (overrides : option YanetComponentsOverride)
    (declared : option ComponentsSpec) (box : option BoxType) : result unit :=
  match overrides, declared, box with
  | None, _, _ => Ok tt
  | _, None, _ => Err (Errorf "YanetConfig component palette is nil" [])
  | _, _, None => Err (Errorf "selected YanetConfig boxType is nil" [])
  | Some o, Some d, Some b =>
      ValidateYanetComponentOverrides (Some (effective_overrides o d b)) declared box
  end.

(** [validate]: the warnings of a successful admission, or the rejection.
    [config] is the answer of the API server. *)
Definition validate_yanet (name : string) (spec : YanetSpec) (config : result YanetConfigSpec)
    : result (list goerror) :=
  err_if (63 <? slen name)%nat (Errorf "metadata.name must fit in a 63-character workload label" []);;
  err_if (bool_decide (ys_BoxType spec = "")) (Errorf "spec.boxType is required" []);;
  err_if (bool_decide (IsDNS1123Label (ys_BoxType spec) ≠ []))
    (Errorf "spec.boxType %q is invalid: %s" [AStr (ys_BoxType spec); AStrs (IsDNS1123Label (ys_BoxType spec))]);;
  validateYanetComponentOverrideShape (ys_Components spec);;
  match config with
  | Err e =>
      Ok [Errorf "could not get cluster-wide YanetConfig %q: %v — validating shape only" [AStr YanetConfigName; AErr e]]
  | Ok config =>
      match list_find (λ b, bt_Name b = ys_BoxType spec) (yc_BoxTypes config) with
      | None => Err (Errorf "spec.boxType %q is not defined in the cluster YanetConfig" [AStr (ys_BoxType spec)])
      | Some (_, box) =>
          ValidateYanetComponentOverrides (ys_Components spec) (Some (yc_Components config)) (Some box);;
          Ok []
      end
  end.

Definition ValidateCreate (name : string) (spec : YanetSpec) (config : result YanetConfigSpec)
    : result (list goerror) := validate_yanet name spec config.

Definition ValidateDelete : result (list goerror) := Ok [].

Definition ValidateUpdate (old : YanetSpec) (name : string) (deletionTimestamp : option Z) (spec : YanetSpec)
    (config : result YanetConfigSpec) : result (list goerror) :=
  match deletionTimestamp with
  | Some _ => Ok []
  | None =>
      err_if (bool_decide (ys_BoxType old ≠ ys_BoxType spec))
        (Errorf "spec.boxType is immutable (was %q, now %q)" [AStr (ys_BoxType old); AStr (ys_BoxType spec)]);;
      validate_yanet name spec config
  end.
End yanet_webhook.
