(* ===== verification/Program.v ===== *)
(** * Programs over the API server

    The reconcilers run against an API server, other controllers and other
    goroutines of the same process.  A reconcile function is a [prog]: a tree of
    calls whose continuations receive whatever the environment answers.  A run
    of a program records every call with its answer, and nothing is assumed
    about the answers: the server may fail, return stale or foreign objects, or
    change them between two calls.

    The shared state of the process is behind calls too: [ReadGlobal] is one
    locked read of the YanetConfig snapshot, [RefreshSnapshot] the locked
    read-and-publish of yanetconfig_controller.go, [Throttle] the locked section
    of [checkUpdateRequeue]. *)

From S2P Require Import Prelude GoLib K8s Metrics Api Resolve Labels Builder Service.
#[local] Open Scope Z_scope.

(** ** Objects *)
Record Condition := MkCondition {
  cd_Type : string;
  cd_Status : string;
  cd_ObservedGeneration : Z;
  cd_LastTransitionTime : Z;
  cd_Reason : string;
  cd_Message : string;
}.
#[export] Instance Condition_eq_dec : EqDecision Condition.
Proof. solve_decision. Defined.

Record SyncStatus := MkSyncStatus {
  sy_Synced : list string;
  sy_OutOfSync : list string;
  sy_SyncWaiting : list string;
  sy_Error : list string;
  sy_Disabled : list string;
}.
#[export] Instance SyncStatus_eq_dec : EqDecision SyncStatus.
Proof. solve_decision. Defined.

Record NodeStatus := MkNodeStatus {
  ns_NodeName : string;
  ns_LastUpdateTime : option Z;
  ns_Deployments : gmap string string;
  ns_NumaCount : Z;
}.
#[export] Instance NodeStatus_eq_dec : EqDecision NodeStatus.
Proof. solve_decision. Defined.

Record YanetStatus := MkYanetStatus {
  st_Pods : gmap string (list string);
  st_Sync : SyncStatus;
  st_Conditions : list Condition;
  st_NodesStatus : gmap string NodeStatus;
  st_Services : list string;
}.
#[export] Instance YanetStatus_eq_dec : EqDecision YanetStatus.
Proof. solve_decision. Defined.

Record Yanet := MkYanet {
  y_APIVersion : string;
  y_Kind : string;
  y_Meta : ObjectMeta;
  y_Spec : YanetSpec;
  y_Status : YanetStatus;
}.
Definition y_Name (y : Yanet) : string := om_Name (y_Meta y).
Definition y_Namespace (y : Yanet) : string := om_Namespace (y_Meta y).
Definition set_y_Meta (x : ObjectMeta) (y : Yanet) : Yanet :=
  MkYanet (y_APIVersion y) (y_Kind y) x (y_Spec y) (y_Status y).
Definition set_y_Status (x : YanetStatus) (y : Yanet) : Yanet :=
  MkYanet (y_APIVersion y) (y_Kind y) (y_Meta y) (y_Spec y) x.

Record YanetConfig := MkYanetConfig { yc_Meta : ObjectMeta; yc_Spec : YanetConfigSpec }.

Record Node := MkNode { n_Name : string; n_Labels : gmap string string; n_Allocatable : ResourceList }.

Record ConfigMap := MkConfigMap { cm_Meta : ObjectMeta; cm_Data : gmap string string; cm_other : string }.
#[export] Instance ConfigMap_eq_dec : EqDecision ConfigMap.
Proof. solve_decision. Defined.

Record Pod := MkPod { p_Meta : ObjectMeta; p_Spec : PodSpec; p_Phase : string }.

Record ReplicaSet := MkReplicaSet {
  rs_Meta : ObjectMeta;
  rs_Replicas : option Z;
  rs_Template : PodTemplateSpec;
  rs_StatusReplicas : Z;
  rs_ObservedGeneration : Z;
}.

(** ** Calls *)
Inductive call :=
| ReadGlobal
| RefreshSnapshot
| Throttle (updateWindow : Z) (updateHost : string)
| Now
| GetConfig
| GetYanet (namespace name : string)
| ListYanets
| UpdateYanet (y : Yanet)
| UpdateYanetStatus (y : Yanet)
| ListNodes (selector : gmap string string)
| GetDeployment (namespace name : string)
| ListDeployments (namespace : option string)
| CreateDeployment (d : Deployment)
| UpdateDeployment (dryRun : bool) (d : Deployment)
| DeleteDeployment (d : Deployment)
| GetConfigMap (namespace name : string)
| ListConfigMaps (namespace : string) (selector : gmap string string)
| CreateConfigMap (c : ConfigMap)
| UpdateConfigMap (c : ConfigMap)
| DeleteConfigMap (c : ConfigMap)
| ListPods (namespace : string) (selector : gmap string string)
| ListReplicaSets (namespace : string)
| GetService (namespace name : string)
| ListServices (selector : gmap string string)
| CreateService (s : Service)
| UpdateService (s : Service)
| DeleteService (s : Service)
| EmitEvent (reason : string)
| Observe (o : observation).

(** What a call answers.  [ReadGlobal] answers [None] when the reconciler has no
    [GlobalConfig]; a successful write answers the object the server stored. *)
Definition answer (c : call) : Type :=
  match c with
  | ReadGlobal => option YanetConfigSpec
  | RefreshSnapshot => result (option YanetConfig)
  | Throttle _ _ => Z
  | Now => Z
  | GetConfig => result YanetConfig
  | GetYanet _ _ => result Yanet
  | ListYanets => result (list Yanet)
  | UpdateYanet _ | UpdateYanetStatus _ => result Yanet
  | ListNodes _ => result (list Node)
  | GetDeployment _ _ => result Deployment
  | ListDeployments _ => result (list Deployment)
  | CreateDeployment _ | UpdateDeployment _ _ => result Deployment
  | GetConfigMap _ _ => result ConfigMap
  | ListConfigMaps _ _ => result (list ConfigMap)
  | CreateConfigMap _ | UpdateConfigMap _ => result ConfigMap
  | ListPods _ _ => result (list Pod)
  | ListReplicaSets _ => result (list ReplicaSet)
  | GetService _ _ => result Service
  | ListServices _ => result (list Service)
  | CreateService _ | UpdateService _ => result Service
  | DeleteDeployment _ | DeleteConfigMap _ | DeleteService _ => result unit
  | EmitEvent _ | Observe _ => unit
  end.

(** The calls that ask the server to change something.  A dry-run update runs
    admission only, but the source guards it like a write. *)
Definition is_write (c : call) : bool :=
  match c with
  | UpdateYanet _ | UpdateYanetStatus _ | CreateDeployment _ | UpdateDeployment _ _ | DeleteDeployment _
  | CreateConfigMap _ | UpdateConfigMap _ | DeleteConfigMap _ | CreateService _ | UpdateService _
  | DeleteService _ | EmitEvent _ => true
  | _ => false
  end.

(** ** Programs and their runs *)
Inductive prog (A : Type) : Type :=
| Ret (a : A)
| Call (c : call) (k : answer c → prog A).
Arguments Ret {A} a.
Arguments Call {A} c k.

Fixpoint prog_bind_def {A B} (f : A → prog B) (p : prog A) : prog B :=
  match p with
  | Ret a => f a
  | Call c k => Call c (λ a, prog_bind_def f (k a))
  end.
#[export] Instance prog_bind : MBind prog := @prog_bind_def.
#[export] Instance prog_ret : MRet prog := @Ret.
#[export] Instance prog_fmap : FMap prog := λ A B f p, p ≫= λ a, Ret (f a).

Definition invoke (c : call) : prog (answer c) := Call c Ret.

(** [x, err := f(); if err != nil { return err }]. *)
Definition try {A B} (p : prog (result A)) (k : A → prog (result B)) : prog (result B) :=
  p ≫= λ r, match r with Ok a => k a | Err e => Ret (Err e) end.

Declare Scope prog_scope.
Delimit Scope prog_scope with prog.
Notation "'let!' x ':=' p 'in' k" := (try p (λ x, k))
  (at level 200, x pattern, p at level 100, k at level 200, right associativity) : prog_scope.
Notation "'do!' p 'in' k" := (try p (λ _, k))
  (at level 200, p at level 100, k at level 200, right associativity) : prog_scope.
#[global] Open Scope prog_scope.

(** A loop over a list with an accumulator. *)
Fixpoint foldP {S A} (f : S → A → prog S) (s : S) (l : list A) : prog S :=
  match l with
  | [] => Ret s
  | x :: l => f s x ≫= λ s', foldP f s' l
  end.

(** The same with an early return on error. *)
Fixpoint foldPR {S A} (f : S → A → prog (result S)) (s : S) (l : list A) : prog (result S) :=
  match l with
  | [] => Ret (Ok s)
  | x :: l => let! s' := f s x in foldPR f s' l
  end.

Inductive event := Ev (c : call) (a : answer c).
Definition ev_call (e : event) : call := match e with Ev c _ => c end.
Definition trace := list event.

(** [run p t r]: the environment can answer the calls of [p] so that it makes
    exactly the calls of [t] and returns [r]. *)
Fixpoint run {A} (p : prog A) (t : trace) (r : A) : Prop :=
  match p with
  | Ret a => t = [] ∧ r = a
  | Call c k => ∃ a t', t = Ev c a :: t' ∧ run (k a) t' r
  end.

(** ** Execution against a handler *)
Record handler (S : Type) := MkHandler { handle : S → ∀ c, S * answer c }.
Arguments handle {S} h s c.

Fixpoint exec {S A} (h : handler S) (s : S) (p : prog A) : S * trace * A :=
  match p with
  | Ret a => (s, [], a)
  | Call c k =>
      let '(s1, a) := handle h s c in
      let '(s2, t, r) := exec h s1 (k a) in
      (s2, Ev c a :: t, r)
  end.

Lemma exec_run {S A} (h : handler S) s (p : prog A) :
  run p (exec h s p).1.2 (exec h s p).2.
Proof.
  revert s; induction p as [a|c k IH]; intros s; simpl; [done|].
  destruct (handle h s c) as [s1 a]. specialize (IH a s1).
  destruct (exec h s1 (k a)) as [[s2 t] r]. simpl in *. eauto.
Qed.

Lemma run_bind {A B} (p : prog A) (f : A → prog B) t r :
  run (p ≫= f) t r ↔ ∃ t1 t2 a, t = t1 ++ t2 ∧ run p t1 a ∧ run (f a) t2 r.
Proof.
  revert t; induction p as [b|c k IH]; intros t; unfold mbind; simpl.
  - split.
    + intros H. exists [], t, b. done.
    + intros (t1 & t2 & a & -> & [-> ->] & H). done.
  - split.
    + intros (a & t' & -> & H). apply IH in H as (t1 & t2 & b & -> & H1 & H2).
      exists (Ev c a :: t1), t2, b. split_and!; [done|by eauto|done].
    + intros (t1 & t2 & b & -> & (a & t' & -> & H1) & H2).
      exists a, (t' ++ t2). split; [done|]. apply IH. eauto 10.
Qed.

Lemma run_bind_invoke c {B} (f : answer c → prog B) t r :
  run (invoke c ≫= f) t r → ∃ a t', t = Ev c a :: t' ∧ run (f a) t' r.
Proof. intros (t1 & t2 & b & -> & (a & t' & -> & -> & ->) & H)%run_bind. eauto. Qed.

(** Every program has a run, whatever the environment answers: the calls of a
    reconcile are finitely many on every path. *)
Lemma run_exists {A} (p : prog A) (env : ∀ c, answer c) : ∃ t r, run p t r.
Proof.
  induction p as [a|c k IH]; simpl; [by exists [], a|].
  destruct (IH (env c)) as (t & r & H). by exists (Ev c (env c) :: t), r, (env c), t.
Qed.

(** ** A program logic for trace properties

    [wp Φ p h Q]: started after the history [h], every call of every run of [p]
    satisfies [Φ] at its point of the history, and the result satisfies [Q] with
    the extended history. *)
Definition calls_ok (Φ : trace → call → Prop) (h t : trace) : Prop :=
  ∀ t1 e t2, t = t1 ++ e :: t2 → Φ (h ++ t1) (ev_call e).

Definition wp {A} (Φ : trace → call → Prop) (p : prog A) (h : trace) (Q : A → trace → Prop) : Prop :=
  ∀ t r, run p t r → calls_ok Φ h t ∧ Q r (h ++ t).

Section wp.
Context (Φ : trace → call → Prop).

Lemma calls_ok_nil h : calls_ok Φ h [].
Proof. intros [] ? ?; done. Qed.

Lemma calls_ok_cons h e t :
  calls_ok Φ h (e :: t) ↔ Φ h (ev_call e) ∧ calls_ok Φ (h ++ [e]) t.
Proof.
  split.
  - intros H. split; [generalize (H [] e t eq_refl); by rewrite app_nil_r|].
    intros t1 e' t2 ->. generalize (H (e :: t1) e' t2 eq_refl). by rewrite <-app_assoc.
  - intros [H1 H2] [|e1 t1] e' t2; intros [= -> ->]; [by rewrite app_nil_r|].
    generalize (H2 t1 e' t2 eq_refl). by rewrite <-app_assoc.
Qed.

Lemma calls_ok_app h t1 t2 :
  calls_ok Φ h (t1 ++ t2) ↔ calls_ok Φ h t1 ∧ calls_ok Φ (h ++ t1) t2.
Proof.
  revert h; induction t1 as [|e t1 IH]; intros h; simpl.
  - rewrite app_nil_r. generalize (calls_ok_nil h). tauto.
  - rewrite !calls_ok_cons, IH, <-app_assoc. simpl. tauto.
Qed.

Lemma wp_Ret {A} (a : A) h (Q : A → trace → Prop) : Q a h → wp Φ (Ret a) h Q.
Proof. intros H t r [-> ->]. rewrite app_nil_r. auto using calls_ok_nil. Qed.

Lemma wp_Call {A} c (k : answer c → prog A) h Q :
  Φ h c → (∀ a, wp Φ (k a) (h ++ [Ev c a]) Q) → wp Φ (Call c k) h Q.
Proof.
  intros Hc Hk t r (a & t' & -> & Hr). destruct (Hk a t' r Hr) as [H1 H2].
  rewrite calls_ok_cons. rewrite <-app_assoc in H2. auto.
Qed.

Lemma wp_bind {A B} (p : prog A) (f : A → prog B) h Q :
  wp Φ p h (λ a h', wp Φ (f a) h' Q) → wp Φ (p ≫= f) h Q.
Proof.
  intros Hp t r (t1 & t2 & a & -> & H1 & H2)%run_bind.
  destruct (Hp t1 a H1) as [O1 Hf]. destruct (Hf t2 r H2) as [O2 HQ].
  rewrite calls_ok_app, app_assoc. auto.
Qed.

Lemma wp_invoke c h (Q : answer c → trace → Prop) :
  Φ h c → (∀ a, Q a (h ++ [Ev c a])) → wp Φ (invoke c) h Q.
Proof. intros Hc HQ. apply wp_Call; [done|]. intros a. by apply wp_Ret. Qed.

Lemma wp_bind_invoke c {B} (f : answer c → prog B) h Q :
  Φ h c → (∀ a, wp Φ (f a) (h ++ [Ev c a]) Q) → wp Φ (invoke c ≫= f) h Q.
Proof. intros. apply wp_bind, wp_invoke; auto. Qed.

Lemma wp_mono {A} (p : prog A) h (Q Q' : A → trace → Prop) :
  wp Φ p h Q → (∀ a h', Q a h' → Q' a h') → wp Φ p h Q'.
Proof. intros Hp HQ t r Hr. destruct (Hp t r Hr). auto. Qed.

Lemma wp_try {A B} (p : prog (result A)) (k : A → prog (result B)) h (Q : result B → trace → Prop) :
  wp Φ p h (λ r h', match r with Ok a => wp Φ (k a) h' Q | Err e => Q (Err e) h' end) →
  wp Φ (try p k) h Q.
Proof.
  intros H. apply wp_bind. eapply wp_mono; [exact H|]. intros [a|e] h' Hr; simpl; [done|].
  by apply wp_Ret.
Qed.

Lemma wp_foldP {S A} (I : S → trace → Prop) (f : S → A → prog S) s l h (Q : S → trace → Prop) :
  I s h → (∀ s x h, x ∈ l → I s h → wp Φ (f s x) h I) → (∀ s h, I s h → Q s h) →
  wp Φ (foldP f s l) h Q.
Proof.
  intros H0 Hs HQ. revert s h H0. induction l as [|x l IH]; intros s h H0; simpl.
  - apply wp_Ret. auto.
  - apply wp_bind. eapply wp_mono; [apply Hs; [set_solver|done]|].
    intros s' h' HI. apply IH; [|done]. intros. apply Hs; [set_solver|done].
Qed.

Lemma wp_foldPR {S A} (I : S → trace → Prop) (f : S → A → prog (result S)) s l h
    (Q : result S → trace → Prop) :
  I s h →
  (∀ s x h, x ∈ l → I s h →
     wp Φ (f s x) h (λ r h', match r with Ok s' => I s' h' | Err e => Q (Err e) h' end)) →
  (∀ s h, I s h → Q (Ok s) h) →
  wp Φ (foldPR f s l) h Q.
Proof.
  intros H0 Hs HQ. revert s h H0. induction l as [|x l IH]; intros s h H0; simpl.
  - apply wp_Ret. auto.
  - apply wp_try. eapply wp_mono; [apply Hs; [set_solver|done]|].
    intros [s'|e] h' HI; [|done]. apply IH; [|done]. intros. apply Hs; [set_solver|done].
Qed.

(** The same with the elements done so far in the invariant. *)
Lemma wp_foldP_done {S A} (I : list A → S → trace → Prop) (f : S → A → prog S) s l h (Q : S → trace → Prop) :
  I [] s h → (∀ done s x h, x ∈ l → I done s h → wp Φ (f s x) h (I (done ++ [x]))) → (∀ s h, I l s h → Q s h) →
  wp Φ (foldP f s l) h Q.
Proof.
  intros H0 Hs HQ. cut (∀ done rest s h, l = done ++ rest → I done s h → wp Φ (foldP f s rest) h Q).
  { intros Hc. by apply (Hc [] l). }
  intros done rest. revert done. induction rest as [|x rest IH]; intros done s' h' El HI; simpl.
  - apply wp_Ret, HQ. by rewrite El, app_nil_r.
  - apply wp_bind. eapply wp_mono; [apply (Hs done); [rewrite El; set_solver|done]|].
    intros s'' h'' HI'. apply (IH (done ++ [x])); [by rewrite El, <-app_assoc|done].
Qed.

Lemma wp_foldPR_done {S A} (I : list A → S → trace → Prop) (f : S → A → prog (result S)) s l h
    (Q : result S → trace → Prop) :
  I [] s h →
  (∀ done s x h, x ∈ l → I done s h →
     wp Φ (f s x) h (λ r h', match r with Ok s' => I (done ++ [x]) s' h' | Err e => Q (Err e) h' end)) →
  (∀ s h, I l s h → Q (Ok s) h) →
  wp Φ (foldPR f s l) h Q.
Proof.
  intros H0 Hs HQ. cut (∀ done rest s h, l = done ++ rest → I done s h → wp Φ (foldPR f s rest) h Q).
  { intros Hc. by apply (Hc [] l). }
  intros done rest. revert done. induction rest as [|x rest IH]; intros done s' h' El HI; simpl.
  - apply wp_Ret, HQ. by rewrite El, app_nil_r.
  - apply wp_try. eapply wp_mono; [apply (Hs done); [rewrite El; set_solver|done]|].
    intros [s''|e] h'' HI'; [|done]. apply (IH (done ++ [x])); [by rewrite El, <-app_assoc|done].
Qed.

(** The history only grows. *)
Lemma wp_grows {A} (p : prog A) h (Q : A → trace → Prop) :
  wp Φ p h Q → wp Φ p h (λ r h', Q r h' ∧ ∃ t, h' = h ++ t).
Proof. intros Hp t r Hr. destruct (Hp t r Hr). eauto. Qed.

(** Soundness: a proved program satisfies the call condition in every run. *)
Lemma wp_sound {A} (p : prog A) Q t r :
  wp Φ p [] Q → run p t r → (∀ t1 e t2, t = t1 ++ e :: t2 → Φ t1 (ev_call e)) ∧ Q r t.
Proof. intros Hp Hr. destruct (Hp t r Hr) as [H1 H2]. split; [|done]. intros. by eapply H1. Qed.
End wp.

(** ** Client helpers

    [retry.RetryOnConflict] calls the function again as long as it fails with a
    conflict, up to its backoff limit, and returns the last error; the captured
    variables of the closure are the state [S].  [controllerutil.CreateOrUpdate]
    reads the object, runs the mutate function on it (or on the given object when
    it does not exist) and writes the result if it differs.
    [controllerutil.SetControllerReference] makes the owner the controller of the
    object or fails when another owner controls it. *)
Inductive retried {S} (fn : S → prog (S * result unit)) : S → trace → S * result unit → Prop :=
| retried_last s t r : run (fn s) t r → retried fn s t r
| retried_again s s' e t t' r :
    run (fn s) t (s', Err e) → IsConflict e = true → retried fn s' t' r → retried fn s (t ++ t') r.

Inductive created_or_updated (c : ConfigMap) (mutate : ConfigMap → prog (result ConfigMap))
    : trace → result unit → Prop :=
| cou_get_failed e :
    IsNotFound e = false →
    created_or_updated c mutate [Ev (GetConfigMap (om_Namespace (cm_Meta c)) (om_Name (cm_Meta c))) (Err e)] (Err e)
| cou_create_refused e t e' :
    IsNotFound e = true → run (mutate c) t (Err e') →
    created_or_updated c mutate
      (Ev (GetConfigMap (om_Namespace (cm_Meta c)) (om_Name (cm_Meta c))) (Err e) :: t) (Err e')
| cou_created e t c' res :
    IsNotFound e = true → run (mutate c) t (Ok c') →
    created_or_updated c mutate
      (Ev (GetConfigMap (om_Namespace (cm_Meta c)) (om_Name (cm_Meta c))) (Err e) :: t ++ [Ev (CreateConfigMap c') res])
      ((λ _, tt) <$> res)
| cou_update_refused x t e' :
    run (mutate x) t (Err e') →
    created_or_updated c mutate
      (Ev (GetConfigMap (om_Namespace (cm_Meta c)) (om_Name (cm_Meta c))) (Ok x) :: t) (Err e')
| cou_unchanged x t :
    run (mutate x) t (Ok x) →
    created_or_updated c mutate
      (Ev (GetConfigMap (om_Namespace (cm_Meta c)) (om_Name (cm_Meta c))) (Ok x) :: t) (Ok tt)
| cou_updated x t c' res :
    run (mutate x) t (Ok c') → c' ≠ x →
    created_or_updated c mutate
      (Ev (GetConfigMap (om_Namespace (cm_Meta c)) (om_Name (cm_Meta c))) (Ok x) :: t ++ [Ev (UpdateConfigMap c') res])
      ((λ _, tt) <$> res).

Class ClientUtil := {
  RetryOnConflict : ∀ {S}, (S → prog (S * result unit)) → S → prog (S * result unit);
  RetryOnConflict_spec : ∀ S (fn : S → prog (S * result unit)) s t r,
    run (RetryOnConflict fn s) t r → retried fn s t r;
  CreateOrUpdate : ConfigMap → (ConfigMap → prog (result ConfigMap)) → prog (result unit);
  CreateOrUpdate_spec : ∀ c mutate t r,
    run (CreateOrUpdate c mutate) t r → created_or_updated c mutate t r;
  SetControllerReference : Yanet → ObjectMeta → result ObjectMeta;
}.

(** Reasoning under an assumption on the answers: it may be used as soon as the
    history satisfies it. *)
Lemma wp_assume {A} (P : event → Prop) (Φ : trace → call → Prop) (p : prog A) h (Q : A → trace → Prop) :
  (Forall P h → wp (λ h c, Forall P h → Φ h c) p h (λ r h', Forall P h' → Q r h')) →
  wp (λ h c, Forall P h → Φ h c) p h (λ r h', Forall P h' → Q r h').
Proof.
  intros Hp t r Hr. split.
  - intros t1 e t2 -> Hh. destruct (Hp (proj1 (proj1 (Forall_app _ _ _) Hh)) _ _ Hr) as [Hc _]. by eapply Hc.
  - intros Hh. destruct (Hp (proj1 (proj1 (Forall_app _ _ _) Hh)) _ _ Hr) as [_ HQ]. by apply HQ.
Qed.

Section client_util.
Context `{ClientUtil} (Φ : trace → call → Prop).

(** A retried closure keeps an invariant from one attempt to the next. *)
Lemma wp_retry {S} (I : S → trace → Prop) (fn : S → prog (S * result unit)) s h
    (Q : S * result unit → trace → Prop) :
  I s h →
  (∀ s h, I s h → wp Φ (fn s) h (λ r h', Q r h' ∧ (∀ e, r.2 = Err e → IsConflict e = true → I r.1 h'))) →
  wp Φ (RetryOnConflict fn s) h Q.
Proof.
  intros H0 Hfn t r Hr. apply RetryOnConflict_spec in Hr. revert h H0.
  induction Hr as [s t r Hr|s s' e t t' r Hr He _ IH]; intros h HI.
  - destruct (Hfn s h HI t r Hr) as (? & ? & _). done.
  - destruct (Hfn s h HI t _ Hr) as (Hok & _ & Hnext).
    destruct (IH (h ++ t)) as [Hok' HQ]; [by eapply (Hnext e)|].
    rewrite calls_ok_app, app_assoc. auto.
Qed.

(** The write of [CreateOrUpdate] comes right after the mutate function. *)
Lemma wp_CreateOrUpdate c mutate h (Q : result unit → trace → Prop) :
  (∀ h, Φ h (GetConfigMap (om_Namespace (cm_Meta c)) (om_Name (cm_Meta c)))) →
  (∀ x h, wp Φ (mutate x) h (λ r h', match r with
     | Ok c' => (Φ h' (CreateConfigMap c') ∧ Φ h' (UpdateConfigMap c'))
                ∧ Q (Ok tt) h' ∧ ∀ e r, Q r (h' ++ [e])
     | Err e => Q (Err e) h'
     end)) →
  (∀ e h, Q (Err e) h) →
  wp Φ (CreateOrUpdate c mutate) h Q.
Proof.
  intros Hg Hm He t r Hr. apply CreateOrUpdate_spec in Hr. destruct Hr;
    rewrite ?calls_ok_cons, ?calls_ok_app;
    try (match goal with Hr : run (mutate ?x) ?t _ |- context [h ++ ?e :: _] =>
      pose proof (Hm x (h ++ [e]) t _ Hr) as [Hok Hpost]; rewrite <-app_assoc in Hpost; simpl in Hpost end);
    split_and?; auto using calls_ok_nil; try done;
    try (by destruct Hpost as (_ & ? & _));
    try (rewrite calls_ok_cons, <-app_assoc; split; [apply Hpost|apply calls_ok_nil]);
    rewrite app_comm_cons, app_assoc; apply Hpost.
Qed.
End client_util.

(** Structural steps of a proof about a program: sequencing, calls, loops with
    the trivial invariant, and a case split on every match. *)
Ltac wp_step :=
  match goal with
  | |- wp _ (Ret _) _ _ => apply wp_Ret
  | |- wp _ (Call ?c _) _ _ => apply (wp_Call _ c)
  | |- wp _ (mbind _ (invoke ?c)) _ _ => apply (wp_bind_invoke _ c)
  | |- wp _ (invoke ?c) _ _ => apply (wp_invoke _ c)
  | |- wp _ (try _ _) _ _ => apply wp_try
  | |- wp _ (mbind _ _) _ _ => apply wp_bind
  | |- wp _ (foldP _ _ _) _ _ => apply (wp_foldP _ (λ _ _, True)); [exact I| |]
  | |- wp _ (foldPR _ _ _) _ _ => apply (wp_foldPR _ (λ _ _, True)); [exact I| |]
  | |- wp _ (RetryOnConflict _ _) _ _ => apply (wp_retry _ (λ _ _, True)); [exact I|]
  | |- wp _ (match ?x with _ => _ end) _ _ => destruct x eqn:?
  | |- match ?x with _ => _ end => destruct x eqn:?
  | |- _ => progress intros
  | |- True => exact I
  end.
Ltac wp_walk tac := repeat (wp_step || tac).

(** A return, possibly after metric updates that the call condition ignores. *)
Ltac wp_return :=
  repeat (apply (wp_bind_invoke _ (Observe _)); [done|intros ?]); by apply wp_Ret.

(** A program proved for every history with a trivial postcondition. *)
Definition respects {A} (Φ : trace → call → Prop) (p : prog A) : Prop := ∀ h, wp Φ p h (λ _ _, True).

Lemma wp_respects {A} Φ (p : prog A) h (Q : A → trace → Prop) :
  respects Φ p → (∀ a h', Q a h') → wp Φ p h Q.
Proof. intros Hp HQ. eapply wp_mono; [apply Hp|]. auto. Qed.

Lemma respects_Ret {A} Φ (a : A) : respects Φ (Ret a).
Proof. intros h. by apply wp_Ret. Qed.

Lemma wp_weaken {A} (Φ Φ' : trace → call → Prop) (p : prog A) h Q :
  wp Φ p h Q → (∀ t c, Φ (h ++ t) c → Φ' (h ++ t) c) → wp Φ' p h Q.
Proof.
  intros Hp HΦ t r Hr. destruct (Hp t r Hr) as [Hok HQ]. split; [|done].
  intros t1 e t2 ->. by eapply HΦ, Hok.
Qed.

(** Once the call condition holds for good, any program satisfies it. *)
Lemma wp_any {A} (Φ : trace → call → Prop) (p : prog A) h :
  (∀ t c, Φ (h ++ t) c) → wp Φ p h (λ _ _, True).
Proof. intros HΦ t r _. split; [|done]. intros t1 e t2 ->. apply HΦ. Qed.
