(* ===== verification/Managed.v ===== *)
(** * Pure parts of the controllers (internal/controller)

    Managed metadata, ownership, node precedence, conditions and sync status,
    the update throttle, the references of a Pod and the placement predicate. *)

From S2P Require Import Prelude GoLib K8s Api Resolve Labels Builder Service Metrics Program.
From Stdlib Require Import Ascii.
#[local] Open Scope Z_scope.

(** ** Managed metadata (yanet_reconciler.go) *)
Definition parseManagedKeys (s : string) : list string :=
  if bool_decide (s = "") then [] else filter (λ p, p ≠ "") (Split s ",").

Section managed.
Context `{MapOrder}.

Definition mergeManagedKV (existing desired : gmap string string) (prevManaged : list string)
    : gmap string string :=
  if bool_decide (existing = ∅) && bool_decide (desired = ∅) then ∅
  else
    let out := foldl (λ out kv, <[kv.1 := kv.2]> out) (∅ : gmap string string) (map_range existing) in
    let out := foldl (λ out k, if bool_decide (desired !! k = None) then delete k out else out) out prevManaged in
    foldl (λ out kv, <[kv.1 := kv.2]> out) out (map_range desired).

Definition serializeManagedKeys (m : gmap string string) : string :=
  Join (sort_strings (map_range m).*1) ",".

(** One tracking annotation: rewritten when the desired map has keys, dropped
    otherwise. *)
Definition track (annotation : string) (desired annotations : gmap string string) : gmap string string :=
  if bool_decide (desired = ∅) then delete annotation annotations
  else <[annotation := serializeManagedKeys desired]> annotations.

Definition mergeManagedMeta (fresh desired : ObjectMeta) : ObjectMeta :=
  let prevLabels := parseManagedKeys (get (om_Annotations fresh) annotationManagedLabels) in
  let prevAnnos := parseManagedKeys (get (om_Annotations fresh) annotationManagedAnnotations) in
  let labels := mergeManagedKV (om_Labels fresh) (om_Labels desired) prevLabels in
  let annotations := mergeManagedKV (om_Annotations fresh) (om_Annotations desired) prevAnnos in
  let annotations := track annotationManagedLabels (om_Labels desired) annotations in
  let annotations := track annotationManagedAnnotations (om_Annotations desired) annotations in
  set_om_Annotations annotations (set_om_Labels labels fresh).
End managed.

Definition ensureLabel (meta : ObjectMeta) (key value : string) : ObjectMeta :=
  if bool_decide (value = "") then meta else set_om_Labels (<[key := value]> (om_Labels meta)) meta.

(** ** Ownership *)
Definition GroupVersion : string := "yanet.yanet-platform.io/v1alpha1".

Section ownership.
Context `{MetaLib}.

Definition controlledByYanet (object : ObjectMeta) (yanet : Yanet) : bool :=
  if bool_decide (om_Namespace object ≠ y_Namespace yanet) then false
  else
    match GetControllerOf object with
    | None => false
    | Some owner =>
        if bool_decide (or_APIVersion owner ≠ GroupVersion) || bool_decide (or_Kind owner ≠ "Yanet")
           || bool_decide (or_Name owner ≠ y_Name yanet)
        then false
        else bool_decide (om_UID (y_Meta yanet) = "") || bool_decide (or_UID owner = om_UID (y_Meta yanet))
    end.

(** [validateDeploymentOwnership] and [validateServiceOwnership] differ in the
    kind they print. *)
Definition validate_ownership (kind : string) (existing desired : ObjectMeta) : result unit :=
  let at_ m := [AStr (om_Namespace m); AStr (om_Name m)] in
  match GetControllerOf desired with
  | None => Err (Errorf ("desired " +:+ kind +:+ " %s/%s has no controller owner") (at_ desired))
  | Some desiredOwner =>
      match GetControllerOf existing with
      | None => Err (Errorf ("existing " +:+ kind +:+ " %s/%s has no desired controller owner") (at_ existing))
      | Some existingOwner =>
          err_if (bool_decide (or_UID desiredOwner ≠ "") && bool_decide (or_UID existingOwner ≠ or_UID desiredOwner))
            (Errorf ("existing " +:+ kind +:+ " %s/%s is controlled by another resource instance") (at_ existing));;
          err_if (bool_decide (or_APIVersion existingOwner ≠ or_APIVersion desiredOwner)
                  || bool_decide (or_Kind existingOwner ≠ or_Kind desiredOwner)
                  || bool_decide (or_Name existingOwner ≠ or_Name desiredOwner))
            (Errorf ("existing " +:+ kind +:+ " %s/%s is controlled by another resource") (at_ existing))
      end
  end.

Definition validateDeploymentOwnership (existing desired : Deployment) : result unit :=
  validate_ownership "Deployment" (d_Meta existing) (d_Meta desired).

Definition validateServiceOwnership (existing desired : Service) : result unit :=
  validate_ownership "Service" (sv_Meta existing) (sv_Meta desired).

Definition controlledBy (object : ObjectMeta) (owner : OwnerReference) : bool :=
  match GetControllerOf object with
  | None => false
  | Some existing =>
      if bool_decide (or_UID owner ≠ "") && bool_decide (or_UID existing ≠ or_UID owner) then false
      else bool_decide (or_APIVersion existing = or_APIVersion owner)
           && bool_decide (or_Kind existing = or_Kind owner)
           && bool_decide (or_Name existing = or_Name owner)
  end.
End ownership.

(** ** Node precedence *)
Definition yanetPrecedes (left right : Yanet) : bool :=
  let leftCreated := om_CreationTimestamp (y_Meta left) in
  let rightCreated := om_CreationTimestamp (y_Meta right) in
  if bool_decide (leftCreated ≠ rightCreated) then bool_decide (leftCreated < rightCreated)
  else str_lt (y_Namespace left +:+ "/" +:+ y_Name left) (y_Namespace right +:+ "/" +:+ y_Name right).

(** ** Placement *)
Definition podMayUseNode `{MetaLib} (pod : PodSpec) (node : Node) : bool :=
  if bool_decide (ps_NodeName pod ≠ "") then bool_decide (ps_NodeName pod = n_Name node)
  else SelectorMatches (ps_NodeSelector pod) (n_Labels node).

Definition normalizeDeploymentReplicas (deployment : Deployment) (componentEnabled installationEnabled : bool)
    : Deployment :=
  if componentEnabled && installationEnabled then deployment
  else upd_spec (set_ds_Replicas (Some 0)) deployment.

Definition deploymentReplicasAreZero (deployment : Deployment) : bool :=
  bool_decide (ds_Replicas (d_Spec deployment) = Some 0).

Definition incompatibleOperatorPlacement (labels : gmap string string) (name : string) (colocated : bool) : bool :=
  let standaloneProducer := bool_decide (get labels labelComponent = name) in
  let colocatedProducer := bool_decide (get labels (OperatorMembershipLabel name) = name) in
  (colocated && standaloneProducer) || (negb colocated && colocatedProducer).

(** ** References of a Pod (prune.go) *)
Definition container_config_maps (c : Container) : list string :=
  omap ef_ConfigMapRef (c_EnvFrom c) ++ omap (λ e, ev_ValueFrom e ≫= es_ConfigMapKeyRef) (c_Env c).

Definition volume_config_maps (v : Volume) : list string :=
  option_list (v_ConfigMap v) ++ omap vp_ConfigMap (default [] (v_Projected v)).

Definition collectPodConfigMapRefs (pod : PodSpec) (referenced : gset string) : gset string :=
  list_to_set (mjoin (volume_config_maps <$> ps_Volumes pod)
               ++ mjoin (container_config_maps <$> (ps_Containers pod ++ ps_InitContainers pod))) ∪ referenced.

Definition isNotFoundOrGone (err : option goerror) : bool :=
  match err with None => true | Some e => IsNotFound e || IsGone e end.

(** ** The update throttle (yanet_controller.go)

    Instants and durations are nanoseconds; the zero [time.Time] is instant 0.
    [Time.Sub] saturates at the ends of the int64 range. *)
Record throttle := MkThrottle { lastUpdateTS : Z; lastUpdateHost : string }.
#[export] Instance throttle_eq_dec : EqDecision throttle.
Proof. solve_decision. Defined.
Definition throttle_init : throttle := MkThrottle 0 "".

Definition time_Sub (a b : Z) : Z := Z.max (- 2 ^ 63) (Z.min MaxInt64 (a - b)).

Definition checkUpdateRequeue (st : throttle) (timeNow updateWindow : Z) (updateHost : string) : throttle * Z :=
  if bool_decide (updateWindow = 0) then (st, 0)
  else
    let timerExpired := bool_decide (lastUpdateTS st + updateWindow < timeNow) in
    if negb timerExpired && bool_decide (updateHost ≠ lastUpdateHost st)
    then (st, wrap_int64 (updateWindow - time_Sub timeNow (lastUpdateTS st)))
    else (MkThrottle timeNow updateHost, 0).

(** ** Sync status *)
Definition add_state (out : SyncStatus) (name state : string) : SyncStatus :=
  if bool_decide (state = "synced")
  then MkSyncStatus (sy_Synced out ++ [name]) (sy_OutOfSync out) (sy_SyncWaiting out) (sy_Error out) (sy_Disabled out)
  else if bool_decide (state = "sync-waiting")
  then MkSyncStatus (sy_Synced out) (sy_OutOfSync out) (sy_SyncWaiting out ++ [name]) (sy_Error out) (sy_Disabled out)
  else if bool_decide (state = "error")
  then MkSyncStatus (sy_Synced out) (sy_OutOfSync out) (sy_SyncWaiting out) (sy_Error out ++ [name]) (sy_Disabled out)
  else MkSyncStatus (sy_Synced out) (sy_OutOfSync out ++ [name]) (sy_SyncWaiting out) (sy_Error out) (sy_Disabled out).

Definition aggregateSyncStatus `{MapOrder} (byNode : gmap string NodeStatus) : SyncStatus :=
  let out := foldl (λ out kv,
    foldl (λ out nv, add_state out nv.1 nv.2) out (map_range (ns_Deployments kv.2)))
    (MkSyncStatus [] [] [] [] []) (map_range byNode) in
  MkSyncStatus (sort_strings (sy_Synced out)) (sort_strings (sy_OutOfSync out))
    (sort_strings (sy_SyncWaiting out)) (sort_strings (sy_Error out)) (sy_Disabled out).

(** ** Conditions (yanet_conditions.go) *)
Definition ConditionTrue : string := "True".
Definition ConditionFalse : string := "False".

Definition keep_transition (byType : gmap string Condition) (nc : Condition) : Condition :=
  match byType !! cd_Type nc with
  | Some old =>
      if bool_decide (cd_Status old = cd_Status nc) && bool_decide (cd_Reason old = cd_Reason nc)
      then MkCondition (cd_Type nc) (cd_Status nc) (cd_ObservedGeneration nc) (cd_LastTransitionTime old)
             (cd_Reason nc) (cd_Message nc)
      else nc
  | None => nc
  end.

Definition mergeConditions (existing fresh : list Condition) : list Condition :=
  let byType : gmap string Condition := foldl (λ m c, <[cd_Type c := c]> m) ∅ existing in
  let seen : gset string := list_to_set (cd_Type <$> fresh) in
  (keep_transition byType <$> fresh) ++ filter (λ oc, cd_Type oc ∉ seen) existing.

Section conditions.
Context `{MapOrder}.
Variables (gen now : Z).

Definition condition (type status reason message : string) : Condition :=
  MkCondition type status gen now reason message.

Definition available_condition (sync : SyncStatus) : Condition :=
  match sy_Error sync, sy_OutOfSync sync with
  | _ :: _, _ =>
      condition "Available" ConditionFalse "SyncError"
        (Sprintf "Errors syncing deployments: %v" [AStrs (sy_Error sync)])
  | [], _ :: _ =>
      condition "Available" ConditionFalse "OutOfSync"
        (Sprintf "Deployments out of sync (autoSync=false): %v" [AStrs (sy_OutOfSync sync)])
  | [], [] => condition "Available" ConditionTrue "AllSynced" "All deployments are in sync"
  end.

Definition progressing_condition (sync : SyncStatus) : Condition :=
  match sy_SyncWaiting sync with
  | _ :: _ =>
      condition "Progressing" ConditionTrue "WaitingForUpdateWindow"
        (Sprintf "Waiting for UpdateWindow: %v" [AStrs (sy_SyncWaiting sync)])
  | [] => condition "Progressing" ConditionFalse "Idle" "No updates in progress"
  end.

Definition degraded_condition (sync : SyncStatus) (missingOperators : gset string) : Condition :=
  if bool_decide (missingOperators ≠ ∅) then
    condition "Degraded" ConditionTrue "OperatorMissing"
      (Sprintf "BoxType references operators missing from palette: %v"
         [AStrs (sort_strings (elements missingOperators))])
  else match sy_Error sync with
       | _ :: _ =>
           condition "Degraded" ConditionTrue "SyncError"
             (Sprintf "Errors syncing deployments: %v" [AStrs (sy_Error sync)])
       | [] => condition "Degraded" ConditionFalse "Healthy" "No errors detected"
       end.

Definition ready_condition (avail prog deg : Condition) : Condition :=
  if bool_decide (cd_Status avail ≠ ConditionTrue) || bool_decide (cd_Status prog = ConditionTrue)
     || bool_decide (cd_Status deg = ConditionTrue)
  then condition "Ready" ConditionFalse "NotReady" "See Available/Progressing/Degraded conditions"
  else condition "Ready" ConditionTrue "AllChecksPassed" "Yanet is ready".
End conditions.

Definition computeConditions (yanet : Yanet) (missingOperators : gset string) (now : Z) : list Condition :=
  let gen := om_Generation (y_Meta yanet) in
  let sync := st_Sync (y_Status yanet) in
  let avail := available_condition gen now sync in
  let prog := progressing_condition gen now sync in
  let deg := degraded_condition gen now sync missingOperators in
  mergeConditions (st_Conditions (y_Status yanet)) [avail; prog; deg; ready_condition gen now avail prog deg].

Definition set_st_Conditions (x : list Condition) (s : YanetStatus) : YanetStatus :=
  MkYanetStatus (st_Pods s) (st_Sync s) x (st_NodesStatus s) (st_Services s).

Definition setConditionsDegraded (yanet : Yanet) (reason message : string) (now : Z) : Yanet :=
  let gen := om_Generation (y_Meta yanet) in
  let deg := condition gen now "Degraded" ConditionTrue reason message in
  let ready := condition gen now "Ready" ConditionFalse "NotReady" "See Degraded condition" in
  set_y_Status (set_st_Conditions (mergeConditions (st_Conditions (y_Status yanet)) [deg; ready]) (y_Status yanet)) yanet.
