(* ===== verification/YanetController.v ===== *)
(** * The Yanet controller (internal/controller)

    yanet_controller.go, yanet_reconciler.go, prune.go and operator_placement.go
    as programs over the API server.  Logging and metrics are left out; an event
    is a call like any other write.  The recorder and the scheme are present, as
    cmd/main.go sets them. *)

From S2P Require Import Prelude GoLib Sha256 K8s Api Resolve Labels Listeners Builder Service Render.
From S2P Require Import Webhook Metrics Program Managed.
#[local] Open Scope Z_scope.

Definition yanetFinalizer : string := "yanet.yanet-platform.io/finalizer".
Definition seconds (n : Z) : Z := n * 1000000000.
Definition millisecond : Z := 1000000.

(** [(ctrl.Result, error)]: the requeue delay and the error. *)
Definition outcome : Type := Z * option goerror.

(** A loop whose body may return from the function with an error, keeping the
    variables assigned so far. *)
Fixpoint foldPE {S A} (f : S → A → prog (S * option goerror)) (s : S) (l : list A)
    : prog (S * option goerror) :=
  match l with
  | [] => Ret (s, None)
  | x :: l =>
      f s x ≫= λ '(s', e), match e with Some _ => Ret (s', e) | None => foldPE f s' l end
  end.

Definition err_of {A} (r : result A) : option goerror :=
  match r with Ok _ => None | Err e => Some e end.

Definition to_unit {A} (r : result A) : result unit :=
  match r with Ok _ => Ok tt | Err e => Err e end.

(** ** The global stop *)
Definition stopped (global : option YanetConfigSpec) : bool :=
  match global with Some config => yc_Stop config | None => false end.

Definition checkGlobalStop : prog (result unit) :=
  global ← invoke ReadGlobal;
  Ret (if stopped global then Err ErrGlobalStop else Ok tt).

Definition snapshotYanetConfig : prog (option YanetConfigSpec) :=
  global ← invoke ReadGlobal;
  Ret (match global with
       | None => None
       | Some config =>
           if bool_decide (length (yc_BoxTypes config) = 0)%nat && negb (yc_Stop config)
           then None else Some config
       end).

(** [if r.Recorder != nil && r.checkGlobalStop() == nil { r.Recorder.Eventf(...) }]. *)
Definition record_event (reason : string) : prog unit :=
  stop ← checkGlobalStop;
  match stop with Ok _ => invoke (EmitEvent reason) | Err _ => Ret tt end.

Section yanet_controller.
Context `{MetaLib, ClientUtil, PatchLib, QuantityLib, K8sValidation, MapOrder}.

(** ** Status *)
Definition sync_local (local fresh : Yanet) : Yanet :=
  set_y_Meta (set_om_ResourceVersion (om_ResourceVersion (y_Meta fresh)) (y_Meta local))
    (set_y_Status (y_Status fresh) local).

Definition update_status_attempt (namespace name : string) (mutate : Yanet → prog Yanet) (local : Yanet)
    : prog (Yanet * result unit) :=
  got ← invoke (GetYanet namespace name);
  match got with
  | Err e => Ret (local, Err e)
  | Ok fresh =>
      changed ← mutate fresh;
      if bool_decide (y_Status fresh = y_Status changed) then Ret (sync_local local changed, Ok tt)
      else
        stop ← checkGlobalStop;
        match stop with
        | Err e => Ret (local, Err e)
        | Ok _ =>
            written ← invoke (UpdateYanetStatus changed);
            match written with
            | Err e => Ret (local, Err e)
            | Ok stored => Ret (sync_local local stored, Ok tt)
            end
        end
  end.

Definition updateStatus (yanet : Yanet) (mutate : Yanet → prog Yanet) : prog (Yanet * result unit) :=
  RetryOnConflict (update_status_attempt (y_Namespace yanet) (y_Name yanet) mutate) yanet.

Definition degrade (reason message : string) (fresh : Yanet) : prog Yanet :=
  now ← invoke Now; Ret (setConditionsDegraded fresh reason message now).

(** ** Pruning (prune.go) *)
Definition prune_conflicting_step (yanet : Yanet) (nodeNames : gset string) (_ : unit) (deployment : Deployment)
    : prog (result unit) :=
  if negb (controlledByYanet (d_Meta deployment) yanet)
     || bool_decide (is_Some (om_DeletionTimestamp (d_Meta deployment)))
  then Ret (Ok tt)
  else if bool_decide (get (d_Labels deployment) labelNode ∉ nodeNames) then
    if BoolValue (ys_Enabled (y_Spec yanet)) true || bool_decide (ds_Replicas (d_Spec deployment) = Some 0)
    then Ret (Ok tt)
    else
      do! checkGlobalStop in
      written ← invoke (UpdateDeployment false (upd_spec (set_ds_Replicas (Some 0)) deployment));
      Ret (wrap_err (λ e, Errorf "drain Deployment %s/%s: %w"
                           [AStr (d_Namespace deployment); AStr (d_Name deployment); AErr e]) (to_unit written))
  else
    do! checkGlobalStop in
    deleted ← invoke (DeleteDeployment deployment);
    match deleted with
    | Ok _ =>
        invoke (Observe (Inc yanetOrphansPruned [y_Name yanet; y_Namespace yanet]));;
        Ret (Ok tt)
    | Err e =>
        if isNotFoundOrGone (Some e) then Ret (Ok tt)
        else Ret (Err (Errorf "delete conflicting Deployment %s/%s: %w"
                         [AStr (d_Namespace deployment); AStr (d_Name deployment); AErr e]))
    end.

Definition pruneConflictingDeployments (yanet : Yanet) (nodeNames : gset string) : prog (result unit) :=
  listed ← invoke (ListDeployments (Some (y_Namespace yanet)));
  match listed with
  | Err e => Ret (Err (Errorf "list conflicting Deployments: %w" [AErr e]))
  | Ok deployments => foldPR (prune_conflicting_step yanet nodeNames) tt deployments
  end.

Record desiredSet := MkDesiredSet { ds_Deployments : gset string; ds_ConfigMaps : gset string }.
Definition newDesiredSet : desiredSet := MkDesiredSet ∅ ∅.

Record pruneResult := MkPruneResult {
  pr_Deleted : Z;
  pr_RetainedDeployments : list Deployment;
  pr_RetainedConfigMaps : list string;
}.

(** The local variables of [pruneOrphans]. *)
Record prune_state := MkPruneState {
  pv_result : pruneResult;
  pv_firstErr : option goerror;
  pv_deletionRequested : bool;
}.
Definition prune_init : prune_state := MkPruneState (MkPruneResult 0 [] []) None false.

(** Recording the answer to a deletion request. *)
Definition deletion_answer (st : prune_state) (answer : result unit) : prune_state :=
  let res := pv_result st in
  match answer with
  | Ok _ =>
      MkPruneState (MkPruneResult (pr_Deleted res + 1) (pr_RetainedDeployments res) (pr_RetainedConfigMaps res))
        (pv_firstErr st) (pv_deletionRequested st)
  | Err e =>
      if isNotFoundOrGone (Some e) then st
      else MkPruneState res (match pv_firstErr st with None => Some e | first => first end) (pv_deletionRequested st)
  end.

Definition prune_deployment_step (yanet : Yanet) (desired : desiredSet) (autoSync : bool)
    (st : prune_state) (d : Deployment) : prog (prune_state * option goerror) :=
  if negb (controlledByYanet (d_Meta d) yanet) then Ret (st, None)
  else if bool_decide (d_Name d ∈ ds_Deployments desired) then Ret (st, None)
  else if negb autoSync then
    let res := pv_result st in
    Ret (MkPruneState (MkPruneResult (pr_Deleted res) (pr_RetainedDeployments res ++ [d]) (pr_RetainedConfigMaps res))
           (pv_firstErr st) (pv_deletionRequested st), None)
  else if bool_decide (is_Some (om_DeletionTimestamp (d_Meta d))) then Ret (st, None)
  else
    stop ← checkGlobalStop;
    match stop with
    | Err e => Ret (st, Some e)
    | Ok _ =>
        answer ← invoke (DeleteDeployment d);
        Ret (deletion_answer (MkPruneState (pv_result st) (pv_firstErr st) true) answer, None)
    end.

(** An unfinished rollout of an owned Deployment may still mount an old
    ConfigMap. *)
Definition rollout_pending (d : Deployment) : bool :=
  let replicas := default 1 (ds_Replicas (d_Spec d)) in
  bool_decide (is_Some (om_DeletionTimestamp (d_Meta d)))
  || bool_decide (dst_ObservedGeneration (d_Status d) < om_Generation (d_Meta d))
  || bool_decide (dst_UpdatedReplicas (d_Status d) ≠ replicas)
  || bool_decide (dst_Replicas (d_Status d) ≠ replicas).

Definition prune_config_map_step (yanet : Yanet) (desired : desiredSet) (autoSync : bool)
    (referenced : gset string) (rolloutPending : bool) (st : prune_state) (c : ConfigMap)
    : prog (prune_state * option goerror) :=
  let name := om_Name (cm_Meta c) in
  if negb (controlledByYanet (cm_Meta c) yanet) then Ret (st, None)
  else if bool_decide (name ∈ ds_ConfigMaps desired) then Ret (st, None)
  else if bool_decide (name ∈ referenced) then Ret (st, None)
  else if rolloutPending then Ret (st, None)
  else if negb autoSync then
    let res := pv_result st in
    Ret (MkPruneState (MkPruneResult (pr_Deleted res) (pr_RetainedDeployments res) (pr_RetainedConfigMaps res ++ [name]))
           (pv_firstErr st) (pv_deletionRequested st), None)
  else if bool_decide (is_Some (om_DeletionTimestamp (cm_Meta c))) then Ret (st, None)
  else
    stop ← checkGlobalStop;
    match stop with
    | Err e => Ret (st, Some e)
    | Ok _ =>
        answer ← invoke (DeleteConfigMap c);
        Ret (deletion_answer st answer, None)
    end.

Definition prune_config_maps (yanet : Yanet) (desired : desiredSet) (autoSync : bool)
    (deps : list Deployment) (st : prune_state) : prog (pruneResult * option goerror) :=
  let selector : gmap string string := {[labelYanet := y_Name yanet]} in
  listed ← invoke (ListConfigMaps (y_Namespace yanet) selector);
  match listed with
  | Err e => Ret (pv_result st, Some e)
  | Ok cms =>
      let owned := filter (λ d, controlledByYanet (d_Meta d) yanet = true) deps in
      let referenced := foldl (λ r d, collectPodConfigMapRefs (d_Pod d) r) ∅ owned in
      let rolloutPending := existsb rollout_pending owned in
      pods ← (match cms with
              | [] => Ret (Ok [])
              | _ => invoke (ListPods (y_Namespace yanet) selector)
              end);
      match pods with
      | Err e => Ret (pv_result st, Some e)
      | Ok pods =>
          let referenced := foldl (λ r p, collectPodConfigMapRefs (p_Spec p) r) referenced pods in
          end_ ← foldPE (prune_config_map_step yanet desired autoSync referenced rolloutPending) st cms;
          Ret (pv_result end_.1,
               match end_.2 with Some e => Some e | None => pv_firstErr end_.1 end)
      end
  end.

Definition pruneOrphans (yanet : Yanet) (desired : desiredSet) (autoSync : bool)
    : prog (pruneResult * option goerror) :=
  listed ← invoke (ListDeployments (Some (y_Namespace yanet)));
  match listed with
  | Err e => Ret (pv_result prune_init, Some e)
  | Ok deps =>
      '(st, early) ← foldPE (prune_deployment_step yanet desired autoSync) prune_init deps;
      match early with
      | Some e => Ret (pv_result st, Some e)
      | None =>
          if pv_deletionRequested st then
            again ← invoke (ListDeployments (Some (y_Namespace yanet)));
            match again with
            | Err e => Ret (pv_result st, Some e)
            | Ok deps => prune_config_maps yanet desired autoSync deps st
            end
          else prune_config_maps yanet desired autoSync deps st
      end
  end.

(** ** Deletion *)
Definition handleYanetDeletion (yanet : Yanet) : prog outcome :=
  if negb (ContainsFinalizer (om_Finalizers (y_Meta yanet)) yanetFinalizer) then Ret (0, None)
  else
    record_event "Cleanup";;
    '(_, err) ← pruneOrphans yanet newDesiredSet true;
    match err with
    | Some e => Ret (seconds 30, Some e)
    | None =>
        listed ← invoke (ListDeployments (Some (y_Namespace yanet)));
        match listed with
        | Err e => Ret (0, Some e)
        | Ok deployments =>
            if existsb (λ d, controlledByYanet (d_Meta d) yanet) deployments then Ret (seconds 5, None)
            else
              let finalizers := RemoveFinalizer (om_Finalizers (y_Meta yanet)) yanetFinalizer in
              stop ← checkGlobalStop;
              match stop with
              | Err e => Ret (0, Some e)
              | Ok _ =>
                  written ← invoke (UpdateYanet (set_y_Meta (set_om_Finalizers finalizers (y_Meta yanet)) yanet));
                  match written with
                  | Err e => if IsNotFound e then Ret (0, None) else Ret (0, Some e)
                  | Ok _ => Ret (0, None)
                  end
              end
        end
    end.

(** ** Node exclusivity *)
Definition has_workload (deployments : list Deployment) (installation : Yanet) (nodeName : string) : bool :=
  existsb (λ d,
    bool_decide (d_Namespace d = y_Namespace installation)
    && bool_decide (get (d_Labels d) labelNode = nodeName)
    && controlledByYanet (d_Meta d) installation) deployments.

(** Whether [other] claims [node] at all, and who wins. *)
Definition claims (deployments : list Deployment) (other : Yanet) (node : Node) : bool :=
  has_workload deployments other (n_Name node)
  || SelectorMatches (ys_NodeSelector (y_Spec other)) (n_Labels node).

Definition current_wins (deployments : list Deployment) (yanet other : Yanet) (node : Node) : bool :=
  let current := has_workload deployments yanet (n_Name node) in
  let otherHas := has_workload deployments other (n_Name node) in
  if bool_decide (current = otherHas) then yanetPrecedes yanet other else current && negb otherHas.

Definition exclusive_step (deployments : list Deployment) (yanet other : Yanet)
    (st : list string * gset string) (node : Node) : list string * gset string :=
  let '(conflicts, cleanupNodes) := st in
  if negb (claims deployments other node) then st
  else if current_wins deployments yanet other node
          && bool_decide (om_DeletionTimestamp (y_Meta other) = None) then st
  else
    (conflicts ++ [Sprintf "node %s is also selected by Yanet %s/%s"
                     [AStr (n_Name node); AStr (y_Namespace other); AStr (y_Name other)]],
     if has_workload deployments yanet (n_Name node) && negb (current_wins deployments yanet other node)
     then {[n_Name node]} ∪ cleanupNodes else cleanupNodes).

Definition same_key (a b : Yanet) : bool :=
  bool_decide (y_Namespace a = y_Namespace b) && bool_decide (y_Name a = y_Name b).

Definition exclusive_conflicts (yanet : Yanet) (nodes : list Node) (installations : list Yanet)
    (deployments : list Deployment) : list string * gset string :=
  foldl (λ st other, if same_key other yanet then st else foldl (exclusive_step deployments yanet other) st nodes)
    ([], ∅) installations.

(** The nodes this installation must leave: the lost ones and, when there is a
    conflict, the ones it no longer selects. *)
Definition released_nodes (yanet : Yanet) (nodes : list Node) (deployments : list Deployment) : gset string :=
  list_to_set ((λ d, get (d_Labels d) labelNode) <$>
    filter (λ d, get (d_Labels d) labelNode ∉ (n_Name <$> nodes)
                 ∧ controlledByYanet (d_Meta d) yanet = true) deployments).

(** The error of [validateExclusiveNodes]: a failed read or a conflict. *)
Inductive exclusivity :=
| Exclusive
| ExclusivityFailed (e : goerror)
| NodeSelectionConflict (messages : list string) (cleanupNodeNames : gset string).

Definition validateExclusiveNodes (yanet : Yanet) (nodes : list Node) : prog exclusivity :=
  match nodes with
  | [] => Ret Exclusive
  | _ =>
      listed ← invoke ListYanets;
      match listed with
      | Err e => Ret (ExclusivityFailed (Errorf "list Yanet objects for node exclusivity: %w" [AErr e]))
      | Ok installations =>
          listed ← invoke (ListDeployments None);
          match listed with
          | Err e => Ret (ExclusivityFailed (Errorf "list Deployments for node exclusivity: %w" [AErr e]))
          | Ok deployments =>
              let '(conflicts, cleanupNodes) := exclusive_conflicts yanet nodes installations deployments in
              match conflicts with
              | [] => Ret Exclusive
              | _ => Ret (NodeSelectionConflict (sort_strings conflicts)
                            (released_nodes yanet nodes deployments ∪ cleanupNodes))
              end
          end
      end
  end.
End yanet_controller.
