(* ===== verification/Reconciler.v ===== *)
(** * Reconciliation of a Yanet (internal/controller)

    applyInlineConfigMaps, applyDeployment, preflight, the placement guard,
    reconcileYanet and Reconcile of yanet_reconciler.go, operator_placement.go
    and yanet_controller.go, and the watch mappers. *)

From S2P Require Import Prelude GoLib Sha256 K8s Api Resolve Labels Listeners Builder Service Render.
From S2P Require Import Webhook Metrics Program Managed YanetController.
#[local] Open Scope Z_scope.

(** [sort.Slice] by a string key. *)
Definition sort_by {A} (key : A → string) (l : list A) : list A :=
  merge_sort (λ a b, String.le (key a) (key b)) l.

(** ** Deployments *)
Definition deploymentUpdateChanged (existing candidate : Deployment) : bool :=
  bool_decide (d_Spec existing ≠ d_Spec candidate)
  || bool_decide (om_OwnerReferences (d_Meta existing) ≠ om_OwnerReferences (d_Meta candidate))
  || bool_decide (d_Labels existing ≠ d_Labels candidate)
  || bool_decide (om_Annotations (d_Meta existing) ≠ om_Annotations (d_Meta candidate)).

(** The live object with the desired spec, owners and managed metadata. *)
Definition update_candidate `{MapOrder} (existing desired : Deployment) : Deployment :=
  let candidate := set_d_Spec (d_Spec desired) existing in
  let candidate := upd_meta (set_om_OwnerReferences (om_OwnerReferences (d_Meta desired))) candidate in
  upd_meta (λ m, mergeManagedMeta m (d_Meta desired)) candidate.

(** Captured variables of the retried closure: [updated], [state] and [requeue]. *)
Record apply_state := MkApplyState { ap_updated : bool; ap_state : string; ap_requeue : Z }.

(** A live workload that may still create Pods. *)
Record placementProducer := MkProducer {
  pp_kind : string;
  pp_name : string;
  pp_template : PodTemplateSpec;
}.

Record renderedWorkload := MkRendered {
  rw_deployment : Deployment;
  rw_component : ResolvedComponent;
}.

(** A role the placement guard looks at. *)
Record placement_role := MkRole { pl_name : string; pl_colocated : bool; pl_node : Node }.

(** The variables of the node loop of [reconcileYanet]. *)
Record loop_state := MkLoop {
  lo_errs : list goerror;
  lo_nodesStatus : gmap string NodeStatus;
  lo_desired : desiredSet;
  lo_missing : gset string;
  lo_syncWaiting : bool;
  lo_earliest : Z;
}.
Definition loop_init : loop_state := MkLoop [] ∅ newDesiredSet ∅ false 0.

Section reconciler.
Context `{MetaLib, ClientUtil, PatchLib, QuantityLib, K8sValidation, MapOrder}.

(** *** Inline ConfigMaps *)
Definition inline_config_map (buildCtx : BuildContext) (rc : ResolvedComponent) (name content : string) : ConfigMap :=
  MkConfigMap
    (MkObjectMeta name (bx_Namespace buildCtx) "" "" 0 0 None
       (<[labelComponent := rc_Name rc]> (<[labelYanet := bx_YanetName buildCtx]> ∅)) ∅ [] [] "")
    {["config" := content]} "".

(** The mutate function of [CreateOrUpdate]. *)
Definition mutate_config_map (yanet : Yanet) (buildCtx : BuildContext) (rc : ResolvedComponent) (content : string)
    (cm : ConfigMap) : prog (result ConfigMap) :=
  if bool_decide (om_ResourceVersion (cm_Meta cm) ≠ "") && negb (controlledByYanet (cm_Meta cm) yanet)
  then Ret (Err (Errorf "ConfigMap %s/%s already exists without the desired controller owner"
                   [AStr (om_Namespace (cm_Meta cm)); AStr (om_Name (cm_Meta cm))]))
  else
    let meta := ensureLabel (cm_Meta cm) labelYanet (bx_YanetName buildCtx) in
    let meta := ensureLabel meta labelComponent (rc_Name rc) in
    match SetControllerReference yanet meta with
    | Err e => Ret (Err e)
    | Ok meta =>
        do! checkGlobalStop in
        Ret (Ok (MkConfigMap meta {["config" := content]} (cm_other cm)))
    end.

Definition inline_config_step (yanet : Yanet) (buildCtx : BuildContext) (rc : ResolvedComponent) (autoSync : bool)
    (st : list string * bool) (entry : string * string) : prog (result (list string * bool)) :=
  let '(names, drift) := st in
  let '(name, content) := entry in
  let names := names ++ [name] in
  let cm := inline_config_map buildCtx rc name content in
  if negb autoSync then
    got ← invoke (GetConfigMap (bx_Namespace buildCtx) name);
    match got with
    | Err e =>
        if IsNotFound e then Ret (Ok (names, true))
        else Ret (Err (Errorf "configmap get %s/%s: %w" [AStr (bx_Namespace buildCtx); AStr name; AErr e]))
    | Ok existing =>
        Ret (Ok (names,
          drift || negb (controlledByYanet (cm_Meta existing) yanet)
          || bool_decide (is_Some (om_DeletionTimestamp (cm_Meta existing)))
          || bool_decide (cm_Data existing ≠ cm_Data cm)))
    end
  else
    written ← CreateOrUpdate cm (mutate_config_map yanet buildCtx rc content);
    match written with
    | Err e => Ret (Err (Errorf "configmap %s/%s: %w" [AStr (bx_Namespace buildCtx); AStr name; AErr e]))
    | Ok _ => Ret (Ok (names, drift))
    end.

Definition applyInlineConfigMaps (yanet : Yanet) (buildCtx : BuildContext) (rc : ResolvedComponent) (autoSync : bool)
    : prog (result (list string * bool)) :=
  foldPR (inline_config_step yanet buildCtx rc autoSync) ([], false) (map_range (InlineConfigMaps buildCtx rc)).

(** *** Create or update of one Deployment *)
Definition desiredDeploymentUpdate (existing desired : Deployment) : prog (result (Deployment * bool)) :=
  let candidate := update_candidate existing desired in
  if negb (deploymentUpdateChanged existing candidate) then Ret (Ok (candidate, false))
  else
    do! checkGlobalStop in
    normalized ← invoke (UpdateDeployment true candidate);
    match normalized with
    | Err e =>
        Ret (Err (Errorf "normalize Deployment %s/%s: %w" [AStr (d_Namespace desired); AStr (d_Name desired); AErr e]))
    | Ok candidate => Ret (Ok (candidate, deploymentUpdateChanged existing candidate))
    end.

Definition apply_attempt (desired : Deployment) (autoSync : bool) (updateWindow : Z) (nodeName : string)
    (st : apply_state) : prog (apply_state * result unit) :=
  got ← invoke (GetDeployment (d_Namespace desired) (d_Name desired));
  match got with
  | Err e => Ret (st, Err e)
  | Ok fresh =>
      match validateDeploymentOwnership fresh desired with
      | Err e => Ret (st, Err e)
      | Ok _ =>
          update ← desiredDeploymentUpdate fresh desired;
          match update with
          | Err e => Ret (st, Err e)
          | Ok (candidate, changed) =>
              if negb changed then Ret (st, Ok tt)
              else if negb autoSync then Ret (MkApplyState (ap_updated st) "out-of-sync" (ap_requeue st), Ok tt)
              else
                requeue ← invoke (Throttle updateWindow nodeName);
                if bool_decide (requeue > 0) then
                  invoke (Observe (Inc yanetUpdateThrottledTotal [d_Name desired; d_Namespace desired]));;
                  Ret (MkApplyState (ap_updated st) "sync-waiting" requeue, Ok tt)
                else
                  stop ← checkGlobalStop;
                  match stop with
                  | Err e => Ret (MkApplyState (ap_updated st) (ap_state st) requeue, Err e)
                  | Ok _ =>
                      written ← invoke (UpdateDeployment false candidate);
                      match written with
                      | Err e => Ret (MkApplyState (ap_updated st) (ap_state st) requeue, Err e)
                      | Ok _ => Ret (MkApplyState true (ap_state st) requeue, Ok tt)
                      end
                  end
          end
      end
  end.

(** The sync state, the throttle delay and the error. *)
Definition applyDeployment (desired : Deployment) (autoSync : bool) (updateWindow : Z) (nodeName : string)
    : prog (string * Z * option goerror) :=
  let failed what e :=
    Errorf (what +:+ " Deployment %s/%s: %w") [AStr (d_Namespace desired); AStr (d_Name desired); AErr e] in
  got ← invoke (GetDeployment (d_Namespace desired) (d_Name desired));
  match got with
  | Err e =>
      if IsNotFound e then
        if negb autoSync then Ret ("out-of-sync (missing)", 0, None)
        else
          let desired := upd_meta (λ m, mergeManagedMeta m m) desired in
          stop ← checkGlobalStop;
          match stop with
          | Err e => Ret ("sync-waiting", 0, Some e)
          | Ok _ =>
              created ← invoke (CreateDeployment desired);
              match created with
              | Err e => Ret ("error", 0, Some (failed "create" e))
              | Ok _ =>
                  invoke (Observe (Inc yanetDeploymentsCreatedTotal [d_Name desired; d_Namespace desired]));;
                  Ret ("synced", 0, None)
              end
          end
      else Ret ("error", 0, Some (failed "get" e))
  | Ok existing =>
      match validateDeploymentOwnership existing desired with
      | Err e => Ret ("error", 0, Some e)
      | Ok _ =>
          '(st, err) ← RetryOnConflict (apply_attempt desired autoSync updateWindow nodeName) (MkApplyState false "synced" 0);
          match err with
          | Err e => Ret ("error", 0, Some (failed "update" e))
          | Ok _ =>
              (if ap_updated st
               then invoke (Observe (Inc yanetDeploymentsUpdatedTotal [d_Name desired; d_Namespace desired]))
               else Ret tt);;
              Ret (ap_state st, ap_requeue st, None)
          end
      end
  end.

(** *** Placement transitions (operator_placement.go) *)
Definition deployment_produces (d : Deployment) : bool :=
  negb (deploymentReplicasAreZero d) || bool_decide (dst_Replicas (d_Status d) ≠ 0)
  || bool_decide (dst_ObservedGeneration (d_Status d) < om_Generation (d_Meta d)).

Definition replica_set_produces (s : ReplicaSet) : bool :=
  bool_decide (rs_Replicas s ≠ Some 0) || bool_decide (rs_StatusReplicas s ≠ 0)
  || bool_decide (rs_ObservedGeneration s < om_Generation (rs_Meta s)).

Definition pod_produces (p : Pod) : bool :=
  bool_decide (p_Phase p ≠ "Succeeded") && bool_decide (p_Phase p ≠ "Failed").

Definition pod_template (p : Pod) : PodTemplateSpec :=
  MkPodTemplateSpec (om_Labels (p_Meta p)) (om_Annotations (p_Meta p)) (p_Spec p) "".

Definition live_producers (deps : list Deployment) (sets : list ReplicaSet) (pods : list Pod)
    : list placementProducer :=
  sort_by (λ p, pp_kind p +:+ "/" +:+ pp_name p)
    (((λ d, MkProducer "Deployment" (d_Name d) (d_Template d)) <$> filter (λ d, deployment_produces d = true) deps)
     ++ ((λ s, MkProducer "ReplicaSet" (om_Name (rs_Meta s)) (rs_Template s)) <$>
           filter (λ s, replica_set_produces s = true) sets)
     ++ ((λ p, MkProducer "Pod" (om_Name (p_Meta p)) (pod_template p)) <$> filter (λ p, pod_produces p = true) pods)).

Definition listPlacementProducers (namespace : string) : prog (result (list placementProducer)) :=
  let wrap e := Errorf "list live workloads in namespace %q before operator placement migration: %w"
                  [AStr namespace; AErr e] in
  deps ← invoke (ListDeployments (Some namespace));
  match deps with
  | Err e => Ret (Err (wrap e))
  | Ok deps =>
      sets ← invoke (ListReplicaSets namespace);
      match sets with
      | Err e => Ret (Err (wrap e))
      | Ok sets =>
          pods ← invoke (ListPods namespace ∅);
          match pods with
          | Err e => Ret (Err (wrap e))
          | Ok pods => Ret (Ok (live_producers deps sets pods))
          end
      end
  end.

Definition workload_roles (node : Node) (w : renderedWorkload) : list placement_role :=
  if deploymentReplicasAreZero (rw_deployment w) then []
  else
    (if bool_decide (rc_Kind (rw_component w) = KindOperator)
     then [MkRole (rc_Name (rw_component w)) false node] else [])
    ++ ((λ op, MkRole (rc_Name op) true node) <$> filter (λ op, rc_Enabled op = true) (rc_Sidecars (rw_component w))).

Definition desired_roles (nodes : list Node) (workloads : gmap string (list renderedWorkload)) : list placement_role :=
  mjoin ((λ node, mjoin (workload_roles node <$> default [] (workloads !! n_Name node))) <$> nodes).

Definition producer_on_node (template : PodTemplateSpec) (node : Node) : bool :=
  if bool_decide (ps_NodeName (pt_Spec template) = "") && bool_decide (get (pt_Labels template) labelNode ≠ "")
  then bool_decide (get (pt_Labels template) labelNode = n_Name node)
  else podMayUseNode (pt_Spec template) node.

Definition check_producer (yanetName : string) (target : placement_role) (producer : placementProducer)
    : result unit :=
  let labels := pt_Labels (pp_template producer) in
  err_if (bool_decide (get labels labelYanet = yanetName)
          && producer_on_node (pp_template producer) (pl_node target)
          && incompatibleOperatorPlacement labels (pl_name target) (pl_colocated target))
    (Errorf "unsafe operator placement migration for %q on node %s: old producer in %s %s; explicitly drain (Yanet spec.enabled=false with autoSync=true), wait for zero Deployment/ReplicaSet replicas and terminated Pods, then enable the new placement"
       [AStr (pl_name target); AStr (n_Name (pl_node target)); AStr (pp_kind producer); AStr (pp_name producer)]).

Definition validateOperatorPlacementTransition (yanet : Yanet) (nodes : list Node)
    (workloads : gmap string (list renderedWorkload)) : prog (result unit) :=
  match desired_roles nodes workloads with
  | [] => Ret (Ok tt)
  | desired =>
      let! producers := listPlacementProducers (y_Namespace yanet) in
      Ret (check_all (λ target, check_all (check_producer (y_Name yanet) target) producers)
             (sort_by (λ r, n_Name (pl_node r) +:+ "/" +:+ pl_name r) desired))
  end.

(** *** Preflight *)
Record preflight := MkPreflight {
  pf_plans : gmap string ServicePlan;
  pf_collided : gset string;
  pf_errs : list goerror;
}.

Definition add_err (st : preflight) (e : goerror) : preflight :=
  MkPreflight (pf_plans st) (pf_collided st) (pf_errs st ++ [e]).

Definition add_plan (component location : string) (st : preflight) (plan : ServicePlan) : preflight :=
  match ServicePlan_Validate plan with
  | Err e => add_err st (Errorf "validate Service for %s %s: %w" [AStr component; AStr location; AErr e])
  | Ok _ =>
      if bool_decide (pl_Name plan ∈ pf_collided st) then st
      else
        match pf_plans st !! pl_Name plan with
        | Some existing =>
            if bool_decide (existing ≠ plan)
            then MkPreflight (delete (pl_Name plan) (pf_plans st)) ({[pl_Name plan]} ∪ pf_collided st)
                   (pf_errs st ++ [Errorf "components generate conflicting Service plans named %q" [AStr (pl_Name plan)]])
            else MkPreflight (<[pl_Name plan := plan]> (pf_plans st)) (pf_collided st) (pf_errs st)
        | None => MkPreflight (<[pl_Name plan := plan]> (pf_plans st)) (pf_collided st) (pf_errs st)
        end
  end.

(** [BuildServices] of a possibly nil component. *)
Definition build_services (ctx : BuildContext) (component : option ResolvedComponent) : list ServicePlan :=
  match component with Some c => BuildServices ctx c | None => [] end.

Definition addServicePlans (cfg : YanetConfigSpec) (boxType : string) (buildCtx : BuildContext)
    (component : ResolvedComponent) (location : string) (st : preflight) : preflight :=
  match ResolveBoxServiceComponent (Some cfg) boxType (rc_Kind component) (rc_Name component) with
  | Err e => add_err st (Errorf "resolve Service for %s %s: %w" [AStr (rc_Name component); AStr location; AErr e])
  | Ok declared => foldl (add_plan (rc_Name component) location) st (build_services buildCtx declared)
  end.

Definition node_context (cfg : YanetConfigSpec) (yanet : Yanet) (pullPolicy : string) (owner : OwnerReference)
    (node : Node) : BuildContext :=
  MkBuildContext (y_Name yanet) (y_Namespace yanet) (ys_BoxType (y_Spec yanet)) (n_Name node)
    (n_Allocatable node) pullPolicy (im_PullSecrets (yc_Images cfg)) owner [].

(** A node-pinned dataplane never runs more than one replica. *)
Definition check_dataplane_replicas (rc : ResolvedComponent) (st : preflight) (d : Deployment) : preflight :=
  match ds_Replicas (d_Spec d) with
  | Some n =>
      if bool_decide (rc_Kind rc = KindDataplane) && bool_decide (n > 1)
      then add_err st (Errorf "deployment %s is a node-pinned dataplane workload with %d replicas"
                         [AStr (d_Name d); AInt n])
      else st
  | None => st
  end.

Definition preflight_ref (cfg : YanetConfigSpec) (yanet : Yanet) (installationEnabled : bool)
    (registry : gmap string NamedPatch) (node : Node) (buildCtx : BuildContext)
    (acc : preflight * list renderedWorkload) (ref : ComponentRef) : preflight * list renderedWorkload :=
  let '(st, workloads) := acc in
  match ResolveBoxComponent (Some cfg) (Some (y_Spec yanet)) (ref_Kind ref) (ref_OperatorName ref) with
  | Err e => (add_err st (Errorf "resolve %s on node %s: %w" [AStr (kind_string (ref_Kind ref)); AStr (n_Name node); AErr e]), workloads)
  | Ok None => acc
  | Ok (Some rc) =>
      let rc := set_rc_Enabled (rc_Enabled rc && installationEnabled) rc in
      match RenderDeployments buildCtx rc registry with
      | Err e => (add_err st (Errorf "build %s on node %s: %w" [AStr (rc_Name rc); AStr (n_Name node); AErr e]), workloads)
      | Ok deployments =>
          if bool_decide (ref_Kind ref = KindControlplane) && rc_Enabled rc && installationEnabled
             && bool_decide (length deployments = 0)%nat
          then (add_err st (Errorf "controlplane has no enabled NUMA domain on node %s" [AStr (n_Name node)]), workloads)
          else
            let deployments := (λ d, normalizeDeploymentReplicas d (rc_Enabled rc) installationEnabled) <$> deployments in
            let st := foldl (check_dataplane_replicas rc) st deployments in
            (addServicePlans cfg (ys_BoxType (y_Spec yanet)) buildCtx rc ("on node " +:+ n_Name node) st,
             workloads ++ ((λ d, MkRendered d rc) <$> deployments))
      end
  end.

Definition preflight_node (cfg : YanetConfigSpec) (yanet : Yanet) (enabled : list ComponentRef)
    (installationEnabled : bool) (pullPolicy : string) (owner : OwnerReference) (registry : gmap string NamedPatch)
    (acc : preflight * gmap string (list renderedWorkload)) (node : Node)
    : result (preflight * gmap string (list renderedWorkload)) :=
  let '(st, workloadsByNode) := acc in
  buildCtx ← WithRuntimeNetwork (node_context cfg yanet pullPolicy owner node) cfg (y_Spec yanet);
  let '(st, workloads) :=
    foldl (preflight_ref cfg yanet installationEnabled registry node buildCtx) (st, []) enabled in
  Ok (st, <[n_Name node := workloads]> workloadsByNode).

Definition preflight_without_nodes (cfg : YanetConfigSpec) (yanet : Yanet) (st : preflight) (ref : ComponentRef)
    : preflight :=
  let buildCtx := MkBuildContext "" (y_Namespace yanet) (ys_BoxType (y_Spec yanet)) "" ∅ "" []
                    (MkOwnerReference "" "" "" "" None None) [] in
  match ResolveBoxComponent (Some cfg) (Some (y_Spec yanet)) (ref_Kind ref) (ref_OperatorName ref) with
  | Err e => add_err st (Errorf "resolve %s without matched nodes: %w" [AStr (kind_string (ref_Kind ref)); AErr e])
  | Ok None => st
  | Ok (Some component) =>
      addServicePlans cfg (ys_BoxType (y_Spec yanet)) buildCtx component "without matched nodes" st
  end.

(** Everything of [preflightResources] up to the live check. *)
Definition preflight_render (cfg : YanetConfigSpec) (yanet : Yanet) (nodes : list Node) (enabled : list ComponentRef)
    (installationEnabled : bool) (pullPolicy : string) (owner : OwnerReference) (registry : gmap string NamedPatch)
    : result (gmap string ServicePlan * gmap string (list renderedWorkload)) :=
  '(st, workloadsByNode) ←
    foldM (preflight_node cfg yanet enabled installationEnabled pullPolicy owner registry)
      (MkPreflight ∅ ∅ [], ∅) nodes;
  let st := match nodes with [] => foldl (preflight_without_nodes cfg yanet) st enabled | _ => st end in
  match pf_errs st with
  | [] => Ok (pf_plans st, workloadsByNode)
  | errs => Err (Joined errs)
  end.

Definition preflightResources (cfg : YanetConfigSpec) (yanet : Yanet) (nodes : list Node)
    (enabled : list ComponentRef) (installationEnabled : bool) (pullPolicy : string) (owner : OwnerReference)
    (registry : gmap string NamedPatch) : prog (result (gmap string ServicePlan)) :=
  match preflight_render cfg yanet nodes enabled installationEnabled pullPolicy owner registry with
  | Err e => Ret (Err e)
  | Ok (plans, workloadsByNode) =>
      do! validateOperatorPlacementTransition yanet nodes workloadsByNode in
      Ret (Ok plans)
  end.
End reconciler.
