(* ===== verification/Reconcile.v ===== *)
(** * reconcileYanet, Reconcile and the watch mappers (internal/controller)

    yanet_reconciler.go, yanet_controller.go and [collectPods] of
    yanet_conditions.go. *)

From S2P Require Import Prelude GoLib Sha256 K8s Api Resolve Labels Listeners Builder Service Render.
From S2P Require Import Webhook Metrics Program Managed YanetController Reconciler.
#[local] Open Scope Z_scope.

(** ** Small updates of the loop variables *)
Definition lo_add_err (e : goerror) (st : loop_state) : loop_state :=
  MkLoop (lo_errs st ++ [e]) (lo_nodesStatus st) (lo_desired st) (lo_missing st) (lo_syncWaiting st) (lo_earliest st).
Definition lo_add_missing (name : string) (st : loop_state) : loop_state :=
  MkLoop (lo_errs st) (lo_nodesStatus st) (lo_desired st) ({[name]} ∪ lo_missing st) (lo_syncWaiting st) (lo_earliest st).
Definition lo_add_config_maps (names : list string) (st : loop_state) : loop_state :=
  MkLoop (lo_errs st) (lo_nodesStatus st)
    (MkDesiredSet (ds_Deployments (lo_desired st)) (list_to_set names ∪ ds_ConfigMaps (lo_desired st)))
    (lo_missing st) (lo_syncWaiting st) (lo_earliest st).
Definition lo_add_deployment (name : string) (st : loop_state) : loop_state :=
  MkLoop (lo_errs st) (lo_nodesStatus st)
    (MkDesiredSet ({[name]} ∪ ds_Deployments (lo_desired st)) (ds_ConfigMaps (lo_desired st)))
    (lo_missing st) (lo_syncWaiting st) (lo_earliest st).
Definition lo_set_waiting (st : loop_state) : loop_state :=
  MkLoop (lo_errs st) (lo_nodesStatus st) (lo_desired st) (lo_missing st) true (lo_earliest st).
Definition lo_add_requeue (requeue : Z) (st : loop_state) : loop_state :=
  MkLoop (lo_errs st) (lo_nodesStatus st) (lo_desired st) (lo_missing st) (lo_syncWaiting st)
    (if bool_decide (lo_earliest st = 0) || bool_decide (requeue < lo_earliest st) then requeue else lo_earliest st).
Definition lo_set_node (name : string) (ns : NodeStatus) (st : loop_state) : loop_state :=
  MkLoop (lo_errs st) (<[name := ns]> (lo_nodesStatus st)) (lo_desired st) (lo_missing st) (lo_syncWaiting st) (lo_earliest st).

Definition ns_add_numa (ns : NodeStatus) : NodeStatus :=
  MkNodeStatus (ns_NodeName ns) (ns_LastUpdateTime ns) (ns_Deployments ns) (wrap_int32 (ns_NumaCount ns + 1)).
Definition ns_set_state (name state : string) (ns : NodeStatus) : NodeStatus :=
  MkNodeStatus (ns_NodeName ns) (ns_LastUpdateTime ns) (<[name := state]> (ns_Deployments ns)) (ns_NumaCount ns).

(** [nodesStatus] with the retained orphans recorded. *)
Definition record_orphan (nodesStatus : gmap string NodeStatus) (deployment : Deployment) : gmap string NodeStatus :=
  let nodeName := get (d_Labels deployment) labelNode in
  let ns := default (MkNodeStatus "" None ∅ 0) (nodesStatus !! nodeName) in
  let ns := MkNodeStatus nodeName (ns_LastUpdateTime ns) (ns_Deployments ns) (ns_NumaCount ns) in
  <[nodeName := ns_set_state (d_Name deployment) "out-of-sync (orphan)" ns]> nodesStatus.

(** [out[phase] = append(out[phase], name)] and the final sort. *)
Definition group_pods (pods : list Pod) : gmap string (list string) :=
  sort_strings <$>
    foldl (λ (out : gmap string (list string)) p, <[p_Phase p := default [] (out !! p_Phase p) ++ [om_Name (p_Meta p)]]> out) ∅ pods.

Definition collectPods (yanet : Yanet) : prog (result (gmap string (list string))) :=
  listed ← invoke (ListPods (y_Namespace yanet) {[labelYanet := y_Name yanet]});
  match listed with
  | Err e => Ret (Err (Errorf "list Pods for Yanet %s/%s: %w" [AStr (y_Namespace yanet); AStr (y_Name yanet); AErr e]))
  | Ok pods => Ret (Ok (group_pods pods))
  end.

Section reconcile.
Context `{MetaLib, ClientUtil, PatchLib, QuantityLib, K8sValidation, MapOrder}.

(** ** The node × component loop *)

(** Constants of one reconcile. *)
Record reconcile_env := MkEnv {
  re_cfg : YanetConfigSpec;
  re_yanet : Yanet;
  re_registry : gmap string NamedPatch;
  re_owner : OwnerReference;
  re_pullPolicy : string;
  re_updateWindow : Z;
  re_installationEnabled : bool;
  re_autoSync : bool;
}.

Definition reconcile_deployment (env : reconcile_env) (kind : ComponentKind) (rcEnabled configDrift : bool)
    (nodeName : string) (acc : loop_state * NodeStatus) (d : Deployment) : prog (loop_state * NodeStatus) :=
  let '(st, ns) := acc in
  let ns := if bool_decide (kind = KindControlplane) then ns_add_numa ns else ns in
  let d := normalizeDeploymentReplicas d rcEnabled (re_installationEnabled env) in
  '(state, requeue, applyErr) ← applyDeployment d (re_autoSync env) (re_updateWindow env) nodeName;
  let state := if configDrift && bool_decide (state = "synced") then "out-of-sync (inline config)" else state in
  let ns := ns_set_state (d_Name d) state ns in
  let st := lo_add_deployment (d_Name d) st in
  let st := match applyErr with Some e => lo_add_err e st | None => st end in
  let st := if bool_decide (state = "sync-waiting") then lo_set_waiting st else st in
  if bool_decide (requeue > 0) then
    record_event "UpdateThrottled";;
    Ret (lo_add_requeue requeue st, ns)
  else Ret (st, ns).

Definition reconcile_ref (env : reconcile_env) (buildCtx : BuildContext) (nodeName : string)
    (acc : loop_state * NodeStatus) (ref : ComponentRef) : prog (loop_state * NodeStatus) :=
  let '(st, ns) := acc in
  match ResolveBoxComponent (Some (re_cfg env)) (Some (y_Spec (re_yanet env))) (ref_Kind ref) (ref_OperatorName ref) with
  | Err e => Ret (lo_add_err e st, ns)
  | Ok None =>
      Ret (if bool_decide (ref_OperatorName ref ≠ "") then lo_add_missing (ref_OperatorName ref) st else st, ns)
  | Ok (Some rc) =>
      if IsColocated rc then Ret (st, ns)
      else
        let rc := set_rc_Enabled (rc_Enabled rc && re_installationEnabled env) rc in
        applied ← applyInlineConfigMaps (re_yanet env) buildCtx rc (re_autoSync env);
        match applied with
        | Err e => Ret (lo_add_err e st, ns)
        | Ok (cmNames, configDrift) =>
            let st := lo_add_config_maps cmNames st in
            match RenderDeployments buildCtx rc (re_registry env) with
            | Err e => Ret (lo_add_err e st, ns)
            | Ok deployments =>
                foldP (reconcile_deployment env (ref_Kind ref) (rc_Enabled rc) configDrift nodeName) (st, ns) deployments
            end
        end
  end.

Definition reconcile_node (env : reconcile_env) (enabled : list ComponentRef) (st : loop_state) (node : Node)
    : prog (result loop_state) :=
  match WithRuntimeNetwork (node_context (re_cfg env) (re_yanet env) (re_pullPolicy env) (re_owner env) node)
          (re_cfg env) (y_Spec (re_yanet env)) with
  | Err e => Ret (Err e)
  | Ok buildCtx =>
      '(st, ns) ← foldP (reconcile_ref env buildCtx (n_Name node))
                    (st, MkNodeStatus (n_Name node) None ∅ 0) enabled;
      Ret (Ok (lo_set_node (n_Name node) ns st))
  end.

(** ** Early exits *)

(** Degraded status, an event and a requeue in 30 seconds; a failed status
    write is only logged. *)
Definition bail_out (yanet : Yanet) (reason message : string) : prog outcome :=
  record_event reason;;
  updateStatus yanet (degrade reason message);;
  Ret (seconds 30, None).

(** The status fields computed by a full pass. *)
Definition pass_status (yanet : Yanet) (nodesStatus : gmap string NodeStatus) (serviceNames : list string)
    (pods : gmap string (list string)) : Yanet :=
  set_y_Status (MkYanetStatus pods (aggregateSyncStatus nodesStatus) (st_Conditions (y_Status yanet))
                  nodesStatus serviceNames) yanet.

(** A pass that ran but failed: its status is kept, degraded, and the error is
    returned. *)
Definition fail_pass (yanet : Yanet) (e : goerror) : prog outcome :=
  now ← invoke Now;
  let desiredStatus := y_Status (setConditionsDegraded yanet "ReconcileFailed" (Error e) now) in
  '(_, statusErr) ← updateStatus yanet (λ fresh, Ret (set_y_Status desiredStatus fresh));
  Ret (seconds 30, errors_Join [Some e; err_of statusErr]).

(** Steps 8 and 9: orphans, conditions and the status write. *)
Definition finish_pass (env : reconcile_env) (st : loop_state) (serviceNames : list string)
    (pods : gmap string (list string)) : prog outcome :=
  let yanet := re_yanet env in
  '(pruned, err) ← pruneOrphans yanet (lo_desired st) (re_autoSync env);
  let nodesStatus := foldl record_orphan (lo_nodesStatus st) (pr_RetainedDeployments pruned) in
  invoke (Observe (Add yanetOrphansPruned [y_Name yanet; y_Namespace yanet] (pr_Deleted pruned)));;
  (if bool_decide (pr_Deleted pruned > 0) then record_event "OrphanPruned" else Ret tt);;
  let yanet := pass_status yanet nodesStatus serviceNames pods in
  match err with
  | Some e => fail_pass yanet (Errorf "prune orphans: %w" [AErr e])
  | None =>
      now ← invoke Now;
      let yanet := set_y_Status (set_st_Conditions (computeConditions yanet (lo_missing st) now) (y_Status yanet)) yanet in
      yanet ← (match pr_RetainedConfigMaps pruned with
               | [] => Ret yanet
               | retained =>
                   degrade "OrphansRetained"
                     (Sprintf "ConfigMaps retained with autoSync=false: %v" [AStrs (sort_strings retained)]) yanet
               end);
      let sync := st_Sync (y_Status yanet) in
      invoke (Observe (SetTo yanetDeploymentsOutOfSync [y_Name yanet; y_Namespace yanet]
                         (Z.of_nat (length (sy_OutOfSync sync) + length (sy_Error sync)))));;
      '(_, statusErr) ← updateStatus yanet (λ fresh, Ret (set_y_Status (y_Status yanet) fresh));
      match statusErr with
      | Err _ => Ret (seconds 30, None)
      | Ok _ =>
          if lo_syncWaiting st
          then Ret (if bool_decide (lo_earliest st = 0) then re_updateWindow env else lo_earliest st, None)
          else Ret (0, None)
      end
  end.

(** The pass over the nodes after a successful preflight. *)
Definition run_pass (env : reconcile_env) (nodes : list Node) (enabled : list ComponentRef)
    (servicePlans : gmap string ServicePlan) : prog outcome :=
  looped ← foldPR (reconcile_node env enabled) loop_init nodes;
  match looped with
  | Err e => Ret (0, Some e)
  | Ok st =>
      let yanet := re_yanet env in
      let serviceNames := sort_strings (map_range servicePlans).*1 in
      collected ← collectPods yanet;
      let '(pods, errs) := match collected with
                           | Ok pods => (pods, lo_errs st)
                           | Err e => (st_Pods (y_Status yanet), lo_errs st ++ [e])
                           end in
      match errs with
      | [] => finish_pass env st serviceNames pods
      | _ => fail_pass (pass_status yanet (lo_nodesStatus st) serviceNames pods) (Joined errs)
      end
  end.

Definition owner_reference (yanet : Yanet) : OwnerReference :=
  let typed := bool_decide (y_APIVersion yanet ≠ "") in
  MkOwnerReference (if typed then y_APIVersion yanet else GroupVersion) (if typed then y_Kind yanet else "Yanet")
    (y_Name yanet) (om_UID (y_Meta yanet)) (Some true) (Some true).

Definition PullIfNotPresent : string := "IfNotPresent".

Definition make_env (cfg : YanetConfigSpec) (yanet : Yanet) : reconcile_env :=
  MkEnv cfg yanet (NewPatchRegistry (yc_Patches cfg)) (owner_reference yanet)
    (if bool_decide (im_PullPolicy (yc_Images cfg) = "") then PullIfNotPresent else im_PullPolicy (yc_Images cfg))
    (wrap_int64 (seconds (yc_UpdateWindow cfg)))
    (BoolValue (ys_Enabled (y_Spec yanet)) true) (BoolValue (ys_AutoSync (y_Spec yanet)) false).

(** Steps 4-9, once the configuration and the overrides are known to be good. *)
Definition reconcile_nodes (cfg : YanetConfigSpec) (yanet : Yanet) (enabled : list ComponentRef) : prog outcome :=
  let env := make_env cfg yanet in
  listed ← invoke (ListNodes (ys_NodeSelector (y_Spec yanet)));
  match listed with
  | Err _ => Ret (seconds 30, None)
  | Ok nodes =>
      exclusive ← validateExclusiveNodes yanet nodes;
      let conflict message cleanup :=
        record_event "NodeSelectionConflict";;
        '(yanet', statusErr) ← updateStatus yanet (degrade "NodeSelectionConflict" message);
        cleanupErr ← (match cleanup with
                      | Some names => if re_autoSync env then pruneConflictingDeployments yanet' names else Ret (Ok tt)
                      | None => Ret (Ok tt)
                      end);
        Ret (seconds 30, errors_Join [err_of statusErr; err_of cleanupErr]) in
      match exclusive with
      | ExclusivityFailed e => conflict (Error e) None
      | NodeSelectionConflict messages cleanup => conflict (Join messages "; ") (Some cleanup)
      | Exclusive =>
          flight ← preflightResources cfg yanet nodes enabled (re_installationEnabled env) (re_pullPolicy env)
                     (re_owner env) (re_registry env);
          match flight with
          | Err e =>
              record_event "ResourcePreflightFailed";;
              '(_, statusErr) ← updateStatus yanet (degrade "ResourcePreflightFailed" (Error e));
              Ret (seconds 30, errors_Join [Some e; err_of statusErr])
          | Ok servicePlans => run_pass env nodes enabled servicePlans
          end
      end
  end.

(** Steps 2-3 with a loaded configuration. *)
Definition reconcile_config (cfg : YanetConfigSpec) (yanet : Yanet) : prog outcome :=
  match FindBoxType (Some cfg) (ys_BoxType (y_Spec yanet)) with
  | Err e => bail_out yanet "BoxTypeNotFound" (Error e)
  | Ok box =>
      match ValidateEffectiveYanetComponentOverrides (ys_Components (y_Spec yanet)) (Some (yc_Components cfg)) (Some box) with
      | Err e => bail_out yanet "OverridesInvalid" (Error e)
      | Ok _ =>
          match EnabledComponentsForBox cfg (ys_BoxType (y_Spec yanet)) with
          | Err e => bail_out yanet "BoxTypeInvalid" (Error e)
          | Ok enabled => reconcile_nodes cfg yanet enabled
          end
      end
  end.

(** The finalizer is added before anything else is written. *)
Definition add_finalizer (yanet : Yanet) : prog outcome :=
  stop ← checkGlobalStop;
  match stop with
  | Err e => Ret (0, Some e)
  | Ok _ =>
      written ← invoke (UpdateYanet
        (set_y_Meta (set_om_Finalizers (AddFinalizer (om_Finalizers (y_Meta yanet)) yanetFinalizer) (y_Meta yanet)) yanet));
      match written with
      | Err e => Ret (0, Some e)
      | Ok _ => Ret (100 * millisecond, None)
      end
  end.

Definition reconcile_loaded (config : option YanetConfigSpec) (yanet : Yanet) : prog outcome :=
  if stopped config then Ret (0, None)
  else if bool_decide (is_Some (om_DeletionTimestamp (y_Meta yanet))) then handleYanetDeletion yanet
  else if negb (ContainsFinalizer (om_Finalizers (y_Meta yanet)) yanetFinalizer) then add_finalizer yanet
  else
    match config with
    | None => bail_out yanet "ConfigNotLoaded" "YanetConfig snapshot is empty"
    | Some cfg => reconcile_config cfg yanet
    end.

(** The body of [reconcileYanet] without its deferred function. *)
Definition reconcile_body (yanet : Yanet) : prog outcome :=
  snapshot ← snapshotYanetConfig;
  match snapshot with
  | Some cfg => reconcile_loaded (Some cfg) yanet
  | None =>
      persisted ← invoke GetConfig;
      match persisted with
      | Ok config => reconcile_loaded (Some (yc_Spec config)) yanet
      | Err e =>
          if IsNotFound e then reconcile_loaded None yanet
          else Ret (0, Some (Errorf "read YanetConfig before reconcile: %w" [AErr e]))
      end
  end.

(** The deferred function turns a stop into a quiet success. *)
Definition reconcileYanet (yanet : Yanet) : prog outcome :=
  '(requeue, err) ← reconcile_body yanet;
  if match err with Some e => is_global_stop e | None => false end then Ret (0, None)
  else
    stop ← checkGlobalStop;
    match stop with
    | Err _ => Ret (0, None)
    | Ok _ => Ret (requeue, err)
    end.

(** [YanetReconciler.Reconcile]. *)
Definition Reconcile (namespace name : string) : prog outcome :=
  startTime ← invoke Now;
  got ← invoke (GetYanet namespace name);
  match got with
  | Err e =>
      if IsNotFound e then Ret (0, None)
      else invoke (Observe (Inc yanetReconcileTotal [name; namespace; "error"]));; Ret (0, Some e)
  | Ok yanet =>
      '(result, reconcileErr) ← reconcileYanet yanet;
      now ← invoke Now;
      invoke (Observe (ObserveValue yanetReconcileDuration [name; namespace] (now - startTime)));;
      invoke (Observe (Inc yanetReconcileTotal
        [name; namespace; match reconcileErr with Some _ => "error" | None => "success" end]));;
      Ret (result, reconcileErr)
  end.

(** ** Watch mappers *)
Definition request : Type := string * string.
Definition key_of (yanet : Yanet) : request := (y_Namespace yanet, y_Name yanet).

Definition mapConfigToYanets : prog (list request) :=
  invoke RefreshSnapshot;;
  listed ← invoke ListYanets;
  Ret (match listed with Ok yanets => key_of <$> yanets | Err _ => [] end).

Definition mapNodeToYanets (node : Node) : prog (list request) :=
  listed ← invoke ListYanets;
  Ret (match listed with
       | Ok yanets =>
           key_of <$> filter (λ y, SelectorMatches (ys_NodeSelector (y_Spec y)) (n_Labels node) = true) yanets
       | Err _ => []
       end).

Definition mapPodToYanet (pod : Pod) : list request :=
  let name := get (om_Labels (p_Meta pod)) labelYanet in
  if bool_decide (name = "") then [] else [(om_Namespace (p_Meta pod), name)].
End reconcile.
