(* ===== verification/ConfigController.v ===== *)
(** * The YanetConfig controller (internal/controller)

    yanetconfig_controller.go (the shared snapshot) and shared_services.go (the
    namespace/box-type Services). *)

From S2P Require Import Prelude GoLib Sha256 K8s Api Resolve Labels Listeners Builder Service Render.
From S2P Require Import Webhook Metrics Program Managed YanetController Reconciler.
#[local] Open Scope Z_scope.

(** ** The snapshot *)

(** [YanetConfigSpec{}]. *)
Definition zero_image : ImageRef := MkImageRef None None "" "".
Definition zero_config : YanetConfigSpec :=
  MkYanetConfigSpec false 0 (MkImagesSpec "" "" "" "" [])
    (MkComponentsSpec (MkControlplaneSpec zero_image None None []) (MkDataplaneSpec zero_image None None None [])
       None []) [] [].

(** The critical section: the snapshot before, the answer of the read made
    inside it, the snapshot after and what the function returns. *)
Definition refreshYanetConfigSnapshot (snapshot : option YanetConfigSpec) (got : result YanetConfig)
    : option YanetConfigSpec * result (option YanetConfig) :=
  match snapshot with
  | None => (None, Err (Errorf "GlobalConfig is nil" []))
  | Some _ =>
      match got with
      | Err e =>
          if IsNotFound e then (Some zero_config, Ok None) else (Some zero_config, Err e)
      | Ok cfg => (Some (yc_Spec cfg), Ok (Some cfg))
      end
  end.

(** ** Shared Services *)
Definition service_key : Type := string * string.
Definition service_scope : Type := string * string.

Definition sv_key (s : Service) : service_key := (om_Namespace (sv_Meta s), om_Name (sv_Meta s)).
Definition sv_scope (s : Service) : service_scope :=
  (om_Namespace (sv_Meta s), get (om_Labels (sv_Meta s)) labelBoxType).

(** The variables of [reconcileSharedServices]. *)
Record shared_state := MkShared {
  sh_desired : gmap service_key Service;
  sh_blocked : gset service_key;
  sh_protected : gset service_scope;
  sh_scopes : gset service_scope;
  sh_errs : list goerror;
}.
Definition shared_init : shared_state := MkShared ∅ ∅ ∅ ∅ [].

Definition sh_add_err (e : goerror) (st : shared_state) : shared_state :=
  MkShared (sh_desired st) (sh_blocked st) (sh_protected st) (sh_scopes st) (sh_errs st ++ [e]).
Definition sh_protect (scope : service_scope) (st : shared_state) : shared_state :=
  MkShared (sh_desired st) (sh_blocked st) ({[scope]} ∪ sh_protected st) (sh_scopes st) (sh_errs st).
Definition sh_add_scope (scope : service_scope) (st : shared_state) : shared_state :=
  MkShared (sh_desired st) (sh_blocked st) (sh_protected st) ({[scope]} ∪ sh_scopes st) (sh_errs st).

(** [sharedServicesStopped]. *)
Definition sharedServicesStopped : prog bool :=
  global ← invoke ReadGlobal; Ret (stopped global).

Definition ServiceAffinityNone : string := "None".

Definition set_ss_SessionAffinity (x : string) (s : ServiceSpec) : ServiceSpec :=
  MkServiceSpec (ss_Type s) (ss_Selector s) (ss_Ports s) (ss_InternalTrafficPolicy s) x (ss_ClusterIP s)
    (ss_ClusterIPs s) (ss_IPFamilies s) (ss_IPFamilyPolicy s) (ss_other s).

Section config_controller.
Context `{MetaLib, ClientUtil, K8sValidation, MapOrder}.

(** *** One Service *)
Definition desiredSharedServiceUpdate (existing desired : Service) : Service * bool :=
  let d := sv_Spec desired in
  let e := sv_Spec existing in
  let spec := MkServiceSpec (ss_Type d) (ss_Selector d) (ss_Ports d) (ss_InternalTrafficPolicy d)
                ServiceAffinityNone (ss_ClusterIP e) (ss_ClusterIPs e) (ss_IPFamilies e)
                (match ss_IPFamilyPolicy e with Some policy => Some policy | None => ss_IPFamilyPolicy d end)
                (ss_other d) in
  let meta := set_om_OwnerReferences (om_OwnerReferences (sv_Meta desired)) (sv_Meta existing) in
  let meta := mergeManagedMeta meta (sv_Meta desired) in
  let meta := set_om_Labels (delete labelYanet (om_Labels meta)) meta in
  let candidate := MkService meta spec in
  (candidate,
   bool_decide (e ≠ spec)
   || bool_decide (om_Labels (sv_Meta existing) ≠ om_Labels meta)
   || bool_decide (om_Annotations (sv_Meta existing) ≠ om_Annotations meta)
   || bool_decide (om_OwnerReferences (sv_Meta existing) ≠ om_OwnerReferences meta)).

Definition shared_service_attempt (desired : Service) (_ : unit) : prog (unit * result unit) :=
  got ← invoke (GetService (om_Namespace (sv_Meta desired)) (om_Name (sv_Meta desired)));
  match got with
  | Err e => Ret (tt, Err e)
  | Ok fresh =>
      match validateServiceOwnership fresh desired with
      | Err e => Ret (tt, Err e)
      | Ok _ =>
          let '(candidate, changed) := desiredSharedServiceUpdate fresh desired in
          if negb changed then Ret (tt, Ok tt)
          else
            stop ← sharedServicesStopped;
            if (stop : bool) then Ret (tt, Ok tt)
            else
              written ← invoke (UpdateService candidate);
              Ret (tt, to_unit written)
      end
  end.

Definition applySharedService (desired : Service) : prog (result unit) :=
  if bool_decide (length (ss_Ports (sv_Spec desired)) = 0)%nat || bool_decide (ss_Selector (sv_Spec desired) = ∅)
  then Ret (Err (Errorf "refusing to apply invalid shared Service %s/%s"
                   [AStr (om_Namespace (sv_Meta desired)); AStr (om_Name (sv_Meta desired))]))
  else
    got ← invoke (GetService (om_Namespace (sv_Meta desired)) (om_Name (sv_Meta desired)));
    match got with
    | Err e =>
        if IsNotFound e then
          stop ← sharedServicesStopped;
          if (stop : bool) then Ret (Ok tt)
          else
            let candidate := MkService (mergeManagedMeta (sv_Meta desired) (sv_Meta desired))
                               (set_ss_SessionAffinity ServiceAffinityNone (sv_Spec desired)) in
            created ← invoke (CreateService candidate);
            Ret (to_unit created)
        else Ret (Err e)
    | Ok existing =>
        match validateServiceOwnership existing desired with
        | Err e => Ret (Err e)
        | Ok _ =>
            '(_, r) ← RetryOnConflict (shared_service_attempt desired) tt;
            Ret r
        end
    end.

(** *** Planning *)
Definition plan_service (owner : OwnerReference) (namespace : string) (acc : shared_state * bool) (plan : ServicePlan)
    : shared_state * bool :=
  let '(st, failed) := acc in
  match ServicePlan_Validate plan with
  | Err e =>
      (sh_add_err (Errorf "validate shared Service %s/%s: %w" [AStr namespace; AStr (pl_Name plan); AErr e]) st, true)
  | Ok _ =>
      let service := ToService plan namespace owner in
      let key := sv_key service in
      if bool_decide (key ∈ sh_blocked st) then (st, true)
      else
        match sh_desired st !! key with
        | Some previous =>
            if bool_decide (sv_Spec previous ≠ sv_Spec service) then
              (sh_add_err (Errorf "conflicting shared Service plans generated by Yanet objects for %s/%s"
                             [AStr key.1; AStr key.2])
                 (MkShared (delete key (sh_desired st)) ({[key]} ∪ sh_blocked st) (sh_protected st) (sh_scopes st)
                    (sh_errs st)), true)
            else (MkShared (<[key := service]> (sh_desired st)) (sh_blocked st) (sh_protected st) (sh_scopes st)
                    (sh_errs st), failed)
        | None => (MkShared (<[key := service]> (sh_desired st)) (sh_blocked st) (sh_protected st) (sh_scopes st)
                     (sh_errs st), failed)
        end
  end.

Definition plan_ref (config : YanetConfigSpec) (owner : OwnerReference) (yanet : Yanet) (acc : shared_state * bool)
    (ref : ComponentRef) : shared_state * bool :=
  let '(st, failed) := acc in
  let boxType := ys_BoxType (y_Spec yanet) in
  let buildCtx := MkBuildContext "" (y_Namespace yanet) boxType "" ∅ "" []
                    (MkOwnerReference "" "" "" "" None None) [] in
  match ResolveBoxServiceComponent (Some config) boxType (ref_Kind ref) (ref_OperatorName ref) with
  | Err e =>
      (sh_add_err (Errorf "resolve %s for Yanet %s/%s: %w"
                     [AStr (kind_string (ref_Kind ref)); AStr (y_Namespace yanet); AStr (y_Name yanet); AErr e]) st, true)
  | Ok None => acc
  | Ok (Some component) => foldl (plan_service owner (y_Namespace yanet)) acc (BuildServices buildCtx component)
  end.

Definition plan_installation (config : YanetConfigSpec) (owner : OwnerReference) (st : shared_state) (yanet : Yanet)
    : shared_state :=
  if bool_decide (is_Some (om_DeletionTimestamp (y_Meta yanet))) then st
  else
    let scope := (y_Namespace yanet, ys_BoxType (y_Spec yanet)) in
    let st := sh_add_scope scope st in
    match EnabledComponentsForBox config (ys_BoxType (y_Spec yanet)) with
    | Err e =>
        sh_protect scope
          (sh_add_err (Errorf "resolve Yanet %s/%s components: %w" [AStr (y_Namespace yanet); AStr (y_Name yanet); AErr e]) st)
    | Ok refs =>
        let '(st, failed) := foldl (plan_ref config owner yanet) (st, false) refs in
        if failed : bool then sh_protect scope st else st
    end.

(** *** Placement migrations *)
Definition box_role_names (box : BoxType) : list string :=
  let sidecars := match bcs_Dataplane (bt_Components box) with Some dp => (map_range (bd_Sidecars dp)).*1 | None => [] end in
  sort_strings ((map_range (bt_Operators box)).*1 ++ sidecars).

Definition box_has_sidecar (box : BoxType) (name : string) : bool :=
  match bcs_Dataplane (bt_Components box) with
  | Some dp => bool_decide (is_Some (bd_Sidecars dp !! name))
  | None => false
  end.

(** The first role of the scope with an incompatible producer. *)
Definition scope_conflict (boxType : string) (box : BoxType) (producers : list placementProducer)
    : option (string * placementProducer) :=
  head (mjoin ((λ producer,
    if bool_decide (get (pt_Labels (pp_template producer)) labelBoxType ≠ boxType) then []
    else (λ name, (name, producer)) <$>
      filter (λ name, incompatibleOperatorPlacement (pt_Labels (pp_template producer)) name (box_has_sidecar box name) = true)
        (box_role_names box)) <$> producers)).

(** [byNamespace]: the live workloads already read. *)
Definition placement_inventory : Type := gmap string (result (list placementProducer)).

Definition blocked_scope_step (config : YanetConfigSpec)
    (acc : gset service_scope * list goerror * placement_inventory) (scope : service_scope)
    : prog (gset service_scope * list goerror * placement_inventory) :=
  let '(blocked, errs, byNamespace) := acc in
  let '(namespace, boxType) := scope in
  match FindBoxType (Some config) boxType with
  | Err _ => Ret acc
  | Ok box =>
      if bool_decide (bt_Operators box = ∅)
         && match bcs_Dataplane (bt_Components box) with
            | None => true
            | Some dp => bool_decide (bd_Sidecars dp = ∅)
            end
      then Ret acc
      else
        live ← (match byNamespace !! namespace with
                | Some live => Ret live
                | None => listPlacementProducers namespace
                end);
        let byNamespace := <[namespace := live]> byNamespace in
        match live with
        | Err e => Ret ({[scope]} ∪ blocked, errs ++ [e], byNamespace)
        | Ok producers =>
            match scope_conflict boxType box producers with
            | Some (name, producer) =>
                Ret ({[scope]} ∪ blocked,
                     errs ++ [Errorf "shared Service placement migration in %s/%s for %q requires drain of old %s %s; preserving existing Services until all installations in this scope have drained incompatible producers"
                                [AStr namespace; AStr boxType; AStr name; AStr (pp_kind producer); AStr (pp_name producer)]],
                     byNamespace)
            | None => Ret (blocked, errs, byNamespace)
            end
        end
  end.

Definition blockedSharedServicePlacementScopes (config : YanetConfigSpec) (scopes : gset service_scope)
    : prog (gset service_scope * list goerror) :=
  '(blocked, errs, _) ←
    foldP (blocked_scope_step config) (∅, [], ∅) (sort_by (λ s, s.1 +:+ "/" +:+ s.2) (elements scopes));
  Ret (blocked, errs).

(** *** Application and pruning *)

(** [None]: the loop returned because of a stop. *)
Definition apply_service_step (migrationBlocked : gset service_scope) (acc : option (gset service_scope * list goerror))
    (service : Service) : prog (option (gset service_scope * list goerror)) :=
  match acc with
  | None => Ret None
  | Some (protected, errs) =>
      if bool_decide (sv_scope service ∈ migrationBlocked) then Ret acc
      else
        stop ← sharedServicesStopped;
        if (stop : bool) then Ret None
        else
          applied ← applySharedService service;
          match applied with
          | Ok _ => Ret acc
          | Err e =>
              Ret (Some ({[sv_scope service]} ∪ protected,
                         errs ++ [Errorf "apply shared Service %s/%s: %w"
                                    [AStr (sv_key service).1; AStr (sv_key service).2; AErr e]]))
          end
  end.

Definition prune_service_step (owner : OwnerReference) (desired : gmap service_key Service)
    (blocked : gset service_key) (protected : gset service_scope) (acc : option (list goerror)) (service : Service)
    : prog (option (list goerror)) :=
  match acc with
  | None => Ret None
  | Some errs =>
      if bool_decide (is_Some (desired !! sv_key service)) || bool_decide (sv_scope service ∈ protected)
         || bool_decide (sv_key service ∈ blocked) || negb (controlledBy (sv_Meta service) owner)
      then Ret acc
      else
        stop ← sharedServicesStopped;
        if (stop : bool) then Ret None
        else
          deleted ← invoke (DeleteService service);
          match deleted with
          | Ok _ => Ret acc
          | Err e =>
              if IsNotFound e then Ret acc
              else Ret (Some (errs ++ [Errorf "delete shared Service %s/%s: %w"
                                        [AStr (sv_key service).1; AStr (sv_key service).2; AErr e]]))
          end
  end.

(** Namespace first, then name. *)
Definition key_le (a b : service_key) : Prop :=
  if decide (a.1 = b.1) then String.le a.2 b.2 else str_lt a.1 b.1 = true.
#[export] Instance key_le_dec : RelDecision key_le.
Proof. intros a b. unfold key_le. destruct (decide (a.1 = b.1)); apply _. Defined.

Definition reconcileSharedServices (config : YanetConfig) : prog (option goerror) :=
  listed ← invoke ListYanets;
  match listed with
  | Err e => Ret (Some (Errorf "list Yanet objects for shared Services: %w" [AErr e]))
  | Ok installations =>
      let owner := NewControllerRef (yc_Meta config) GroupVersion "YanetConfig" in
      let st := foldl (plan_installation (yc_Spec config) owner) shared_init installations in
      '(migrationBlocked, migrationErrs) ← blockedSharedServicePlacementScopes (yc_Spec config) (sh_scopes st);
      let protected := migrationBlocked ∪ sh_protected st in
      let services := omap (λ key, sh_desired st !! key) (merge_sort key_le (map_range (sh_desired st)).*1) in
      applied ← foldP (apply_service_step migrationBlocked) (Some (protected, sh_errs st ++ migrationErrs)) services;
      match applied with
      | None => Ret None
      | Some (protected, errs) =>
          listed ← invoke (ListServices {[labelSharedService := "true"]});
          match listed with
          | Err e => Ret (Some (Joined (errs ++ [Errorf "list shared Services for pruning: %w" [AErr e]])))
          | Ok live =>
              pruned ← foldP (prune_service_step owner (sh_desired st) (sh_blocked st) protected) (Some errs) live;
              Ret (match pruned with
                   | None => None
                   | Some errs => errors_Join (Some <$> errs)
                   end)
          end
      end
  end.

(** [YanetConfigReconciler.Reconcile]. *)
Definition ReconcileConfig : prog outcome :=
  refreshed ← invoke RefreshSnapshot;
  match refreshed with
  | Err e => Ret (0, Some e)
  | Ok None => Ret (0, None)
  | Ok (Some cfg) =>
      if yc_Stop (yc_Spec cfg) then Ret (0, None)
      else
        err ← reconcileSharedServices cfg;
        Ret (0, err)
  end.

Definition enqueueYanetConfigSingleton : list string := [YanetConfigName].
End config_controller.
