(* ===== verification/System.v ===== *)
(** * The running process (cmd/main.go, SetupWithManager)

    The manager runs reconciles and watch mappers as goroutines of one process.
    They share two pieces of memory: the YanetConfig snapshot behind
    [MutexYanetConfigSpec.Lock] and the update throttle behind
    [YanetReconciler.lock].  Two semantics of a pool of jobs are given:

    - [lock_step], in which a goroutine acquires a mutex, reads, decides, writes
      and releases in separate steps, so that any other goroutine may run in
      between;
    - [atomic_step], in which every call of a program is one step on the memory.

    [abstraction] maps a state of the first to one of the second.  Everything the
    API server answers is chosen by the schedule, and so is the set of jobs: the
    manager may start any job at any time. *)

From S2P Require Import Prelude GoLib Sha256 K8s Api Resolve Labels Listeners Builder Service Render.
From S2P Require Import Webhook Metrics Program Managed YanetController Reconciler Reconcile ConfigController.
#[local] Open Scope Z_scope.

(** ** Jobs

    What the manager runs on its goroutines: the two reconcilers, and the mappers
    of their watches (YanetConfig, Node and Pod for the first, Yanet for the
    second). *)
Inductive job :=
| YanetJob (namespace name : string)
| YanetConfigJob
| MapConfigJob
| MapNodeJob (node : Node)
| MapPodJob (pod : Pod)
| MapYanetJob.

Inductive job_result :=
| Reconciled (o : outcome)
| Mapped (requests : list request).

Section jobs.
Context `{MetaLib, ClientUtil, PatchLib, QuantityLib, K8sValidation, MapOrder}.

Definition job_prog (j : job) : prog job_result :=
  match j with
  | YanetJob namespace name => Reconciled <$> Reconcile namespace name
  | YanetConfigJob => Reconciled <$> ReconcileConfig
  | MapConfigJob => Mapped <$> mapConfigToYanets
  | MapNodeJob node => Mapped <$> mapNodeToYanets node
  | MapPodJob pod => Ret (Mapped (mapPodToYanet pod))
  | MapYanetJob => Ret (Mapped ((λ name, ("", name)) <$> enqueueYanetConfigSingleton))
  end.
End jobs.

(** ** Memory of the process and its surroundings

    [mem_config] is [GlobalConfig.Config]; [mem_singleton] is what a read of the
    YanetConfig singleton answers at this moment. *)
Record memory := MkMemory {
  mem_config : YanetConfigSpec;
  mem_throttle : throttle;
  mem_clock : Z;
  mem_singleton : result YanetConfig;
}.

Definition set_mem_config (x : YanetConfigSpec) (m : memory) : memory :=
  MkMemory x (mem_throttle m) (mem_clock m) (mem_singleton m).
Definition set_mem_throttle (x : throttle) (m : memory) : memory :=
  MkMemory (mem_config m) x (mem_clock m) (mem_singleton m).
Definition set_mem_clock (x : Z) (m : memory) : memory :=
  MkMemory (mem_config m) (mem_throttle m) x (mem_singleton m).
Definition set_mem_singleton (x : result YanetConfig) (m : memory) : memory :=
  MkMemory (mem_config m) (mem_throttle m) (mem_clock m) x.

(** [refreshYanetConfigSnapshot] on a snapshot that exists: the new content and
    what the function returns. *)
Definition refresh (m : memory) (got : result YanetConfig) : YanetConfigSpec * result (option YanetConfig) :=
  let '(config, returned) := refreshYanetConfigSnapshot (Some (mem_config m)) got in
  (default (mem_config m) config, returned).

Definition throttled (m : memory) (updateWindow : Z) (updateHost : string) : throttle * Z :=
  checkUpdateRequeue (mem_throttle m) (mem_clock m) updateWindow updateHost.

(** What the process did: who made which call when, and the answer. *)
Record entry := MkEntry { en_thread : nat; en_time : Z; en_event : event }.
Notation history := (list entry).

(** The part of one goroutine. *)
Definition calls_of (i : nat) (h : history) : trace :=
  en_event <$> filter (λ e, en_thread e = i) h.

(** The answers of the API server in one step. *)
Definition answers : Type := ∀ c, answer c.

(** The schedule: start a job, let time pass, let the singleton change, or let
    one goroutine make its next step. *)
Inductive move :=
| Start (j : job)
| Tick (now : Z)
| Store (got : result YanetConfig)
| Advance (i : nat) (server : answers).

(** ** Atomic calls *)
Definition serve (server : answers) (m : memory) (c : call) : memory * answer c :=
  match c return memory * answer c with
  | ReadGlobal => (m, Some (mem_config m))
  | RefreshSnapshot =>
      let done := refresh m (mem_singleton m) in (set_mem_config done.1 m, done.2)
  | Throttle updateWindow updateHost =>
      let done := throttled m updateWindow updateHost in (set_mem_throttle done.1 m, done.2)
  | Now => (m, mem_clock m)
  | c => (m, server c)
  end.

Record atomic_state := MkAtomic {
  at_jobs : list (job * prog job_result);
  at_memory : memory;
  at_history : history;
}.

Section steps.
Context `{MetaLib, ClientUtil, PatchLib, QuantityLib, K8sValidation, MapOrder}.

Definition atomic_step (s : atomic_state) (mv : move) : option atomic_state :=
  match mv with
  | Start j => Some (MkAtomic (at_jobs s ++ [(j, job_prog j)]) (at_memory s) (at_history s))
  | Tick now =>
      if bool_decide (mem_clock (at_memory s) ≤ now)
      then Some (MkAtomic (at_jobs s) (set_mem_clock now (at_memory s)) (at_history s)) else None
  | Store got => Some (MkAtomic (at_jobs s) (set_mem_singleton got (at_memory s)) (at_history s))
  | Advance i server =>
      match at_jobs s !! i with
      | Some (j, Call c k) =>
          let '(m, a) := serve server (at_memory s) c in
          Some (MkAtomic (<[i := (j, k a)]> (at_jobs s)) m
                  (at_history s ++ [MkEntry i (mem_clock (at_memory s)) (Ev c a)]))
      | _ => None
      end
  end.

(** ** Mutexes *)

(** Where a goroutine is: outside the critical sections; after [Lock] of the
    snapshot; after the read of the singleton under that lock; after its last
    access, before the deferred [Unlock]; and the same for the throttle. *)
Inductive phase :=
| Running
| ConfigLocked
| ConfigFetched (got : result YanetConfig)
| ConfigLeaving
| ThrottleLocked
| ThrottleTimed (now : Z)
| ThrottleLeaving.

Record thread := MkThread { th_job : job; th_phase : phase; th_rest : prog job_result }.

Record lock_state := MkLockState {
  lk_threads : list thread;
  lk_config_lock : option nat;
  lk_throttle_lock : option nat;
  lk_memory : memory;
  lk_history : history;
}.

Definition lk_update (i : nat) (th : thread) (s : lock_state) : lock_state :=
  MkLockState (<[i := th]> (lk_threads s)) (lk_config_lock s) (lk_throttle_lock s) (lk_memory s) (lk_history s).
Definition lk_set_config_lock (x : option nat) (s : lock_state) : lock_state :=
  MkLockState (lk_threads s) x (lk_throttle_lock s) (lk_memory s) (lk_history s).
Definition lk_set_throttle_lock (x : option nat) (s : lock_state) : lock_state :=
  MkLockState (lk_threads s) (lk_config_lock s) x (lk_memory s) (lk_history s).
Definition lk_set_memory (m : memory) (s : lock_state) : lock_state :=
  MkLockState (lk_threads s) (lk_config_lock s) (lk_throttle_lock s) m (lk_history s).
Definition lk_log (i : nat) (e : event) (s : lock_state) : lock_state :=
  MkLockState (lk_threads s) (lk_config_lock s) (lk_throttle_lock s) (lk_memory s)
    (lk_history s ++ [MkEntry i (mem_clock (lk_memory s)) e]).

(** [Lock()]: waits while the mutex is held. *)
Definition acquire_config (i : nat) (j : job) (p : prog job_result) (s : lock_state) : option lock_state :=
  match lk_config_lock s with
  | Some _ => None
  | None => Some (lk_set_config_lock (Some i) (lk_update i (MkThread j ConfigLocked p) s))
  end.
Definition acquire_throttle (i : nat) (j : job) (p : prog job_result) (s : lock_state) : option lock_state :=
  match lk_throttle_lock s with
  | Some _ => None
  | None => Some (lk_set_throttle_lock (Some i) (lk_update i (MkThread j ThrottleLocked p) s))
  end.

(** One step of goroutine [i], whose program is at the call [c].  The reads of the
    snapshot are checkGlobalStop, snapshotYanetConfig and sharedServicesStopped: lock,
    copy, deferred unlock.  refreshYanetConfigSnapshot fetches the singleton under the
    lock and publishes it before the deferred unlock.  checkUpdateRequeue returns before
    its lock when there is no window, and otherwise reads the clock under it.  Every
    other call touches no shared memory. *)
Definition advance_call (server : answers) (s : lock_state) (i : nat) (j : job) (ph : phase) (c : call)
    : (answer c → prog job_result) → option lock_state :=
  let m := lk_memory s in
  match c return (answer c → prog job_result) → option lock_state with
  | ReadGlobal => λ k,
      match ph with
      | Running => acquire_config i j (Call ReadGlobal k) s
      | ConfigLocked =>
          Some (lk_update i (MkThread j ConfigLeaving (k (Some (mem_config m))))
                  (lk_log i (Ev ReadGlobal (Some (mem_config m))) s))
      | _ => None
      end
  | RefreshSnapshot => λ k,
      match ph with
      | Running => acquire_config i j (Call RefreshSnapshot k) s
      | ConfigLocked =>
          let got := mem_singleton m in
          Some (lk_update i (MkThread j (ConfigFetched got) (Call RefreshSnapshot k))
                  (lk_log i (Ev RefreshSnapshot (refresh m got).2) s))
      | ConfigFetched got =>
          let done := refresh m got in
          Some (lk_update i (MkThread j ConfigLeaving (k done.2)) (lk_set_memory (set_mem_config done.1 m) s))
      | _ => None
      end
  | Throttle updateWindow updateHost => λ k,
      match ph with
      | Running =>
          if bool_decide (updateWindow = 0)
          then Some (lk_update i (MkThread j Running (k 0)) (lk_log i (Ev (Throttle updateWindow updateHost) 0) s))
          else acquire_throttle i j (Call (Throttle updateWindow updateHost) k) s
      | ThrottleLocked =>
          Some (lk_update i (MkThread j (ThrottleTimed (mem_clock m)) (Call (Throttle updateWindow updateHost) k))
                  (lk_log i (Ev (Throttle updateWindow updateHost) (throttled m updateWindow updateHost).2) s))
      | ThrottleTimed now =>
          let done := checkUpdateRequeue (mem_throttle m) now updateWindow updateHost in
          Some (lk_update i (MkThread j ThrottleLeaving (k done.2)) (lk_set_memory (set_mem_throttle done.1 m) s))
      | _ => None
      end
  | Now => λ k,
      match ph with
      | Running => Some (lk_update i (MkThread j Running (k (mem_clock m))) (lk_log i (Ev Now (mem_clock m)) s))
      | _ => None
      end
  | c => λ k,
      match ph with
      | Running => Some (lk_update i (MkThread j Running (k (server c))) (lk_log i (Ev c (server c)) s))
      | _ => None
      end
  end.

(** The deferred [Unlock] of either mutex, or the next step of the pending call. *)
Definition advance (server : answers) (s : lock_state) (i : nat) : option lock_state :=
  match lk_threads s !! i with
  | None => None
  | Some (MkThread j ConfigLeaving p) => Some (lk_set_config_lock None (lk_update i (MkThread j Running p) s))
  | Some (MkThread j ThrottleLeaving p) => Some (lk_set_throttle_lock None (lk_update i (MkThread j Running p) s))
  | Some (MkThread _ _ (Ret _)) => None
  | Some (MkThread j ph (Call c k)) => advance_call server s i j ph c k
  end.

Definition lock_step (s : lock_state) (mv : move) : option lock_state :=
  match mv with
  | Start j =>
      Some (MkLockState (lk_threads s ++ [MkThread j Running (job_prog j)]) (lk_config_lock s) (lk_throttle_lock s)
              (lk_memory s) (lk_history s))
  | Tick now =>
      if bool_decide (mem_clock (lk_memory s) ≤ now)
      then Some (lk_set_memory (set_mem_clock now (lk_memory s)) s) else None
  | Store got => Some (lk_set_memory (set_mem_singleton got (lk_memory s)) s)
  | Advance i server => advance server s i
  end.

(** ** Executions

    The process starts with an empty snapshot, a zero throttle and no job. *)
Definition initial_memory (now : Z) (got : result YanetConfig) : memory := MkMemory zero_config throttle_init now got.
Definition lock_initial (now : Z) (got : result YanetConfig) : lock_state :=
  MkLockState [] None None (initial_memory now got) [].
Definition atomic_initial (now : Z) (got : result YanetConfig) : atomic_state :=
  MkAtomic [] (initial_memory now got) [].

Inductive lock_reachable : lock_state → Prop :=
| lock_reachable_initial now got : lock_reachable (lock_initial now got)
| lock_reachable_step s mv s' : lock_reachable s → lock_step s mv = Some s' → lock_reachable s'.

Inductive atomic_reachable : atomic_state → Prop :=
| atomic_reachable_initial now got : atomic_reachable (atomic_initial now got)
| atomic_reachable_step s mv s' : atomic_reachable s → atomic_step s mv = Some s' → atomic_reachable s'.

(** Running a schedule. *)
Fixpoint run_schedule (s : lock_state) (moves : list move) : option lock_state :=
  match moves with
  | [] => Some s
  | mv :: moves => s' ← lock_step s mv; run_schedule s' moves
  end.

Lemma run_schedule_reachable s moves s' :
  lock_reachable s → run_schedule s moves = Some s' → lock_reachable s'.
Proof.
  revert s. induction moves as [|mv moves IH]; intros s Hs E; simpl in E; [by injection E as <-|].
  destruct (lock_step s mv) as [s1|] eqn:E1; [|done]. eapply IH; [|exact E]. by econstructor.
Qed.

(** ** The abstraction

    The read of the singleton, or of the clock, is the moment the whole critical
    section takes effect: from there to its last write the goroutine counts as
    past the call, and the memory as already updated. *)
Definition abstract_thread (m : memory) (th : thread) : job * prog job_result :=
  (th_job th,
   match th_phase th, th_rest th with
   | ConfigFetched got, Call RefreshSnapshot k => k (refresh m got).2
   | ThrottleTimed now, Call (Throttle updateWindow updateHost) k =>
       k (checkUpdateRequeue (mem_throttle m) now updateWindow updateHost).2
   | _, p => p
   end).

Definition pending_config (m : memory) (th : thread) : YanetConfigSpec :=
  match th_phase th with ConfigFetched got => (refresh m got).1 | _ => mem_config m end.

Definition pending_throttle (m : memory) (th : thread) : throttle :=
  match th_phase th, th_rest th with
  | ThrottleTimed now, Call (Throttle updateWindow updateHost) _ =>
      (checkUpdateRequeue (mem_throttle m) now updateWindow updateHost).1
  | _, _ => mem_throttle m
  end.

Definition abstract_memory (s : lock_state) : memory :=
  let m := lk_memory s in
  let holder lock := lock ≫= λ i, lk_threads s !! i in
  MkMemory (from_option (pending_config m) (mem_config m) (holder (lk_config_lock s)))
    (from_option (pending_throttle m) (mem_throttle m) (holder (lk_throttle_lock s)))
    (mem_clock m) (mem_singleton m).

Definition abstraction (s : lock_state) : atomic_state :=
  MkAtomic (abstract_thread (lk_memory s) <$> lk_threads s) (abstract_memory s) (lk_history s).
End steps.
