(* ===== verification/Flags.v ===== *)
(** * Command-line flags

    The parts of Go's [flag] and [strconv] packages that cmd/main.go uses:
    [FlagSet.Parse] under [ExitOnError], [strconv.ParseBool], and
    [strconv.ParseInt] with base 0 for an [int] of 64 bits. *)

From S2P Require Import Prelude GoLib.
From Stdlib Require Import Ascii.
#[local] Open Scope Z_scope.

(** ** strconv *)
Definition ErrSyntax : goerror := Errorf "parse error" [].
Definition ErrRange : goerror := Errorf "value out of range" [].

Definition ParseBool (s : string) : result bool :=
  if bool_decide (s ∈ ["1"; "t"; "T"; "TRUE"; "true"; "True"]) then Ok true
  else if bool_decide (s ∈ ["0"; "f"; "F"; "FALSE"; "false"; "False"]) then Ok false
  else Err ErrSyntax.

(** [c | ('x' - 'X')]. *)
Definition lower (c : ascii) : ascii := ascii_of_N (N.lor (N_of_ascii c) 32).

Definition digit_value (c : ascii) : option Z :=
  let n := Z.of_N (N_of_ascii c) in
  let l := Z.of_N (N_of_ascii (lower c)) in
  if (48 <=? n) && (n <=? 57) then Some (n - 48)
  else if (97 <=? l) && (l <=? 122) then Some (l - 97 + 10)
  else None.

(** The digits of [ParseUint] in the given base; underscores are skipped here and
    checked by [underscoreOK].  The value is unbounded and its range is checked at the
    end; Go stops at the digit that overflows, with an error in either case. *)
Fixpoint parse_digits (base n : Z) (s : string) : result Z :=
  match s with
  | "" => Ok n
  | String c s =>
      if bool_decide (c = "_"%char) then parse_digits base n s
      else match digit_value c with
           | Some d => if d <? base then parse_digits base (n * base + d) s else Err ErrSyntax
           | None => Err ErrSyntax
           end
  end.

(** The base that a prefix selects, and the digits after it. *)
Definition base_prefix (s : string) : Z * string :=
  match s with
  | String "0" (String c (String _ _ as digits)) =>
      if bool_decide (lower c = "b"%char) then (2, digits)
      else if bool_decide (lower c = "o"%char) then (8, digits)
      else if bool_decide (lower c = "x"%char) then (16, digits)
      else (8, String c digits)
  | String "0" digits => (8, digits)
  | _ => (10, s)
  end.

(** What [underscoreOK] last saw: the beginning, a digit or base prefix, an
    underscore, or something else. *)
Inductive saw := SawStart | SawDigit | SawUnderscore | SawOther.
#[export] Instance saw_eq_dec : EqDecision saw.
Proof. solve_decision. Defined.

Fixpoint underscores_separate (hex : bool) (last : saw) (s : string) : bool :=
  match s with
  | "" => negb (bool_decide (last = SawUnderscore))
  | String c s =>
      let n := N_of_ascii c in
      let l := N_of_ascii (lower c) in
      if ((48 <=? n) && (n <=? 57) || hex && ((97 <=? l) && (l <=? 102)))%N
      then underscores_separate hex SawDigit s
      else if bool_decide (c = "_"%char)
           then if bool_decide (last = SawDigit) then underscores_separate hex SawUnderscore s else false
      else if bool_decide (last = SawUnderscore) then false
      else underscores_separate hex SawOther s
  end.

Definition underscoreOK (s : string) : bool :=
  match s with
  | String "0" (String c digits) =>
      if bool_decide (lower c ∈ ["b"; "o"; "x"]%char)
      then underscores_separate (bool_decide (lower c = "x"%char)) SawDigit digits
      else underscores_separate false SawStart s
  | _ => underscores_separate false SawStart s
  end.

(** [ParseUint] with base 0, before the range check. *)
Definition ParseUint0 (s : string) : result Z :=
  if bool_decide (s = "") then Err ErrSyntax
  else
    let '(base, digits) := base_prefix s in
    n ← parse_digits base 0 digits;
    if contains_char "_" s && negb (underscoreOK s) then Err ErrSyntax else Ok n.

(** [strconv.ParseInt(s, 0, 64)]. *)
Definition ParseInt0 (s : string) : result Z :=
  let '(neg, digits) :=
    match s with
    | String "+" s => (false, s)
    | String "-" s => (true, s)
    | _ => (false, s)
    end in
  un ← ParseUint0 digits;
  if bool_decide (un < 2 ^ 63) || (neg && bool_decide (un = 2 ^ 63)) then Ok (if neg then - un else un)
  else Err ErrRange.

(** ** flag *)

(** Whether a flag may stand without a value ([IsBoolFlag]). *)
Inductive flag_kind := BoolFlag | ValueFlag.

(** How [parseOne] reads one argument. *)
Inductive token :=
| NotFlag
| Terminator
| BadSyntax
| Flag (name : string) (value : option string).

Definition flag_name (s : string) : token :=
  match s with
  | "" => BadSyntax
  | String c _ =>
      if bool_decide (c = "-"%char) || bool_decide (c = "="%char) then BadSyntax
      else match Cut s "=" with
           | (name, value, true) => Flag name (Some value)
           | (name, _, false) => Flag name None
           end
  end.

Definition flag_token (s : string) : token :=
  match s with
  | String "-" (String "-" "") => Terminator
  | String "-" (String "-" name) => flag_name name
  | String "-" (String c rest) => flag_name (String c rest)
  | _ => NotFlag
  end.

(** What [FlagSet.Parse] ends with: the variables and the remaining arguments, a
    request for the usage text, or a usage error. *)
Inductive parsed (S : Type) :=
| Parsed (s : S) (rest : list string)
| ErrHelp
| BadUsage (e : goerror).
Arguments Parsed {S} s rest.
Arguments ErrHelp {S}.
Arguments BadUsage {S} e.

Section parse.
Context {S : Type} (formal : string → option flag_kind) (set : S → string → string → result S).

Fixpoint Parse (s : S) (args : list string) : parsed S :=
  match args with
  | [] => Parsed s []
  | arg :: rest =>
      match flag_token arg with
      | NotFlag => Parsed s args
      | Terminator => Parsed s rest
      | BadSyntax => BadUsage (Errorf "bad flag syntax: %s" [AStr arg])
      | Flag name value =>
          match formal name with
          | None =>
              if bool_decide (name = "help") || bool_decide (name = "h") then ErrHelp
              else BadUsage (Errorf "flag provided but not defined: -%s" [AStr name])
          | Some BoolFlag =>
              match set s name (default "true" value) with
              | Ok s => Parse s rest
              | Err e =>
                  BadUsage (match value with
                            | Some value => Errorf "invalid boolean value %q for -%s: %v" [AStr value; AStr name; AErr e]
                            | None => Errorf "invalid boolean flag %s: %v" [AStr name; AErr e]
                            end)
              end
          | Some ValueFlag =>
              match value, rest with
              | Some value, _ =>
                  match set s name value with
                  | Ok s => Parse s rest
                  | Err e => BadUsage (Errorf "invalid value %q for flag -%s: %v" [AStr value; AStr name; AErr e])
                  end
              | None, value :: rest =>
                  match set s name value with
                  | Ok s => Parse s rest
                  | Err e => BadUsage (Errorf "invalid value %q for flag -%s: %v" [AStr value; AStr name; AErr e])
                  end
              | None, [] => BadUsage (Errorf "flag needs an argument: -%s" [AStr name])
              end
          end
      end
  end.

(** An argument names a flag. *)
Definition names_flag (name arg : string) : Prop := ∃ value, flag_token arg = Flag name value.

#[export] Instance names_flag_dec name arg : Decision (names_flag name arg).
Proof.
  refine (match flag_token arg as tok return flag_token arg = tok → _ with
          | Flag n v => λ E, cast_if (decide (n = name))
          | _ => λ E, right _
          end eq_refl).
  1,2,3: by intros [v Hv]; congruence.
  - exists v. congruence.
  - intros [v' Hv]. congruence.
Defined.

(** What every assignment but those to [name] preserves survives the command line,
    unless an argument names it. *)
Lemma Parse_preserves (P : S → Prop) name s args s' rest :
  (∀ s name' value s', name' ≠ name → P s → set s name' value = Ok s' → P s') →
  Forall (λ arg, ¬ names_flag name arg) args →
  P s → Parse s args = Parsed s' rest → P s'.
Proof.
  intros Hset. revert s.
  induction args as [args IH] using (induction_ltof1 _ length). unfold ltof in IH. intros s Hargs HP.
  destruct args as [|arg args]; simpl; [by intros [= <- <-]|].
  inversion Hargs as [|? ? Harg Hrest]; subst.
  assert (Hstep : ∀ name' value v s1, flag_token arg = Flag name' value → set s name' v = Ok s1 → P s1).
  { intros name' value v s1 Etok Es. eapply Hset; [|exact HP|exact Es]. intros ->. apply Harg. by exists value. }
  destruct (flag_token arg) as [| | |name' value] eqn:Etok; [by intros [= <- <-]|by intros [= <- <-]|done|].
  destruct (formal name') as [[]|]; [| |by case_match].
  - destruct (set s name' _) as [s1|] eqn:Es; [|done]. apply IH; [simpl; lia|done|eauto].
  - destruct value as [value|].
    + destruct (set s name' value) as [s1|] eqn:Es; [|done]. apply IH; [simpl; lia|done|eauto].
    + destruct args as [|value args]; [done|].
      destruct (set s name' value) as [s1|] eqn:Es; [|done].
      apply IH; [simpl; lia|by inversion Hrest|eauto].
Qed.
End parse.
