(* ===== verification/Startup.v ===== *)
(** * Starting the process (cmd/main.go, internal/events, SetupWithManager)

    [main] as a sequence of calls into the manager library, each of which may
    fail: package initialisation, the command line, the manager and its servers,
    the two controllers with their watches, the webhooks, the health checks and
    the start of the manager.  The library is not under src/: what it answers is
    the argument [fails].

    A running manager turns changes of watched objects into the jobs of System.v;
    its event handlers are the class [EventHandlers], with what they document. *)

From S2P Require Import Prelude GoLib Sha256 K8s Api Resolve Labels Listeners Builder Service Render.
From S2P Require Import Webhook Metrics Program Managed YanetController Reconciler Reconcile ConfigController System.
From S2P Require Import Flags.
#[local] Open Scope Z_scope.

(** ** The flags of the operator *)
Record flags := MkFlags {
  fl_metricsAddr : string;
  fl_enableLeaderElection : bool;
  fl_probeAddr : string;
  fl_secureMetrics : bool;
  fl_enableHTTP2 : bool;
  fl_enableWebhook : bool;
  fl_webhookPort : Z;
}.

Definition default_flags : flags := MkFlags ":8080" true ":8081" false false true 9443.

Definition own_flag (name : string) : option flag_kind :=
  if bool_decide (name ∈ ["metrics-bind-address"; "health-probe-bind-address"; "webhook-port"]) then Some ValueFlag
  else if bool_decide (name ∈ ["webhook-enabled"; "leader-elect"; "metrics-secure"; "enable-http2"]) then Some BoolFlag
  else None.

(** [Value.Set] of the flag with the given name. *)
Definition set_own_flag (f : flags) (name value : string) : result flags :=
  let 'MkFlags metricsAddr leader probeAddr secure http2 webhook port := f in
  if bool_decide (name = "metrics-bind-address") then Ok (MkFlags value leader probeAddr secure http2 webhook port)
  else if bool_decide (name = "health-probe-bind-address")
       then Ok (MkFlags metricsAddr leader value secure http2 webhook port)
  else if bool_decide (name = "webhook-enabled")
       then b ← ParseBool value; Ok (MkFlags metricsAddr leader probeAddr secure http2 b port)
  else if bool_decide (name = "webhook-port")
       then n ← ParseInt0 value; Ok (MkFlags metricsAddr leader probeAddr secure http2 webhook n)
  else if bool_decide (name = "leader-elect")
       then b ← ParseBool value; Ok (MkFlags metricsAddr b probeAddr secure http2 webhook port)
  else if bool_decide (name = "metrics-secure")
       then b ← ParseBool value; Ok (MkFlags metricsAddr leader probeAddr b http2 webhook port)
  else if bool_decide (name = "enable-http2")
       then b ← ParseBool value; Ok (MkFlags metricsAddr leader probeAddr secure b webhook port)
  else Ok f.

(** The flags that other packages put on the same command line: the logger's
    ([opts.BindFlags]) and the client's.  [flag] panics when a name is defined
    twice. *)
Class OtherFlags := {
  other_flag : string → option flag_kind;
  set_other_flag : string → string → result unit;
  other_flag_fresh : ∀ name, is_Some (own_flag name) → other_flag name = None;
}.

Section command_line.
Context `{OtherFlags}.

Definition formal (name : string) : option flag_kind :=
  match own_flag name with Some k => Some k | None => other_flag name end.

Definition set_flag (f : flags) (name value : string) : result flags :=
  match own_flag name with
  | Some _ => set_own_flag f name value
  | None => set_other_flag name value;; Ok f
  end.

Definition parse_flags (args : list string) : parsed flags := Parse formal set_flag default_flags args.
End command_line.

(** ** The manager and its servers *)

(** The one TLS option there is: [disableHTTP2] sets [NextProtos]. *)
Inductive tls_option := disableHTTP2.
Definition apply_tls_option (NextProtos : list string) (o : tls_option) : list string :=
  match o with disableHTTP2 => ["http/1.1"] end.

Definition tlsOpts (f : flags) : list tls_option := if fl_enableHTTP2 f then [] else [disableHTTP2].

Record Options := MkOptions {
  op_MetricsBindAddress : string;
  op_MetricsSecureServing : bool;
  op_MetricsTLSOpts : list tls_option;
  op_HealthProbeBindAddress : string;
  op_WebhookPort : Z;
  op_WebhookTLSOpts : list tls_option;
  op_SyncPeriod : Z;
  op_LeaderElection : bool;
  op_LeaderElectionID : string;
}.

Definition manager_options (f : flags) : Options :=
  MkOptions (fl_metricsAddr f) (fl_secureMetrics f) (tlsOpts f) (fl_probeAddr f)
    (fl_webhookPort f) (tlsOpts f) (seconds 3600) (fl_enableLeaderElection f) "9ef029f2.yanet-platform.io".

(** ** Controllers *)
Inductive kind := KindYanet | KindYanetConfig | KindNode | KindPod | KindDeployment | KindConfigMap | KindService.
#[export] Instance kind_eq_dec : EqDecision kind.
Proof. solve_decision. Defined.

Inductive mapper := MapConfigToYanets | MapNodeToYanets | MapPodToYanet | EnqueueYanetConfigSingleton.

(** A reconciler with what its [SetupWithManager] builds.  The snapshot is a
    pointer: the address of a variable of [main]. *)
Record controller := MkController {
  ct_Recorder : option string;
  ct_GlobalConfig : option positive;
  ct_APIReader : bool;
  ct_For : kind;
  ct_Watches : list (kind * mapper);
  ct_Owns : list kind;
}.

(** [events.NewRecorderFor]: the recorder the manager keeps for a source. *)
Definition NewRecorderFor (name : string) : option string := Some name.

Definition YanetReconciler (globalConfig : positive) : controller :=
  MkController (NewRecorderFor "yanet-controller") (Some globalConfig) false KindYanet
    [(KindYanetConfig, MapConfigToYanets); (KindNode, MapNodeToYanets); (KindPod, MapPodToYanet)]
    [KindDeployment; KindConfigMap].

Definition YanetConfigReconciler (globalConfig : positive) : controller :=
  MkController None (Some globalConfig) true KindYanetConfig [(KindYanet, EnqueueYanetConfigSingleton)] [KindService].

(** ** main *)
Inductive scheme_group := ClientGoScheme | YanetV1alpha1.

Inductive startup_call :=
| MustRegister (collectors : list metric)
| AddToScheme (g : scheme_group)
| GetConfigOrDie
| NewManager (o : Options)
| CompleteController (c : controller)
| CompleteWebhook (k : kind)
| AddHealthzCheck (name : string)
| AddReadyzCheck (name : string)
| StartManager.

(** The status a failed call ends the process with: a panic in an [init], or
    [os.Exit(1)]. *)
Definition exit_status (c : startup_call) : Z :=
  match c with MustRegister _ | AddToScheme _ => 2 | _ => 1 end.

Definition init_calls : list startup_call :=
  [MustRegister registered; AddToScheme ClientGoScheme; AddToScheme YanetV1alpha1].

Definition SetupYanetWebhookWithManager : startup_call := CompleteWebhook KindYanet.
Definition SetupYanetConfigWebhookWithManager : startup_call := CompleteWebhook KindYanetConfig.

Definition SetupWebhooks (f : flags) : list startup_call :=
  if fl_enableWebhook f then [SetupYanetWebhookWithManager; SetupYanetConfigWebhookWithManager] else [].

(** The address of the variable [GlobalConfig]. *)
Definition GlobalConfig : positive := 1%positive.

Definition setup_calls (f : flags) : list startup_call :=
  [GetConfigOrDie; NewManager (manager_options f);
   CompleteController (YanetReconciler GlobalConfig); CompleteController (YanetConfigReconciler GlobalConfig)]
  ++ SetupWebhooks f ++
  [AddHealthzCheck "healthz"; AddReadyzCheck "readyz"; StartManager].

(** Calls in order, until one fails: those made, and the status of the failure. *)
Fixpoint attempt (fails : startup_call → bool) (calls : list startup_call) : list startup_call * option Z :=
  match calls with
  | [] => ([], None)
  | c :: calls =>
      if fails c then ([c], Some (exit_status c))
      else let '(made, status) := attempt fails calls in (c :: made, status)
  end.

(** The calls the process makes and the status it exits with. *)
Definition main `{OtherFlags} (fails : startup_call → bool) (args : list string) : list startup_call * Z :=
  let '(made, status) := attempt fails init_calls in
  match status with
  | Some status => (made, status)
  | None =>
      match parse_flags args with
      | ErrHelp => (made, 0)
      | BadUsage _ => (made, 2)
      | Parsed f _ =>
          let '(made', status) := attempt fails (setup_calls f) in
          (made ++ made', default 0 status)
      end
  end.

(** ** Changes and jobs *)
Inductive object :=
| OYanet (y : Yanet)
| OYanetConfig (c : YanetConfig)
| ONode (n : Node)
| OPod (p : Pod)
| ODeployment (d : Deployment)
| OConfigMap (c : ConfigMap)
| OService (s : Service).

Definition object_kind (o : object) : kind :=
  match o with
  | OYanet _ => KindYanet | OYanetConfig _ => KindYanetConfig | ONode _ => KindNode | OPod _ => KindPod
  | ODeployment _ => KindDeployment | OConfigMap _ => KindConfigMap | OService _ => KindService
  end.

(** [client.ObjectKeyFromObject]; Nodes and the YanetConfig are cluster-scoped. *)
Definition object_key (o : object) : request :=
  let key m := (om_Namespace m, om_Name m) in
  match o with
  | OYanet y => key (y_Meta y) | OYanetConfig c => key (yc_Meta c) | ONode n => ("", n_Name n)
  | OPod p => key (p_Meta p) | ODeployment d => key (d_Meta d) | OConfigMap c => key (cm_Meta c)
  | OService s => key (sv_Meta s)
  end.

Definition object_meta (o : object) : option ObjectMeta :=
  match o with
  | OYanet y => Some (y_Meta y) | OYanetConfig c => Some (yc_Meta c) | ONode _ => None
  | OPod p => Some (p_Meta p) | ODeployment d => Some (d_Meta d) | OConfigMap c => Some (cm_Meta c)
  | OService s => Some (sv_Meta s)
  end.

(** What a watch reports. *)
Inductive change :=
| Created (o : object)
| Updated (old new : object)
| Deleted (o : object).

(** The object the change left, and every object it carries. *)
Definition final_object (e : change) : object := match e with Created o | Updated _ o | Deleted o => o end.
Definition objects (e : change) : list object :=
  match e with Created o | Deleted o => [o] | Updated old new => [old; new] end.

(** An update is of one object. *)
Definition coherent (e : change) : Prop :=
  Forall (λ o, object_kind o = object_kind (final_object e) ∧ object_key o = object_key (final_object e)) (objects e).

(** The handlers of controller-runtime, by what they document.
    [EnqueueRequestForObject] asks for the object itself; [EnqueueRequestsFromMapFunc]
    runs the function on both sides of an update; [EnqueueRequestForOwner] asks, for
    both sides, for the controller owner of the watched group and kind, in the
    namespace of the object unless the owner is cluster-scoped. *)
Class EventHandlers `{MetaLib} := {
  object_requests : change → list request;
  object_requests_final : ∀ e, object_key (final_object e) ∈ object_requests e;
  mapped_objects : change → list object;
  mapped_objects_all : ∀ e o, o ∈ objects e → o ∈ mapped_objects e;
  owner_requests : string → bool → change → list request;
  owner_requests_all : ∀ ownerKind namespaced e o meta ref,
    o ∈ objects e → object_meta o = Some meta → GetControllerOf meta = Some ref →
    or_APIVersion ref = GroupVersion → or_Kind ref = ownerKind →
    ((if namespaced : bool then om_Namespace meta else ""), or_Name ref) ∈ owner_requests ownerKind namespaced e;
}.

Section dispatch.
Context `{MetaLib} `{!EventHandlers}.

(** The mapper of a watch, as the job that runs it; [nil] for an object of another
    type. *)
Definition mapper_job (m : mapper) (o : object) : option job :=
  match m, o with
  | MapConfigToYanets, _ => Some MapConfigJob
  | MapNodeToYanets, ONode node => Some (MapNodeJob node)
  | MapPodToYanet, OPod pod => Some (MapPodJob pod)
  | EnqueueYanetConfigSingleton, _ => Some MapYanetJob
  | _, _ => None
  end.

(** A request of the queue of a controller. *)
Definition reconcile_job (c : controller) (r : request) : job :=
  if bool_decide (ct_For c = KindYanet) then YanetJob r.1 r.2 else YanetConfigJob.

Definition owner_kind (c : controller) : string :=
  if bool_decide (ct_For c = KindYanet) then "Yanet" else "YanetConfig".

(** The jobs a controller runs for a change: [For], [Watches], [Owns]. *)
Definition controller_jobs (c : controller) (e : change) : list job :=
  let k := object_kind (final_object e) in
  (if bool_decide (ct_For c = k) then reconcile_job c <$> object_requests e else []) ++
  concat ((λ w : kind * mapper, if bool_decide (w.1 = k) then omap (mapper_job w.2) (mapped_objects e) else [])
            <$> ct_Watches c) ++
  (if bool_decide (k ∈ ct_Owns c)
   then reconcile_job c <$> owner_requests (owner_kind c) (bool_decide (ct_For c = KindYanet)) e else []).

(** Every controller the process set up. *)
Definition controllers (made : list startup_call) : list controller :=
  omap (λ c, match c with CompleteController c => Some c | _ => None end) made.
End dispatch.
