(* ===== verification/GoHeap.v ===== *)
(** * The memory of a Go program

    Everywhere else in the development a Go value is an immutable Rocq value.  Here
    it is what Go has: structs whose pointers, slices and maps refer to cells of a
    heap, and which may share them.  [ty] is the part of Go's types that the API
    types use, [interp] the Rocq type of the values of a type, and [read] the value
    that a piece of memory denotes at this moment. *)

From S2P Require Import Prelude.
#[local] Open Scope Z_scope.

Notation loc := positive.

(** A slice is an array with an offset and a length.  A struct is the chain of its
    fields, in the order of the declaration. *)
Inductive val :=
| VStr (s : string)
| VInt (n : Z)
| VBool (b : bool)
| VNil
| VRef (l : loc)
| VSlice (l : loc) (off len : nat)
| VEnd
| VField (name : string) (v rest : val).

(** What an address refers to: a variable, the array behind a slice, a map. *)
Inductive cell :=
| Var (v : val)
| Arr (vs : list val)
| Hash (m : gmap string val).

Notation heap := (gmap loc cell).

(** The addresses a value or a cell holds. *)
Fixpoint vrefs (v : val) : gset loc :=
  match v with
  | VRef l | VSlice l _ _ => {[l]}
  | VField _ v rest => vrefs v ∪ vrefs rest
  | _ => ∅
  end.

Definition crefs (c : cell) : gset loc :=
  match c with
  | Var v => vrefs v
  | Arr vs => ⋃ (vrefs <$> vs)
  | Hash m => ⋃ ((λ kv, vrefs kv.2) <$> map_to_list m)
  end.

(** ** Types *)
Inductive ty :=
| TStr
| TInt
| TBool
| TPtr (t : ty)
| TSlice (t : ty)
| TMap (t : ty)
| TEnd
| TField (name : string) (t rest : ty).

Fixpoint interp (t : ty) : Type :=
  match t with
  | TStr => string
  | TInt => Z
  | TBool => bool
  | TPtr t => option (interp t)
  | TSlice t => option (list (interp t))
  | TMap t => option (gmap string (interp t))
  | TEnd => unit
  | TField _ t rest => interp t * interp rest
  end.

(** A struct type from its fields. *)
Definition struct (fields : list (string * ty)) : ty := foldr (λ f rest, TField f.1 f.2 rest) TEnd fields.

Fixpoint field_names (t : ty) : list string :=
  match t with TField name _ rest => name :: field_names rest | _ => [] end.

Fixpoint field_type (t : ty) (name : string) : option ty :=
  match t with
  | TField n t rest => if bool_decide (n = name) then Some t else field_type rest name
  | _ => None
  end.

(** A type whose values hold no address: assignment copies them whole. *)
Fixpoint flat (t : ty) : bool :=
  match t with
  | TStr | TInt | TBool | TEnd => true
  | TPtr _ | TSlice _ | TMap _ => false
  | TField _ t rest => flat t && flat rest
  end.

(** The zero value of a type. *)
Fixpoint zero_val (t : ty) : val :=
  match t with
  | TStr => VStr ""
  | TInt => VInt 0
  | TBool => VBool false
  | TPtr _ | TSlice _ | TMap _ => VNil
  | TEnd => VEnd
  | TField name t rest => VField name (zero_val t) (zero_val rest)
  end.

Fixpoint zero (t : ty) : interp t :=
  match t with
  | TStr => ""
  | TInt => 0
  | TBool => false
  | TPtr _ | TSlice _ | TMap _ => None
  | TEnd => tt
  | TField _ t rest => (zero t, zero rest)
  end.

(** ** The value a piece of memory denotes; [None] when it is not of the type *)
Fixpoint read (h : heap) (t : ty) : val → option (interp t) :=
  match t with
  | TStr => λ v, match v with VStr s => Some s | _ => None end
  | TInt => λ v, match v with VInt n => Some n | _ => None end
  | TBool => λ v, match v with VBool b => Some b | _ => None end
  | TPtr t => λ v,
      match v with
      | VNil => Some None
      | VRef l => match h !! l with Some (Var x) => Some <$> read h t x | _ => None end
      | _ => None
      end
  | TSlice t => λ v,
      match v with
      | VNil => Some None
      | VSlice l off len =>
          match h !! l with
          | Some (Arr xs) =>
              if bool_decide (off + len ≤ length xs)%nat
              then Some <$> mapM (read h t) (take len (drop off xs)) else None
          | _ => None
          end
      | _ => None
      end
  | TMap t => λ v,
      match v with
      | VNil => Some None
      | VRef l =>
          match h !! l with
          | Some (Hash m) =>
              if bool_decide (map_Forall (λ _ x, is_Some (read h t x)) m)
              then Some (Some (omap (read h t) m)) else None
          | _ => None
          end
      | _ => None
      end
  | TEnd => λ v, match v with VEnd => Some tt | _ => None end
  | TField name t rest => λ v,
      match v with
      | VField n x vs =>
          if bool_decide (n = name) then y ← read h t x; ys ← read h rest vs; Some (y, ys) else None
      | _ => None
      end
  end.

(** ** Programs on the heap; [None] is a panic *)
Definition M (A : Type) : Type := heap → option (A * heap).
#[export] Instance M_ret : MRet M := λ A a h, Some (a, h).
#[export] Instance M_bind : MBind M := λ A B f p h,
  match p h with Some (a, h') => f a h' | None => None end.

Definition panic {A} : M A := λ _, None.

(** [new(T)] followed by the assignment of its value. *)
Definition alloc (c : cell) : M loc := λ h,
  let l := fresh (dom h) in Some (l, <[l := c]> h).

Definition load (l : loc) : M cell := λ h, c ← h !! l; Some (c, h).

(** [for i := range xs { ys[i] = f(xs[i]) }]. *)
Fixpoint each {A B} (f : A → M B) (xs : list A) : M (list B) :=
  match xs with
  | [] => mret []
  | x :: xs => y ← f x; ys ← each f xs; mret (y :: ys)
  end.

(** A field of a struct. *)
Fixpoint get_field (name : string) (v : val) : option val :=
  match v with
  | VField n x rest => if bool_decide (n = name) then Some x else get_field name rest
  | _ => None
  end.

(** ** Regions

    A set of addresses is closed when it is allocated and nothing in it refers
    outside: what a value in a closed region denotes depends on nothing else. *)
Definition closed (h : heap) (R : gset loc) : Prop :=
  ∀ l, l ∈ R → ∃ c, h !! l = Some c ∧ crefs c ⊆ R.

Definition agree (R : gset loc) (h h' : heap) : Prop := ∀ l, l ∈ R → h' !! l = h !! l.

(** ** Lemmas *)

Lemma elem_of_crefs_Arr vs v : v ∈ vs → vrefs v ⊆ crefs (Arr vs).
Proof.
  intros Hv l Hl. simpl. apply elem_of_union_list. exists (vrefs v). split; [|done]. by apply list_elem_of_fmap_2.
Qed.

Lemma elem_of_crefs_Hash m k v : m !! k = Some v → vrefs v ⊆ crefs (Hash m).
Proof.
  intros Hv l Hl. simpl. apply elem_of_union_list. exists (vrefs v). split; [|done].
  apply list_elem_of_fmap. exists (k, v). by rewrite elem_of_map_to_list.
Qed.

Lemma crefs_Arr_subseteq vs R : (∀ v, v ∈ vs → vrefs v ⊆ R) → crefs (Arr vs) ⊆ R.
Proof.
  intros Hvs l (X & HX & Hl)%elem_of_union_list. apply list_elem_of_fmap in HX as (v & -> & Hv). by apply (Hvs v).
Qed.

Lemma crefs_Hash_subseteq m R : (∀ k v, m !! k = Some v → vrefs v ⊆ R) → crefs (Hash m) ⊆ R.
Proof.
  intros Hm l (X & HX & Hl)%elem_of_union_list. apply list_elem_of_fmap in HX as ([k v] & -> & Hv).
  apply elem_of_map_to_list in Hv. by apply (Hm k v).
Qed.

Lemma mapM_ext_in {A B} (f g : A → option B) l : (∀ x, x ∈ l → f x = g x) → mapM f l = mapM g l.
Proof.
  induction l as [|x l IH]; intros Hfg; simpl; [done|]. rewrite (Hfg x), IH; set_solver.
Qed.

Lemma omap_ext_in {A B} (f g : A → option B) (m : gmap string A) :
  (∀ k x, m !! k = Some x → f x = g x) → omap f m = omap g m.
Proof. intros Hfg. apply map_eq. intros k. rewrite !lookup_omap. destruct (m !! k) eqn:Ek; simpl; eauto. Qed.

(** Memory is monotone in what it denotes: a larger heap denotes the same. *)
Lemma read_mono h h' t v x : h ⊆ h' → read h t v = Some x → read h' t v = Some x.
Proof.
  intros Hsub. revert v x. induction t as [| | |t IH|t IH|t IH| |name t IH rest IHr]; intros v x; simpl; try done.
  - destruct v; try done. destruct (h !! l) as [[y| |]|] eqn:E; try done.
    rewrite (lookup_weaken _ _ _ _ E Hsub). rewrite !fmap_Some. intros (y' & Hy & ->). exists y'. eauto.
  - destruct v; try done. destruct (h !! l) as [[|xs|]|] eqn:E; try done.
    rewrite (lookup_weaken _ _ _ _ E Hsub). case_bool_decide; [|done].
    rewrite !fmap_Some. intros (ys & Hys & ->). exists ys. split; [|done].
    apply mapM_Some in Hys. apply mapM_Some. eapply Forall2_impl; [exact Hys|]. intros; by apply IH.
  - destruct v; try done. destruct (h !! l) as [[| |m]|] eqn:E; try done.
    rewrite (lookup_weaken _ _ _ _ E Hsub). case_bool_decide as Hm; [|done]. intros [= <-].
    assert (Heq : ∀ k y, m !! k = Some y → read h' t y = read h t y).
    { intros k y Hk. destruct (Hm k y Hk) as [z Hz]. rewrite Hz. by apply IH. }
    rewrite bool_decide_true by (intros k y Hk; rewrite (Heq k y Hk); by apply (Hm k)).
    do 2 f_equal. by apply omap_ext_in.
  - destruct v as [| | | | | | |n y vs]; try done. case_bool_decide; [|done].
    rewrite !bind_Some. intros (a & Ha & Hb). exists a. split; [by apply IH|].
    rewrite bind_Some in Hb |- *. destruct Hb as (b & Hb & [= <-]). exists b. split; [by apply IHr|done].
Qed.

(** The frame rule: outside a closed region anything may change. *)
Lemma read_agree R h h' t v :
  closed h R → agree R h h' → vrefs v ⊆ R → read h' t v = read h t v.
Proof.
  intros Hcl Hag. revert v. induction t as [| | |t IH|t IH|t IH| |name t IH rest IHr]; intros v Hv; simpl; try done.
  - destruct v; try done. simpl in Hv. destruct (Hcl l) as (c & Hc & Hrefs); [set_solver|].
    rewrite (Hag l), Hc by set_solver. destruct c; try done. by rewrite IH.
  - destruct v; try done. simpl in Hv. destruct (Hcl l) as (c & Hc & Hrefs); [set_solver|].
    rewrite (Hag l), Hc by set_solver. destruct c as [|xs|]; try done. case_bool_decide; [|done].
    f_equal. apply mapM_ext_in. intros y Hy. apply IH. etransitivity; [|exact Hrefs]. apply elem_of_crefs_Arr.
    apply elem_of_take in Hy as (i & Hi & _). rewrite lookup_drop in Hi. by eapply list_elem_of_lookup_2.
  - destruct v; try done. simpl in Hv. destruct (Hcl l) as (c & Hc & Hrefs); [set_solver|].
    rewrite (Hag l), Hc by set_solver. destruct c as [| |m]; try done.
    assert (Heq : ∀ k y, m !! k = Some y → read h' t y = read h t y).
    { intros k y Hk. apply IH. etransitivity; [|exact Hrefs]. by eapply elem_of_crefs_Hash. }
    rewrite (bool_decide_ext _ (map_Forall (λ _ x, is_Some (read h t x)) m)).
    + case_bool_decide; [|done]. do 2 f_equal. by apply omap_ext_in.
    + split; intros Hm k y Hk; [rewrite <-(Heq k y Hk)|rewrite (Heq k y Hk)]; by apply (Hm k).
  - destruct v as [| | | | | | |n y vs]; try done. simpl in Hv. case_bool_decide; [|done].
    rewrite IH, IHr by set_solver. done.
Qed.

(** ** Deep copies

    A deep copy of a value of type [t] always returns; it leaves what was there,
    returns a value that denotes the same, and all the memory of that value lies in
    a closed region that did not exist before. *)
Definition new_region (h h' : heap) (R : gset loc) : Prop := h ⊆ h' ∧ R ## dom h ∧ closed h' R.

Definition deep_copies (f : val → M val) (t : ty) : Prop :=
  ∀ h v x, read h t v = Some x →
    ∃ v' h' R, f v h = Some (v', h') ∧ new_region h h' R ∧ vrefs v' ⊆ R ∧ read h' t v' = Some x.
