(* ===== verification/DeepCopy.v ===== *)
(** * Generated deep copies (api/v1alpha1/zz_generated.deepcopy.go)

    The API types as types of GoHeap.v, and every [DeepCopyInto], [DeepCopy] and
    [DeepCopyObject] of the generated file.  A [DeepCopyInto] is given the value of the
    struct [in] points to and returns the value it leaves where [out] points: it starts
    from the assignment of the whole struct and replaces the fields the source replaces,
    in its order.  [new] and [make] are followed by the contents at once, so that a cell
    is allocated with its final value.

    The [DeepCopyInto] of apimachinery are not under src/: they are the class
    [ForeignTypes], with what they promise. *)

From S2P Require Import Prelude GoHeap.
#[local] Open Scope Z_scope.

(** ** The statements of the generated code *)

(** [out = in]: the struct, or the value behind the pointer, as it is. *)
Definition assign (v : val) : M val := mret v.

(** A pointer, in a field or as the receiver of [DeepCopy]: nil for nil, otherwise a
    new variable that [f], the [DeepCopyInto] of its type, fills. *)
Definition copy_ptr (f : val → M val) (v : val) : M val :=
  match v with
  | VNil => mret VNil
  | VRef l =>
      c ← load l;
      match c with
      | Var x => y ← f x; l' ← alloc (Var y); mret (VRef l')
      | _ => panic
      end
  | _ => panic
  end.

(** A slice: nil for nil, otherwise [make] of the same length and every element copied;
    the builtin [copy] assigns them. *)
Definition copy_slice (f : val → M val) (v : val) : M val :=
  match v with
  | VNil => mret VNil
  | VSlice l off len =>
      c ← load l;
      match c with
      | Arr xs =>
          if bool_decide (off + len ≤ length xs)%nat
          then ys ← each f (take len (drop off xs)); l' ← alloc (Arr ys); mret (VSlice l' 0 len)
          else panic
      | _ => panic
      end
  | _ => panic
  end.

(** A map: nil for nil, otherwise a new map and every value copied, in any order. *)
Definition copy_map `{MapOrder} (f : val → M val) (v : val) : M val :=
  match v with
  | VNil => mret VNil
  | VRef l =>
      c ← load l;
      match c with
      | Hash m =>
          kvs ← each (λ kv, y ← f kv.2; mret (kv.1, y)) (map_range m);
          l' ← alloc (Hash (list_to_map kvs)); mret (VRef l')
      | _ => panic
      end
  | _ => panic
  end.

(** The value of [x.DeepCopy()] for a variable [x]: a new variable whose value is taken. *)
Definition deref_copy (f : val → M val) (v : val) : M val :=
  y ← f v; l ← alloc (Var y); c ← load l;
  match c with Var z => mret z | _ => panic end.

(** A statement that replaces one field. *)
Fixpoint copy_field (name : string) (f : val → M val) (v : val) : M val :=
  match v with
  | VField n x rest =>
      if bool_decide (n = name) then y ← f x; mret (VField n y rest)
      else rest' ← copy_field name f rest; mret (VField n x rest')
  | _ => panic
  end.

(** The statements after the assignment of the whole struct. *)
Fixpoint copy_fields (statements : list (string * (val → M val))) (v : val) : M val :=
  match statements with
  | [] => mret v
  | (name, f) :: statements => v' ← copy_field name f v; copy_fields statements v'
  end.

(** [DeepCopyObject]: the nil interface for nil. *)
Definition runtime_object (f : val → M val) (v : val) : M (option val) :=
  c ← f v; mret (match c with VNil => None | _ => Some c end).

(** ** The types of apimachinery *)
Inductive foreign := ObjectMetaType | ListMetaType | ConditionType | TimeType | RawExtensionType.

Class ForeignTypes := {
  foreign_ty : foreign → ty;
  foreign_DeepCopyInto : foreign → val → M val;
  foreign_deep_copies : ∀ F, deep_copies (foreign_DeepCopyInto F) (foreign_ty F);
}.

Definition TypeMeta_type : ty := struct [("Kind", TStr); ("APIVersion", TStr)].
Definition LocalObjectReference_type : ty := struct [("Name", TStr)].

Section api.
Context `{ForeignTypes, MapOrder}.

(** ** The types of the API *)
Definition ImageRef_type : ty :=
  struct [("Registry", TPtr TStr);
    ("Prefix", TPtr TStr);
    ("Name", TStr);
    ("Tag", TStr)].

Definition ConfigSource_type : ty :=
  struct [("Inline", TStr);
    ("HostPath", TStr);
    ("MountPath", TStr);
    ("Args", TSlice TStr)].

Definition BirdAdapterComp_type : ty :=
  struct [("Image", ImageRef_type);
    ("Config", TPtr ConfigSource_type)].

Definition BoxComponent_type : ty :=
  struct [("Patches", TSlice TStr)].

Definition BoxDataplaneSidecar_type : ty :=
  struct [("Enabled", TPtr TBool);
    ("Patches", TSlice TStr)].

Definition BoxDataplane_type : ty :=
  struct [("Patches", TSlice TStr);
    ("Sidecars", TMap BoxDataplaneSidecar_type)].

Definition BoxComponents_type : ty :=
  struct [("Controlplane", TPtr BoxComponent_type);
    ("Dataplane", TPtr BoxDataplane_type);
    ("BirdAdapter", TPtr BoxComponent_type)].

Definition BoxOperator_type : ty :=
  struct [("Patches", TSlice TStr)].

Definition BoxType_type : ty :=
  struct [("Name", TStr);
    ("Components", BoxComponents_type);
    ("Operators", TMap BoxOperator_type)].

Definition ControlplaneSpec_type : ty :=
  struct [("Image", ImageRef_type);
    ("Config", TPtr ConfigSource_type);
    ("Numa", TPtr TInt);
    ("DisabledNuma", TSlice TInt)].

Definition Hugepages_type : ty :=
  struct [("Size", TStr);
    ("Count", TInt)].

Definition NetworkAttachment_type : ty :=
  struct [("Name", TStr);
    ("Namespace", TStr);
    ("Interface", TStr);
    ("ResourceName", TStr)].

Definition SidecarSpec_type : ty :=
  struct [("Name", TStr);
    ("Image", ImageRef_type);
    ("Config", TPtr ConfigSource_type);
    ("Listeners", TPtr (TSlice TStr))].

Definition DataplaneSpec_type : ty :=
  struct [("Image", ImageRef_type);
    ("Config", TPtr ConfigSource_type);
    ("Hugepages", TPtr Hugepages_type);
    ("Networks", TSlice NetworkAttachment_type);
    ("Sidecars", TSlice SidecarSpec_type)].

Definition OperatorContainer_type : ty :=
  struct [("Name", TStr);
    ("Image", ImageRef_type);
    ("Config", TPtr ConfigSource_type)].

Definition OperatorSpec_type : ty :=
  struct [("Name", TStr);
    ("Containers", TSlice OperatorContainer_type);
    ("Listeners", TPtr (TSlice TStr))].

Definition ComponentsSpec_type : ty :=
  struct [("Controlplane", ControlplaneSpec_type);
    ("Dataplane", DataplaneSpec_type);
    ("BirdAdapter", TPtr BirdAdapterComp_type);
    ("Operators", TSlice OperatorSpec_type)].

Definition ImagesSpec_type : ty :=
  struct [("Registry", TStr);
    ("Prefix", TStr);
    ("Tag", TStr);
    ("PullPolicy", TStr);
    ("PullSecrets", TSlice LocalObjectReference_type)].

Definition NamedPatch_type : ty :=
  struct [("Name", TStr);
    ("Patch", foreign_ty RawExtensionType)].

Definition NodeStatus_type : ty :=
  struct [("NodeName", TStr);
    ("LastUpdateTime", TPtr (foreign_ty TimeType));
    ("Deployments", TMap TStr);
    ("NumaCount", TInt)].

Definition SyncStatus_type : ty :=
  struct [("Synced", TSlice TStr);
    ("OutOfSync", TSlice TStr);
    ("SyncWaiting", TSlice TStr);
    ("Error", TSlice TStr);
    ("Disabled", TSlice TStr)].

Definition YanetContainerOverride_type : ty :=
  struct [("Enabled", TPtr TBool);
    ("Name", TStr);
    ("Tag", TStr)].

Definition YanetComponentOverride_type : ty :=
  struct [("Enabled", TPtr TBool);
    ("Containers", TMap YanetContainerOverride_type)].

Definition YanetControlplaneOverride_type : ty :=
  struct [("YanetComponentOverride", YanetComponentOverride_type);
    ("DisabledNuma", TSlice TInt)].

Definition YanetDataplaneOverride_type : ty :=
  struct [("YanetComponentOverride", YanetComponentOverride_type);
    ("Hugepages", TPtr Hugepages_type);
    ("Networks", TSlice NetworkAttachment_type);
    ("Sidecars", TMap YanetContainerOverride_type)].

Definition YanetComponentsOverride_type : ty :=
  struct [("Controlplane", TPtr YanetControlplaneOverride_type);
    ("Dataplane", TPtr YanetDataplaneOverride_type);
    ("BirdAdapter", TPtr YanetComponentOverride_type);
    ("Operators", TMap YanetComponentOverride_type)].

Definition YanetSpec_type : ty :=
  struct [("BoxType", TStr);
    ("NodeSelector", TMap TStr);
    ("Enabled", TPtr TBool);
    ("AutoSync", TPtr TBool);
    ("Components", TPtr YanetComponentsOverride_type)].

Definition YanetStatus_type : ty :=
  struct [("Pods", TMap (TSlice TStr));
    ("Sync", SyncStatus_type);
    ("Conditions", TSlice (foreign_ty ConditionType));
    ("NodesStatus", TMap NodeStatus_type);
    ("Services", TSlice TStr)].

Definition Yanet_type : ty :=
  struct [("TypeMeta", TypeMeta_type);
    ("ObjectMeta", foreign_ty ObjectMetaType);
    ("Spec", YanetSpec_type);
    ("Status", YanetStatus_type)].

Definition YanetConfigSpec_type : ty :=
  struct [("Stop", TBool);
    ("UpdateWindow", TInt);
    ("Images", ImagesSpec_type);
    ("Components", ComponentsSpec_type);
    ("Patches", TSlice NamedPatch_type);
    ("BoxTypes", TSlice BoxType_type)].

Definition YanetConfigStatus_type : ty :=
  struct [("Conditions", TSlice (foreign_ty ConditionType))].

Definition YanetConfig_type : ty :=
  struct [("TypeMeta", TypeMeta_type);
    ("ObjectMeta", foreign_ty ObjectMetaType);
    ("Spec", YanetConfigSpec_type);
    ("Status", YanetConfigStatus_type)].

Definition YanetConfigList_type : ty :=
  struct [("TypeMeta", TypeMeta_type);
    ("ListMeta", foreign_ty ListMetaType);
    ("Items", TSlice YanetConfig_type)].

Definition YanetList_type : ty :=
  struct [("TypeMeta", TypeMeta_type);
    ("ListMeta", foreign_ty ListMetaType);
    ("Items", TSlice Yanet_type)].

(** ** The generated functions *)
Definition ImageRef_DeepCopyInto : val → M val :=
  copy_fields [("Registry", copy_ptr assign);
    ("Prefix", copy_ptr assign)].
Definition ImageRef_DeepCopy : val → M val := copy_ptr ImageRef_DeepCopyInto.

Definition ConfigSource_DeepCopyInto : val → M val :=
  copy_fields [("Args", copy_slice assign)].
Definition ConfigSource_DeepCopy : val → M val := copy_ptr ConfigSource_DeepCopyInto.

Definition BirdAdapterComp_DeepCopyInto : val → M val :=
  copy_fields [("Image", ImageRef_DeepCopyInto);
    ("Config", copy_ptr ConfigSource_DeepCopyInto)].
Definition BirdAdapterComp_DeepCopy : val → M val := copy_ptr BirdAdapterComp_DeepCopyInto.

Definition BoxComponent_DeepCopyInto : val → M val :=
  copy_fields [("Patches", copy_slice assign)].
Definition BoxComponent_DeepCopy : val → M val := copy_ptr BoxComponent_DeepCopyInto.

Definition BoxDataplaneSidecar_DeepCopyInto : val → M val :=
  copy_fields [("Enabled", copy_ptr assign);
    ("Patches", copy_slice assign)].
Definition BoxDataplaneSidecar_DeepCopy : val → M val := copy_ptr BoxDataplaneSidecar_DeepCopyInto.

Definition BoxDataplane_DeepCopyInto : val → M val :=
  copy_fields [("Patches", copy_slice assign);
    ("Sidecars", copy_map (deref_copy BoxDataplaneSidecar_DeepCopyInto))].
Definition BoxDataplane_DeepCopy : val → M val := copy_ptr BoxDataplane_DeepCopyInto.

Definition BoxComponents_DeepCopyInto : val → M val :=
  copy_fields [("Controlplane", copy_ptr BoxComponent_DeepCopyInto);
    ("Dataplane", copy_ptr BoxDataplane_DeepCopyInto);
    ("BirdAdapter", copy_ptr BoxComponent_DeepCopyInto)].
Definition BoxComponents_DeepCopy : val → M val := copy_ptr BoxComponents_DeepCopyInto.

Definition BoxOperator_DeepCopyInto : val → M val :=
  copy_fields [("Patches", copy_slice assign)].
Definition BoxOperator_DeepCopy : val → M val := copy_ptr BoxOperator_DeepCopyInto.

Definition BoxType_DeepCopyInto : val → M val :=
  copy_fields [("Components", BoxComponents_DeepCopyInto);
    ("Operators", copy_map (deref_copy BoxOperator_DeepCopyInto))].
Definition BoxType_DeepCopy : val → M val := copy_ptr BoxType_DeepCopyInto.

Definition ControlplaneSpec_DeepCopyInto : val → M val :=
  copy_fields [("Image", ImageRef_DeepCopyInto);
    ("Config", copy_ptr ConfigSource_DeepCopyInto);
    ("Numa", copy_ptr assign);
    ("DisabledNuma", copy_slice assign)].
Definition ControlplaneSpec_DeepCopy : val → M val := copy_ptr ControlplaneSpec_DeepCopyInto.

Definition Hugepages_DeepCopyInto : val → M val := assign.
Definition Hugepages_DeepCopy : val → M val := copy_ptr Hugepages_DeepCopyInto.

Definition NetworkAttachment_DeepCopyInto : val → M val := assign.
Definition NetworkAttachment_DeepCopy : val → M val := copy_ptr NetworkAttachment_DeepCopyInto.

Definition SidecarSpec_DeepCopyInto : val → M val :=
  copy_fields [("Image", ImageRef_DeepCopyInto);
    ("Config", copy_ptr ConfigSource_DeepCopyInto);
    ("Listeners", copy_ptr (copy_slice assign))].
Definition SidecarSpec_DeepCopy : val → M val := copy_ptr SidecarSpec_DeepCopyInto.

Definition DataplaneSpec_DeepCopyInto : val → M val :=
  copy_fields [("Image", ImageRef_DeepCopyInto);
    ("Config", copy_ptr ConfigSource_DeepCopyInto);
    ("Hugepages", copy_ptr assign);
    ("Networks", copy_slice assign);
    ("Sidecars", copy_slice SidecarSpec_DeepCopyInto)].
Definition DataplaneSpec_DeepCopy : val → M val := copy_ptr DataplaneSpec_DeepCopyInto.

Definition OperatorContainer_DeepCopyInto : val → M val :=
  copy_fields [("Image", ImageRef_DeepCopyInto);
    ("Config", copy_ptr ConfigSource_DeepCopyInto)].
Definition OperatorContainer_DeepCopy : val → M val := copy_ptr OperatorContainer_DeepCopyInto.

Definition OperatorSpec_DeepCopyInto : val → M val :=
  copy_fields [("Containers", copy_slice OperatorContainer_DeepCopyInto);
    ("Listeners", copy_ptr (copy_slice assign))].
Definition OperatorSpec_DeepCopy : val → M val := copy_ptr OperatorSpec_DeepCopyInto.

Definition ComponentsSpec_DeepCopyInto : val → M val :=
  copy_fields [("Controlplane", ControlplaneSpec_DeepCopyInto);
    ("Dataplane", DataplaneSpec_DeepCopyInto);
    ("BirdAdapter", copy_ptr BirdAdapterComp_DeepCopyInto);
    ("Operators", copy_slice OperatorSpec_DeepCopyInto)].
Definition ComponentsSpec_DeepCopy : val → M val := copy_ptr ComponentsSpec_DeepCopyInto.

Definition ImagesSpec_DeepCopyInto : val → M val :=
  copy_fields [("PullSecrets", copy_slice assign)].
Definition ImagesSpec_DeepCopy : val → M val := copy_ptr ImagesSpec_DeepCopyInto.

Definition NamedPatch_DeepCopyInto : val → M val :=
  copy_fields [("Patch", foreign_DeepCopyInto RawExtensionType)].
Definition NamedPatch_DeepCopy : val → M val := copy_ptr NamedPatch_DeepCopyInto.

Definition NodeStatus_DeepCopyInto : val → M val :=
  copy_fields [("LastUpdateTime", copy_ptr (foreign_DeepCopyInto TimeType));
    ("Deployments", copy_map assign)].
Definition NodeStatus_DeepCopy : val → M val := copy_ptr NodeStatus_DeepCopyInto.

Definition SyncStatus_DeepCopyInto : val → M val :=
  copy_fields [("Synced", copy_slice assign);
    ("OutOfSync", copy_slice assign);
    ("SyncWaiting", copy_slice assign);
    ("Error", copy_slice assign);
    ("Disabled", copy_slice assign)].
Definition SyncStatus_DeepCopy : val → M val := copy_ptr SyncStatus_DeepCopyInto.

Definition YanetContainerOverride_DeepCopyInto : val → M val :=
  copy_fields [("Enabled", copy_ptr assign)].
Definition YanetContainerOverride_DeepCopy : val → M val := copy_ptr YanetContainerOverride_DeepCopyInto.

Definition YanetComponentOverride_DeepCopyInto : val → M val :=
  copy_fields [("Enabled", copy_ptr assign);
    ("Containers", copy_map (deref_copy YanetContainerOverride_DeepCopyInto))].
Definition YanetComponentOverride_DeepCopy : val → M val := copy_ptr YanetComponentOverride_DeepCopyInto.

Definition YanetControlplaneOverride_DeepCopyInto : val → M val :=
  copy_fields [("YanetComponentOverride", YanetComponentOverride_DeepCopyInto);
    ("DisabledNuma", copy_slice assign)].
Definition YanetControlplaneOverride_DeepCopy : val → M val := copy_ptr YanetControlplaneOverride_DeepCopyInto.

Definition YanetDataplaneOverride_DeepCopyInto : val → M val :=
  copy_fields [("YanetComponentOverride", YanetComponentOverride_DeepCopyInto);
    ("Hugepages", copy_ptr assign);
    ("Networks", copy_slice assign);
    ("Sidecars", copy_map (deref_copy YanetContainerOverride_DeepCopyInto))].
Definition YanetDataplaneOverride_DeepCopy : val → M val := copy_ptr YanetDataplaneOverride_DeepCopyInto.

Definition YanetComponentsOverride_DeepCopyInto : val → M val :=
  copy_fields [("Controlplane", copy_ptr YanetControlplaneOverride_DeepCopyInto);
    ("Dataplane", copy_ptr YanetDataplaneOverride_DeepCopyInto);
    ("BirdAdapter", copy_ptr YanetComponentOverride_DeepCopyInto);
    ("Operators", copy_map (deref_copy YanetComponentOverride_DeepCopyInto))].
Definition YanetComponentsOverride_DeepCopy : val → M val := copy_ptr YanetComponentsOverride_DeepCopyInto.

Definition YanetSpec_DeepCopyInto : val → M val :=
  copy_fields [("NodeSelector", copy_map assign);
    ("Enabled", copy_ptr assign);
    ("AutoSync", copy_ptr assign);
    ("Components", copy_ptr YanetComponentsOverride_DeepCopyInto)].
Definition YanetSpec_DeepCopy : val → M val := copy_ptr YanetSpec_DeepCopyInto.

Definition YanetStatus_DeepCopyInto : val → M val :=
  copy_fields [("Pods", copy_map (copy_slice assign));
    ("Sync", SyncStatus_DeepCopyInto);
    ("Conditions", copy_slice (foreign_DeepCopyInto ConditionType));
    ("NodesStatus", copy_map (deref_copy NodeStatus_DeepCopyInto));
    ("Services", copy_slice assign)].
Definition YanetStatus_DeepCopy : val → M val := copy_ptr YanetStatus_DeepCopyInto.

Definition Yanet_DeepCopyInto : val → M val :=
  copy_fields [("TypeMeta", assign);
    ("ObjectMeta", foreign_DeepCopyInto ObjectMetaType);
    ("Spec", YanetSpec_DeepCopyInto);
    ("Status", YanetStatus_DeepCopyInto)].
Definition Yanet_DeepCopy : val → M val := copy_ptr Yanet_DeepCopyInto.
Definition Yanet_DeepCopyObject : val → M (option val) := runtime_object Yanet_DeepCopy.

Definition YanetConfigSpec_DeepCopyInto : val → M val :=
  copy_fields [("Images", ImagesSpec_DeepCopyInto);
    ("Components", ComponentsSpec_DeepCopyInto);
    ("Patches", copy_slice NamedPatch_DeepCopyInto);
    ("BoxTypes", copy_slice BoxType_DeepCopyInto)].
Definition YanetConfigSpec_DeepCopy : val → M val := copy_ptr YanetConfigSpec_DeepCopyInto.

Definition YanetConfigStatus_DeepCopyInto : val → M val :=
  copy_fields [("Conditions", copy_slice (foreign_DeepCopyInto ConditionType))].
Definition YanetConfigStatus_DeepCopy : val → M val := copy_ptr YanetConfigStatus_DeepCopyInto.

Definition YanetConfig_DeepCopyInto : val → M val :=
  copy_fields [("TypeMeta", assign);
    ("ObjectMeta", foreign_DeepCopyInto ObjectMetaType);
    ("Spec", YanetConfigSpec_DeepCopyInto);
    ("Status", YanetConfigStatus_DeepCopyInto)].
Definition YanetConfig_DeepCopy : val → M val := copy_ptr YanetConfig_DeepCopyInto.
Definition YanetConfig_DeepCopyObject : val → M (option val) := runtime_object YanetConfig_DeepCopy.

Definition YanetConfigList_DeepCopyInto : val → M val :=
  copy_fields [("TypeMeta", assign);
    ("ListMeta", foreign_DeepCopyInto ListMetaType);
    ("Items", copy_slice YanetConfig_DeepCopyInto)].
Definition YanetConfigList_DeepCopy : val → M val := copy_ptr YanetConfigList_DeepCopyInto.
Definition YanetConfigList_DeepCopyObject : val → M (option val) := runtime_object YanetConfigList_DeepCopy.

Definition YanetList_DeepCopyInto : val → M val :=
  copy_fields [("TypeMeta", assign);
    ("ListMeta", foreign_DeepCopyInto ListMetaType);
    ("Items", copy_slice Yanet_DeepCopyInto)].
Definition YanetList_DeepCopy : val → M val := copy_ptr YanetList_DeepCopyInto.
Definition YanetList_DeepCopyObject : val → M (option val) := runtime_object YanetList_DeepCopy.

(** ** All of them *)
Inductive api_type :=
| ApiImageRef
| ApiConfigSource
| ApiBirdAdapterComp
| ApiBoxComponent
| ApiBoxDataplaneSidecar
| ApiBoxDataplane
| ApiBoxComponents
| ApiBoxOperator
| ApiBoxType
| ApiControlplaneSpec
| ApiHugepages
| ApiNetworkAttachment
| ApiSidecarSpec
| ApiDataplaneSpec
| ApiOperatorContainer
| ApiOperatorSpec
| ApiComponentsSpec
| ApiImagesSpec
| ApiNamedPatch
| ApiNodeStatus
| ApiSyncStatus
| ApiYanetContainerOverride
| ApiYanetComponentOverride
| ApiYanetControlplaneOverride
| ApiYanetDataplaneOverride
| ApiYanetComponentsOverride
| ApiYanetSpec
| ApiYanetStatus
| ApiYanet
| ApiYanetConfigSpec
| ApiYanetConfigStatus
| ApiYanetConfig
| ApiYanetConfigList
| ApiYanetList.

Definition type_of (T : api_type) : ty :=
  match T with
  | ApiImageRef => ImageRef_type
  | ApiConfigSource => ConfigSource_type
  | ApiBirdAdapterComp => BirdAdapterComp_type
  | ApiBoxComponent => BoxComponent_type
  | ApiBoxDataplaneSidecar => BoxDataplaneSidecar_type
  | ApiBoxDataplane => BoxDataplane_type
  | ApiBoxComponents => BoxComponents_type
  | ApiBoxOperator => BoxOperator_type
  | ApiBoxType => BoxType_type
  | ApiControlplaneSpec => ControlplaneSpec_type
  | ApiHugepages => Hugepages_type
  | ApiNetworkAttachment => NetworkAttachment_type
  | ApiSidecarSpec => SidecarSpec_type
  | ApiDataplaneSpec => DataplaneSpec_type
  | ApiOperatorContainer => OperatorContainer_type
  | ApiOperatorSpec => OperatorSpec_type
  | ApiComponentsSpec => ComponentsSpec_type
  | ApiImagesSpec => ImagesSpec_type
  | ApiNamedPatch => NamedPatch_type
  | ApiNodeStatus => NodeStatus_type
  | ApiSyncStatus => SyncStatus_type
  | ApiYanetContainerOverride => YanetContainerOverride_type
  | ApiYanetComponentOverride => YanetComponentOverride_type
  | ApiYanetControlplaneOverride => YanetControlplaneOverride_type
  | ApiYanetDataplaneOverride => YanetDataplaneOverride_type
  | ApiYanetComponentsOverride => YanetComponentsOverride_type
  | ApiYanetSpec => YanetSpec_type
  | ApiYanetStatus => YanetStatus_type
  | ApiYanet => Yanet_type
  | ApiYanetConfigSpec => YanetConfigSpec_type
  | ApiYanetConfigStatus => YanetConfigStatus_type
  | ApiYanetConfig => YanetConfig_type
  | ApiYanetConfigList => YanetConfigList_type
  | ApiYanetList => YanetList_type
  end.

Definition DeepCopyInto (T : api_type) : val → M val :=
  match T with
  | ApiImageRef => ImageRef_DeepCopyInto
  | ApiConfigSource => ConfigSource_DeepCopyInto
  | ApiBirdAdapterComp => BirdAdapterComp_DeepCopyInto
  | ApiBoxComponent => BoxComponent_DeepCopyInto
  | ApiBoxDataplaneSidecar => BoxDataplaneSidecar_DeepCopyInto
  | ApiBoxDataplane => BoxDataplane_DeepCopyInto
  | ApiBoxComponents => BoxComponents_DeepCopyInto
  | ApiBoxOperator => BoxOperator_DeepCopyInto
  | ApiBoxType => BoxType_DeepCopyInto
  | ApiControlplaneSpec => ControlplaneSpec_DeepCopyInto
  | ApiHugepages => Hugepages_DeepCopyInto
  | ApiNetworkAttachment => NetworkAttachment_DeepCopyInto
  | ApiSidecarSpec => SidecarSpec_DeepCopyInto
  | ApiDataplaneSpec => DataplaneSpec_DeepCopyInto
  | ApiOperatorContainer => OperatorContainer_DeepCopyInto
  | ApiOperatorSpec => OperatorSpec_DeepCopyInto
  | ApiComponentsSpec => ComponentsSpec_DeepCopyInto
  | ApiImagesSpec => ImagesSpec_DeepCopyInto
  | ApiNamedPatch => NamedPatch_DeepCopyInto
  | ApiNodeStatus => NodeStatus_DeepCopyInto
  | ApiSyncStatus => SyncStatus_DeepCopyInto
  | ApiYanetContainerOverride => YanetContainerOverride_DeepCopyInto
  | ApiYanetComponentOverride => YanetComponentOverride_DeepCopyInto
  | ApiYanetControlplaneOverride => YanetControlplaneOverride_DeepCopyInto
  | ApiYanetDataplaneOverride => YanetDataplaneOverride_DeepCopyInto
  | ApiYanetComponentsOverride => YanetComponentsOverride_DeepCopyInto
  | ApiYanetSpec => YanetSpec_DeepCopyInto
  | ApiYanetStatus => YanetStatus_DeepCopyInto
  | ApiYanet => Yanet_DeepCopyInto
  | ApiYanetConfigSpec => YanetConfigSpec_DeepCopyInto
  | ApiYanetConfigStatus => YanetConfigStatus_DeepCopyInto
  | ApiYanetConfig => YanetConfig_DeepCopyInto
  | ApiYanetConfigList => YanetConfigList_DeepCopyInto
  | ApiYanetList => YanetList_DeepCopyInto
  end.

Definition DeepCopy (T : api_type) : val → M val :=
  match T with
  | ApiImageRef => ImageRef_DeepCopy
  | ApiConfigSource => ConfigSource_DeepCopy
  | ApiBirdAdapterComp => BirdAdapterComp_DeepCopy
  | ApiBoxComponent => BoxComponent_DeepCopy
  | ApiBoxDataplaneSidecar => BoxDataplaneSidecar_DeepCopy
  | ApiBoxDataplane => BoxDataplane_DeepCopy
  | ApiBoxComponents => BoxComponents_DeepCopy
  | ApiBoxOperator => BoxOperator_DeepCopy
  | ApiBoxType => BoxType_DeepCopy
  | ApiControlplaneSpec => ControlplaneSpec_DeepCopy
  | ApiHugepages => Hugepages_DeepCopy
  | ApiNetworkAttachment => NetworkAttachment_DeepCopy
  | ApiSidecarSpec => SidecarSpec_DeepCopy
  | ApiDataplaneSpec => DataplaneSpec_DeepCopy
  | ApiOperatorContainer => OperatorContainer_DeepCopy
  | ApiOperatorSpec => OperatorSpec_DeepCopy
  | ApiComponentsSpec => ComponentsSpec_DeepCopy
  | ApiImagesSpec => ImagesSpec_DeepCopy
  | ApiNamedPatch => NamedPatch_DeepCopy
  | ApiNodeStatus => NodeStatus_DeepCopy
  | ApiSyncStatus => SyncStatus_DeepCopy
  | ApiYanetContainerOverride => YanetContainerOverride_DeepCopy
  | ApiYanetComponentOverride => YanetComponentOverride_DeepCopy
  | ApiYanetControlplaneOverride => YanetControlplaneOverride_DeepCopy
  | ApiYanetDataplaneOverride => YanetDataplaneOverride_DeepCopy
  | ApiYanetComponentsOverride => YanetComponentsOverride_DeepCopy
  | ApiYanetSpec => YanetSpec_DeepCopy
  | ApiYanetStatus => YanetStatus_DeepCopy
  | ApiYanet => Yanet_DeepCopy
  | ApiYanetConfigSpec => YanetConfigSpec_DeepCopy
  | ApiYanetConfigStatus => YanetConfigStatus_DeepCopy
  | ApiYanetConfig => YanetConfig_DeepCopy
  | ApiYanetConfigList => YanetConfigList_DeepCopy
  | ApiYanetList => YanetList_DeepCopy
  end.

Definition DeepCopyObject (T : api_type) : option (val → M (option val)) :=
  match T with
  | ApiYanet => Some Yanet_DeepCopyObject
  | ApiYanetConfig => Some YanetConfig_DeepCopyObject
  | ApiYanetConfigList => Some YanetConfigList_DeepCopyObject
  | ApiYanetList => Some YanetList_DeepCopyObject
  | _ => None
  end.

(** What the two [init] of the package give to [SchemeBuilder.Register]; a registered
    type has to be a [runtime.Object]. *)
Definition yanet_types_init : list api_type := [ApiYanet; ApiYanetList].
Definition yanetconfig_types_init : list api_type := [ApiYanetConfig; ApiYanetConfigList].
End api.
