(* ===== verification/Snapshot.v ===== *)
(** * The configuration snapshot in memory

    The two places where goroutines hand the YanetConfig to one another, on the heap
    of GoHeap.v: [refreshYanetConfigSnapshot] publishes a deep copy of the object it
    fetched, [snapshotYanetConfig] gives every reconcile a deep copy of its own.
    Between them a goroutine may write to whatever memory it reaches, at any time,
    and the mutex of the snapshot orders only the two operations themselves. *)

From S2P Require Import Prelude GoLib K8s Metrics Api Resolve Labels Builder Service Program Managed YanetController Reconciler.
From S2P Require Import Reconcile ConfigController GoHeap DeepCopy.
#[local] Open Scope Z_scope.

(** The addresses a goroutine gets to from the ones it holds. *)
Inductive reaches (h : heap) (roots : gset loc) : loc → Prop :=
| reaches_root l : l ∈ roots → reaches h roots l
| reaches_step l c l' : reaches h roots l → h !! l = Some c → l' ∈ crefs c → reaches h roots l'.

(** ** From memory to the records of the model

    What a value read from memory is in Api.v.  A nil slice or map is an empty one
    there, except where the source tests for nil. *)
Definition list_of {A B} (f : A → B) (x : option (list A)) : list B := f <$> default [] x.
Definition map_of {A B} (f : A → B) (x : option (gmap string A)) : gmap string B := f <$> default ∅ x.

Definition image_of (x : interp ImageRef_type) : ImageRef :=
  let '(registry, (prefix, (name, (tag, _)))) := x in MkImageRef registry prefix name tag.
Definition source_of (x : interp ConfigSource_type) : ConfigSource :=
  let '(inline, (hostPath, (mountPath, (args, _)))) := x in MkConfigSource inline hostPath mountPath (list_of id args).
Definition hugepages_of (x : interp Hugepages_type) : Hugepages :=
  let '(size, (count, _)) := x in MkHugepages size count.
Definition network_of (x : interp NetworkAttachment_type) : NetworkAttachment :=
  let '(name, (namespace, (interface, (resource, _)))) := x in MkNetworkAttachment name namespace interface resource.
Definition sidecar_of (x : interp SidecarSpec_type) : SidecarSpec :=
  let '(name, (image, (config, (listeners, _)))) := x in
  MkSidecarSpec name (image_of image) (source_of <$> config) (list_of id <$> listeners).
Definition controlplane_of (x : interp ControlplaneSpec_type) : ControlplaneSpec :=
  let '(image, (config, (numa, (disabled, _)))) := x in
  MkControlplaneSpec (image_of image) (source_of <$> config) numa (list_of id disabled).
Definition dataplane_of (x : interp DataplaneSpec_type) : DataplaneSpec :=
  let '(image, (config, (hugepages, (networks, (sidecars, _))))) := x in
  MkDataplaneSpec (image_of image) (source_of <$> config) (hugepages_of <$> hugepages)
    (option_map (map network_of) networks) (list_of sidecar_of sidecars).
Definition bird_adapter_of (x : interp BirdAdapterComp_type) : BirdAdapterComp :=
  let '(image, (config, _)) := x in MkBirdAdapterComp (image_of image) (source_of <$> config).
Definition container_of (x : interp OperatorContainer_type) : OperatorContainer :=
  let '(name, (image, (config, _))) := x in MkOperatorContainer name (image_of image) (source_of <$> config).
Definition operator_of (x : interp OperatorSpec_type) : OperatorSpec :=
  let '(name, (containers, (listeners, _))) := x in
  MkOperatorSpec name (list_of container_of containers) (list_of id <$> listeners).
Definition components_of (x : interp ComponentsSpec_type) : ComponentsSpec :=
  let '(controlplane, (dataplane, (birdAdapter, (operators, _)))) := x in
  MkComponentsSpec (controlplane_of controlplane) (dataplane_of dataplane) (bird_adapter_of <$> birdAdapter)
    (list_of operator_of operators).
Definition images_of (x : interp ImagesSpec_type) : ImagesSpec :=
  let '(registry, (prefix, (tag, (pullPolicy, (pullSecrets, _))))) := x in
  MkImagesSpec registry prefix tag pullPolicy (list_of fst pullSecrets).
Definition box_component_of (x : interp BoxComponent_type) : BoxComponent := MkBoxComponent (list_of id x.1).
Definition box_sidecar_of (x : interp BoxDataplaneSidecar_type) : BoxDataplaneSidecar :=
  let '(enabled, (patches, _)) := x in MkBoxDataplaneSidecar enabled (list_of id patches).
Definition box_dataplane_of (x : interp BoxDataplane_type) : BoxDataplane :=
  let '(patches, (sidecars, _)) := x in MkBoxDataplane (list_of id patches) (map_of box_sidecar_of sidecars).
Definition box_operator_of (x : interp BoxOperator_type) : BoxOperator := MkBoxOperator (list_of id x.1).
Definition box_components_of (x : interp BoxComponents_type) : BoxComponents :=
  let '(controlplane, (dataplane, (birdAdapter, _))) := x in
  MkBoxComponents (box_component_of <$> controlplane) (box_dataplane_of <$> dataplane) (box_component_of <$> birdAdapter).
Definition box_of (x : interp BoxType_type) : BoxType :=
  let '(name, (components, (operators, _))) := x in
  MkBoxType name (box_components_of components) (map_of box_operator_of operators).

Section snapshot.
Context `{ForeignTypes, MapOrder}.

(** What the foreign parts of an object are in the model. *)
Context (raw_of : interp (foreign_ty RawExtensionType) → RawExtension).
Context (meta_of : interp (foreign_ty ObjectMetaType) → ObjectMeta).

Definition patch_of (x : interp NamedPatch_type) : NamedPatch := let '(name, (raw, _)) := x in MkNamedPatch name (raw_of raw).
Definition config_of (x : interp YanetConfigSpec_type) : YanetConfigSpec :=
  let '(stop, (updateWindow, (images, (components, (patches, (boxTypes, _)))))) := x in
  MkYanetConfigSpec stop updateWindow (images_of images) (components_of components) (list_of patch_of patches)
    (list_of box_of boxTypes).
Definition object_of (x : interp YanetConfig_type) : YanetConfig :=
  let '(_, (meta, (spec, _))) := x in MkYanetConfig (meta_of meta) (config_of spec).

Notation config_value := (interp YanetConfigSpec_type).

(** [refreshYanetConfigSnapshot], after the read of the singleton into [cfg]: what it
    stores in [snapshot.Config]. *)
Definition refreshInMemory (got : result loc) : M val :=
  match got with
  | Err _ => mret (zero_val YanetConfigSpec_type)
  | Ok cfg =>
      c ← load cfg;
      match c with
      | Var object =>
          match get_field "Spec" object with
          | Some spec => deref_copy YanetConfigSpec_DeepCopyInto spec
          | None => panic
          end
      | _ => panic
      end
  end.

(** [len(Config.BoxTypes) == 0 && !Config.Stop]. *)
Definition unpopulated_in_memory (config : val) : bool :=
  let count := match get_field "BoxTypes" config with Some (VSlice _ _ len) => len | _ => O end in
  let stop := match get_field "Stop" config with Some (VBool stop) => stop | _ => false end in
  bool_decide (count = 0)%nat && negb stop.

(** [snapshotYanetConfig]: nothing for an empty snapshot, otherwise a copy of it. *)
Definition snapshotInMemory (config : val) : M (option val) :=
  if unpopulated_in_memory config then mret None
  else v ← deref_copy YanetConfigSpec_DeepCopyInto config; mret (Some v).

(** The memory of the process: the heap, [snapshot.Config], and the addresses each
    goroutine holds. *)
Record process := MkProcess {
  ps_heap : heap;
  ps_config : val;
  ps_roots : nat → gset loc;
}.

Definition holds_also (i : nat) (ls : gset loc) (roots : nat → gset loc) : nat → gset loc :=
  λ j, if decide (j = i) then ls ∪ roots i else roots j.

(** What a refresh read, as a value; the value a reconcile was given; or a step of a
    goroutine on its own. *)
Inductive label :=
| Refreshed (got : result (interp YanetConfig_type))
| Took (i : nat) (given : option config_value)
| Local.

(** The answer of the read as the refresh finds it in memory. *)
Definition denotes (h : heap) (got : result loc) (value : result (interp YanetConfig_type)) : Prop :=
  match got, value with
  | Err e, Err e' => e' = e
  | Ok cfg, Ok object => read h (TPtr YanetConfig_type) (VRef cfg) = Some (Some object)
  | _, _ => False
  end.

Definition got_by (h : heap) (roots : gset loc) (got : result loc) : Prop :=
  match got with Err _ => True | Ok cfg => reaches h roots cfg end.

(** One step of goroutine [i].  The client of controller-runtime returns objects that
    are copies of its cache, in memory nobody else has.  A goroutine allocates and
    overwrites with what it reaches, and may drop addresses. *)
Inductive process_step : process → label → process → Prop :=
| receive_step i h h' config roots l N :
    h ⊆ h' → N ## dom h → closed h' N → l ∈ N →
    process_step (MkProcess h config roots) Local (MkProcess h' config (holds_also i {[l]} roots))
| alloc_step i h h' config roots c l :
    (∀ l', l' ∈ crefs c → reaches h (roots i) l') → alloc c h = Some (l, h') →
    process_step (MkProcess h config roots) Local (MkProcess h' config (holds_also i {[l]} roots))
| write_step i h config roots l c :
    reaches h (roots i) l → (∀ l', l' ∈ crefs c → reaches h (roots i) l') →
    process_step (MkProcess h config roots) Local (MkProcess (<[l := c]> h) config roots)
| drop_step h config roots roots' :
    (∀ i, roots' i ⊆ roots i) →
    process_step (MkProcess h config roots) Local (MkProcess h config roots')
| refresh_step i h h' config config' roots got value :
    got_by h (roots i) got → denotes h got value → refreshInMemory got h = Some (config', h') →
    process_step (MkProcess h config roots) (Refreshed value) (MkProcess h' config' roots)
| take_none_step i h h' config roots :
    snapshotInMemory config h = Some (None, h') →
    process_step (MkProcess h config roots) (Took i None) (MkProcess h' config roots)
| take_step i h h' config roots v x :
    snapshotInMemory config h = Some (Some v, h') → read h' YanetConfigSpec_type v = Some x →
    process_step (MkProcess h config roots) (Took i (Some x)) (MkProcess h' config (holds_also i (vrefs v) roots)).

(** [main]: an empty snapshot and no goroutine. *)
Definition initial_process : process := MkProcess ∅ (zero_val YanetConfigSpec_type) (λ _, ∅).

Inductive process_reachable : process → list label → Prop :=
| process_initial : process_reachable initial_process []
| process_more s hist e s' :
    process_reachable s hist → process_step s e s' → process_reachable s' (hist ++ [e]).

(** The specification in memory terms: the last value published, and the zero value
    after a read that failed or found nothing. *)
Definition published (got : result (interp YanetConfig_type)) : config_value :=
  match got with Ok object => object.2.2.1 | Err _ => zero YanetConfigSpec_type end.
Definition newest_published (hist : list label) : config_value :=
  foldl (λ current e, match e with Refreshed got => published got | _ => current end) (zero YanetConfigSpec_type) hist.

(** What a reconcile is to be given when the snapshot has the value [x]. *)
Definition given (x : config_value) : option config_value :=
  let '(stop, (_, (_, (_, (_, (boxTypes, _)))))) := x in
  if bool_decide (length (default [] boxTypes) = 0)%nat && negb stop then None else Some x.

(** The specification in the terms of the rest of the development: the same reads
    through [refreshYanetConfigSnapshot] of ConfigController.v, from the empty snapshot. *)
Definition snapshot_after (hist : list label) : option YanetConfigSpec :=
  foldl (λ current e,
           match e with
           | Refreshed got => (refreshYanetConfigSnapshot current (object_of <$> got)).1
           | _ => current
           end) (Some zero_config) hist.
End snapshot.
