(* ===== verification/Instances.v ===== *)
(** * Concrete instances of the third-party parameters

    Executable instances of [K8sValidation], [QuantityLib] and [PatchLib], used
    to evaluate the model on concrete inputs.  They follow the documented
    formats (RFC 1123/1035 names, Kubernetes quantities with a suffix); the
    merge supports the few fields the examples patch. *)

From S2P Require Import Prelude GoLib K8s Api Resolve Labels Listeners Builder Service Render.
From S2P Require Import Metrics Program Managed YanetController Reconciler Reconcile ConfigController.
From Stdlib Require Import Ascii.
#[local] Open Scope Z_scope.

Module Concrete.
Definition code (a : ascii) : Z := Z.of_N (N_of_ascii a).
Definition lower (a : ascii) : bool := (97 <=? code a) && (code a <=? 122).
Definition upper (a : ascii) : bool := (65 <=? code a) && (code a <=? 90).
Definition digit (a : ascii) : bool := (48 <=? code a) && (code a <=? 57).
Definition alnum_lower (a : ascii) : bool := lower a || digit a.
Definition alnum (a : ascii) : bool := lower a || upper a || digit a.
Definition chars (s : string) : list ascii := String.list_ascii_of_string s.

(** Non-empty, [inner] everywhere, [edge] at both ends. *)
Definition bracketed (edge inner : ascii → bool) (s : string) : bool :=
  match chars s with
  | [] => false
  | a :: _ as l => edge a && forallb inner l && match last l with Some z => edge z | None => false end
  end.

Definition dns_label (s : string) : bool :=
  (slen s <=? 63)%nat && bracketed alnum_lower (λ a, alnum_lower a || (code a =? 45)) s.
Definition dns_1035 (s : string) : bool :=
  dns_label s && match chars s with a :: _ => lower a | [] => false end.
Definition dns_subdomain (s : string) : bool :=
  (slen s <=? 253)%nat && forallb dns_label (Split s ".").
Definition qualified_part (s : string) : bool :=
  (slen s <=? 63)%nat
  && bracketed alnum (λ a, alnum a || (code a =? 45) || (code a =? 95) || (code a =? 46)) s.
Definition qualified_name (s : string) : bool :=
  match Split s "/" with
  | [name] => qualified_part name
  | [prefix; name] => dns_subdomain prefix && qualified_part name
  | _ => false
  end.
Definition port_name (s : string) : bool :=
  (slen s <=? 15)%nat && bracketed alnum_lower (λ a, alnum_lower a || (code a =? 45)) s
  && existsb lower (chars s).

Definition problems (what : string) (ok : bool) : list string := if ok then [] else [what].

#[export] Instance validation : K8sValidation := {|
  IsDNS1123Label s := problems "not a DNS-1123 label" (dns_label s);
  IsDNS1123Subdomain s := problems "not a DNS-1123 subdomain" (dns_subdomain s);
  IsDNS1035Label s := problems "not a DNS-1035 label" (dns_1035 s);
  IsQualifiedName s := problems "not a qualified name" (qualified_name s);
  IsValidPortName s := problems "not a port name" (port_name s);
|}.

(** Decimal digits followed by a suffix. *)
Fixpoint parse_digits (acc : Z) (s : string) : Z * string :=
  match s with
  | String a s' => if digit a then parse_digits (10 * acc + (code a - 48)) s' else (acc, s)
  | "" => (acc, "")
  end.
Definition suffix_nano (s : string) : option Z :=
  if bool_decide (s = "") then Some nano
  else if bool_decide (s = "m") then Some 1000000
  else if bool_decide (s = "Ki") then Some (2 ^ 10 * nano)
  else if bool_decide (s = "Mi") then Some (2 ^ 20 * nano)
  else if bool_decide (s = "Gi") then Some (2 ^ 30 * nano)
  else None.
Definition parse_quantity (s : string) : result Quantity :=
  match chars s with
  | a :: _ =>
      if digit a then
        let '(n, rest) := parse_digits 0 s in
        match suffix_nano rest with
        | Some u => Ok (MkQuantity (n * u))
        | None => Err (Errorf "unable to parse quantity suffix" [])
        end
      else Err (Errorf "quantities must match the regular expression" [])
  | [] => Err (Errorf "quantities must match the regular expression" [])
  end.

(** Rounded away from zero, then wrapped to int64. *)
Definition value (q : Quantity) : Z := wrap_int64 (Z.sgn (q_nano q) * ((Z.abs (q_nano q) + nano - 1) / nano)).
Definition as_int64 (q : Quantity) : option Z :=
  let v := q_nano q / nano in
  if bool_decide (q_nano q = v * nano) && bool_decide (- 2 ^ 63 ≤ v) && bool_decide (v < 2 ^ 63)
  then Some v else None.

Lemma value_whole v : is_int64 v → value (MkQuantity (v * nano)) = v.
Proof.
  intros Hv. unfold value. simpl. rewrite Z.sgn_mul, Z.abs_mul.
  change (Z.sgn nano) with 1. change (Z.abs nano) with nano. rewrite Z.mul_1_r.
  replace (Z.abs v * nano + nano - 1) with ((nano - 1) + Z.abs v * nano) by lia.
  rewrite Z.div_add by done. change ((nano - 1) / nano) with 0. rewrite Z.add_0_l.
  replace (Z.sgn v * Z.abs v) with v by (destruct v; simpl; lia). by apply wrap_int64_id.
Qed.

Lemma value_int64 q : is_int64 (value q).
Proof.
  unfold value, wrap_int64, is_int64.
  match goal with |- context [(?a + 2 ^ 63) mod 2 ^ 64] =>
    pose proof (Z.mod_pos_bound (a + 2 ^ 63) (2 ^ 64)) end. lia.
Qed.

Lemma as_int64_exact q v : as_int64 q = Some v → q_nano q = v * nano ∧ is_int64 v.
Proof.
  unfold as_int64, is_int64.
  destruct (bool_decide (q_nano q = _)) eqn:E1; simpl; [|done].
  destruct (bool_decide (- 2 ^ 63 ≤ _)) eqn:E2; simpl; [|done].
  destruct (bool_decide (_ < 2 ^ 63)) eqn:E3; simpl; [|done].
  intros [= <-].
  apply bool_decide_eq_true_1 in E1, E2, E3. auto.
Qed.

#[export] Instance quantities : QuantityLib := {|
  ParseQuantity := parse_quantity;
  NewQuantity v := MkQuantity (v * nano);
  QString q := sprint_d (q_nano q) +:+ "n";
  QSign q := Z.sgn (q_nano q);
  QValue := value;
  QCmp p q := (q_nano p ?= q_nano q);
  AsInt64 := as_int64;
  NewQuantity_spec v := eq_refl;
  QSign_spec q := eq_refl;
  QCmp_spec p q := eq_refl;
  QValue_whole := value_whole;
  QValue_int64 := value_int64;
  AsInt64_exact := as_int64_exact;
|}.

Definition controller_of (m : ObjectMeta) : option OwnerReference :=
  list_find (λ r, or_Controller r = Some true) (om_OwnerReferences m) ≫= λ p, Some p.2.

Lemma controller_of_Some m r :
  controller_of m = Some r → r ∈ om_OwnerReferences m ∧ or_Controller r = Some true.
Proof.
  unfold controller_of. destruct (list_find _ _) as [[i x]|] eqn:E; simpl; [|done].
  intros [= <-]. apply list_find_Some in E as (Hi & Hc & _).
  split; [by eapply list_elem_of_lookup_2|done].
Qed.

Lemma controller_of_None m r :
  controller_of m = None → r ∈ om_OwnerReferences m → or_Controller r ≠ Some true.
Proof.
  unfold controller_of. destruct (list_find _ _) as [[i x]|] eqn:E; simpl; [done|].
  intros _ Hr. apply list_find_None in E. rewrite Forall_forall in E. by apply E.
Qed.

Lemma controller_of_owners m m' :
  om_OwnerReferences m = om_OwnerReferences m' → controller_of m = controller_of m'.
Proof. unfold controller_of. by intros ->. Qed.

Lemma matches_spec (sel labels : gmap string string) : bool_decide (sel ⊆ labels) = true ↔ sel ⊆ labels.
Proof. apply bool_decide_eq_true. Qed.

Lemma contains_finalizer_spec (l : list string) f : bool_decide (f ∈ l) = true ↔ f ∈ l.
Proof. apply bool_decide_eq_true. Qed.

Lemma add_finalizer_spec (l : list string) f g :
  g ∈ (if bool_decide (f ∈ l) then l else l ++ [f]) ↔ g = f ∨ g ∈ l.
Proof. case_bool_decide; set_solver. Qed.

Lemma remove_finalizer_spec (l : list string) f g : g ∈ filter (λ x, x ≠ f) l ↔ g ≠ f ∧ g ∈ l.
Proof. by rewrite list_elem_of_filter. Qed.

#[export] Instance metadata : MetaLib := {|
  GetControllerOf := controller_of;
  GetControllerOf_Some := controller_of_Some;
  GetControllerOf_None := controller_of_None;
  GetControllerOf_owners := controller_of_owners;
  NewControllerRef m apiVersion kind :=
    MkOwnerReference apiVersion kind (om_Name m) (om_UID m) (Some true) (Some true);
  NewControllerRef_spec m apiVersion kind := eq_refl;
  SelectorMatches sel labels := bool_decide (sel ⊆ labels);
  SelectorMatches_spec := matches_spec;
  ContainsFinalizer l f := bool_decide (f ∈ l);
  AddFinalizer l f := if bool_decide (f ∈ l) then l else l ++ [f];
  RemoveFinalizer l f := filter (λ x, x ≠ f) l;
  ContainsFinalizer_spec := contains_finalizer_spec;
  AddFinalizer_spec := add_finalizer_spec;
  RemoveFinalizer_spec := remove_finalizer_spec;
|}.

(** A merge that understands four top-level keys of an example patch: it
    renames the object, relabels the Pod, moves it to another node and drops
    the init containers. *)
Definition merge_key (d : Deployment) (kv : string * json) : Deployment :=
  match kv with
  | ("name", JString s) => upd_meta (set_om_Name s) d
  | ("component", JString s) => upd_template (λ t, set_pt_Labels (<[labelComponent := s]> (pt_Labels t)) t) d
  | ("nodeName", JString s) => upd_pod (set_ps_NodeName s) d
  | ("image", JString s) => upd_pod (λ p, set_ps_Containers (set_c_Image s <$> ps_Containers p) p) d
  | _ => d
  end.

#[export] Instance patches : PatchLib := {|
  doc := Deployment;
  empty_doc :=
    MkDeployment "" "" empty_meta
      (MkDeploymentSpec None None (MkStrategy "" "") (MkPodTemplateSpec ∅ ∅ empty_pod "") "")
      (MkDeploymentStatus 0 0 0 "");
  marshal_deployment d := Ok d;
  StrategicMergePatch d patch :=
    match patch with
    | RawJSON (JObject l) => Ok (foldl merge_key d l)
    | RawInvalid => Err (Errorf "invalid JSON" [])
    | _ => Ok d
    end;
  unmarshal_deployment d := Ok d;
  reencode j := j;
|}.
(** The default backoff makes at most five attempts. *)
Fixpoint retry_conflict {S} (attempts : nat) (fn : S → prog (S * result unit)) (s : S) : prog (S * result unit) :=
  fn s ≫= λ '(s', r),
    match r, attempts with
    | Err e, Datatypes.S (Datatypes.S _ as n) => if IsConflict e then retry_conflict n fn s' else Ret (s', Err e)
    | _, _ => Ret (s', r)
    end.

Lemma retry_conflict_retried {S} n (fn : S → prog (S * result unit)) s t r :
  run (retry_conflict n fn s) t r → retried fn s t r.
Proof.
  revert s t. induction n as [|n IH]; intros s t; simpl;
    intros (t1 & t2 & [s' r'] & -> & Hr & Hk)%run_bind.
  - assert (t2 = [] ∧ r = (s', r')) as [-> ->] by (destruct r'; exact Hk).
    rewrite app_nil_r. by constructor.
  - assert ((t2 = [] ∧ r = (s', r')) ∨ ∃ e, r' = Err e ∧ IsConflict e = true ∧ run (retry_conflict n fn s') t2 r)
      as [[-> ->]|(e & -> & He & Hrest)].
    { destruct r' as [u|e]; [left; exact Hk|]. destruct n; [left; exact Hk|].
      destruct (IsConflict e) eqn:E; [|left; exact Hk]. right. eauto. }
    + rewrite app_nil_r. by constructor.
    + eapply retried_again; eauto.
Qed.

Definition create_or_update (c : ConfigMap) (mutate : ConfigMap → prog (result ConfigMap)) : prog (result unit) :=
  got ← invoke (GetConfigMap (om_Namespace (cm_Meta c)) (om_Name (cm_Meta c)));
  match got with
  | Err e =>
      if IsNotFound e then
        mutated ← mutate c;
        match mutated with
        | Err e => Ret (Err e)
        | Ok c' => Call (CreateConfigMap c') (λ res, Ret ((λ _, tt) <$> (res : result ConfigMap)))
        end
      else Ret (Err e)
  | Ok x =>
      mutated ← mutate x;
      match mutated with
      | Err e => Ret (Err e)
      | Ok c' =>
          if decide (c' = x) then Ret (Ok tt)
          else Call (UpdateConfigMap c') (λ res, Ret ((λ _, tt) <$> (res : result ConfigMap)))
      end
  end.

Lemma create_or_update_spec c mutate t r :
  run (create_or_update c mutate) t r → created_or_updated c mutate t r.
Proof.
  unfold create_or_update. intros (t0 & t' & got & -> & (? & ? & -> & -> & ->) & Hk)%run_bind.
  simpl. match goal with a : answer _ |- _ => simpl in a; destruct a as [x|e] end.
  - apply run_bind in Hk as (t1 & t2 & [c'|e] & -> & Hm & Hk).
    + destruct (decide (c' = x)) as [->|Hne].
      * destruct Hk as [-> ->]. rewrite app_nil_r. by constructor.
      * destruct Hk as (res & t3 & -> & -> & ->). by apply cou_updated.
    + destruct Hk as [-> ->]. rewrite app_nil_r. by constructor.
  - destruct (IsNotFound e) eqn:E; [|destruct Hk as [-> ->]; by constructor].
    apply run_bind in Hk as (t1 & t2 & [c'|e'] & -> & Hm & Hk).
    + destruct Hk as (res & t3 & -> & -> & ->). by apply cou_created.
    + destruct Hk as [-> ->]. rewrite app_nil_r. by apply cou_create_refused.
Qed.

(** The owner of the examples is the only controller of its objects. *)
Definition set_controller (y : Yanet) (m : ObjectMeta) : result ObjectMeta :=
  let ref := MkOwnerReference GroupVersion "Yanet" (y_Name y) (om_UID (y_Meta y)) (Some true) (Some true) in
  match controller_of m with
  | Some r =>
      if decide (or_UID r = or_UID ref) then Ok m
      else Err (Errorf "Object %s/%s is already owned by another controller" [AStr (om_Namespace m); AStr (om_Name m)])
  | None => Ok (set_om_OwnerReferences (om_OwnerReferences m ++ [ref]) m)
  end.

#[export] Instance client_util : ClientUtil := {|
  RetryOnConflict S := retry_conflict 5;
  RetryOnConflict_spec S := retry_conflict_retried 5;
  CreateOrUpdate := create_or_update;
  CreateOrUpdate_spec := create_or_update_spec;
  SetControllerReference := set_controller;
|}.
End Concrete.

(** ** An example palette and installation *)
Module Sample.
Import Concrete.

Definition image (name : string) : ImageRef := MkImageRef None None name "".
Definition host (args : list string) : option ConfigSource :=
  Some (MkConfigSource "" "/etc/yanet2" "" args).

Definition palette : ComponentsSpec :=
  MkComponentsSpec
    (MkControlplaneSpec (image "controlplane") (host ["-c"; "/etc/yanet2/numa{numa}.yaml"]) (Some 4) [1])
    (MkDataplaneSpec (image "dataplane") (host ["/etc/yanet2/dataplane.yaml"])
       (Some (MkHugepages "1Gi" 4))
       (Some [MkNetworkAttachment "nad0" "" "net0" "vendor.com/nic";
              MkNetworkAttachment "nad1" "infra" "net1" "vendor.com/nic"])
       [MkSidecarSpec "bird" (image "bird") (host []) None;
        MkSidecarSpec "announcer" (image "announcer") None (Some ["http"]);
        MkSidecarSpec "neighbour" (image "neighbour") (host []) (Some ["http"; "grpc"])])
    (Some (MkBirdAdapterComp (image "bird-adapter") (host [])))
    [MkOperatorSpec "route" [MkOperatorContainer "route" (image "route-operator") (host []);
                             MkOperatorContainer "exporter" (image "exporter")
                               (Some (MkConfigSource "body" "" "/cfg" []))] None].

Definition box : BoxType :=
  MkBoxType "release"
    (MkBoxComponents (Some (MkBoxComponent ["hostile"]))
       (Some (MkBoxDataplane ["hostile"]
          {["bird" := MkBoxDataplaneSidecar None []; "neighbour" := MkBoxDataplaneSidecar (Some true) []]}))
       (Some (MkBoxComponent [])))
    {["route" := MkBoxOperator []]}.

(** A patch that tries to take the workload away from the operator. *)
Definition hostile : NamedPatch :=
  MkNamedPatch "hostile"
    (RawJSON (JObject [("name", JString "stolen"); ("component", JString "other");
                       ("nodeName", JString "elsewhere")])).

Definition config : YanetConfigSpec :=
  MkYanetConfigSpec false 300 (MkImagesSpec "registry.example" "yanet" "v1" "" []) palette [hostile] [box].

Definition spec : YanetSpec :=
  MkYanetSpec "release" {["pool" := "edge"]} None (Some true)
    (Some (MkComponentsOverride None
       (Some (MkDataplaneOverride (MkComponentOverride None ∅) None None
                {["neighbour" := MkContainerOverride (Some false) "" ""]}))
       None ∅)).

Definition owner : OwnerReference :=
  MkOwnerReference "yanet.yanet-platform.io/v1alpha1" "Yanet" "worker-1" "uid-1" (Some true) (Some true).

Definition ctx : BuildContext :=
  MkBuildContext "worker-1" "yanet" "release" "node-a" ∅ "IfNotPresent" [] owner [].

Definition registry : gmap string NamedPatch := NewPatchRegistry [hostile].

(** Resolution of one role of the example. *)
Definition resolved (kind : ComponentKind) (name : string) : ResolvedComponent :=
  match ResolveBoxComponent (Some config) (Some spec) kind name with
  | Ok (Some c) => c
  | _ => zero_component
  end.
End Sample.

(** ** An in-memory API server

    Objects by namespace and name; a write stores the object and bumps its
    resource version; a deletion removes it. *)
Module Fake.
Import Concrete.

Record cluster := MkCluster {
  k_global : option YanetConfigSpec;
  k_throttle : throttle;
  k_now : Z;
  k_config : option YanetConfig;
  k_yanets : list Yanet;
  k_nodes : list Node;
  k_deployments : list Deployment;
  k_configmaps : list ConfigMap;
  k_pods : list Pod;
  k_services : list Service;
}.

Definition not_found {A} : result A := Err (APIError ReasonNotFound "not found").

Definition find_by {A} (meta : A → ObjectMeta) (ns name : string) (l : list A) : result A :=
  match list_find (λ o, om_Namespace (meta o) = ns ∧ om_Name (meta o) = name) l with
  | Some (_, o) => Ok o
  | None => not_found
  end.

Definition drop_by {A} (meta : A → ObjectMeta) (m : ObjectMeta) (l : list A) : list A :=
  filter (λ o, ¬ (om_Namespace (meta o) = om_Namespace m ∧ om_Name (meta o) = om_Name m)) l.

Definition in_namespace {A} (meta : A → ObjectMeta) (ns : string) (l : list A) : list A :=
  filter (λ o, om_Namespace (meta o) = ns) l.
Definition labelled {A} (meta : A → ObjectMeta) (sel : gmap string string) (l : list A) : list A :=
  filter (λ o, sel ⊆ om_Labels (meta o)) l.

Definition stored (m : ObjectMeta) : ObjectMeta := set_om_ResourceVersion (om_ResourceVersion m +:+ "1") m.

Definition with_yanets (k : cluster) x := MkCluster (k_global k) (k_throttle k) (k_now k) (k_config k) x (k_nodes k)
  (k_deployments k) (k_configmaps k) (k_pods k) (k_services k).
Definition with_deployments (k : cluster) x := MkCluster (k_global k) (k_throttle k) (k_now k) (k_config k) (k_yanets k)
  (k_nodes k) x (k_configmaps k) (k_pods k) (k_services k).
Definition with_configmaps (k : cluster) x := MkCluster (k_global k) (k_throttle k) (k_now k) (k_config k) (k_yanets k)
  (k_nodes k) (k_deployments k) x (k_pods k) (k_services k).
Definition with_services (k : cluster) x := MkCluster (k_global k) (k_throttle k) (k_now k) (k_config k) (k_yanets k)
  (k_nodes k) (k_deployments k) (k_configmaps k) (k_pods k) x.
Definition with_global (k : cluster) x := MkCluster x (k_throttle k) (k_now k) (k_config k) (k_yanets k)
  (k_nodes k) (k_deployments k) (k_configmaps k) (k_pods k) (k_services k).
Definition with_throttle (k : cluster) x := MkCluster (k_global k) x (k_now k) (k_config k) (k_yanets k)
  (k_nodes k) (k_deployments k) (k_configmaps k) (k_pods k) (k_services k).

Definition put_deployment (k : cluster) (d : Deployment) : cluster * result Deployment :=
  let d := set_d_Meta (stored (d_Meta d)) d in
  (with_deployments k (drop_by d_Meta (d_Meta d) (k_deployments k) ++ [d]), Ok d).
Definition put_configmap (k : cluster) (c : ConfigMap) : cluster * result ConfigMap :=
  let c := MkConfigMap (stored (cm_Meta c)) (cm_Data c) (cm_other c) in
  (with_configmaps k (drop_by cm_Meta (cm_Meta c) (k_configmaps k) ++ [c]), Ok c).
Definition put_yanet (k : cluster) (y : Yanet) : cluster * result Yanet :=
  let y := set_y_Meta (stored (y_Meta y)) y in
  (with_yanets k (drop_by y_Meta (y_Meta y) (k_yanets k) ++ [y]), Ok y).
Definition put_service (k : cluster) (s : Service) : cluster * result Service :=
  let s := MkService (stored (sv_Meta s)) (sv_Spec s) in
  (with_services k (drop_by sv_Meta (sv_Meta s) (k_services k) ++ [s]), Ok s).

Definition serve (k : cluster) (c : call) : cluster * answer c :=
  match c with
  | ReadGlobal => (k, k_global k)
  | RefreshSnapshot =>
      let '(global, r) := refreshYanetConfigSnapshot (k_global k)
                            (match k_config k with Some c => Ok c | None => not_found end) in
      (with_global k global, r)
  | Throttle window host =>
      let '(t, wait) := checkUpdateRequeue (k_throttle k) (k_now k) window host in (with_throttle k t, wait)
  | Now => (k, k_now k)
  | GetConfig => (k, match k_config k with Some c => Ok c | None => not_found end)
  | GetYanet ns name => (k, find_by y_Meta ns name (k_yanets k))
  | ListYanets => (k, Ok (k_yanets k))
  | UpdateYanet y => put_yanet k y
  | UpdateYanetStatus y => put_yanet k y
  | ListNodes sel => (k, Ok (filter (λ n, sel ⊆ n_Labels n) (k_nodes k)))
  | GetDeployment ns name => (k, find_by d_Meta ns name (k_deployments k))
  | ListDeployments None => (k, Ok (k_deployments k))
  | ListDeployments (Some ns) => (k, Ok (in_namespace d_Meta ns (k_deployments k)))
  | CreateDeployment d => put_deployment k d
  | UpdateDeployment dry d => if dry then (k, Ok d) else put_deployment k d
  | DeleteDeployment d => (with_deployments k (drop_by d_Meta (d_Meta d) (k_deployments k)), Ok tt)
  | GetConfigMap ns name => (k, find_by cm_Meta ns name (k_configmaps k))
  | ListConfigMaps ns sel => (k, Ok (labelled cm_Meta sel (in_namespace cm_Meta ns (k_configmaps k))))
  | CreateConfigMap c => put_configmap k c
  | UpdateConfigMap c => put_configmap k c
  | DeleteConfigMap c => (with_configmaps k (drop_by cm_Meta (cm_Meta c) (k_configmaps k)), Ok tt)
  | ListPods ns sel => (k, Ok (labelled p_Meta sel (in_namespace p_Meta ns (k_pods k))))
  | ListReplicaSets ns => (k, Ok [])
  | GetService ns name => (k, find_by sv_Meta ns name (k_services k))
  | ListServices sel => (k, Ok (labelled sv_Meta sel (k_services k)))
  | CreateService s => put_service k s
  | UpdateService s => put_service k s
  | DeleteService s => (with_services k (drop_by sv_Meta (sv_Meta s) (k_services k)), Ok tt)
  | EmitEvent _ | Observe _ => (k, tt)
  end.
Definition server : handler cluster := MkHandler _ serve.

(** *** The example cluster *)
Definition sync0 : SyncStatus := MkSyncStatus [] [] [] [] [].
Definition status0 : YanetStatus := MkYanetStatus ∅ sync0 [] ∅ [].
Definition yanet_meta (name uid : string) (created : Z) (finalizers : list string) : ObjectMeta :=
  MkObjectMeta name "yanet" uid "7" 1 created None ∅ ∅ [] finalizers "".
Definition yanet : Yanet :=
  MkYanet "" "" (yanet_meta "worker-1" "uid-1" 10 [yanetFinalizer]) Sample.spec status0.
Definition node : Node := MkNode "node-a" {["pool" := "edge"]} ∅.
Definition config_object : YanetConfig :=
  MkYanetConfig (MkObjectMeta "config" "" "uid-c" "3" 1 1 None ∅ ∅ [] [] "") Sample.config.
Definition start : cluster :=
  MkCluster (Some Sample.config) throttle_init (seconds 4000000000) (Some config_object) [yanet] [node] [] [] [] [].

(** A second installation that has not been reconciled yet. *)
Definition newcomer : Yanet :=
  MkYanet "" "" (yanet_meta "worker-2" "uid-2" 20 []) (bare_spec "release") status0.
Definition arrival : cluster := with_yanets start [yanet; newcomer].

(** The same cluster with the global stop set. *)
Definition stop_config : YanetConfigSpec :=
  MkYanetConfigSpec true 300 (yc_Images Sample.config) (yc_Components Sample.config) (yc_Patches Sample.config)
    (yc_BoxTypes Sample.config).
Definition frozen : cluster := with_global arrival (Some stop_config).

(** A minimal palette: one controlplane and one dataplane, without
    configuration, hugepages or sidecars. *)
Definition small_config : YanetConfigSpec :=
  MkYanetConfigSpec false 0 (MkImagesSpec "" "" "v1" "" [])
    (MkComponentsSpec (MkControlplaneSpec (Sample.image "cp") None None [])
       (MkDataplaneSpec (Sample.image "dp") None None None []) None [])
    [] [MkBoxType "mini" (MkBoxComponents (Some (MkBoxComponent [])) (Some (MkBoxDataplane [] ∅)) None) ∅].
Definition small_yanet (autoSync : bool) (deletion : option Z) : Yanet :=
  MkYanet "" "" (set_om_DeletionTimestamp deletion (yanet_meta "w" "uid-w" 5 [yanetFinalizer]))
    (MkYanetSpec "mini" ∅ None (Some autoSync) None) status0.
Definition small (autoSync : bool) (deletion : option Z) : cluster :=
  MkCluster (Some small_config) throttle_init (seconds 4000000000) None [small_yanet autoSync deletion]
    [MkNode "n" ∅ ∅] [] [] [] [].

(** What an earlier reconcile of that installation left behind: a Deployment and
    a ConfigMap that nothing wants any more. *)
Definition owned_meta (name : string) (labels : gmap string string) : ObjectMeta :=
  MkObjectMeta name "yanet" "uid-x" "9" 1 1 None labels ∅
    [MkOwnerReference GroupVersion "Yanet" "w" "uid-w" (Some true) (Some true)] [] "".
Definition orphan_deployment : Deployment :=
  MkDeployment "Deployment" "apps/v1" (owned_meta "w-old" {[labelNode := "n"]})
    (MkDeploymentSpec (Some 1) None (MkStrategy "Recreate" "") (MkPodTemplateSpec ∅ ∅ empty_pod "") "")
    (MkDeploymentStatus 1 1 1 "").
Definition orphan_config_map : ConfigMap :=
  MkConfigMap (owned_meta "w-old-cfg" {[labelYanet := "w"]}) {["config" := "old"]} "".
Definition leftover (deletion : option Z) : cluster :=
  MkCluster (Some small_config) throttle_init (seconds 4000000000) None [small_yanet true deletion]
    [] [orphan_deployment] [orphan_config_map] [] [].

(** A drifted live copy of a Deployment the installation wants. *)
Definition wanted_deployment : Deployment := upd_spec (set_ds_Replicas (Some 0)) orphan_deployment.

(** The [i]-th event of a trace. *)
Definition nth_event (i : nat) (t : trace) : event := default (Ev Now 0) (t !! i).

Lemma nth_event_split i t : (i <? length t)%nat = true → t = take i t ++ nth_event i t :: drop (S i) t.
Proof.
  intros Hi%Nat.ltb_lt. destruct (lookup_lt_is_Some_2 t i Hi) as [e He].
  unfold nth_event, trace in *. rewrite He. simpl. symmetry. by apply take_drop_middle.
Qed.
End Fake.
