(* ===== verification/StopSpec.v ===== *)
(** * The global stop

    Every write a job of the process asks the API server for comes right after a
    read of the snapshot that did not say stop. *)

From S2P Require Import Prelude GoLib K8s Api Resolve Labels Builder Service Render.
From S2P Require Import Metrics Program Managed YanetController Reconciler Reconcile ConfigController System Instances.
#[local] Open Scope Z_scope.

(** The last thing that happened is a locked read of the snapshot, and it was
    not stopped. *)
Definition ready (h : trace) : Prop :=
  ∃ h' g, h = h' ++ [Ev ReadGlobal g] ∧ stopped g = false.

Definition stop_guard (h : trace) (c : call) : Prop := is_write c = true → ready h.

Create HintDb guard discriminated.

(** All writes are guarded, from any history. *)
Notation guarded p := (respects stop_guard p).
#[export] Hint Resolve respects_Ret : guard.

Lemma wp_checkGlobalStop h (Q : result unit → trace → Prop) :
  (∀ h', ready h' → Q (Ok tt) h') → (∀ h', Q (Err ErrGlobalStop) h') →
  wp stop_guard checkGlobalStop h Q.
Proof.
  intros Hok Herr. unfold checkGlobalStop. apply (wp_bind_invoke _ ReadGlobal); [done|].
  intros g. apply wp_Ret. destruct (stopped g) eqn:E; [apply Herr|apply Hok]. by exists h, g.
Qed.

Lemma wp_sharedServicesStopped h (Q : bool → trace → Prop) :
  (∀ h', ready h' → Q false h') → (∀ h', Q true h') →
  wp stop_guard sharedServicesStopped h Q.
Proof.
  intros Hok Herr. unfold sharedServicesStopped. apply (wp_bind_invoke _ ReadGlobal); [done|].
  intros g. apply wp_Ret. destruct (stopped g) eqn:E; [apply Herr|apply Hok]. by exists h, g.
Qed.

(** Walk through a program: run the stop checks, split on every match, and
    leave the subprograms to the hint database. *)
Ltac guard_step := idtac;
  match goal with
  | |- respects _ _ => intros ?h
  | |- wp _ checkGlobalStop _ _ => apply wp_checkGlobalStop
  | |- wp _ sharedServicesStopped _ _ => apply wp_sharedServicesStopped
  | |- stop_guard _ _ => intros ?; (done || assumption)
  | |- wp _ _ _ _ => apply wp_respects; [solve [eauto with guard]|]
  | |- _ ∧ _ => split
  | |- _ => done
  end.
Ltac walk := wp_walk guard_step.

Section stop.
Context `{MetaLib, ClientUtil, PatchLib, QuantityLib, K8sValidation, MapOrder}.

Lemma record_event_guarded reason : guarded (record_event reason).
Proof. unfold record_event. walk. Qed.
#[local] Hint Resolve record_event_guarded : guard.

Lemma foldPE_guarded {S A} (f : S → A → prog (S * option goerror)) s l :
  (∀ s x, guarded (f s x)) → guarded (foldPE f s l).
Proof.
  intros Hf. revert s. induction l as [|x l IH]; intros s; simpl; walk.
Qed.
#[local] Hint Resolve foldPE_guarded : guard.

Lemma updateStatus_guarded y mutate : (∀ f, guarded (mutate f)) → guarded (updateStatus y mutate).
Proof. intros Hm. unfold updateStatus, update_status_attempt. walk. Qed.

Lemma degrade_guarded reason message f : guarded (degrade reason message f).
Proof. unfold degrade. walk. Qed.
#[local] Hint Resolve degrade_guarded updateStatus_guarded : guard.

Lemma pruneConflictingDeployments_guarded y names : guarded (pruneConflictingDeployments y names).
Proof. unfold pruneConflictingDeployments, prune_conflicting_step. walk. Qed.

Lemma prune_config_map_step_guarded y desired autoSync referenced pending st c :
  guarded (prune_config_map_step y desired autoSync referenced pending st c).
Proof. unfold prune_config_map_step. walk. Qed.
#[local] Hint Resolve prune_config_map_step_guarded : guard.

Lemma prune_deployment_step_guarded y desired autoSync st d :
  guarded (prune_deployment_step y desired autoSync st d).
Proof. unfold prune_deployment_step. walk. Qed.
#[local] Hint Resolve prune_deployment_step_guarded : guard.

Lemma prune_config_maps_guarded y desired autoSync deps st : guarded (prune_config_maps y desired autoSync deps st).
Proof. unfold prune_config_maps. walk. Qed.
#[local] Hint Resolve prune_config_maps_guarded : guard.

Lemma pruneOrphans_guarded y desired autoSync : guarded (pruneOrphans y desired autoSync).
Proof. unfold pruneOrphans. walk. Qed.
#[local] Hint Resolve pruneOrphans_guarded : guard.

Lemma handleYanetDeletion_guarded y : guarded (handleYanetDeletion y).
Proof. unfold handleYanetDeletion. walk. Qed.

Lemma validateExclusiveNodes_guarded y nodes : guarded (validateExclusiveNodes y nodes).
Proof. unfold validateExclusiveNodes. walk. Qed.

(** The mutate function ends in the stop check, and the library writes right
    after it. *)
Lemma inline_config_step_guarded y ctx rc autoSync st entry :
  guarded (inline_config_step y ctx rc autoSync st entry).
Proof.
  destruct st as [names drift], entry as [name content]. unfold inline_config_step. walk.
  apply wp_CreateOrUpdate; [done| |walk]. intros x h'. unfold mutate_config_map. walk.
Qed.
#[local] Hint Resolve inline_config_step_guarded : guard.

Lemma applyInlineConfigMaps_guarded y ctx rc autoSync : guarded (applyInlineConfigMaps y ctx rc autoSync).
Proof. unfold applyInlineConfigMaps. walk. Qed.

Lemma desiredDeploymentUpdate_guarded e d : guarded (desiredDeploymentUpdate e d).
Proof. unfold desiredDeploymentUpdate. walk. Qed.
#[local] Hint Resolve desiredDeploymentUpdate_guarded : guard.

Lemma apply_attempt_guarded d autoSync window node st : guarded (apply_attempt d autoSync window node st).
Proof. unfold apply_attempt. walk. Qed.
#[local] Hint Resolve apply_attempt_guarded : guard.

Lemma applyDeployment_guarded d autoSync window node : guarded (applyDeployment d autoSync window node).
Proof. unfold applyDeployment. walk. Qed.

Lemma listPlacementProducers_guarded ns : guarded (listPlacementProducers ns).
Proof. unfold listPlacementProducers. walk. Qed.
#[local] Hint Resolve listPlacementProducers_guarded : guard.

Lemma preflightResources_guarded cfg y nodes enabled on policy owner registry :
  guarded (preflightResources cfg y nodes enabled on policy owner registry).
Proof. unfold preflightResources, validateOperatorPlacementTransition. walk. Qed.
#[local] Hint Resolve applyInlineConfigMaps_guarded applyDeployment_guarded handleYanetDeletion_guarded
  validateExclusiveNodes_guarded pruneConflictingDeployments_guarded preflightResources_guarded : guard.

Lemma reconcile_deployment_guarded env kind on drift node acc d :
  guarded (reconcile_deployment env kind on drift node acc d).
Proof. destruct acc. unfold reconcile_deployment. walk. Qed.
#[local] Hint Resolve reconcile_deployment_guarded : guard.

Lemma reconcile_ref_guarded env ctx node acc ref : guarded (reconcile_ref env ctx node acc ref).
Proof. destruct acc. unfold reconcile_ref. walk. Qed.
#[local] Hint Resolve reconcile_ref_guarded : guard.

Lemma fail_pass_guarded y e : guarded (fail_pass y e).
Proof. unfold fail_pass. walk. Qed.
#[local] Hint Resolve fail_pass_guarded : guard.

Lemma finish_pass_guarded env st names pods : guarded (finish_pass env st names pods).
Proof. unfold finish_pass. walk. Qed.
#[local] Hint Resolve finish_pass_guarded : guard.

Lemma run_pass_guarded env nodes enabled plans : guarded (run_pass env nodes enabled plans).
Proof. unfold run_pass, reconcile_node, collectPods. walk. Qed.
#[local] Hint Resolve run_pass_guarded : guard.

Lemma reconcile_nodes_guarded cfg y enabled : guarded (reconcile_nodes cfg y enabled).
Proof. unfold reconcile_nodes. walk. Qed.
#[local] Hint Resolve reconcile_nodes_guarded : guard.

Lemma reconcile_loaded_guarded config y : guarded (reconcile_loaded config y).
Proof. unfold reconcile_loaded, add_finalizer, reconcile_config, bail_out. walk. Qed.
#[local] Hint Resolve reconcile_loaded_guarded : guard.

Lemma reconcileYanet_guarded y : guarded (reconcileYanet y).
Proof. unfold reconcileYanet, reconcile_body, snapshotYanetConfig. walk. Qed.
#[local] Hint Resolve reconcileYanet_guarded : guard.

Lemma Reconcile_guarded ns name : guarded (Reconcile ns name).
Proof. unfold Reconcile. walk. Qed.

Lemma applySharedService_guarded s : guarded (applySharedService s).
Proof. unfold applySharedService, shared_service_attempt. walk. Qed.
#[local] Hint Resolve applySharedService_guarded : guard.

Lemma ReconcileConfig_guarded : guarded ReconcileConfig.
Proof.
  unfold ReconcileConfig, reconcileSharedServices, blockedSharedServicePlacementScopes,
    blocked_scope_step, apply_service_step, prune_service_step. walk.
Qed.
#[local] Hint Resolve ReconcileConfig_guarded Reconcile_guarded : guard.

Lemma fmap_guarded {A B} (f : A → B) (p : prog A) : guarded p → guarded (f <$> p).
Proof. intros Hp h. apply wp_bind. eapply wp_mono; [apply Hp|]. intros a h' _. by apply wp_Ret. Qed.

Lemma job_guarded j : guarded (job_prog j).
Proof.
  destruct j; try apply respects_Ret; apply fmap_guarded;
    [eauto with guard..|unfold mapConfigToYanets; walk|unfold mapNodeToYanets; walk].
Qed.
End stop.

(** ** Properties *)
Import Concrete.

(** C1: in every run of a job of the process (a reconcile of a Yanet or of the
    YanetConfig, or a watch mapper), against any API server and with any interleaving of
    other writers, each call that changes the cluster (finalizer, status, Deployment,
    ConfigMap, shared Service, event, and the dry-run updates) immediately follows a
    locked read of the YanetConfig snapshot that did not say stop. *)
Theorem stop_guards_writes `{MetaLib, ClientUtil, PatchLib, QuantityLib, K8sValidation, MapOrder}
    (j : job) (t t1 t2 : trace) (e : event) (r : job_result) :
  run (job_prog j) t r → t = t1 ++ e :: t2 → is_write (ev_call e) = true →
  ∃ before global, t1 = before ++ [Ev ReadGlobal global] ∧ stopped global = false.
Proof.
  intros Hr -> Hw. destruct (wp_sound _ _ _ _ _ (job_guarded j []) Hr) as [Hg _]. by apply (Hg t1 e t2).
Qed.

Lemma stop_guards_writes_witness :
  (∃ before global,
    take 4 (exec Fake.server Fake.arrival (job_prog (YanetJob "yanet" "worker-2"))).1.2 = before ++ [Ev ReadGlobal global]
    ∧ stopped global = false)
  ∧ ∃ before global,
    take 8 (exec Fake.server Fake.start (job_prog YanetConfigJob)).1.2 = before ++ [Ev ReadGlobal global]
    ∧ stopped global = false.
Proof.
  set (t := (exec Fake.server Fake.arrival (job_prog (YanetJob "yanet" "worker-2"))).1.2).
  set (u := (exec Fake.server Fake.start (job_prog YanetConfigJob)).1.2).
  split.
  - apply (stop_guards_writes (YanetJob "yanet" "worker-2") t (take 4 t) (drop 5 t) (Fake.nth_event 4 t)
             (exec Fake.server Fake.arrival (job_prog (YanetJob "yanet" "worker-2"))).2).
    + apply exec_run.
    + apply Fake.nth_event_split. vm_compute. reflexivity.
    + vm_compute. reflexivity.
  - apply (stop_guards_writes YanetConfigJob u (take 8 u) (drop 9 u) (Fake.nth_event 8 u)
             (exec Fake.server Fake.start (job_prog YanetConfigJob)).2).
    + apply exec_run.
    + apply Fake.nth_event_split. vm_compute. reflexivity.
    + vm_compute. reflexivity.
Defined.
