(* ===== verification/SystemSpec.v ===== *)
(** * Concurrent jobs

    The mutexes make every call one atomic step, every job of the process behaves
    as a run of its program, a stop that stays published silences the whole process but
    for the requests already in flight, and a failed refresh lifts it. *)

From S2P Require Import Prelude GoLib K8s Api Resolve Labels Builder Service Render.
From S2P Require Import Metrics Program Managed YanetController Reconciler Reconcile ConfigController System Instances StopSpec.
#[local] Open Scope Z_scope.

(** ** Mutual exclusion *)
Definition in_config (ph : phase) : bool :=
  match ph with ConfigLocked | ConfigFetched _ | ConfigLeaving => true | _ => false end.
Definition in_throttle (ph : phase) : bool :=
  match ph with ThrottleLocked | ThrottleTimed _ | ThrottleLeaving => true | _ => false end.

(** A goroutine inside a critical section is at the call that opened it. *)
Definition phase_fits (ph : phase) (p : prog job_result) : Prop :=
  match ph, p with
  | Running, _ | ConfigLeaving, _ | ThrottleLeaving, _ => True
  | ConfigLocked, Call ReadGlobal _ | ConfigLocked, Call RefreshSnapshot _ => True
  | ConfigFetched _, Call RefreshSnapshot _ => True
  | ThrottleLocked, Call (Throttle _ _) _ | ThrottleTimed _, Call (Throttle _ _) _ => True
  | _, _ => False
  end.

Record lock_inv (s : lock_state) : Prop := {
  inv_fits : ∀ i th, lk_threads s !! i = Some th → phase_fits (th_phase th) (th_rest th);
  inv_config : ∀ i th, lk_threads s !! i = Some th →
    (in_config (th_phase th) = true ↔ lk_config_lock s = Some i);
  inv_throttle : ∀ i th, lk_threads s !! i = Some th →
    (in_throttle (th_phase th) = true ↔ lk_throttle_lock s = Some i);
  inv_config_holder : ∀ i, lk_config_lock s = Some i → is_Some (lk_threads s !! i);
  inv_throttle_holder : ∀ i, lk_throttle_lock s = Some i → is_Some (lk_threads s !! i);
}.

(** ** The steps of a goroutine *)

(** A call that neither reads nor writes the shared memory. *)
Definition private (server : answers) (clock : Z) (c : call) (a : answer c) : Prop :=
  ∀ m, mem_clock m = clock → serve server m c = (m, a).

Section advance.
Variables (server : answers) (s : lock_state) (i : nat) (j : job).
Notation m := (lk_memory s).
Notation at_ ph p := (lk_threads s !! i = Some (MkThread j ph p)).

Inductive advanced : lock_state → Prop :=
| adv_private c k a :
    at_ Running (Call c k) → private server (mem_clock m) c a →
    advanced (lk_update i (MkThread j Running (k a)) (lk_log i (Ev c a) s))
| adv_lock_config c k :
    at_ Running (Call c k) → phase_fits ConfigLocked (Call c k) → lk_config_lock s = None →
    advanced (lk_set_config_lock (Some i) (lk_update i (MkThread j ConfigLocked (Call c k)) s))
| adv_read k :
    at_ ConfigLocked (Call ReadGlobal k) →
    advanced (lk_update i (MkThread j ConfigLeaving (k (Some (mem_config m))))
                (lk_log i (Ev ReadGlobal (Some (mem_config m))) s))
| adv_fetch k :
    at_ ConfigLocked (Call RefreshSnapshot k) →
    advanced (lk_update i (MkThread j (ConfigFetched (mem_singleton m)) (Call RefreshSnapshot k))
                (lk_log i (Ev RefreshSnapshot (refresh m (mem_singleton m)).2) s))
| adv_publish got k :
    at_ (ConfigFetched got) (Call RefreshSnapshot k) →
    advanced (lk_update i (MkThread j ConfigLeaving (k (refresh m got).2))
                (lk_set_memory (set_mem_config (refresh m got).1 m) s))
| adv_unlock_config p :
    at_ ConfigLeaving p → advanced (lk_set_config_lock None (lk_update i (MkThread j Running p) s))
| adv_lock_throttle w h k :
    at_ Running (Call (Throttle w h) k) → lk_throttle_lock s = None →
    advanced (lk_set_throttle_lock (Some i) (lk_update i (MkThread j ThrottleLocked (Call (Throttle w h) k)) s))
| adv_time w h k :
    at_ ThrottleLocked (Call (Throttle w h) k) →
    advanced (lk_update i (MkThread j (ThrottleTimed (mem_clock m)) (Call (Throttle w h) k))
                (lk_log i (Ev (Throttle w h) (throttled m w h).2) s))
| adv_decide now w h k :
    at_ (ThrottleTimed now) (Call (Throttle w h) k) →
    advanced (lk_update i (MkThread j ThrottleLeaving (k (checkUpdateRequeue (mem_throttle m) now w h).2))
                (lk_set_memory (set_mem_throttle (checkUpdateRequeue (mem_throttle m) now w h).1 m) s))
| adv_unlock_throttle p :
    at_ ThrottleLeaving p → advanced (lk_set_throttle_lock None (lk_update i (MkThread j Running p) s)).
End advance.

Lemma set_mem_throttle_id m : set_mem_throttle (mem_throttle m) m = m.
Proof. by destruct m. Qed.

Lemma private_zero_window server clock h : private server clock (Throttle 0 h) 0.
Proof. intros m _. simpl. by rewrite set_mem_throttle_id. Qed.

Lemma private_now server clock : private server clock Now clock.
Proof. intros m <-. done. Qed.

Lemma advance_call_inv server s i j ph c k s' :
  lk_threads s !! i = Some (MkThread j ph (Call c k)) → advance_call server s i j ph c k = Some s' →
  advanced server s i j s'.
Proof.
  intros Hi E.
  destruct c; simpl in E; destruct ph; try done;
    try (injection E as <-; by eapply adv_private; [exact Hi|intros ? ?]).
  - unfold acquire_config in E. destruct (lk_config_lock s) eqn:El; [done|]. injection E as <-.
    by apply adv_lock_config.
  - injection E as <-. by apply adv_read.
  - unfold acquire_config in E. destruct (lk_config_lock s) eqn:El; [done|]. injection E as <-.
    by apply adv_lock_config.
  - injection E as <-. by apply adv_fetch.
  - injection E as <-. by apply adv_publish.
  - case_bool_decide as Hw; [subst; injection E as <-; apply adv_private; [done|apply private_zero_window]|].
    unfold acquire_throttle in E. destruct (lk_throttle_lock s) eqn:El; [done|]. injection E as <-.
    by apply adv_lock_throttle.
  - injection E as <-. by apply adv_time.
  - injection E as <-. by apply adv_decide.
  - injection E as <-. apply adv_private; [done|apply private_now].
Qed.

Lemma advance_inv server s i s' :
  advance server s i = Some s' → ∃ j, advanced server s i j s'.
Proof.
  unfold advance. destruct (lk_threads s !! i) as [[j ph p]|] eqn:Hi; [|done]. intros E. exists j.
  destruct ph; try (destruct p as [|c k]; [done|by eapply advance_call_inv]); injection E as <-.
  - by apply adv_unlock_config.
  - by apply adv_unlock_throttle.
Qed.

(** Replacing the thread [i], with locks that change for [i] only. *)
Lemma lock_inv_update s i old new s' :
  lock_inv s → lk_threads s !! i = Some old → lk_threads s' = <[i := new]> (lk_threads s) →
  phase_fits (th_phase new) (th_rest new) →
  (in_config (th_phase new) = true ↔ lk_config_lock s' = Some i) →
  (in_throttle (th_phase new) = true ↔ lk_throttle_lock s' = Some i) →
  (∀ x, x ≠ i → lk_config_lock s' = Some x ↔ lk_config_lock s = Some x) →
  (∀ x, x ≠ i → lk_throttle_lock s' = Some x ↔ lk_throttle_lock s = Some x) →
  lock_inv s'.
Proof.
  intros Hinv Hi Hth Hfits Hc Ht Hoc Hot.
  assert (Hcases : ∀ x th, lk_threads s' !! x = Some th → x = i ∧ th = new ∨ x ≠ i ∧ lk_threads s !! x = Some th).
  { intros x th. rewrite Hth, list_lookup_insert_Some. naive_solver. }
  assert (Hsome : ∀ x, x = i ∨ is_Some (lk_threads s !! x) → is_Some (lk_threads s' !! x)).
  { intros x Hx. rewrite Hth, lookup_lt_is_Some, length_insert, <-lookup_lt_is_Some. destruct Hx as [->|Hx]; [by eexists|done]. }
  split; intros x.
  - intros th [[-> ->]|[Hx H]]%Hcases; [done|by eapply inv_fits].
  - intros th [[-> ->]|[Hx H]]%Hcases; [done|]. rewrite Hoc by done. by eapply inv_config.
  - intros th [[-> ->]|[Hx H]]%Hcases; [done|]. rewrite Hot by done. by eapply inv_throttle.
  - intros Hl. apply Hsome. destruct (decide (x = i)) as [|Hx]; [by left|right].
    apply (inv_config_holder s Hinv). by apply Hoc.
  - intros Hl. apply Hsome. destruct (decide (x = i)) as [|Hx]; [by left|right].
    apply (inv_throttle_holder s Hinv). by apply Hot.
Qed.

Lemma advanced_inv server s i j s' : lock_inv s → advanced server s i j s' → lock_inv s'.
Proof.
  intros Hinv Hadv.
  assert (Hlocks : ∀ ph p, lk_threads s !! i = Some (MkThread j ph p) →
    (in_config ph = true ↔ lk_config_lock s = Some i) ∧ (in_throttle ph = true ↔ lk_throttle_lock s = Some i)).
  { intros ph p Hi. split; [apply (inv_config s Hinv i _ Hi)|apply (inv_throttle s Hinv i _ Hi)]. }
  destruct Hadv as [c k a Hi|c k Hi Hf El|k Hi|k Hi|got k Hi|p Hi|w h k Hi El|w h k Hi|now w h k Hi|p Hi];
    pose proof (Hlocks _ _ Hi) as [Hc Ht];
    (eapply (lock_inv_update s i); [done|exact Hi|reflexivity|..]);
    simpl in *; try done; try naive_solver congruence.
Qed.

Lemma lock_inv_start s j p :
  lock_inv s →
  lock_inv (MkLockState (lk_threads s ++ [MkThread j Running p]) (lk_config_lock s) (lk_throttle_lock s)
              (lk_memory s) (lk_history s)).
Proof.
  intros Hinv.
  assert (Hlast : ∀ i, lk_config_lock s = Some i ∨ lk_throttle_lock s = Some i → i ≠ length (lk_threads s)).
  { intros i [Hl|Hl] ->; [apply (inv_config_holder s Hinv) in Hl|apply (inv_throttle_holder s Hinv) in Hl];
      apply lookup_lt_is_Some in Hl; lia. }
  assert (Hcases : ∀ i th, (lk_threads s ++ [MkThread j Running p]) !! i = Some th →
    lk_threads s !! i = Some th ∨ i = length (lk_threads s) ∧ th = MkThread j Running p).
  { intros i th [H|[Hle H]]%lookup_app_Some; [by left|right].
    apply list_lookup_singleton_Some in H as [? ->]. split; [lia|done]. }
  split; simpl; intros i.
  - intros th [H|[-> ->]]%Hcases; [by eapply inv_fits|done].
  - intros th [H|[-> ->]]%Hcases; [by eapply inv_config|]. simpl. naive_solver.
  - intros th [H|[-> ->]]%Hcases; [by eapply inv_throttle|]. simpl. naive_solver.
  - intros Hl. destruct (inv_config_holder s Hinv i Hl) as [th Hi]. exists th. by apply lookup_app_l_Some.
  - intros Hl. destruct (inv_throttle_holder s Hinv i Hl) as [th Hi]. exists th. by apply lookup_app_l_Some.
Qed.

(** ** Simulation *)
Lemma refresh_any m m' got : refresh m got = refresh m' got.
Proof. unfold refresh. simpl. destruct got as [cfg|e]; [done|]. by destruct (IsNotFound e). Qed.

Lemma abstract_thread_ext m m' th :
  (in_throttle (th_phase th) = true → mem_throttle m = mem_throttle m') → abstract_thread m th = abstract_thread m' th.
Proof.
  intros Ht. unfold abstract_thread. f_equal. destruct th as [j ph p]; simpl in *.
  destruct ph; simpl in *; try done; (destruct p as [|c k]; [done|]); destruct c; try done.
  - by rewrite (refresh_any m m').
  - by rewrite Ht.
Qed.

(** The memory seen through the snapshot lock and through the throttle lock. *)
Definition seen_config (s : lock_state) : YanetConfigSpec := mem_config (abstract_memory s).
Definition seen_throttle (s : lock_state) : throttle := mem_throttle (abstract_memory s).

Lemma seen_config_free s : lk_config_lock s = None → seen_config s = mem_config (lk_memory s).
Proof. unfold seen_config. simpl. by intros ->. Qed.
Lemma seen_config_held s i th :
  lk_config_lock s = Some i → lk_threads s !! i = Some th → seen_config s = pending_config (lk_memory s) th.
Proof. unfold seen_config. simpl. intros -> Hi. simpl. by rewrite Hi. Qed.
Lemma seen_throttle_free s : lk_throttle_lock s = None → seen_throttle s = mem_throttle (lk_memory s).
Proof. unfold seen_throttle. simpl. by intros ->. Qed.
Lemma seen_throttle_held s i th :
  lk_throttle_lock s = Some i → lk_threads s !! i = Some th → seen_throttle s = pending_throttle (lk_memory s) th.
Proof. unfold seen_throttle. simpl. intros -> Hi. simpl. by rewrite Hi. Qed.

(** A step of another goroutine leaves what the lock protects. *)
Lemma seen_config_other s s' i new :
  lk_config_lock s ≠ Some i → lk_config_lock s' = lk_config_lock s → lk_threads s' = <[i := new]> (lk_threads s) →
  mem_config (lk_memory s') = mem_config (lk_memory s) → seen_config s' = seen_config s.
Proof.
  intros Hl El Et Em. unfold seen_config. simpl. rewrite El, Et.
  destruct (lk_config_lock s) as [x|]; simpl; [|done]. rewrite list_lookup_insert_ne by congruence.
  destruct (lk_threads s !! x) as [[j [] p]|]; simpl; unfold pending_config; simpl; try done.
  by rewrite (refresh_any _ (lk_memory s)).
Qed.

Lemma seen_throttle_other s s' i new :
  lk_throttle_lock s ≠ Some i → lk_throttle_lock s' = lk_throttle_lock s → lk_threads s' = <[i := new]> (lk_threads s) →
  mem_throttle (lk_memory s') = mem_throttle (lk_memory s) → seen_throttle s' = seen_throttle s.
Proof.
  intros Hl El Et Em. unfold seen_throttle. simpl. rewrite El, Et.
  destruct (lk_throttle_lock s) as [x|]; simpl; [|done]. rewrite list_lookup_insert_ne by congruence.
  destruct (lk_threads s !! x) as [[j ph p]|]; simpl; [|done]. unfold pending_throttle. simpl. by rewrite Em.
Qed.

Lemma abstract_update m m' (l : list thread) i new :
  (∀ x th, x ≠ i → l !! x = Some th → in_throttle (th_phase th) = true → mem_throttle m = mem_throttle m') →
  abstract_thread m' <$> <[i := new]> l = <[i := abstract_thread m' new]> (abstract_thread m <$> l).
Proof.
  intros Hl. rewrite list_fmap_insert. apply list_eq. intros x.
  destruct (decide (x = i)) as [->|Hx].
  - destruct (decide (i < length l)%nat) as [Hi|Hi].
    + by rewrite !list_lookup_insert_eq by (by rewrite length_fmap).
    + by rewrite !lookup_ge_None_2 by (rewrite length_insert, length_fmap; lia).
  - rewrite !list_lookup_insert_ne, !list_lookup_fmap by done.
    destruct (l !! x) as [th|] eqn:Ex; simpl; [|done]. f_equal. symmetry. apply abstract_thread_ext. by eapply Hl.
Qed.

Lemma abstraction_eq s (at_ : atomic_state) :
  abstract_thread (lk_memory s) <$> lk_threads s = at_jobs at_ → seen_config s = mem_config (at_memory at_) →
  seen_throttle s = mem_throttle (at_memory at_) → mem_clock (lk_memory s) = mem_clock (at_memory at_) →
  mem_singleton (lk_memory s) = mem_singleton (at_memory at_) → lk_history s = at_history at_ → abstraction s = at_.
Proof.
  destruct at_ as [jobs [cfg thr clock single] h]. simpl. intros <- Hc Ht <- <- <-.
  unfold abstraction. f_equal. rewrite <-Hc, <-Ht. done.
Qed.

(** What one step of a goroutine does to the abstract state. *)
Definition simulates `{MetaLib, ClientUtil, PatchLib, QuantityLib, K8sValidation, MapOrder}
    (s s' : lock_state) (mv : move) : Prop :=
  abstraction s' = abstraction s ∨ atomic_step (abstraction s) mv = Some (abstraction s').

Section simulation.
Context `{MetaLib, ClientUtil, PatchLib, QuantityLib, K8sValidation, MapOrder}.

(** No other goroutine is inside the critical section of the throttle. *)
Lemma throttle_alone s i m' :
  lock_inv s → lk_throttle_lock s = Some i →
  ∀ x th, x ≠ i → lk_threads s !! x = Some th → in_throttle (th_phase th) = true →
    mem_throttle (lk_memory s) = mem_throttle m'.
Proof. intros Hinv Hl x th Hx Hth Hin. apply (inv_throttle s Hinv x th Hth) in Hin. congruence. Qed.

(** A step that changes neither the jobs nor the memory as seen through the
    locks. *)
Lemma stutter s s' i old new :
  lk_threads s !! i = Some old → lk_threads s' = <[i := new]> (lk_threads s) →
  abstract_thread (lk_memory s') new = abstract_thread (lk_memory s) old →
  (∀ x th, x ≠ i → lk_threads s !! x = Some th → in_throttle (th_phase th) = true →
     mem_throttle (lk_memory s) = mem_throttle (lk_memory s')) →
  seen_config s' = seen_config s → seen_throttle s' = seen_throttle s →
  mem_clock (lk_memory s') = mem_clock (lk_memory s) → mem_singleton (lk_memory s') = mem_singleton (lk_memory s) →
  lk_history s' = lk_history s → abstraction s' = abstraction s.
Proof.
  intros Hi Et Ea Hl Hc Hthr Hclk Hs Hh. apply abstraction_eq; try done.
  rewrite Et, (abstract_update (lk_memory s)) by done. rewrite Ea. apply list_insert_id. simpl.
  by rewrite list_lookup_fmap, Hi.
Qed.

(** A step that makes the call of goroutine [i] on the abstract memory. *)
Lemma effect server s s' i j old c k new :
  lk_threads s !! i = Some old → abstract_thread (lk_memory s) old = (j, Call c k) →
  lk_threads s' = <[i := new]> (lk_threads s) →
  lk_memory s' = lk_memory s →
  let after := serve server (abstract_memory s) c in
  abstract_thread (lk_memory s) new = (j, k after.2) →
  seen_config s' = mem_config after.1 → seen_throttle s' = mem_throttle after.1 →
  lk_history s' = lk_history s ++ [MkEntry i (mem_clock (lk_memory s)) (Ev c after.2)] →
  atomic_step (abstraction s) (Advance i server) = Some (abstraction s').
Proof.
  intros Hi Ea Et Em after En Hc Hthr Hh. cbn [atomic_step abstraction at_jobs at_memory at_history].
  rewrite list_lookup_fmap, Hi. cbn [fmap option_fmap option_map]. rewrite Ea.
  fold after. destruct after as [m a] eqn:Eafter. cbn [fst snd] in *. f_equal. symmetry.
  assert (Hm : mem_clock m = mem_clock (lk_memory s) ∧ mem_singleton m = mem_singleton (lk_memory s)).
  { assert (m = after.1) as -> by (by rewrite Eafter). unfold after. by destruct c. }
  destruct Hm as [Hclk Hs]. apply abstraction_eq; simpl; rewrite ?Em; try done.
  rewrite Et, (abstract_update (lk_memory s)) by done. by rewrite En.
Qed.

(** The two locks held by the goroutine that makes the step. *)
Lemma held s i j ph p :
  lock_inv s → lk_threads s !! i = Some (MkThread j ph p) →
  (if in_config ph then lk_config_lock s = Some i else lk_config_lock s ≠ Some i)
  ∧ (if in_throttle ph then lk_throttle_lock s = Some i else lk_throttle_lock s ≠ Some i).
Proof.
  intros Hinv Hi. pose proof (inv_config s Hinv i _ Hi) as Hc. pose proof (inv_throttle s Hinv i _ Hi) as Ht.
  simpl in *. destruct (in_config ph), (in_throttle ph); naive_solver.
Qed.

(** Reading what the lock protects: before and after the step of its holder. *)
Ltac seen s i := first [eapply (seen_config_other s _ i); done|eapply (seen_throttle_other s _ i); done].
Ltac holder lem := erewrite lem; [|simpl; done|simpl; apply list_lookup_insert_eq; by eapply lookup_lt_Some].

Lemma advanced_simulates server s i j s' :
  lock_inv s → advanced server s i j s' → simulates s s' (Advance i server).
Proof.
  intros Hinv Hadv.
  destruct Hadv as [c k a Hi Hp|c k Hi Hf El|k Hi|k Hi|got k Hi|p Hi|w h k Hi El|w h k Hi|now w h k Hi|p Hi];
    destruct (held _ _ _ _ _ Hinv Hi) as [Hc Ht]; cbn [in_config in_throttle] in Hc, Ht.
  - right. eapply (effect server s _ i j); [exact Hi|done|done|done|..];
      rewrite (Hp (abstract_memory s) eq_refl); try done; seen s i.
  - left. eapply (stutter s _ i); try done; [|seen s i].
    holder seen_config_held. by rewrite seen_config_free.
  - right. pose proof (seen_config_held s i _ Hc Hi) as Hseen. unfold seen_config in Hseen.
    eapply (effect server s _ i j); [exact Hi|done|done|done|..]; cbn [serve snd fst].
    + by rewrite Hseen.
    + holder seen_config_held. done.
    + seen s i.
    + by rewrite Hseen.
  - right. eapply (effect server s _ i j); [exact Hi|done|done|done|..]; cbn [serve];
      rewrite (refresh_any (abstract_memory s) (lk_memory s)); cbn [snd fst];
      change (mem_singleton (abstract_memory s)) with (mem_singleton (lk_memory s)); try done.
    + holder seen_config_held. done.
    + seen s i.
  - left. eapply (stutter s _ i); try done; [|seen s i].
    holder seen_config_held. by rewrite (seen_config_held s i _ Hc Hi).
  - left. eapply (stutter s _ i); try done; [|seen s i]. rewrite seen_config_free by done.
    by rewrite (seen_config_held s i _ Hc Hi).
  - left. eapply (stutter s _ i); try done; [seen s i|].
    holder seen_throttle_held. by rewrite seen_throttle_free.
  - right. pose proof (seen_throttle_held s i _ Ht Hi) as Hseen. unfold seen_throttle, pending_throttle in Hseen.
    cbn [th_phase th_rest] in Hseen.
    eapply (effect server s _ i j); [exact Hi|done|done|done|..]; cbn [serve]; unfold throttled; rewrite Hseen;
      change (mem_clock (abstract_memory s)) with (mem_clock (lk_memory s));
      cbn [snd fst]; try done.
    + seen s i.
    + holder seen_throttle_held. done.
  - left. eapply (stutter s _ i); try done; [by eapply throttle_alone|seen s i|].
    holder seen_throttle_held. by rewrite (seen_throttle_held s i _ Ht Hi).
  - left. eapply (stutter s _ i); try done; [seen s i|]. rewrite seen_throttle_free by done.
    by rewrite (seen_throttle_held s i _ Ht Hi).
Qed.

(** The snapshot and the throttle do not depend on the clock, the singleton or
    the goroutines that hold no lock. *)
Lemma seen_same s s' :
  (∀ i th, lk_threads s !! i = Some th → lk_threads s' !! i = Some th) → lock_inv s →
  lk_config_lock s' = lk_config_lock s → lk_throttle_lock s' = lk_throttle_lock s →
  mem_config (lk_memory s') = mem_config (lk_memory s) → mem_throttle (lk_memory s') = mem_throttle (lk_memory s) →
  seen_config s' = seen_config s ∧ seen_throttle s' = seen_throttle s.
Proof.
  intros Hsub Hinv Ec Et Em Emt. split.
  - destruct (lk_config_lock s) as [i|] eqn:El; [|by rewrite !seen_config_free].
    destruct (inv_config_holder s Hinv i El) as [th Hi].
    rewrite (seen_config_held s i th), (seen_config_held s' i th) by eauto.
    destruct th as [? [] ?]; unfold pending_config; simpl; try done. by rewrite (refresh_any _ (lk_memory s)).
  - destruct (lk_throttle_lock s) as [i|] eqn:El; [|by rewrite !seen_throttle_free].
    destruct (inv_throttle_holder s Hinv i El) as [th Hi].
    rewrite (seen_throttle_held s i th), (seen_throttle_held s' i th) by eauto.
    unfold pending_throttle. by rewrite Emt.
Qed.

Lemma lock_step_simulates s mv s' : lock_inv s → lock_step s mv = Some s' → simulates s s' mv.
Proof.
  intros Hinv E. destruct mv as [j|now|got|i server]; cbn [lock_step] in E.
  - right. injection E as <-. cbn [atomic_step]. f_equal. symmetry.
    destruct (seen_same s (MkLockState (lk_threads s ++ [MkThread j Running (job_prog j)]) (lk_config_lock s)
      (lk_throttle_lock s) (lk_memory s) (lk_history s))) as [Hc Ht]; try done.
    { intros. by apply lookup_app_l_Some. }
    apply abstraction_eq; try done. simpl. by rewrite fmap_app.
  - right. case_bool_decide as Hle; [|done]. injection E as <-. cbn [atomic_step].
    change (mem_clock (at_memory (abstraction s))) with (mem_clock (lk_memory s)). by rewrite bool_decide_true by done.
  - right. by injection E as <-.
  - apply advance_inv in E as [j Hadv]. by eapply advanced_simulates.
Qed.

Lemma lock_step_inv s mv s' : lock_inv s → lock_step s mv = Some s' → lock_inv s'.
Proof.
  intros Hinv E. destruct mv as [j|now|got|i server]; cbn [lock_step] in E.
  - injection E as <-. by apply lock_inv_start.
  - case_bool_decide; [|done]. injection E as <-. by destruct Hinv.
  - injection E as <-. by destruct Hinv.
  - apply advance_inv in E as [j Hadv]. by eapply advanced_inv.
Qed.

Lemma lock_reachable_inv s : lock_reachable s → lock_inv s.
Proof. induction 1; [by split|by eapply lock_step_inv]. Qed.

Lemma locks_simulate s : lock_reachable s → atomic_reachable (abstraction s).
Proof.
  induction 1 as [now got|s mv s' Hs IH E]; [apply (atomic_reachable_initial now got)|].
  apply lock_reachable_inv in Hs. destruct (lock_step_simulates s mv s' Hs E) as [->|Ha]; [done|].
  by econstructor.
Qed.

(** ** Every job is a run of its program *)

(** [p] has made the calls [t] and [q] is left. *)
Fixpoint reaches {A} (p : prog A) (t : trace) (q : prog A) : Prop :=
  match t with
  | [] => p = q
  | e :: t => ∃ c k a, p = Call c k ∧ e = Ev c a ∧ reaches (k a) t q
  end.

Lemma reaches_snoc {A} (p : prog A) t c k a : reaches p t (Call c k) → reaches p (t ++ [Ev c a]) (k a).
Proof.
  revert p. induction t as [|e t IH]; intros p; simpl; [intros ->; eauto 6|].
  intros (c' & k' & a' & -> & -> & Hr). eauto 8.
Qed.

Lemma reaches_run {A} (p : prog A) t q t' r : reaches p t q → run q t' r → run p (t ++ t') r.
Proof.
  revert p. induction t as [|e t IH]; intros p; simpl; [by intros ->|].
  intros (c & k & a & -> & -> & Hr) Hq. simpl. eauto.
Qed.

Lemma calls_of_app i h h' : calls_of i (h ++ h') = calls_of i h ++ calls_of i h'.
Proof. unfold calls_of. by rewrite filter_app, fmap_app. Qed.

Lemma calls_of_own i time e : calls_of i [MkEntry i time e] = [e].
Proof. unfold calls_of. by rewrite filter_cons_True. Qed.
Lemma calls_of_other i i' time e : i ≠ i' → calls_of i [MkEntry i' time e] = [].
Proof. intros. unfold calls_of. by rewrite filter_cons_False. Qed.

(** Nothing is logged for a goroutine that has not started. *)
Lemma atomic_jobs_reach s :
  atomic_reachable s →
  (∀ e, e ∈ at_history s → (en_thread e < length (at_jobs s))%nat)
  ∧ ∀ i j p, at_jobs s !! i = Some (j, p) → reaches (job_prog j) (calls_of i (at_history s)) p.
Proof.
  induction 1 as [now got|s mv s' Hs [IHb IH] E]; simpl; [set_solver|].
  destruct mv as [j|now|got|i server]; cbn [atomic_step] in E.
  - injection E as <-. simpl. rewrite length_app. split; [intros e He; simpl; specialize (IHb e He); lia|].
    intros i j' p [Hi|[Hle Hi]]%lookup_app_Some; [by apply IH|].
    apply list_lookup_singleton_Some in Hi as [Hi [= -> ->]].
    assert (Hn : calls_of i (at_history s) = []); [|by rewrite Hn].
    unfold calls_of. rewrite filter_none; [done|]. apply Forall_forall. intros e He Hown. specialize (IHb e He). lia.
  - case_bool_decide; [|done]. by injection E as <-.
  - by injection E as <-.
  - destruct (at_jobs s !! i) as [[j [r|c k]]|] eqn:Hi; [done| |done].
    destruct (serve server (at_memory s) c) as [m a]. injection E as <-. simpl. rewrite length_insert.
    split; [intros e [He|He]%elem_of_app; [by apply IHb|]; apply list_elem_of_singleton in He as ->; by eapply lookup_lt_Some|].
    intros x j' p [(Hx & Ep & _)|[Hx Hl]]%list_lookup_insert_Some; rewrite calls_of_app.
    + subst x. injection Ep as <- <-. rewrite calls_of_own. by apply reaches_snoc, IH.
    + rewrite calls_of_other, app_nil_r by done. by apply IH.
Qed.
End simulation.

(** ** The snapshot *)

(** What a refresh that returns [answer] leaves in the snapshot. *)
Definition published (returned : result (option YanetConfig)) : YanetConfigSpec :=
  match returned with Ok (Some cfg) => yc_Spec cfg | _ => zero_config end.

Definition publish (config : YanetConfigSpec) (e : entry) : YanetConfigSpec :=
  match en_event e with Ev RefreshSnapshot returned => published returned | _ => config end.

(** The configuration of the newest read of the singleton under the lock. *)
Definition newest_read (h : history) : YanetConfigSpec := foldl publish zero_config h.

Lemma refresh_published m got : (refresh m got).1 = published (refresh m got).2.
Proof. unfold refresh. simpl. destruct got as [cfg|e]; [done|]. by destruct (IsNotFound e). Qed.

Lemma newest_read_app h h' : newest_read (h ++ h') = foldl publish (newest_read h) h'.
Proof. apply foldl_app. Qed.

(** Every read of the snapshot answers the newest read of the singleton. *)
Definition reads_newest (h : history) : Prop :=
  ∀ h1 e h2 global, h = h1 ++ e :: h2 → en_event e = Ev ReadGlobal global → global = Some (newest_read h1).

Lemma reads_newest_snoc h e :
  reads_newest h → (∀ global, en_event e = Ev ReadGlobal global → global = Some (newest_read h)) →
  reads_newest (h ++ [e]).
Proof.
  intros Hh He h1 x h2 global E Ex. destruct h2 as [|y h2 _] using rev_ind.
  - apply app_inj_tail in E as [-> ->]. by apply He.
  - rewrite app_comm_cons, app_assoc in E. apply app_inj_tail in E as [-> ->]. by eapply Hh.
Qed.

(** ** The guard before a write, for a job still under way *)
Definition unavailable : answers := λ c,
  match c return answer c with
  | ReadGlobal => None
  | Throttle _ _ | Now => 0
  | EmitEvent _ | Observe _ => tt
  | _ => Err (Errorf "unavailable" [])
  end.

Section jobs.
Context `{MetaLib, ClientUtil, PatchLib, QuantityLib, K8sValidation, MapOrder}.

Lemma newest_snapshot s :
  atomic_reachable s → mem_config (at_memory s) = newest_read (at_history s) ∧ reads_newest (at_history s).
Proof.
  induction 1 as [now got|s mv s' Hs [IH IHr] E]; [by split; [done|intros []]|].
  destruct mv as [j|now|got|i server]; cbn [atomic_step] in E.
  - by injection E as <-.
  - case_bool_decide; [|done]. by injection E as <-.
  - by injection E as <-.
  - destruct (at_jobs s !! i) as [[j [r|c k]]|] eqn:Hi; [done| |done].
    destruct (serve server (at_memory s) c) as [m a] eqn:Es. injection E as <-. cbn [at_memory at_history].
    rewrite newest_read_app, <-IH. split.
    + destruct c; injection Es as <- <-; try done. apply refresh_published.
    + apply reads_newest_snoc; [done|]. intros global. cbn [en_event]. rewrite <-IH.
      destruct c; intros Eg; try discriminate Eg. injection Es as _ <-.
      by apply (f_equal (λ ev, match ev with Ev ReadGlobal g => g | _ => global end)) in Eg.
Qed.

Lemma reaches_guarded {A} (p : prog A) t q t1 e t2 :
  guarded p → reaches p t q → t = t1 ++ e :: t2 → is_write (ev_call e) = true → ready t1.
Proof.
  intros Hp Hr -> Hw. destruct (run_exists q unavailable) as (t' & r & Hq).
  destruct (wp_sound _ _ _ _ _ (Hp []) (reaches_run _ _ _ _ _ Hr Hq)) as [Hg _].
  apply (Hg t1 e (t2 ++ t')); [by rewrite <-app_assoc|done].
Qed.

(** In the history of the process, the previous call of the goroutine that
    writes is an unstopped read. *)
Lemma writes_guarded s h1 w h2 :
  atomic_reachable s → at_history s = h1 ++ w :: h2 → is_write (ev_call (en_event w)) = true →
  ready (calls_of (en_thread w) h1).
Proof.
  intros Hs Eh Hw. destruct (atomic_jobs_reach s Hs) as [Hb Hreach].
  assert (Hi : (en_thread w < length (at_jobs s))%nat) by (apply Hb; rewrite Eh; set_solver).
  apply lookup_lt_is_Some in Hi as [[j p] Hi]. specialize (Hreach _ _ _ Hi).
  eapply reaches_guarded; [apply job_guarded|exact Hreach| |exact Hw].
  rewrite Eh, calls_of_app. unfold calls_of at 2. by rewrite filter_cons_True.
Qed.

(** The last call of a goroutine, located in the history. *)
Lemma last_call i h before e :
  calls_of i h = before ++ [e] →
  ∃ h1 r h2, h = h1 ++ r :: h2 ∧ en_event r = e ∧ en_thread r = i ∧ Forall (λ x, en_thread x ≠ i) h2.
Proof.
  unfold calls_of. intros E. assert (El : last (filter (λ e, en_thread e = i) h) = None ∨
    ∃ r, last (filter (λ e, en_thread e = i) h) = Some r) by (destruct (last _); eauto).
  destruct El as [El|[r El]].
  { apply last_None in El. rewrite El in E. by destruct before. }
  assert (Er : en_event r = e).
  { pose proof (f_equal last E) as EL. rewrite fmap_last, El, last_snoc in EL. by injection EL. }
  assert (Hi : en_thread r = i).
  { apply last_Some_elem_of in El. by apply list_elem_of_filter in El as [? _]. }
  apply last_filter_Some in El as (h1 & h2 & -> & Hf). by exists h1, r, h2.
Qed.

Lemma stays_stopped config h :
  yc_Stop config = true → Forall (λ e, yc_Stop (publish config e) = true) h → yc_Stop (foldl publish config h) = true.
Proof.
  revert config. induction h as [|e h IH]; intros config Hc; simpl; [done|]. intros [He Hh]%Forall_cons.
  apply IH; [done|]. eapply Forall_impl; [exact Hh|]. intros x. unfold publish at 1 2.
  destruct (en_event x) as [c a]. by destruct c.
Qed.

(** Refreshes that all read a stop keep it published. *)
Lemma publishes_stop config h :
  yc_Stop config = true →
  (∀ e returned, e ∈ h → en_event e = Ev RefreshSnapshot returned →
     ∃ later, returned = Ok (Some later) ∧ yc_Stop (yc_Spec later) = true) →
  Forall (λ e, yc_Stop (publish config e) = true) h.
Proof.
  intros Hc Hh. apply Forall_forall. intros e He. unfold publish. destruct (en_event e) as [c a] eqn:Ee.
  destruct c; try done. by destruct (Hh e a He Ee) as (later & -> & ?).
Qed.

(** Without a refresh the snapshot stays. *)
Lemma unpublished config h :
  Forall (λ e, ev_call (en_event e) ≠ RefreshSnapshot) h → foldl publish config h = config.
Proof.
  induction h as [|e h IH] using rev_ind; [done|]. rewrite Forall_app, Forall_singleton, foldl_app. intros [Hh He].
  simpl. rewrite IH by done. unfold publish. destruct (en_event e) as [c a]. by destruct c.
Qed.
End jobs.

Lemma finished_run `{MetaLib, ClientUtil, PatchLib, QuantityLib, K8sValidation, MapOrder} s i j r :
  lock_reachable s → lk_threads s !! i = Some (MkThread j Running (Ret r)) →
  run (job_prog j) (calls_of i (lk_history s)) r.
Proof.
  intros Hs Hi. destruct (atomic_jobs_reach _ (locks_simulate s Hs)) as [_ Hreach].
  rewrite <-(app_nil_r (calls_of _ _)). apply (reaches_run _ _ (Ret r)); [|done]. apply (Hreach i j).
  simpl. by rewrite list_lookup_fmap, Hi.
Qed.

(** ** Properties *)

(** C7: the mutexes make the shared state atomic, and concurrency adds no behaviour to
    a job.  Whatever the goroutines interleave between [Lock], the read, the write and
    [Unlock] of the two critical sections, the state is an abstraction of one that an
    execution with one indivisible step per call reaches with the same history; and
    the calls of a goroutine that has finished are exactly a sequential run of its
    program, against an API server with some answers. *)
Theorem locks_refine_atomic_calls `{MetaLib, ClientUtil, PatchLib, QuantityLib, K8sValidation, MapOrder}
    (s : lock_state) :
  lock_reachable s →
  atomic_reachable (abstraction s) ∧ at_history (abstraction s) = lk_history s
  ∧ ∀ i j r, lk_threads s !! i = Some (MkThread j Running (Ret r)) → run (job_prog j) (calls_of i (lk_history s)) r.
Proof.
  intros Hs. split; [by apply locks_simulate|]. split; [done|]. intros i j r. by apply finished_run.
Qed.

(** C3: a stop that stays published silences the whole process.  Once a refresh has read a
    configuration that says stop, and as long as every later refresh reads one that says
    stop again, each goroutine makes at most one more call that changes the cluster, and
    only as its very next call: the request it was about to send, having found the
    snapshot unstopped before the stop was read.  No interleaving of goroutines escapes.
    A later refresh that reads another configuration, finds none or fails is excluded: it
    replaces the snapshot and so lifts the stop, see [failed_refresh_lifts_stop]. *)
Theorem stop_quiesces `{MetaLib, ClientUtil, PatchLib, QuantityLib, K8sValidation, MapOrder}
    (s : lock_state) (before after : history) (i : nat) (time : Z) (cfg : YanetConfig) (between rest : history) (w : entry) :
  lock_reachable s →
  lk_history s = before ++ MkEntry i time (Ev RefreshSnapshot (Ok (Some cfg))) :: after →
  yc_Stop (yc_Spec cfg) = true →
  (∀ e returned, e ∈ after → en_event e = Ev RefreshSnapshot returned →
     ∃ later, returned = Ok (Some later) ∧ yc_Stop (yc_Spec later) = true) →
  after = between ++ w :: rest → is_write (ev_call (en_event w)) = true →
  Forall (λ e, en_thread e ≠ en_thread w) between
  ∧ ∃ earlier global, calls_of (en_thread w) before = earlier ++ [Ev ReadGlobal global] ∧ stopped global = false.
Proof.
  intros Hs Eh Hstop Hlater -> Hw. pose proof (locks_simulate s Hs) as Ha.
  pose proof (publishes_stop (yc_Spec cfg) _ Hstop Hlater) as Hafter.
  destruct (newest_snapshot _ Ha) as [_ Hreads]. set (x := MkEntry i time _) in Eh. apply Forall_app in Hafter as [Hbetween _].
  destruct (writes_guarded _ (before ++ x :: between) w rest Ha) as (calls & global & Ecalls & Hg); [|done|].
  { change (at_history (abstraction s)) with (lk_history s). by rewrite Eh, <-app_assoc. }
  apply last_call in Ecalls as (h1 & r & h2 & E & Er & Hr & Hother).
  apply app_eq_app in E as (mid & [[-> E]|[-> E]]); destruct mid as [|y mid]; simpl in E; injection E as Ex E.
  - by rewrite Ex in Er.
  - subst y h2. apply Forall_app in Hother as [Hmid Hbet]. apply Forall_cons in Hbet as [_ Hbet]. split; [done|].
    exists (calls_of (en_thread w) h1), global. split; [|done]. rewrite calls_of_app. f_equal.
    unfold calls_of. rewrite filter_cons_True, (filter_none _ mid) by done. simpl. by rewrite Er.
  - by rewrite <-Ex in Er.
  - subst y between. exfalso. assert (Eg : global = Some (newest_read (before ++ x :: mid))).
    { apply (Hreads (before ++ x :: mid) r (h2 ++ w :: rest) global); [|done].
      change (at_history (abstraction s)) with (lk_history s). rewrite Eh. by simplify_list_eq. }
    subst global. simpl in Hg. rewrite newest_read_app in Hg. simpl in Hg.
    apply Forall_app in Hbetween as [Hmid _]. by rewrite stays_stopped in Hg.
Qed.

(** A refresh that fails, or finds no configuration, lifts a stop.  From then on and until
    the next refresh every read of the snapshot, by any goroutine, answers the empty
    configuration, so that every stop check passes, although the persisted configuration may
    still say stop: a goroutine that was past its first check goes on writing. *)
Theorem failed_refresh_lifts_stop `{MetaLib, ClientUtil, PatchLib, QuantityLib, K8sValidation, MapOrder}
    (s : lock_state) (before between rest : history) (x r : entry) (returned : result (option YanetConfig))
    (global : option YanetConfigSpec) :
  lock_reachable s → lk_history s = before ++ x :: between ++ r :: rest →
  en_event x = Ev RefreshSnapshot returned → (∀ cfg, returned ≠ Ok (Some cfg)) →
  Forall (λ e, ev_call (en_event e) ≠ RefreshSnapshot) between →
  en_event r = Ev ReadGlobal global →
  global = Some zero_config ∧ stopped global = false.
Proof.
  intros Hs Eh Ex Hfail Hbetween Er. destruct (newest_snapshot _ (locks_simulate s Hs)) as [_ Hreads].
  assert (global = Some zero_config) as ->; [|done].
  rewrite (Hreads (before ++ x :: between) r rest global); [|by rewrite <-app_assoc|done]. f_equal.
  rewrite newest_read_app. simpl. rewrite unpublished by done. unfold publish. rewrite Ex.
  destruct returned as [[cfg|]|e]; [by destruct (Hfail cfg)|done..].
Qed.

(** C14: an older read never overwrites a newer configuration.  Outside its critical
    sections the snapshot is what the newest read of the YanetConfig singleton under
    the lock found (empty if that read failed or found none), and every read of the
    snapshot by any goroutine answered what the newest such read before it had found. *)
Theorem snapshot_is_newest_read `{MetaLib, ClientUtil, PatchLib, QuantityLib, K8sValidation, MapOrder} (s : lock_state) :
  lock_reachable s →
  (lk_config_lock s = None → mem_config (lk_memory s) = newest_read (lk_history s)) ∧ reads_newest (lk_history s).
Proof.
  intros Hs. destruct (newest_snapshot _ (locks_simulate s Hs)) as [Hsnap Hreads]. split; [|done].
  intros Hfree. etransitivity; [symmetry; exact (seen_config_free s Hfree)|exact Hsnap].
Qed.

(** ** A schedule

    A reconcile that is about to add a finalizer while a watch event publishes the
    stop: its request goes out after the stop, and nothing follows. *)
Module Schedule.
Import Concrete.

Definition api : answers := λ c, (Fake.serve Fake.arrival c).2.
Definition frozen_object : YanetConfig := MkYanetConfig (yc_Meta Fake.config_object) Fake.stop_config.
Definition go (i n : nat) : list move := replicate n (Advance i api).

(** Start, both reads of the snapshot by the reconcile, the refresh by the
    mapper, and then the rest of the reconcile. *)
Definition moves : list move :=
  [Start (YanetJob "yanet" "worker-2"); Start MapConfigJob] ++ go 0 2 ++ go 0 3 ++ go 0 1 ++ go 0 3
  ++ [Tick (seconds 5); Store (Ok frozen_object)] ++ go 1 4 ++ go 0 1 ++ go 0 3 ++ go 0 3 ++ go 1 1.

Definition first : lock_state := lock_initial 0 (Ok Fake.config_object).
Definition final : lock_state := default first (run_schedule first moves).
Definition stop_read : entry := MkEntry 1 (seconds 5) (Ev RefreshSnapshot (Ok (Some frozen_object))).
Definition write : entry := default stop_read (lk_history final !! 6%nat).

Lemma reached : lock_reachable final.
Proof.
  unfold final. destruct (run_schedule first moves) as [s|] eqn:E; [|apply lock_reachable_initial].
  eapply run_schedule_reachable; [apply lock_reachable_initial|exact E].
Qed.

Lemma reconcile_done :
  lk_threads final !! 0%nat = Some (MkThread (YanetJob "yanet" "worker-2") Running (Ret (Reconciled (0, None)))).
Proof. vm_compute. reflexivity. Qed.
Lemma history_split : lk_history final = take 5 (lk_history final) ++ stop_read :: drop 6 (lk_history final).
Proof. symmetry. apply take_drop_middle. vm_compute. reflexivity. Qed.
Lemma in_flight : drop 6 (lk_history final) = [] ++ write :: drop 7 (lk_history final).
Proof. apply drop_S. vm_compute. reflexivity. Qed.

(** The same, with a second refresh that fails before the reconcile checks for a stop. *)
Definition lifting_moves : list move :=
  [Start (YanetJob "yanet" "worker-2"); Start MapConfigJob; Start MapConfigJob] ++ go 0 2 ++ go 0 3 ++ go 0 1
  ++ [Tick (seconds 5); Store (Ok frozen_object)] ++ go 1 4
  ++ [Store (Err (APIError ReasonOther "timeout"))] ++ go 2 4 ++ go 0 3 ++ go 0 1.
Definition lifted : lock_state := default first (run_schedule first lifting_moves).
Definition failed_read : entry := default stop_read (lk_history lifted !! 5%nat).
Definition passed_check : entry := default stop_read (lk_history lifted !! 6%nat).
Definition late_write : entry := default stop_read (lk_history lifted !! 7%nat).

Lemma lifted_reached : lock_reachable lifted.
Proof.
  unfold lifted. destruct (run_schedule first lifting_moves) as [s|] eqn:E; [|apply lock_reachable_initial].
  eapply run_schedule_reachable; [apply lock_reachable_initial|exact E].
Qed.

Lemma lifted_split :
  lk_history lifted = take 5 (lk_history lifted) ++ failed_read :: [] ++ passed_check :: drop 7 (lk_history lifted).
Proof. vm_compute. reflexivity. Qed.
End Schedule.

Import Concrete.

Lemma locks_refine_atomic_calls_witness :
  run (job_prog (YanetJob "yanet" "worker-2")) (calls_of 0 (lk_history Schedule.final)) (Reconciled (0, None)).
Proof.
  destruct (locks_refine_atomic_calls Schedule.final Schedule.reached) as (_ & _ & Hrun).
  apply Hrun. exact Schedule.reconcile_done.
Defined.

Lemma stop_quiesces_witness :
  is_write (ev_call (en_event Schedule.write)) = true
  ∧ ∃ earlier global, calls_of (en_thread Schedule.write) (take 5 (lk_history Schedule.final))
      = earlier ++ [Ev ReadGlobal global] ∧ stopped global = false.
Proof.
  assert (Hw : is_write (ev_call (en_event Schedule.write)) = true) by (vm_compute; reflexivity).
  split; [exact Hw|].
  eapply (stop_quiesces Schedule.final _ _ 1 (seconds 5) Schedule.frozen_object [] (drop 7 (lk_history Schedule.final))
            Schedule.write Schedule.reached Schedule.history_split).
  - reflexivity.
  - intros e returned He Ee.
    assert (Hb : forallb (λ e, match en_event e with
        | Ev RefreshSnapshot (Ok (Some later)) => yc_Stop (yc_Spec later)
        | Ev RefreshSnapshot _ => false | _ => true end) (drop 6 (lk_history Schedule.final)) = true)
      by (vm_compute; reflexivity).
    rewrite List.forallb_forall in Hb. specialize (Hb e (proj1 (list_elem_of_In _ _) He)). rewrite Ee in Hb.
    destruct returned as [[later|]|]; [exists later; split; [reflexivity|exact Hb]|discriminate Hb|discriminate Hb].
  - exact Schedule.in_flight.
  - exact Hw.
Defined.

(** A stop is read, a refresh fails, and the next stop check lets a write through. *)
Lemma failed_refresh_lifts_stop_witness :
  existsb (λ e, match en_event e with Ev RefreshSnapshot (Ok (Some cfg)) => yc_Stop (yc_Spec cfg) | _ => false end)
    (take 5 (lk_history Schedule.lifted)) = true
  ∧ (∃ global, en_event Schedule.passed_check = Ev ReadGlobal global ∧ stopped global = false)
  ∧ is_write (ev_call (en_event Schedule.late_write)) = true
  ∧ en_thread Schedule.late_write = en_thread Schedule.passed_check.
Proof.
  split; [vm_compute; reflexivity|]. split; [|split; vm_compute; reflexivity].
  exists (Some zero_config). assert (Er : en_event Schedule.passed_check = Ev ReadGlobal (Some zero_config)) by (vm_compute; reflexivity).
  split; [exact Er|].
  apply (failed_refresh_lifts_stop Schedule.lifted (take 5 (lk_history Schedule.lifted)) [] (drop 7 (lk_history Schedule.lifted))
    Schedule.failed_read Schedule.passed_check (Err (APIError ReasonOther "timeout")) (Some zero_config)).
  - exact Schedule.lifted_reached.
  - exact Schedule.lifted_split.
  - vm_compute. reflexivity.
  - intros cfg Hc. discriminate Hc.
  - constructor.
  - exact Er.
Defined.

Lemma snapshot_is_newest_read_witness :
  mem_config (lk_memory Schedule.final) = newest_read (lk_history Schedule.final)
  ∧ yc_Stop (newest_read (lk_history Schedule.final)) = true.
Proof.
  split; [|vm_compute; reflexivity].
  apply (snapshot_is_newest_read Schedule.final Schedule.reached). vm_compute. reflexivity.
Defined.
