(* ===== verification/SafetySpec.v ===== *)
(** * Safety of the Yanet controller

    What the controller may write, delete and give up: report-only mode, ownership
    of what it overwrites and deletes, configuration still in use, the finalizer,
    and the preflight gate.  The environment answers anything. *)

From S2P Require Import Prelude GoLib K8s Api Resolve Labels Builder Service Render Webhook.
From S2P Require Import Metrics Program Managed YanetController Reconciler Reconcile Instances.
#[local] Open Scope Z_scope.

(** ** Reading the history *)

(** The answer to the last successful read of each kind. *)
Definition last_live (h : trace) : option Deployment :=
  foldl (λ acc e, match e with Ev (GetDeployment _ _) (Ok d) => Some d | _ => acc end) None h.
Definition last_dry_run (h : trace) : option Deployment :=
  foldl (λ acc e, match e with Ev (UpdateDeployment true _) (Ok d) => Some d | _ => acc end) None h.
Definition last_deployments (h : trace) : option (list Deployment) :=
  foldl (λ acc e, match e with Ev (ListDeployments _) (Ok l) => Some l | _ => acc end) None h.
Definition last_pods (h : trace) : option (list Pod) :=
  foldl (λ acc e, match e with Ev (ListPods _ _) (Ok l) => Some l | _ => acc end) None h.

(** Writes to workloads and their configuration; status, finalizers, events and
    dry runs are not among them. *)
Definition workload_write (c : call) : bool :=
  match c with
  | CreateDeployment _ | UpdateDeployment false _ | DeleteDeployment _
  | CreateConfigMap _ | UpdateConfigMap _ | DeleteConfigMap _
  | CreateService _ | UpdateService _ | DeleteService _ => true
  | _ => false
  end.

(** The writes that bring up or change a workload of the installation. *)
Definition renders (c : call) : bool :=
  match c with
  | CreateDeployment _ | UpdateDeployment true _ | CreateConfigMap _ | UpdateConfigMap _ => true
  | _ => false
  end.

Create HintDb safety discriminated.
#[export] Hint Resolve respects_Ret : safety.

(** Walking a program under a call condition [Φ] whose instances [solve_call]
    discharges. *)
Ltac safety_step solve_call :=
  match goal with
  | |- respects _ _ => intros ?h
  | |- wp _ checkGlobalStop _ _ => unfold checkGlobalStop
  | |- wp _ (record_event _) _ _ => unfold record_event
  | |- wp _ _ _ _ => apply wp_respects; [solve [eauto with safety]|]
  | |- _ ∧ _ => split
  | |- _ => solve_call
  end.
Ltac safe solve_call := wp_walk ltac:(idtac; safety_step solve_call).

Section safety.
Context `{MetaLib, ClientUtil, PatchLib, QuantityLib, K8sValidation, MapOrder}.

(** ** Report-only mode *)
Section report_only.
Definition no_workload (_ : trace) (c : call) : Prop := workload_write c = false.
Ltac go := safe ltac:(first [reflexivity | done]).

Lemma foldPE_respects {S A} Φ (f : S → A → prog (S * option goerror)) s l :
  (∀ s x, x ∈ l → respects Φ (f s x)) → respects Φ (foldPE f s l).
Proof.
  intros Hf. revert s. induction l as [|x l IH]; intros s h; simpl; [by apply wp_Ret|].
  apply wp_bind, wp_respects; [apply Hf; set_solver|]. intros [s' [e|]] h'; [by apply wp_Ret|].
  apply IH. intros. apply Hf. set_solver.
Qed.

Lemma updateStatus_observes y mutate :
  (∀ f, respects no_workload (mutate f)) → respects no_workload (updateStatus y mutate).
Proof. intros Hm. unfold updateStatus, update_status_attempt. go. Qed.

Lemma degrade_observes reason message f : respects no_workload (degrade reason message f).
Proof. unfold degrade. go. Qed.
#[local] Hint Resolve updateStatus_observes degrade_observes : safety.

Lemma prune_deployment_observes y desired st d :
  respects no_workload (prune_deployment_step y desired false st d).
Proof. unfold prune_deployment_step. cbn [negb]. go. Qed.

Lemma prune_config_map_observes y desired referenced pending st c :
  respects no_workload (prune_config_map_step y desired false referenced pending st c).
Proof. unfold prune_config_map_step. cbn [negb]. go. Qed.
#[local] Hint Resolve prune_deployment_observes prune_config_map_observes foldPE_respects : safety.

Lemma pruneOrphans_observes y desired : respects no_workload (pruneOrphans y desired false).
Proof. unfold pruneOrphans, prune_config_maps. go. Qed.

Lemma applyInlineConfigMaps_observes y ctx rc : respects no_workload (applyInlineConfigMaps y ctx rc false).
Proof. unfold applyInlineConfigMaps, inline_config_step. cbn [negb]. go. Qed.

Lemma desiredDeploymentUpdate_observes e d : respects no_workload (desiredDeploymentUpdate e d).
Proof. unfold desiredDeploymentUpdate. go. Qed.
#[local] Hint Resolve desiredDeploymentUpdate_observes : safety.

Lemma applyDeployment_observes d window node : respects no_workload (applyDeployment d false window node).
Proof. unfold applyDeployment, apply_attempt. cbn [negb]. go. Qed.
#[local] Hint Resolve pruneOrphans_observes applyInlineConfigMaps_observes applyDeployment_observes : safety.

Lemma preflightResources_observes cfg y nodes enabled on policy owner registry :
  respects no_workload (preflightResources cfg y nodes enabled on policy owner registry).
Proof. unfold preflightResources, validateOperatorPlacementTransition, listPlacementProducers. go. Qed.

Lemma validateExclusiveNodes_observes y nodes : respects no_workload (validateExclusiveNodes y nodes).
Proof. unfold validateExclusiveNodes. go. Qed.
#[local] Hint Resolve preflightResources_observes validateExclusiveNodes_observes : safety.

Lemma run_pass_observes env nodes enabled plans :
  re_autoSync env = false → respects no_workload (run_pass env nodes enabled plans).
Proof.
  intros Ha. unfold run_pass, reconcile_node, reconcile_ref, reconcile_deployment, collectPods, finish_pass, fail_pass.
  rewrite Ha. go.
Qed.
#[local] Hint Resolve run_pass_observes : safety.

Lemma reconcile_nodes_observes cfg y enabled :
  BoolValue (ys_AutoSync (y_Spec y)) false = false → respects no_workload (reconcile_nodes cfg y enabled).
Proof.
  intros Ha. assert (He : re_autoSync (make_env cfg y) = false) by exact Ha.
  unfold reconcile_nodes. cbv zeta. rewrite He. go.
Qed.
#[local] Hint Resolve reconcile_nodes_observes : safety.

Lemma reconcileYanet_observes y :
  om_DeletionTimestamp (y_Meta y) = None → BoolValue (ys_AutoSync (y_Spec y)) false = false →
  respects no_workload (reconcileYanet y).
Proof.
  intros Hd Ha. unfold reconcileYanet, reconcile_body, snapshotYanetConfig, reconcile_loaded.
  rewrite Hd, bool_decide_false by (by intros [? ?]).
  unfold add_finalizer, reconcile_config, bail_out. go.
Qed.
End report_only.

(** ** Ownership of deletions *)
Section deletions.
Definition same_identity (a b : Yanet) : Prop :=
  y_Namespace a = y_Namespace b ∧ y_Name a = y_Name b ∧ om_UID (y_Meta a) = om_UID (y_Meta b).

Definition owned_delete (y : Yanet) (_ : trace) (c : call) : Prop :=
  match c with
  | DeleteDeployment d => controlledByYanet (d_Meta d) y = true ∧ om_DeletionTimestamp (d_Meta d) = None
  | DeleteConfigMap cm => controlledByYanet (cm_Meta cm) y = true ∧ om_DeletionTimestamp (cm_Meta cm) = None
  | DeleteService _ => False
  | _ => True
  end.

Lemma controlledByYanet_same m a b : same_identity a b → controlledByYanet m a = controlledByYanet m b.
Proof. intros (E1 & E2 & E3). unfold controlledByYanet. by rewrite E1, E2, E3. Qed.

Lemma sync_local_same a b : same_identity (sync_local a b) a.
Proof. by destruct a. Qed.

Ltac go := safe ltac:(first [exact I | done]).

Lemma updateStatus_identity y mutate h :
  (∀ f, respects (owned_delete y) (mutate f)) →
  wp (owned_delete y) (updateStatus y mutate) h (λ r _, same_identity r.1 y).
Proof.
  intros Hm. unfold updateStatus.
  apply (wp_retry _ (λ local _, same_identity local y)); [done|]. intros local h' Hl.
  assert (Hsync : ∀ f, same_identity (sync_local local f) y).
  { intros f. unfold same_identity in *.
    destruct (sync_local_same local f) as (E1 & E2 & E3), Hl as (F1 & F2 & F3). split_and!; congruence. }
  unfold update_status_attempt. go; repeat split; auto; try apply Hsync; try apply Hl.
Qed.

Lemma updateStatus_owned y mutate :
  (∀ f, respects (owned_delete y) (mutate f)) → respects (owned_delete y) (updateStatus y mutate).
Proof. intros Hm h. eapply wp_mono; [by apply updateStatus_identity|done]. Qed.

Lemma degrade_owned y reason message f : respects (owned_delete y) (degrade reason message f).
Proof. unfold degrade. go. Qed.
#[local] Hint Resolve updateStatus_owned degrade_owned : safety.

Lemma is_Some_false {A} (o : option A) : bool_decide (is_Some o) = false → o = None.
Proof. intros Hb%bool_decide_eq_false_1. destruct o; [|done]. by destruct Hb. Qed.

Lemma prune_conflicting_owned y y' names st d :
  same_identity y' y → respects (owned_delete y) (prune_conflicting_step y' names st d).
Proof.
  intros Hs. unfold prune_conflicting_step. rewrite (controlledByYanet_same _ _ _ Hs).
  destruct (_ || _) eqn:E; [go|]. apply orb_false_iff in E as [E1%negb_false_iff E2%is_Some_false]. go.
Qed.

Lemma prune_deployment_owned y desired autoSync st d :
  respects (owned_delete y) (prune_deployment_step y desired autoSync st d).
Proof.
  unfold prune_deployment_step. destruct (negb (controlledByYanet _ _)) eqn:E1; [go|].
  apply negb_false_iff in E1. destruct (bool_decide (is_Some _)) eqn:E2; [go|]. apply is_Some_false in E2. go.
Qed.

Lemma prune_config_map_owned y desired autoSync referenced pending st c :
  respects (owned_delete y) (prune_config_map_step y desired autoSync referenced pending st c).
Proof.
  unfold prune_config_map_step. destruct (negb (controlledByYanet _ _)) eqn:E1; [go|].
  apply negb_false_iff in E1. destruct (bool_decide (is_Some _)) eqn:E2; [go|]. apply is_Some_false in E2. go.
Qed.
#[local] Hint Resolve prune_conflicting_owned prune_deployment_owned prune_config_map_owned foldPE_respects : safety.

Lemma pruneOrphans_owned y desired autoSync : respects (owned_delete y) (pruneOrphans y desired autoSync).
Proof. unfold pruneOrphans, prune_config_maps. go. Qed.
#[local] Hint Resolve pruneOrphans_owned : safety.

Lemma pruneConflicting_owned y y' names :
  same_identity y' y → respects (owned_delete y) (pruneConflictingDeployments y' names).
Proof. intros Hs. unfold pruneConflictingDeployments. go. Qed.

Lemma wp_conflict_cleanup {A} y mutate h (k : Yanet → result unit → prog A) :
  (∀ f, respects (owned_delete y) (mutate f)) →
  (∀ y' r, same_identity y' y → respects (owned_delete y) (k y' r)) →
  wp (owned_delete y) ('(y', r) ← updateStatus y mutate; k y' r) h (λ _ _, True).
Proof.
  intros Hm Hk. apply wp_bind. eapply wp_mono; [by apply updateStatus_identity|].
  intros [y' r] h' Hs. by apply Hk.
Qed.

Lemma handleYanetDeletion_owned y : respects (owned_delete y) (handleYanetDeletion y).
Proof. unfold handleYanetDeletion. go. Qed.

Lemma validateExclusiveNodes_owned y nodes : respects (owned_delete y) (validateExclusiveNodes y nodes).
Proof. unfold validateExclusiveNodes. go. Qed.

Lemma preflightResources_owned y cfg y' nodes enabled on policy owner registry :
  respects (owned_delete y) (preflightResources cfg y' nodes enabled on policy owner registry).
Proof. unfold preflightResources, validateOperatorPlacementTransition, listPlacementProducers. go. Qed.

Lemma applyInlineConfigMaps_owned y y' ctx rc autoSync : respects (owned_delete y) (applyInlineConfigMaps y' ctx rc autoSync).
Proof.
  unfold applyInlineConfigMaps, inline_config_step. go.
  apply wp_CreateOrUpdate; [done| |go]. intros. unfold mutate_config_map. go.
Qed.

Lemma applyDeployment_owned y d autoSync window node : respects (owned_delete y) (applyDeployment d autoSync window node).
Proof. unfold applyDeployment, apply_attempt, desiredDeploymentUpdate. go. Qed.
#[local] Hint Resolve handleYanetDeletion_owned validateExclusiveNodes_owned preflightResources_owned
  applyInlineConfigMaps_owned applyDeployment_owned pruneConflicting_owned : safety.

Lemma fail_pass_owned y y' e : respects (owned_delete y) (fail_pass y' e).
Proof. unfold fail_pass, updateStatus, update_status_attempt. go. Qed.
#[local] Hint Resolve fail_pass_owned : safety.

Lemma run_pass_owned cfg y nodes enabled plans : respects (owned_delete y) (run_pass (make_env cfg y) nodes enabled plans).
Proof.
  unfold run_pass, reconcile_node, reconcile_ref, reconcile_deployment, collectPods, finish_pass,
    updateStatus, update_status_attempt. cbn [re_yanet make_env]. go.
Qed.
#[local] Hint Resolve run_pass_owned : safety.

Lemma reconcile_nodes_owned cfg y enabled : respects (owned_delete y) (reconcile_nodes cfg y enabled).
Proof.
  unfold reconcile_nodes. intros h.
  repeat first [ apply wp_conflict_cleanup; [eauto with safety|intros; go] | wp_step
               | safety_step ltac:(first [exact I | done]) ].
Qed.
#[local] Hint Resolve reconcile_nodes_owned : safety.

Lemma reconcileYanet_owned y : respects (owned_delete y) (reconcileYanet y).
Proof.
  unfold reconcileYanet, reconcile_body, snapshotYanetConfig, reconcile_loaded, add_finalizer,
    reconcile_config, bail_out. go.
Qed.
End deletions.

(** ** What an update overwrites *)
Section overwrites.
Variables (desired : Deployment).

(** A dry run sends the candidate built from the last live read, which passed
    the ownership check; the real update sends what the dry run returned, and
    only when it differs from that live object. *)
Definition owned_update (h : trace) (c : call) : Prop :=
  match c with
  | UpdateDeployment dry d =>
      ∃ live, last_live h = Some live ∧ validateDeploymentOwnership live desired = Ok tt
        ∧ if dry : bool then d = update_candidate live desired
          else last_dry_run h = Some d ∧ deploymentUpdateChanged live d = true
  | DeleteDeployment _ => False
  | _ => True
  end.

Lemma last_live_snoc h c a :
  last_live (h ++ [Ev c a]) = match Ev c a with Ev (GetDeployment _ _) (Ok d) => Some d | _ => last_live h end.
Proof. unfold last_live. by rewrite foldl_app. Qed.
Lemma last_dry_run_snoc h c a :
  last_dry_run (h ++ [Ev c a]) = match Ev c a with Ev (UpdateDeployment true _) (Ok d) => Some d | _ => last_dry_run h end.
Proof. unfold last_dry_run. by rewrite foldl_app. Qed.

Lemma desiredDeploymentUpdate_owned live h (Q : result (Deployment * bool) → trace → Prop) :
  last_live h = Some live → validateDeploymentOwnership live desired = Ok tt →
  (∀ e h', Q (Err e) h') → (∀ c h', Q (Ok (c, false)) h') →
  (∀ c h', last_live h' = Some live → last_dry_run h' = Some c → deploymentUpdateChanged live c = true →
     Q (Ok (c, true)) h') →
  wp owned_update (desiredDeploymentUpdate live desired) h Q.
Proof.
  intros Hl Ho Herr Hsame Hch. unfold desiredDeploymentUpdate.
  destruct (negb _) eqn:E; [by apply wp_Ret|].
  apply wp_try. unfold checkGlobalStop. apply (wp_bind_invoke _ ReadGlobal); [done|]. intros g.
  apply wp_Ret. destruct (stopped g); [done|].
  set (candidate := update_candidate live desired).
  apply (wp_bind_invoke _ (UpdateDeployment true candidate)).
  { exists live. by rewrite last_live_snoc. }
  intros [c|e]; [|by apply wp_Ret]. apply wp_Ret.
  destruct (deploymentUpdateChanged live c) eqn:Ec; [|done].
  apply Hch; [by rewrite !last_live_snoc|by rewrite last_dry_run_snoc|done].
Qed.

Lemma apply_attempt_owned autoSync window node st h :
  wp owned_update (apply_attempt desired autoSync window node st) h (λ _ _, True).
Proof.
  unfold apply_attempt. apply (wp_bind_invoke _ (GetDeployment _ _)); [done|].
  intros [live|e]; [|by apply wp_Ret].
  destruct (validateDeploymentOwnership live desired) as [[]|e] eqn:Ho; [|by apply wp_Ret].
  apply wp_bind. eapply desiredDeploymentUpdate_owned; try done.
  - by rewrite last_live_snoc.
  - intros. by apply wp_Ret.
  - intros. by apply wp_Ret.
  - intros c h' Hl Hd Hc. cbn [negb].
    destruct (negb autoSync); [by apply wp_Ret|].
    apply (wp_bind_invoke _ (Throttle _ _)); [done|]. intros requeue.
    destruct (bool_decide _); [wp_return|].
    unfold checkGlobalStop. apply wp_bind, (wp_bind_invoke _ ReadGlobal); [done|]. intros g. apply wp_Ret.
    destruct (stopped g); [by apply wp_Ret|].
    apply (wp_bind_invoke _ (UpdateDeployment false c)).
    { exists live. by rewrite !last_live_snoc, !last_dry_run_snoc. }
    intros [?|?]; by apply wp_Ret.
Qed.

Lemma applyDeployment_overwrites autoSync window node :
  respects owned_update (applyDeployment desired autoSync window node).
Proof.
  intros h. unfold applyDeployment. apply (wp_bind_invoke _ (GetDeployment _ _)); [done|].
  intros [live|e].
  - destruct (validateDeploymentOwnership live desired); [|by apply wp_Ret].
    apply wp_bind, (wp_retry _ (λ _ _, True)); [done|]. intros st h' _.
    eapply wp_mono; [apply apply_attempt_owned|]. intros [[[] ? ?] [u|e]] h'' _; split; try done; wp_return.
  - safe ltac:(first [exact I | done]).
Qed.
End overwrites.

(** ** Configuration still in use *)
Section config_in_use.
Variables (y : Yanet) (desired : desiredSet).

Lemma last_deployments_snoc h c a :
  last_deployments (h ++ [Ev c a]) =
    match Ev c a with Ev (ListDeployments _) (Ok l) => Some l | _ => last_deployments h end.
Proof. unfold last_deployments. by rewrite foldl_app. Qed.
Lemma last_pods_snoc h c a :
  last_pods (h ++ [Ev c a]) = match Ev c a with Ev (ListPods _ _) (Ok l) => Some l | _ => last_pods h end.
Proof. unfold last_pods. by rewrite foldl_app. Qed.

Definition pod_refs (pod : PodSpec) : gset string := collectPodConfigMapRefs pod ∅.

(** A ConfigMap is deleted only when it is not desired, no listed Pod and no
    template of an owned Deployment refers to it, and no owned Deployment is in
    the middle of a rollout, all by the last listings. *)
Definition unused_delete (h : trace) (c : call) : Prop :=
  match c with
  | DeleteConfigMap cm =>
      let name := om_Name (cm_Meta cm) in
      name ∉ ds_ConfigMaps desired
      ∧ (∃ pods, last_pods h = Some pods ∧ ∀ p, p ∈ pods → name ∉ pod_refs (p_Spec p))
      ∧ (∃ deps, last_deployments h = Some deps ∧
           ∀ d, d ∈ deps → controlledByYanet (d_Meta d) y = true →
             name ∉ pod_refs (d_Pod d) ∧ rollout_pending d = false)
  | _ => True
  end.

Lemma collect_refs_union {A} (spec : A → PodSpec) (l : list A) (r : gset string) name :
  name ∈ foldl (λ r x, collectPodConfigMapRefs (spec x) r) r l ↔
  name ∈ r ∨ ∃ x, x ∈ l ∧ name ∈ pod_refs (spec x).
Proof.
  revert r. induction l as [|x l IH]; intros r; simpl; [set_solver|].
  rewrite IH. unfold pod_refs, collectPodConfigMapRefs. set_solver.
Qed.

Definition listed (deps : list Deployment) (h : trace) : Prop := last_deployments h = Some deps.

Lemma wp_foldPE {S A} Φ (I : S → trace → Prop) (f : S → A → prog (S * option goerror)) s l h
    (Q : S * option goerror → trace → Prop) :
  I s h → (∀ s x h, x ∈ l → I s h → wp Φ (f s x) h (λ r h', I r.1 h')) →
  (∀ r h', I r.1 h' → Q r h') → wp Φ (foldPE f s l) h Q.
Proof.
  intros H0' Hs HQ. revert s h H0'. induction l as [|x l IH]; intros s h HI; simpl; [apply wp_Ret; auto|].
  apply wp_bind. eapply wp_mono; [apply Hs; [set_solver|done]|].
  intros [s' [e|]] h' HI'; [apply wp_Ret; auto|]. apply IH; [|done]. intros; apply Hs; set_solver.
Qed.

Lemma prune_config_map_unused autoSync referenced pending deps pods st c h :
  last_deployments h = Some deps → last_pods h = Some pods →
  (∀ n, n ∉ referenced → (∀ p, p ∈ pods → n ∉ pod_refs (p_Spec p)) ∧
     ∀ d, d ∈ deps → controlledByYanet (d_Meta d) y = true → n ∉ pod_refs (d_Pod d)) →
  (pending = false → ∀ d, d ∈ deps → controlledByYanet (d_Meta d) y = true → rollout_pending d = false) →
  wp unused_delete (prune_config_map_step y desired autoSync referenced pending st c) h
    (λ _ h', last_deployments h' = Some deps ∧ last_pods h' = Some pods).
Proof.
  intros Hd Hp Hr Hpend. unfold prune_config_map_step.
  destruct (negb (controlledByYanet _ _)); [by apply wp_Ret|].
  destruct (bool_decide (_ ∈ ds_ConfigMaps desired)) eqn:E1; [by apply wp_Ret|].
  destruct (bool_decide (_ ∈ referenced)) eqn:E2; [by apply wp_Ret|].
  destruct pending; [by apply wp_Ret|]. destruct (negb autoSync); [by apply wp_Ret|].
  destruct (bool_decide (is_Some _)); [by apply wp_Ret|].
  apply bool_decide_eq_false_1 in E1, E2.
  unfold checkGlobalStop. apply wp_bind, (wp_bind_invoke _ ReadGlobal); [done|]. intros g. apply wp_Ret.
  destruct (stopped g); [apply wp_Ret; by rewrite last_deployments_snoc, last_pods_snoc|].
  apply (wp_bind_invoke _ (DeleteConfigMap c)).
  - rewrite <-(last_deployments_snoc h ReadGlobal g) in Hd. rewrite <-(last_pods_snoc h ReadGlobal g) in Hp.
    destruct (Hr _ E2) as [Hr1 Hr2]. simpl. split; [done|]. split; [by exists pods|]. exists deps. auto.
  - intros a. apply wp_Ret. by rewrite !last_deployments_snoc, !last_pods_snoc.
Qed.

Lemma prune_config_maps_unused autoSync deps st h :
  last_deployments h = Some deps →
  wp unused_delete (prune_config_maps y desired autoSync deps st) h (λ _ _, True).
Proof.
  intros Hd. unfold prune_config_maps. cbv zeta.
  apply (wp_bind_invoke _ (ListConfigMaps _ _)); [done|]. intros [cms|e]; [|by apply wp_Ret].
  set (owned := filter (λ d, controlledByYanet (d_Meta d) y = true) deps).
  destruct cms as [|cm cms]; [by apply wp_Ret|].
  apply (wp_bind_invoke _ (ListPods _ _)); [done|]. intros [pods|e]; [|by apply wp_Ret].
  apply wp_bind.
  apply (wp_foldPE _ (λ _ h', last_deployments h' = Some deps ∧ last_pods h' = Some pods)).
  - by rewrite !last_deployments_snoc, last_pods_snoc.
  - intros st' c h' _ [Hd' Hp']. eapply wp_mono; [eapply prune_config_map_unused; try done|auto].
    + intros n Hn. rewrite !collect_refs_union in Hn. split; [intros p Hp; naive_solver|].
      intros d Hin Hc Href. apply Hn. left. right. exists d. split; [|done].
      by apply list_elem_of_filter.
    + intros Hpend d Hin Hc. destruct (rollout_pending d) eqn:E; [|done].
      exfalso. assert (existsb rollout_pending owned = true) as Ht; [|congruence].
      apply existsb_exists. exists d. split; [|done]. apply list_elem_of_In, list_elem_of_filter. done.
  - intros [? ?] h' _. by apply wp_Ret.
Qed.

Lemma prune_deployment_unused autoSync deps st d h :
  last_deployments h = Some deps →
  wp unused_delete (prune_deployment_step y desired autoSync st d) h (λ _ h', last_deployments h' = Some deps).
Proof.
  intros Hd. unfold prune_deployment_step.
  repeat match goal with |- wp _ (if ?b then _ else _) _ _ => destruct b; [by apply wp_Ret|] end.
  unfold checkGlobalStop. apply wp_bind, (wp_bind_invoke _ ReadGlobal); [done|]. intros g. apply wp_Ret.
  destruct (stopped g); [apply wp_Ret; by rewrite last_deployments_snoc|].
  apply (wp_bind_invoke _ (DeleteDeployment d)); [done|]. intros a. apply wp_Ret. by rewrite !last_deployments_snoc.
Qed.

Lemma pruneOrphans_unused autoSync h :
  wp unused_delete (pruneOrphans y desired autoSync) h (λ _ _, True).
Proof.
  unfold pruneOrphans. apply (wp_bind_invoke _ (ListDeployments _)); [done|].
  intros [deps|e]; [|by apply wp_Ret]. apply wp_bind.
  apply (wp_foldPE _ (λ _ h', last_deployments h' = Some deps)).
  - by rewrite last_deployments_snoc.
  - intros. by eapply prune_deployment_unused.
  - intros [st [e|]] h' Hd; [by apply wp_Ret|]. simpl in *.
    destruct (pv_deletionRequested st); [|by apply prune_config_maps_unused].
    apply (wp_bind_invoke _ (ListDeployments _)); [done|]. intros [deps'|e]; [|by apply wp_Ret].
    apply prune_config_maps_unused. by rewrite last_deployments_snoc.
Qed.
End config_in_use.

(** ** The finalizer *)
Definition drained (y : Yanet) (h : trace) (c : call) : Prop :=
  match c with
  | UpdateYanet y' =>
      y' = set_y_Meta (set_om_Finalizers (RemoveFinalizer (om_Finalizers (y_Meta y)) yanetFinalizer) (y_Meta y)) y
      ∧ ∃ before deps global,
          h = before ++ [Ev (ListDeployments (Some (y_Namespace y))) (Ok deps); Ev ReadGlobal global]
          ∧ stopped global = false ∧ Forall (λ d, controlledByYanet (d_Meta d) y = false) deps
  | _ => True
  end.

Lemma prune_deployment_drained y y' desired autoSync st d :
  respects (drained y) (prune_deployment_step y' desired autoSync st d).
Proof. unfold prune_deployment_step. safe ltac:(done). Qed.

Lemma prune_config_map_drained y y' desired autoSync referenced pending st c :
  respects (drained y) (prune_config_map_step y' desired autoSync referenced pending st c).
Proof. unfold prune_config_map_step. safe ltac:(done). Qed.
#[local] Hint Resolve prune_deployment_drained prune_config_map_drained foldPE_respects : safety.

Lemma pruneOrphans_drained y y' desired autoSync : respects (drained y) (pruneOrphans y' desired autoSync).
Proof. unfold pruneOrphans, prune_config_maps. safe ltac:(done). Qed.

Lemma handleYanetDeletion_drained y : respects (drained y) (handleYanetDeletion y).
Proof.
  intros h. unfold handleYanetDeletion. destruct (negb _); [by apply wp_Ret|].
  unfold record_event, checkGlobalStop.
  apply wp_bind, wp_bind, wp_bind, (wp_invoke _ ReadGlobal); [done|]. intros g. apply wp_Ret.
  eapply (wp_mono _ _ _ (λ _ _, True)).
  { destruct (stopped g); [by apply wp_Ret|]. by apply (wp_invoke _ (EmitEvent _)). }
  intros _ h1 _. apply wp_bind, wp_respects; [apply pruneOrphans_drained|]. intros [res [e|]] h2; [by apply wp_Ret|].
  apply (wp_bind_invoke _ (ListDeployments _)); [done|]. intros [deps|e]; [|by apply wp_Ret].
  destruct (existsb _ deps) eqn:E; [by apply wp_Ret|].
  apply wp_bind, (wp_bind_invoke _ ReadGlobal); [done|]. intros g'. apply wp_Ret.
  destruct (stopped g') eqn:Es; [by apply wp_Ret|].
  match goal with |- wp _ (mbind _ (invoke ?c)) _ _ => apply (wp_bind_invoke _ c) end.
  - split; [done|]. exists h2, deps, g'. rewrite <-app_assoc. split_and!; [done..|].
    apply Forall_forall. intros d Hd. apply not_true_iff_false. intros Hc.
    assert (existsb (λ d, controlledByYanet (d_Meta d) y) deps = true); [|congruence].
    apply existsb_exists. exists d. by rewrite <-list_elem_of_In.
  - intros [?|e]; [by apply wp_Ret|]. destruct (IsNotFound e); by apply wp_Ret.
Qed.

(** ** The preflight gate *)
Section preflight_errors.
Variables (cfg : YanetConfigSpec) (y : Yanet) (on : bool) (registry : gmap string NamedPatch).

(** One enabled component on one node: the palette does not have it, or it resolves, every
    Deployment of it renders, none is a dataplane with several replicas, and an enabled
    controlplane has at least one. *)
Definition renders_cleanly (ctx : BuildContext) (ref : ComponentRef) : Prop :=
  ResolveBoxComponent (Some cfg) (Some (y_Spec y)) (ref_Kind ref) (ref_OperatorName ref) = Ok None
  ∨ ∃ rc deployments,
      ResolveBoxComponent (Some cfg) (Some (y_Spec y)) (ref_Kind ref) (ref_OperatorName ref) = Ok (Some rc)
      ∧ RenderDeployments ctx (set_rc_Enabled (rc_Enabled rc && on) rc) registry = Ok deployments
      ∧ (ref_Kind ref = KindControlplane → rc_Enabled rc && on = true → deployments ≠ [])
      ∧ ∀ d n, d ∈ deployments → rc_Kind rc = KindDataplane →
          ds_Replicas (d_Spec (normalizeDeploymentReplicas d (rc_Enabled rc && on) on)) = Some n → n ≤ 1.

(** Errors are only ever appended. *)
Definition keeps (st st' : preflight) : Prop := pf_errs st `prefix_of` pf_errs st'.
#[local] Instance keeps_preorder : PreOrder keeps.
Proof. unfold keeps. split; [by intros ?|intros ? ? ? ??; by etrans]. Qed.

Lemma keeps_foldl {A} (f : preflight → A → preflight) st l : (∀ st x, keeps st (f st x)) → keeps st (foldl f st l).
Proof. intros Hf. revert st. induction l as [|x l IH]; intros st; simpl; [done|]. etrans; [apply Hf|apply IH]. Qed.

Lemma keeps_none st st' : keeps st st' → pf_errs st' = [] → pf_errs st = [].
Proof. intros Hk E. unfold keeps in Hk. rewrite E in Hk. by apply prefix_nil_inv in Hk. Qed.

Lemma add_err_keeps st e : keeps st (add_err st e).
Proof. by apply prefix_app_r. Qed.
Lemma add_err_some st e : pf_errs (add_err st e) ≠ [].
Proof. simpl. by intros [_ ?]%app_nil. Qed.
#[local] Hint Resolve add_err_keeps : core.

Lemma addServicePlans_keeps box ctx c location st : keeps st (addServicePlans cfg box ctx c location st).
Proof.
  unfold addServicePlans. destruct (ResolveBoxServiceComponent _ _ _ _) as [declared|e]; [|done].
  apply keeps_foldl. intros st' plan. unfold add_plan. repeat case_match; unfold keeps; simpl; first [done|by apply prefix_app_r].
Qed.

Lemma check_dataplane_keeps rc st d : keeps st (check_dataplane_replicas rc st d).
Proof. unfold check_dataplane_replicas. by repeat case_match. Qed.

Lemma check_dataplane_clean rc st ds :
  pf_errs (foldl (check_dataplane_replicas rc) st ds) = [] →
  ∀ d n, d ∈ ds → rc_Kind rc = KindDataplane → ds_Replicas (d_Spec d) = Some n → n ≤ 1.
Proof.
  revert st. induction ds as [|d' ds IH]; intros st E d n Hd Hk Hn; [by apply elem_of_nil in Hd|]. simpl in E.
  apply elem_of_cons in Hd as [->|Hd]; [|by eapply IH].
  apply keeps_none with (st := check_dataplane_replicas rc st d') in E; [|apply keeps_foldl, check_dataplane_keeps].
  unfold check_dataplane_replicas in E. rewrite Hn, bool_decide_true in E by done. simpl in E.
  case_bool_decide; [by apply add_err_some in E|lia].
Qed.

Lemma preflight_ref_keeps node ctx acc ref : keeps acc.1 (preflight_ref cfg y on registry node ctx acc ref).1.
Proof.
  destruct acc as [st ws]. unfold preflight_ref. repeat (case_match; simpl; try done).
  eapply (transitivity (R := keeps)); [eapply keeps_foldl, check_dataplane_keeps|apply addServicePlans_keeps].
Qed.

Lemma preflight_ref_clean node ctx acc ref :
  pf_errs (preflight_ref cfg y on registry node ctx acc ref).1 = [] → renders_cleanly ctx ref.
Proof.
  destruct acc as [st ws]. unfold preflight_ref, renders_cleanly.
  destruct (ResolveBoxComponent _ _ _ _) as [[rc|]|e]; [|by left|by intros ?%add_err_some].
  cbv zeta. destruct (RenderDeployments _ _ _) as [ds|e] eqn:Er; [|by intros ?%add_err_some].
  destruct (bool_decide _ && _ && _ && _) eqn:Eb; [by intros ?%add_err_some|]. cbn [fst]. intros E. right.
  exists rc, ds. split_and!; [done..| |].
  - intros Hk Hon ->. simpl in Eb. rewrite bool_decide_true, Hon in Eb by done.
    apply andb_true_iff in Hon as [_ ->]. done.
  - intros d n Hd Hk Hn. eapply keeps_none in E; [|apply addServicePlans_keeps].
    eapply (check_dataplane_clean _ _ _ E); [by apply list_elem_of_fmap_2|done|exact Hn].
Qed.

Lemma preflight_refs_clean node ctx acc refs :
  pf_errs (foldl (preflight_ref cfg y on registry node ctx) acc refs).1 = [] → Forall (renders_cleanly ctx) refs.
Proof.
  induction refs as [|ref refs IH] using rev_ind; [by constructor|]. rewrite foldl_app. simpl. intros E.
  apply Forall_app. split; [|constructor; [by eapply preflight_ref_clean|constructor]].
  apply IH. eapply keeps_none; [apply preflight_ref_keeps|exact E].
Qed.

Variables (enabled : list ComponentRef) (policy : string) (owner : OwnerReference).

(** A node: its build context exists, and every enabled component renders in it. *)
Definition node_renders (node : Node) : Prop :=
  ∃ ctx, WithRuntimeNetwork (node_context cfg y policy owner node) cfg (y_Spec y) = Ok ctx
    ∧ Forall (renders_cleanly ctx) enabled.

Lemma preflight_nodes_clean acc acc' nodes :
  foldM (preflight_node cfg y enabled on policy owner registry) acc nodes = Ok acc' → keeps acc.1 acc'.1 ∧
  (pf_errs acc'.1 = [] → Forall node_renders nodes).
Proof.
  revert acc. induction nodes as [|node nodes IH]; intros acc E; simpl in E; [inv_ok; split; [done|by constructor]|].
  apply bind_Ok in E as (mid & Em & E). destruct acc as [st ws]. unfold preflight_node in Em.
  apply bind_Ok in Em as (ctx & Ec & Em). destruct (foldl _ _ enabled) as [st1 ws1] eqn:Ef.
  injection Em as <-. destruct (IH _ E) as [Hk Hn]. cbn [fst] in *. split.
  - etrans; [|exact Hk]. assert (Hfold : ∀ refs acc, keeps acc.1 (foldl (preflight_ref cfg y on registry node ctx) acc refs).1).
    { clear. induction refs as [|ref refs IH]; intros acc; simpl; [done|]. etrans; [apply preflight_ref_keeps|apply IH]. }
    specialize (Hfold enabled (st, [])). by rewrite Ef in Hfold.
  - intros En. constructor; [|by apply Hn]. exists ctx. split; [done|].
    eapply (preflight_refs_clean node ctx (st, [])). rewrite Ef. by eapply keeps_none.
Qed.

Lemma preflight_render_clean nodes plans :
  preflight_render cfg y nodes enabled on policy owner registry = Ok plans → Forall node_renders nodes.
Proof.
  unfold preflight_render. intros ([st ws] & Ef & E)%bind_Ok. destruct (preflight_nodes_clean _ _ _ Ef) as [_ Hn].
  apply Hn. cbn [fst]. destruct nodes as [|node nodes]; [by injection Ef as <- _|]. by destruct (pf_errs st).
Qed.
End preflight_errors.

(** The nodes the reconcile listed, with every enabled component rendered on each. *)
Definition preflight_passed (cfg : YanetConfigSpec) (y : Yanet) (enabled : list ComponentRef) (h : trace) : Prop :=
  let env := make_env cfg y in
  ∃ nodes,
    Ev (ListNodes (ys_NodeSelector (y_Spec y))) (Ok nodes) ∈ h ∧
    Forall (node_renders cfg y (re_installationEnabled env) (re_registry env) enabled (re_pullPolicy env) (re_owner env)) nodes.

Definition gated (cfg : YanetConfigSpec) (y : Yanet) (enabled : list ComponentRef) (h : trace) (c : call) : Prop :=
  renders c = true → preflight_passed cfg y enabled h.

Lemma preflight_passed_mono cfg y enabled h t : preflight_passed cfg y enabled h → preflight_passed cfg y enabled (h ++ t).
Proof. intros (nodes & Hn & Hp). exists nodes. split; [set_solver|done]. Qed.

Lemma gated_any {A} cfg y enabled (p : prog A) h :
  preflight_passed cfg y enabled h → wp (gated cfg y enabled) p h (λ _ _, True).
Proof. intros Hp. apply wp_any. intros t c _. by apply preflight_passed_mono. Qed.

Ltac go_gate := safe ltac:(intros ?; done).

Lemma updateStatus_gated cfg y enabled y' mutate :
  (∀ f, respects (gated cfg y enabled) (mutate f)) → respects (gated cfg y enabled) (updateStatus y' mutate).
Proof. intros Hm. unfold updateStatus, update_status_attempt. go_gate. Qed.

Lemma degrade_gated cfg y enabled reason message f : respects (gated cfg y enabled) (degrade reason message f).
Proof. unfold degrade. go_gate. Qed.

Lemma validateExclusiveNodes_gated cfg y enabled y' nodes : respects (gated cfg y enabled) (validateExclusiveNodes y' nodes).
Proof. unfold validateExclusiveNodes. go_gate. Qed.

Lemma pruneConflicting_gated cfg y enabled y' names : respects (gated cfg y enabled) (pruneConflictingDeployments y' names).
Proof. unfold pruneConflictingDeployments, prune_conflicting_step. go_gate. Qed.

Lemma placement_gated cfg y enabled y' nodes workloads :
  respects (gated cfg y enabled) (validateOperatorPlacementTransition y' nodes workloads).
Proof. unfold validateOperatorPlacementTransition, listPlacementProducers. go_gate. Qed.
#[local] Hint Resolve updateStatus_gated degrade_gated validateExclusiveNodes_gated pruneConflicting_gated
  placement_gated : safety.

(** A program keeps what has already happened in the history. *)
Lemma wp_history {A} Φ (p : prog A) e h :
  e ∈ h → respects Φ p → wp Φ p h (λ _ h', e ∈ h').
Proof. intros He Hp t r Hr. destruct (Hp h t r Hr) as [Hok _]. split; [done|]. set_solver. Qed.

Lemma reconcile_nodes_gated cfg y enabled : respects (gated cfg y enabled) (reconcile_nodes cfg y enabled).
Proof.
  intros h. unfold reconcile_nodes. cbv zeta.
  apply (wp_bind_invoke _ (ListNodes _)); [done|]. intros [nodes|e]; [|by apply wp_Ret].
  set (e := Ev (ListNodes (ys_NodeSelector (y_Spec y))) (Ok nodes)).
  apply wp_bind. eapply wp_mono.
  { apply (wp_history _ _ e); [set_solver|]. apply validateExclusiveNodes_gated. }
  intros [|err|messages cleanup] h1 He; [|go_gate|go_gate].
  unfold preflightResources.
  match goal with |- context [preflight_render ?a ?b ?c ?d ?e ?f ?g ?h] =>
    destruct (preflight_render a b c d e f g h) as [[plans workloads]|err] eqn:Ep end; [|go_gate].
  assert (Hp : preflight_passed cfg y enabled h1) by (exists nodes; split; [done|by eapply preflight_render_clean]).
  by apply gated_any.
Qed.

(** The configuration the reconcile works with: the snapshot, or the persisted
    object when the snapshot is empty. *)
Definition config_seen (cfg : YanetConfigSpec) (h : trace) : Prop :=
  Ev ReadGlobal (Some cfg) ∈ h ∨ ∃ object, Ev GetConfig (Ok object) ∈ h ∧ yc_Spec object = cfg.

Definition admitted (y : Yanet) (h : trace) (c : call) : Prop :=
  renders c = true → ∃ cfg box enabled,
    config_seen cfg h ∧ yc_Stop cfg = false
    ∧ FindBoxType (Some cfg) (ys_BoxType (y_Spec y)) = Ok box
    ∧ ValidateEffectiveYanetComponentOverrides (ys_Components (y_Spec y)) (Some (yc_Components cfg)) (Some box) = Ok tt
    ∧ EnabledComponentsForBox cfg (ys_BoxType (y_Spec y)) = Ok enabled
    ∧ preflight_passed cfg y enabled h.

Lemma record_event_admitted y reason : respects (admitted y) (record_event reason).
Proof. go_gate. Qed.

Lemma bail_out_admitted y reason message : respects (admitted y) (bail_out y reason message).
Proof. unfold bail_out, updateStatus, update_status_attempt, degrade. go_gate. Qed.

Lemma pruneOrphans_admitted y y' desired autoSync : respects (admitted y) (pruneOrphans y' desired autoSync).
Proof.
  assert (Hd : ∀ st d, respects (admitted y) (prune_deployment_step y' desired autoSync st d))
    by (intros; unfold prune_deployment_step; go_gate).
  assert (Hc : ∀ referenced pending st c,
    respects (admitted y) (prune_config_map_step y' desired autoSync referenced pending st c))
    by (intros; unfold prune_config_map_step; go_gate).
  assert (Hl : ∀ referenced pending st l,
    respects (admitted y) (foldPE (prune_config_map_step y' desired autoSync referenced pending) st l))
    by (intros; apply foldPE_respects; auto).
  assert (Hl' : ∀ st l, respects (admitted y) (foldPE (prune_deployment_step y' desired autoSync) st l))
    by (intros; apply foldPE_respects; auto).
  unfold pruneOrphans, prune_config_maps. go_gate.
Qed.

Lemma handleYanetDeletion_admitted y y' : respects (admitted y) (handleYanetDeletion y').
Proof.
  pose proof (pruneOrphans_admitted y y' newDesiredSet true). unfold handleYanetDeletion. go_gate.
Qed.

Lemma reconcile_config_admitted cfg y h :
  config_seen cfg h → yc_Stop cfg = false →
  wp (admitted y) (reconcile_config cfg y) h (λ _ _, True).
Proof.
  intros Hseen Hstop. unfold reconcile_config.
  destruct (FindBoxType _ _) as [box|e] eqn:E1; [|apply bail_out_admitted].
  destruct (ValidateEffectiveYanetComponentOverrides _ _ _) as [[]|e] eqn:E2; [|apply bail_out_admitted].
  destruct (EnabledComponentsForBox _ _) as [enabled|e] eqn:E3; [|apply bail_out_admitted].
  eapply wp_weaken; [apply reconcile_nodes_gated|]. intros t c Hg Hc.
  exists cfg, box, enabled. split_and!; try done; [|by apply Hg].
  destruct Hseen as [?|(o & ? & ?)]; [left|right; exists o]; set_solver.
Qed.

Lemma reconcile_loaded_admitted config y h :
  (∀ cfg, config = Some cfg → config_seen cfg h) →
  wp (admitted y) (reconcile_loaded config y) h (λ _ _, True).
Proof.
  intros Hseen. unfold reconcile_loaded, add_finalizer. destruct (stopped config) eqn:Es; [by apply wp_Ret|].
  destruct (bool_decide _); [apply handleYanetDeletion_admitted|].
  destruct (negb _); [go_gate|].
  destruct config as [cfg|]; [|apply bail_out_admitted].
  by apply reconcile_config_admitted; [apply Hseen|].
Qed.

Lemma reconcileYanet_admitted y : respects (admitted y) (reconcileYanet y).
Proof.
  intros h. unfold reconcileYanet. apply wp_bind.
  eapply (wp_mono _ _ _ (λ _ _, True)); [|intros [requeue err] h' _; go_gate].
  unfold reconcile_body, snapshotYanetConfig.
  apply wp_bind, (wp_bind_invoke _ ReadGlobal); [done|]. intros g. apply wp_Ret.
  assert (Hget : ∀ h', wp (admitted y)
    (persisted ← invoke GetConfig;
     match persisted with
     | Ok config => reconcile_loaded (Some (yc_Spec config)) y
     | Err e => if IsNotFound e then reconcile_loaded None y
                else Ret (0, Some (Errorf "read YanetConfig before reconcile: %w" [AErr e]))
     end) h' (λ _ _, True)).
  { intros h'. apply (wp_bind_invoke _ GetConfig); [done|]. intros [config|e].
    - apply reconcile_loaded_admitted. intros cfg [= <-]. right. exists config. set_solver.
    - destruct (IsNotFound e); [by apply reconcile_loaded_admitted|by apply wp_Ret]. }
  destruct g as [cfg|]; [|apply Hget]. destruct (_ && _); [apply Hget|].
  apply reconcile_loaded_admitted. intros cfg' [= <-]. left. set_solver.
Qed.
End safety.

(** ** Properties *)
Section properties.
Context `{MetaLib, ClientUtil, PatchLib, QuantityLib, K8sValidation, MapOrder}.

(** C25: with autoSync off, a reconcile of an installation that is not being
    deleted never creates, updates or deletes a Deployment, ConfigMap or Service:
    it only reports (status, events, finalizer, dry runs), whatever the server
    answers. *)
Theorem report_only_never_writes yanet t r :
  run (reconcileYanet yanet) t r →
  om_DeletionTimestamp (y_Meta yanet) = None → BoolValue (ys_AutoSync (y_Spec yanet)) false = false →
  Forall (λ e, workload_write (ev_call e) = false) t.
Proof.
  intros Hr Hd Ha. apply Forall_forall. intros e (t1 & t2 & ->)%list_elem_of_split.
  destruct (wp_sound _ _ _ _ _ (reconcileYanet_observes yanet Hd Ha []) Hr) as [Hg _]. by apply (Hg t1 e t2).
Qed.

(** C2: every Deployment or ConfigMap a reconcile deletes, through orphan pruning,
    conflict cleanup or finalization, is controlled by exactly this installation
    and not already being deleted in the object the server returned; Services are
    never deleted by this controller. *)
Theorem deletes_only_owned yanet t r e :
  run (reconcileYanet yanet) t r → e ∈ t →
  match ev_call e with
  | DeleteDeployment d => controlledByYanet (d_Meta d) yanet = true ∧ om_DeletionTimestamp (d_Meta d) = None
  | DeleteConfigMap cm => controlledByYanet (cm_Meta cm) yanet = true ∧ om_DeletionTimestamp (cm_Meta cm) = None
  | DeleteService _ => False
  | _ => True
  end.
Proof.
  intros Hr (t1 & t2 & ->)%list_elem_of_split.
  destruct (wp_sound _ _ _ _ _ (reconcileYanet_owned yanet []) Hr) as [Hg _]. by apply (Hg t1 e t2).
Qed.

(** C26: [applyDeployment] overwrites only an object it owns: a dry run sends the
    candidate built from the last live read, that read passed the ownership check
    against the desired object, and the real update sends exactly what the dry run
    returned, which differs from the live object. *)
Theorem updates_only_owned desired autoSync updateWindow nodeName t r t1 dry d answer t2 :
  run (applyDeployment desired autoSync updateWindow nodeName) t r →
  t = t1 ++ Ev (UpdateDeployment dry d) answer :: t2 →
  ∃ live, last_live t1 = Some live ∧ validateDeploymentOwnership live desired = Ok tt
    ∧ if dry : bool then d = update_candidate live desired
      else last_dry_run t1 = Some d ∧ deploymentUpdateChanged live d = true.
Proof.
  intros Hr ->.
  destruct (wp_sound _ _ _ _ _ (applyDeployment_overwrites desired autoSync updateWindow nodeName []) Hr) as [Hg _].
  exact (Hg t1 _ t2 eq_refl).
Qed.

(** C4: pruning never deletes an inline ConfigMap that may still be mounted: at
    the time of the deletion its name is not desired, no Pod of the last Pod
    listing and no template of an owned Deployment of the last Deployment listing
    refers to it, and none of those Deployments is in the middle of a rollout. *)
Theorem config_maps_in_use_are_kept yanet desired autoSync t r t1 cm answer t2 :
  run (pruneOrphans yanet desired autoSync) t r →
  t = t1 ++ Ev (DeleteConfigMap cm) answer :: t2 →
  om_Name (cm_Meta cm) ∉ ds_ConfigMaps desired
  ∧ (∃ pods, last_pods t1 = Some pods ∧ ∀ p, p ∈ pods → om_Name (cm_Meta cm) ∉ pod_refs (p_Spec p))
  ∧ (∃ deps, last_deployments t1 = Some deps ∧
       ∀ d, d ∈ deps → controlledByYanet (d_Meta d) yanet = true →
         om_Name (cm_Meta cm) ∉ pod_refs (d_Pod d) ∧ rollout_pending d = false).
Proof.
  intros Hr ->.
  destruct (wp_sound _ _ _ _ _ (pruneOrphans_unused yanet desired autoSync []) Hr) as [Hg _].
  exact (Hg t1 _ t2 eq_refl).
Qed.

(** C27: the finalizer of a deleted installation is given up only at the end: a write to the
    installation removes the finalizer and changes nothing else, and it comes right after a
    listing of the installation's own namespace that shows no Deployment controlled by the
    installation, with only a read of the snapshot that finds no stop in between. *)
Theorem finalizer_outlives_deployments yanet t r t1 y answer t2 :
  run (handleYanetDeletion yanet) t r →
  t = t1 ++ Ev (UpdateYanet y) answer :: t2 →
  y = set_y_Meta (set_om_Finalizers (RemoveFinalizer (om_Finalizers (y_Meta yanet)) yanetFinalizer) (y_Meta yanet)) yanet
  ∧ ∃ before deps global,
      t1 = before ++ [Ev (ListDeployments (Some (y_Namespace yanet))) (Ok deps); Ev ReadGlobal global]
      ∧ stopped global = false ∧ Forall (λ d, controlledByYanet (d_Meta d) yanet = false) deps.
Proof.
  intros Hr ->.
  destruct (wp_sound _ _ _ _ _ (handleYanetDeletion_drained yanet []) Hr) as [Hg _].
  exact (Hg t1 _ t2 eq_refl).
Qed.

(** C6: nothing is brought up before everything has been checked: when a reconcile
    creates a Deployment, writes an inline ConfigMap or dry-runs an update, it has
    seen an unstopped configuration whose box type exists and whose overrides and
    components validate, and it has listed the selected nodes, on each of which every
    enabled component that the palette has resolves and renders all its Deployments
    without an error in the build context of that node, an enabled controlplane at
    least one of them, and no dataplane with several replicas. *)
Theorem preflight_gates_workloads yanet t r t1 e t2 :
  run (reconcileYanet yanet) t r → t = t1 ++ e :: t2 → renders (ev_call e) = true →
  ∃ cfg box enabled,
    config_seen cfg t1 ∧ yc_Stop cfg = false
    ∧ FindBoxType (Some cfg) (ys_BoxType (y_Spec yanet)) = Ok box
    ∧ ValidateEffectiveYanetComponentOverrides (ys_Components (y_Spec yanet)) (Some (yc_Components cfg)) (Some box) = Ok tt
    ∧ EnabledComponentsForBox cfg (ys_BoxType (y_Spec yanet)) = Ok enabled
    ∧ preflight_passed cfg yanet enabled t1.
Proof.
  intros Hr -> Hc.
  destruct (wp_sound _ _ _ _ _ (reconcileYanet_admitted yanet []) Hr) as [Hg _]. by apply (Hg t1 e t2).
Qed.
End properties.

(** ** Witnesses

    The properties applied to runs against the in-memory server. *)
Import Concrete.

Lemma report_only_never_writes_witness :
  Forall (λ e, workload_write (ev_call e) = false)
    (exec Fake.server (Fake.small false None) (reconcileYanet (Fake.small_yanet false None))).1.2.
Proof.
  apply (report_only_never_writes (Fake.small_yanet false None) _
           (exec Fake.server (Fake.small false None) (reconcileYanet (Fake.small_yanet false None))).2).
  - exact (exec_run _ _ _).
  - reflexivity.
  - reflexivity.
Defined.

Lemma deletes_only_owned_witness :
  controlledByYanet (d_Meta Fake.orphan_deployment) (Fake.small_yanet true (Some 1)) = true
  ∧ om_DeletionTimestamp (d_Meta Fake.orphan_deployment) = None.
Proof.
  set (x := exec Fake.server (Fake.leftover (Some 1)) (reconcileYanet (Fake.small_yanet true (Some 1)))).
  apply (deletes_only_owned (Fake.small_yanet true (Some 1)) x.1.2 x.2 (Ev (DeleteDeployment Fake.orphan_deployment) (Ok tt))).
  - exact (exec_run _ _ _).
  - apply list_elem_of_lookup_2 with 5%nat. vm_compute. reflexivity.
Defined.

Lemma updates_only_owned_witness :
  ∃ live, last_live (take 3 (exec Fake.server (Fake.leftover None) (applyDeployment Fake.wanted_deployment true 0 "n")).1.2)
            = Some live
    ∧ validateDeploymentOwnership live Fake.wanted_deployment = Ok tt
    ∧ update_candidate Fake.orphan_deployment Fake.wanted_deployment = update_candidate live Fake.wanted_deployment.
Proof.
  set (x := exec Fake.server (Fake.leftover None) (applyDeployment Fake.wanted_deployment true 0 "n")).
  apply (updates_only_owned Fake.wanted_deployment true 0 "n" x.1.2 x.2 (take 3 x.1.2) true
           (update_candidate Fake.orphan_deployment Fake.wanted_deployment)
           (Ok (update_candidate Fake.orphan_deployment Fake.wanted_deployment)) (drop 4 x.1.2)).
  - exact (exec_run _ _ _).
  - vm_compute. reflexivity.
Defined.

Lemma config_maps_in_use_are_kept_witness :
  "w-old-cfg" ∉ (∅ : gset string)
  ∧ (∃ pods, last_pods (take 7 (exec Fake.server (Fake.leftover (Some 1))
                                   (pruneOrphans (Fake.small_yanet true (Some 1)) newDesiredSet true)).1.2) = Some pods
       ∧ ∀ p, p ∈ pods → "w-old-cfg" ∉ pod_refs (p_Spec p))
  ∧ (∃ deps, last_deployments (take 7 (exec Fake.server (Fake.leftover (Some 1))
                                   (pruneOrphans (Fake.small_yanet true (Some 1)) newDesiredSet true)).1.2) = Some deps
       ∧ ∀ d, d ∈ deps → controlledByYanet (d_Meta d) (Fake.small_yanet true (Some 1)) = true →
           "w-old-cfg" ∉ pod_refs (d_Pod d) ∧ rollout_pending d = false).
Proof.
  set (x := exec Fake.server (Fake.leftover (Some 1)) (pruneOrphans (Fake.small_yanet true (Some 1)) newDesiredSet true)).
  apply (config_maps_in_use_are_kept (Fake.small_yanet true (Some 1)) newDesiredSet true x.1.2 x.2 (take 7 x.1.2)
           Fake.orphan_config_map (Ok tt) (drop 8 x.1.2)).
  - exact (exec_run _ _ _).
  - vm_compute. reflexivity.
Defined.

Lemma finalizer_outlives_deployments_witness :
  ∃ before deps global,
    take 6 (exec Fake.server (Fake.small true (Some 1)) (handleYanetDeletion (Fake.small_yanet true (Some 1)))).1.2
      = before ++ [Ev (ListDeployments (Some (y_Namespace (Fake.small_yanet true (Some 1))))) (Ok deps); Ev ReadGlobal global]
    ∧ stopped global = false ∧ Forall (λ d, controlledByYanet (d_Meta d) (Fake.small_yanet true (Some 1)) = false) deps.
Proof.
  set (x := exec Fake.server (Fake.small true (Some 1)) (handleYanetDeletion (Fake.small_yanet true (Some 1)))).
  apply (finalizer_outlives_deployments (Fake.small_yanet true (Some 1)) x.1.2 x.2 (take 6 x.1.2)
           (set_y_Meta (set_om_Finalizers [] (y_Meta (Fake.small_yanet true (Some 1)))) (Fake.small_yanet true (Some 1)))
           (Ok (set_y_Meta (Fake.stored (set_om_Finalizers [] (y_Meta (Fake.small_yanet true (Some 1)))))
                  (Fake.small_yanet true (Some 1)))) (drop 7 x.1.2)).
  - exact (exec_run _ _ _).
  - vm_compute. reflexivity.
Defined.

Lemma preflight_gates_workloads_witness :
  ∃ cfg box enabled,
    config_seen cfg (take 6 (exec Fake.server (Fake.small true None) (reconcileYanet (Fake.small_yanet true None))).1.2)
    ∧ yc_Stop cfg = false
    ∧ FindBoxType (Some cfg) "mini" = Ok box
    ∧ ValidateEffectiveYanetComponentOverrides None (Some (yc_Components cfg)) (Some box) = Ok tt
    ∧ EnabledComponentsForBox cfg "mini" = Ok enabled
    ∧ preflight_passed cfg (Fake.small_yanet true None) enabled
        (take 6 (exec Fake.server (Fake.small true None) (reconcileYanet (Fake.small_yanet true None))).1.2).
Proof.
  set (x := exec Fake.server (Fake.small true None) (reconcileYanet (Fake.small_yanet true None))).
  apply (preflight_gates_workloads (Fake.small_yanet true None) x.1.2 x.2 (take 6 x.1.2) (Fake.nth_event 6 x.1.2) (drop 7 x.1.2)).
  - exact (exec_run _ _ _).
  - apply Fake.nth_event_split. vm_compute. reflexivity.
  - vm_compute. reflexivity.
Defined.
