(* ===== verification/ManagedSpec.v ===== *)
(** * Managed metadata, conditions and sync status *)

From S2P Require Import Prelude GoLib K8s Api Resolve Labels Builder Service Metrics Program Managed Instances.
From Stdlib Require Import Ascii.
#[local] Open Scope Z_scope.

(** Keys that survive the comma-separated tracking annotation: label and
    annotation keys are never empty and never contain a comma. *)
Definition plain_keys (m : gmap string string) : Prop :=
  ∀ k, is_Some (m !! k) → k ≠ "" ∧ contains_char "," k = false.

Lemma plain_keys_check (m : gmap string string) :
  forallb (λ k, bool_decide (k ≠ "") && negb (contains_char "," k)) (map_to_list m).*1 = true → plain_keys m.
Proof.
  intros Hb k [v Hv]. rewrite forallb_forall in Hb.
  assert (Hin : k ∈ (map_to_list m).*1).
  { apply list_elem_of_fmap. exists (k, v). by rewrite elem_of_map_to_list. }
  apply list_elem_of_In, Hb, andb_true_iff in Hin as [H1%bool_decide_eq_true_1 H2%negb_true_iff]. done.
Qed.

Section managed_meta.
Context `{MapOrder}.

Lemma mergeManagedKV_lookup existing desired prev k :
  mergeManagedKV existing desired prev !! k =
  match desired !! k with
  | Some v => Some v
  | None => if bool_decide (k ∈ prev) then None else existing !! k
  end.
Proof.
  unfold mergeManagedKV. destruct (_ && _) eqn:E.
  - apply andb_true_iff in E as [->%bool_decide_eq_true_1 ->%bool_decide_eq_true_1]. rewrite !lookup_empty.
    by destruct (bool_decide _).
  - rewrite lookup_copy. destruct (desired !! k) eqn:Ed; [done|].
    rewrite (lookup_delete_keys (λ k, bool_decide (desired !! k = None))), Ed.
    rewrite (bool_decide_true (None = None)) by done. simpl.
    destruct (bool_decide (k ∈ prev)); [done|]. rewrite lookup_copy, lookup_empty. by destruct (existing !! k).
Qed.

Lemma range_keys (m : gmap string string) k : k ∈ (map_range m).*1 ↔ is_Some (m !! k).
Proof.
  rewrite list_elem_of_fmap. split.
  - intros ([k' v] & -> & Hin%elem_of_map_range). by exists v.
  - intros [v Hv]. exists (k, v). by rewrite elem_of_map_range.
Qed.

Lemma parse_serialize m k :
  plain_keys m → k ∈ parseManagedKeys (serializeManagedKeys m) ↔ is_Some (m !! k).
Proof.
  intros Hm. rewrite <-range_keys. unfold serializeManagedKeys, parseManagedKeys.
  set (keys := (map_range m).*1).
  assert (Hkeys : Forall (λ k, k ≠ "" ∧ contains_char "," k = false) (sort_strings keys)).
  { apply Forall_forall. intros x Hx. apply Hm, range_keys. by rewrite elem_of_sort_strings in Hx. }
  rewrite <-(elem_of_sort_strings k keys). destruct (sort_strings keys) as [|x l] eqn:E.
  { simpl. done. }
  rewrite bool_decide_false.
  - rewrite Split_Join, list_elem_of_filter; [|done|].
    + rewrite Forall_forall in Hkeys. split; [by intros [_ ?]|]. intros Hx. split; [by apply Hkeys|done].
    + eapply Forall_impl; [done|]. by intros ? [_ ?].
  - apply Forall_cons in Hkeys as [[Hx _] _]. destruct x; [done|]. destruct l; done.
Qed.
End managed_meta.

(** ** The merge of managed metadata *)
Section merge_meta.
Context `{MapOrder}.
Variables (fresh desired : ObjectMeta).

(** The keys tracked by the annotation of an object. *)
Definition tracked (annotation : string) (m : ObjectMeta) : list string :=
  parseManagedKeys (get (om_Annotations m) annotation).

Lemma merged_labels k :
  om_Labels (mergeManagedMeta fresh desired) !! k =
  match om_Labels desired !! k with
  | Some v => Some v
  | None => if bool_decide (k ∈ tracked annotationManagedLabels fresh) then None else om_Labels fresh !! k
  end.
Proof. apply mergeManagedKV_lookup. Qed.

Lemma track_lookup annotation d m k :
  track annotation d m !! k =
  if decide (k = annotation) then (if bool_decide (d = ∅) then None else Some (serializeManagedKeys d)) else m !! k.
Proof.
  unfold track. destruct (decide (k = annotation)) as [->|Hne].
  - case_bool_decide; [apply lookup_delete_eq|apply lookup_insert_eq].
  - case_bool_decide; [by rewrite lookup_delete_ne|by rewrite lookup_insert_ne].
Qed.

Lemma merged_annotations k :
  om_Annotations (mergeManagedMeta fresh desired) !! k =
  if decide (k = annotationManagedAnnotations) then
    (if bool_decide (om_Annotations desired = ∅) then None else Some (serializeManagedKeys (om_Annotations desired)))
  else if decide (k = annotationManagedLabels) then
    (if bool_decide (om_Labels desired = ∅) then None else Some (serializeManagedKeys (om_Labels desired)))
  else match om_Annotations desired !! k with
       | Some v => Some v
       | None => if bool_decide (k ∈ tracked annotationManagedAnnotations fresh) then None else om_Annotations fresh !! k
       end.
Proof.
  unfold mergeManagedMeta. simpl. rewrite !track_lookup. rewrite mergeManagedKV_lookup.
  destruct (decide (k = annotationManagedAnnotations)), (decide (k = annotationManagedLabels)); done.
Qed.

(** After a merge the tracking annotations name exactly the desired keys. *)
Lemma tracked_after_merge k :
  plain_keys (om_Labels desired) →
  k ∈ tracked annotationManagedLabels (mergeManagedMeta fresh desired) ↔ is_Some (om_Labels desired !! k).
Proof.
  intros Hp. unfold tracked, get. rewrite merged_annotations.
  rewrite decide_False by done. rewrite decide_True by done. case_bool_decide as E.
  - rewrite E, lookup_empty. simpl. split; [set_solver|]. by intros [? ?].
  - simpl. by apply parse_serialize.
Qed.

Lemma tracked_annotations_after_merge k :
  plain_keys (om_Annotations desired) →
  k ∈ tracked annotationManagedAnnotations (mergeManagedMeta fresh desired) ↔ is_Some (om_Annotations desired !! k).
Proof.
  intros Hp. unfold tracked, get. rewrite merged_annotations, decide_True by done. case_bool_decide as E.
  - rewrite E, lookup_empty. simpl. split; [set_solver|]. by intros [? ?].
  - simpl. by apply parse_serialize.
Qed.
End merge_meta.

Lemma meta_eq (a b : ObjectMeta) :
  om_Labels a = om_Labels b → om_Annotations a = om_Annotations b →
  set_om_Annotations ∅ (set_om_Labels ∅ a) = set_om_Annotations ∅ (set_om_Labels ∅ b) → a = b.
Proof. destruct a, b; simpl. intros -> -> [=]; subst. done. Qed.

(** Merging the same desired metadata again changes nothing. *)
Lemma merge_settled `{MapOrder} (m fresh desired : ObjectMeta) :
  plain_keys (om_Labels desired) → plain_keys (om_Annotations desired) →
  om_Labels fresh = om_Labels (mergeManagedMeta m desired) →
  om_Annotations fresh = om_Annotations (mergeManagedMeta m desired) →
  mergeManagedMeta fresh desired = fresh.
Proof.
  intros HpL HpA HL HA.
  assert (HtL : ∀ k, k ∈ tracked annotationManagedLabels fresh ↔ is_Some (om_Labels desired !! k)).
  { intros k. rewrite <-(tracked_after_merge m) by done. unfold tracked. by rewrite HA. }
  assert (HtA : ∀ k, k ∈ tracked annotationManagedAnnotations fresh ↔ is_Some (om_Annotations desired !! k)).
  { intros k. rewrite <-(tracked_annotations_after_merge m) by done. unfold tracked. by rewrite HA. }
  apply meta_eq; [| |done]; apply map_eq; intros k.
  - rewrite merged_labels. destruct (om_Labels desired !! k) eqn:E.
    { by rewrite HL, merged_labels, E. }
    rewrite bool_decide_false; [done|]. rewrite HtL, E. by intros [? ?].
  - rewrite merged_annotations.
    destruct (decide (k = annotationManagedAnnotations)) as [->|N1].
    { by rewrite HA, merged_annotations, decide_True. }
    destruct (decide (k = annotationManagedLabels)) as [->|N2].
    { by rewrite HA, merged_annotations, decide_False, decide_True. }
    destruct (om_Annotations desired !! k) eqn:E.
    { by rewrite HA, merged_annotations, !decide_False, E by done. }
    rewrite bool_decide_false; [done|]. rewrite HtA, E. by intros [? ?].
Qed.

(** A merge keeps foreign labels, writes the desired ones, removes the ones the
    operator owned before and no longer wants, and reaches a fixed point: merging
    the same desired metadata again changes nothing, so an unchanged desired object
    never causes a write.  A label retracted by a later desired object is removed. *)
Theorem managed_metadata_converges `{MapOrder} fresh desired next :
  plain_keys (om_Labels desired) → plain_keys (om_Annotations desired) →
  let merged := mergeManagedMeta fresh desired in
  mergeManagedMeta merged desired = merged
  ∧ (∀ k, om_Labels merged !! k =
       match om_Labels desired !! k with
       | Some v => Some v
       | None => if bool_decide (k ∈ tracked annotationManagedLabels fresh) then None else om_Labels fresh !! k
       end)
  ∧ (∀ k, is_Some (om_Labels desired !! k) → om_Labels (mergeManagedMeta merged next) !! k = om_Labels next !! k).
Proof.
  intros HpL HpA merged. split_and!.
  - by apply (merge_settled fresh).
  - intros k. apply merged_labels.
  - intros k Hk. rewrite merged_labels. destruct (om_Labels next !! k) eqn:E; [done|].
    rewrite bool_decide_true; [done|]. by apply tracked_after_merge.
Qed.

Definition sample_meta (labels annotations : gmap string string) : ObjectMeta :=
  MkObjectMeta "d" "ns" "" "" 0 0 None labels annotations [] [] "".

Lemma managed_metadata_converges_witness :
  om_Labels (mergeManagedMeta (mergeManagedMeta (sample_meta {["foreign" := "1"]} ∅)
                                (sample_meta {["app" := "x"; "team" := "y"]} ∅))
               (sample_meta {["app" := "x"]} ∅)) !! "team" = None.
Proof.
  destruct (managed_metadata_converges (sample_meta {["foreign" := "1"]} ∅)
           (sample_meta {["app" := "x"; "team" := "y"]} ∅) (sample_meta {["app" := "x"]} ∅)) as (_ & _ & Hc).
  - apply plain_keys_check. reflexivity.
  - apply plain_keys_check. reflexivity.
  - rewrite (Hc "team"); [reflexivity|]. exists "y". reflexivity.
Defined.

(** C39: the tracking annotation round-trips: parsing the serialized key list of a
    map gives back exactly its keys, in sorted order, whatever order the map was
    ranged in. *)
Theorem managed_keys_round_trip `{MapOrder} (m : gmap string string) :
  plain_keys m → m ≠ ∅ → parseManagedKeys (serializeManagedKeys m) = sort_strings (elements (dom m)).
Proof.
  intros Hm Hne. unfold serializeManagedKeys, parseManagedKeys.
  assert (Hperm : (map_range m).*1 ≡ₚ elements (dom m)).
  { apply NoDup_Permutation; [apply map_range_NoDup|apply NoDup_elements|].
    intros k. by rewrite range_keys, elem_of_elements, elem_of_dom. }
  rewrite (sort_strings_proper _ _ Hperm).
  assert (Hkeys : Forall (λ k, k ≠ "" ∧ contains_char "," k = false) (sort_strings (elements (dom m)))).
  { apply Forall_forall. intros x Hx. apply Hm. by rewrite elem_of_sort_strings, elem_of_elements, elem_of_dom in Hx. }
  destruct (sort_strings (elements (dom m))) as [|x l] eqn:E.
  { exfalso. apply Hne. apply dom_empty_inv_L, leibniz_equiv, elements_empty_inv, Permutation_nil.
    by rewrite <-E, sort_strings_perm. }
  rewrite bool_decide_false.
  - rewrite Split_Join; [|done|by eapply Forall_impl; [done|intros ? [_ ?]]].
    apply filter_all. eapply Forall_impl; [done|]. by intros ? [? _].
  - apply Forall_cons in Hkeys as [[Hx _] _]. destruct x; [done|]. destruct l; done.
Qed.

Lemma managed_keys_round_trip_witness :
  parseManagedKeys (serializeManagedKeys {["b" := "1"; "a" := "2"]}) = ["a"; "b"].
Proof.
  rewrite (managed_keys_round_trip {["b" := "1"; "a" := "2"]}).
  - vm_compute. reflexivity.
  - apply plain_keys_check. reflexivity.
  - intros E. apply (f_equal (lookup "b")) in E. by rewrite lookup_insert_eq in E.
Defined.
