(* ===== verification/ConvergenceSpec.v ===== *)
(** * Convergence: what was applied stays applied

    A Deployment the operator wrote is recognised as unchanged by every later
    pass, whatever defaults the API server filled in, and a pass never deletes a
    Deployment it applied itself. *)

From S2P Require Import Prelude GoLib K8s Api Resolve Labels Builder Service Render Webhook Metrics Program.
From S2P Require Import Managed YanetController Reconciler Reconcile ConfigController Instances StopSpec SafetySpec ManagedSpec.
#[local] Open Scope Z_scope.

(** An object with the desired owners belongs to the desired controller. *)
Lemma same_owners_validate `{MetaLib} kind existing desired :
  om_OwnerReferences existing = om_OwnerReferences desired → is_Some (GetControllerOf desired) →
  validate_ownership kind existing desired = Ok tt.
Proof.
  intros Ho [o Hc]. unfold validate_ownership.
  assert (Hx : ∀ x : string, bool_decide (x ≠ x) = false) by (intros; apply bool_decide_false; naive_solver).
  rewrite (GetControllerOf_owners _ _ Ho), Hc. by rewrite !Hx, andb_false_r.
Qed.

Section apply.
Context `{MetaLib, ClientUtil, PatchLib, QuantityLib, K8sValidation, MapOrder}.

(** The API server fills in defaults: a dry run answers the object it was given
    with the defaulted spec. *)
Variable defaulted : DeploymentSpec → DeploymentSpec.

Definition admits (e : event) : Prop :=
  match e with
  | Ev (UpdateDeployment true d) a => a = Ok (set_d_Spec (defaulted (d_Spec d)) d)
  | Ev ReadGlobal global => stopped global = false
  | _ => True
  end.

(** A stored object that carries the desired one: the defaulted spec, the owners
    and a merge of the managed metadata into whatever metadata it had before. *)
Definition settled (desired stored : Deployment) : Prop :=
  d_Spec stored = defaulted (d_Spec desired)
  ∧ om_OwnerReferences (d_Meta stored) = om_OwnerReferences (d_Meta desired)
  ∧ ∃ before, om_Labels (d_Meta stored) = om_Labels (mergeManagedMeta before (d_Meta desired))
      ∧ om_Annotations (d_Meta stored) = om_Annotations (mergeManagedMeta before (d_Meta desired)).

(** Every read of the desired Deployment finds a settled object, not necessarily
    the same one each time. *)
Definition holds (desired : Deployment) (e : event) : Prop :=
  match e with
  | Ev (GetDeployment namespace name) a =>
      namespace = d_Namespace desired → name = d_Name desired → ∃ live, a = Ok live ∧ settled desired live
  | _ => True
  end.

(** Reads, stop checks and dry runs only; in particular the update window is not
    consulted. *)
Definition observes_only (c : call) : Prop :=
  match c with
  | ReadGlobal | GetDeployment _ _ | UpdateDeployment true _ => True
  | _ => False
  end.

(** What a persistent write sends, once the server has defaulted it. *)
Definition settles (desired : Deployment) (c : call) : Prop :=
  match c with
  | UpdateDeployment false d => settled desired d
  | CreateDeployment d => settled desired (set_d_Spec (defaulted (d_Spec d)) d)
  | _ => True
  end.

Variables (desired : Deployment) (autoSync : bool) (window : Z) (node : string).

Lemma candidate_settled live : settled desired (set_d_Spec (defaulted (d_Spec (update_candidate live desired)))
                                                  (update_candidate live desired)).
Proof. split_and!; [done|done|]. by eexists. Qed.

(** The calls made when the history only shows what [admits] allows. *)
Definition writes_settled (h : trace) (c : call) : Prop := Forall admits h → settles desired c.

Lemma desiredDeploymentUpdate_settles live h :
  wp writes_settled (desiredDeploymentUpdate live desired) h (λ r h',
    match r with Ok (c, true) => Forall admits h' → settled desired c | _ => True end).
Proof.
  unfold desiredDeploymentUpdate. destruct (negb _); [by apply wp_Ret|].
  apply wp_try. unfold checkGlobalStop. apply (wp_bind_invoke _ ReadGlobal); [done|]. intros g.
  apply wp_Ret. destruct (stopped g); [done|].
  apply (wp_bind_invoke _ (UpdateDeployment true _)); [done|]. intros [c|e]; apply wp_Ret; [|done].
  destruct (deploymentUpdateChanged live c); [|done].
  intros [_ Had]%Forall_app. apply Forall_cons_1 in Had as [Had _].
  cbv beta iota delta [admits] in Had. injection Had as ->. apply candidate_settled.
Qed.

Lemma apply_attempt_settles st h :
  wp writes_settled (apply_attempt desired autoSync window node st) h (λ _ _, True).
Proof.
  unfold apply_attempt. apply (wp_bind_invoke _ (GetDeployment _ _)); [done|].
  intros [live|e]; [|by apply wp_Ret].
  destruct (validateDeploymentOwnership live desired); [|by apply wp_Ret].
  apply wp_bind. eapply wp_mono; [apply desiredDeploymentUpdate_settles|].
  intros [[c []]|e] h' Hc; try by apply wp_Ret.
  cbn [negb]. destruct (negb autoSync); [by apply wp_Ret|].
  apply (wp_bind_invoke _ (Throttle _ _)); [done|]. intros requeue. destruct (bool_decide _); [wp_return|].
  unfold checkGlobalStop. apply wp_bind, (wp_bind_invoke _ ReadGlobal); [done|]. intros g. apply wp_Ret.
  destruct (stopped g); [by apply wp_Ret|].
  apply (wp_bind_invoke _ (UpdateDeployment false c)); [|intros [?|?]; by apply wp_Ret].
  intros [[Had _]%Forall_app _]%Forall_app. by apply Hc.
Qed.

Lemma applyDeployment_settles : respects writes_settled (applyDeployment desired autoSync window node).
Proof.
  intros h. unfold applyDeployment. apply (wp_bind_invoke _ (GetDeployment _ _)); [done|]. intros [live|e].
  - destruct (validateDeploymentOwnership live desired); [|by apply wp_Ret].
    apply wp_bind, (wp_retry _ (λ _ _, True)); [done|]. intros st h' _.
    eapply wp_mono; [apply apply_attempt_settles|]. intros [[[] ? ?] [u|e]] h'' _; split; try done; wp_return.
  - destruct (IsNotFound e); [|by apply wp_Ret]. destruct (negb autoSync); [by apply wp_Ret|].
    unfold checkGlobalStop. apply wp_bind, (wp_bind_invoke _ ReadGlobal); [done|]. intros g. apply wp_Ret.
    destruct (stopped g); [by apply wp_Ret|].
    apply (wp_bind_invoke _ (CreateDeployment _)); [|intros [?|?]; wp_return].
    intros _. split_and!; [done|done|]. by eexists.
Qed.

(** ** A settled Deployment *)
Section stable.
Hypothesis owner : is_Some (GetControllerOf (d_Meta desired)).
Hypothesis plain_labels : plain_keys (om_Labels (d_Meta desired)).
Hypothesis plain_annotations : plain_keys (om_Annotations (d_Meta desired)).

Lemma settled_owned live : settled desired live → validateDeploymentOwnership live desired = Ok tt.
Proof. intros (_ & Ho & _). by apply same_owners_validate. Qed.

(** The candidate differs from the live object in the spec at most, and only as far
    as the desired spec lacks the defaults. *)
Lemma settled_candidate live : settled desired live → update_candidate live desired = set_d_Spec (d_Spec desired) live.
Proof.
  intros (_ & Ho & m & HL & HA).
  assert (Hm : mergeManagedMeta (d_Meta live) (d_Meta desired) = d_Meta live) by (by apply (merge_settled m)).
  unfold update_candidate, upd_meta. rewrite <-Ho. destruct live as [k v meta sp stt].
  cbn [d_Meta set_d_Spec set_d_Meta] in *.
  replace (set_om_OwnerReferences (om_OwnerReferences meta) meta) with meta by (by destruct meta).
  by rewrite Hm.
Qed.

Lemma settled_unchanged live :
  settled desired live → deploymentUpdateChanged live (set_d_Spec (defaulted (d_Spec desired)) live) = false.
Proof.
  intros (Hs & _). unfold deploymentUpdateChanged. destruct live; simpl in *.
  rewrite Hs. by rewrite !bool_decide_false by naive_solver.
Qed.

(** The server admits by defaulting and holds settled objects. *)
Definition steady (e : event) : Prop := admits e ∧ holds desired e.
Definition stays_quiet (h : trace) (c : call) : Prop := Forall steady h → observes_only c.

Lemma steady_last h e : Forall steady (h ++ [e]) → steady e.
Proof. intros [_ He]%Forall_app. by apply Forall_cons_1 in He as [He _]. Qed.

Lemma steady_read h got :
  Forall steady (h ++ [Ev (GetDeployment (d_Namespace desired) (d_Name desired)) got]) →
  ∃ live, got = Ok live ∧ settled desired live.
Proof. intros [_ He]%steady_last. by apply He. Qed.

Lemma desiredDeploymentUpdate_quiet live h :
  settled desired live →
  wp stays_quiet (desiredDeploymentUpdate live desired) h (λ r h', Forall steady h' → ∃ c, r = Ok (c, false)).
Proof.
  intros Hlive. unfold desiredDeploymentUpdate. rewrite settled_candidate by done.
  destruct (negb _) eqn:E; [apply wp_Ret; eauto|].
  apply wp_try. unfold checkGlobalStop. apply (wp_bind_invoke _ ReadGlobal); [done|]. intros g. apply wp_Ret.
  destruct (stopped g) eqn:Eg; [intros [Had _]%steady_last; simpl in Had; congruence|].
  apply (wp_bind_invoke _ (UpdateDeployment true _)); [done|]. intros [c|e]; apply wp_Ret;
    intros [Had _]%steady_last; cbv beta iota delta [admits] in Had; [|done].
  injection Had as ->. eexists. do 2 f_equal. exact (settled_unchanged live Hlive).
Qed.

Lemma apply_attempt_quiet st h :
  wp stays_quiet (apply_attempt desired autoSync window node st) h (λ r h', Forall steady h' → r = (st, Ok tt)).
Proof.
  unfold apply_attempt. apply (wp_bind_invoke _ (GetDeployment _ _)); [done|]. intros got.
  apply wp_assume. intros (live & -> & Hlive)%steady_read. rewrite settled_owned by done.
  apply wp_bind. eapply wp_mono; [by apply desiredDeploymentUpdate_quiet|]. intros u h' Hu.
  apply wp_assume. intros (c & ->)%Hu. by apply wp_Ret.
Qed.

Lemma applyDeployment_quiet h :
  wp stays_quiet (applyDeployment desired autoSync window node) h
    (λ r h', Forall steady h' → r = ("synced", 0, None)).
Proof.
  unfold applyDeployment. apply (wp_bind_invoke _ (GetDeployment _ _)); [done|]. intros got.
  apply wp_assume. intros (live & -> & Hlive)%steady_read. rewrite settled_owned by done.
  apply wp_bind, (wp_retry _ (λ st h, Forall steady h → st = MkApplyState false "synced" 0)); [done|]. intros st h' Hst.
  apply wp_mono with (Q := λ r h', Forall steady h' → r = (MkApplyState false "synced" 0, Ok tt)).
  { apply wp_assume. intros Hs. rewrite (Hst Hs). apply apply_attempt_quiet. }
  intros [st' r] h'' Hr. split.
  - apply wp_assume. intros [= -> ->]%Hr. by apply wp_Ret.
  - intros e Er _ [= -> ->]%Hr. done.
Qed.
End stable.
End apply.

(** ** A pass keeps what it applied *)

(** The names of the Deployments a history looked up: every application of a
    Deployment starts with that read. *)
Definition looked_up (h : trace) : gset string :=
  list_to_set (omap (λ e, match ev_call e with GetDeployment _ name => Some name | _ => None end) h).

Lemma looked_up_app h t : looked_up (h ++ t) = looked_up h ∪ looked_up t.
Proof. unfold looked_up. by rewrite omap_app, list_to_set_app_L. Qed.

(** No Deployment is deleted that was looked up before. *)
Definition keeps_applied (h : trace) (c : call) : Prop :=
  match c with DeleteDeployment d => d_Name d ∉ looked_up h | _ => True end.

(** Look-ups only of names in [names], deletions only of names outside [desired]. *)
Definition confined (names desired : gset string) (_ : trace) (c : call) : Prop :=
  match c with
  | GetDeployment _ name => name ∈ names
  | DeleteDeployment d => d_Name d ∉ desired
  | _ => True
  end.

Section pass.
Context `{MetaLib, ClientUtil, PatchLib, QuantityLib, K8sValidation, MapOrder}.

Lemma wp_confined {A} (p : prog A) names desired h :
  respects (confined names desired) p → looked_up h ∪ names ⊆ desired →
  wp keeps_applied p h (λ _ h', looked_up h' ⊆ looked_up h ∪ names).
Proof.
  intros Hp Hsub t r Hr. destruct (Hp [] t r Hr) as [Hok _].
  assert (Hlook : ∀ t', (∃ t'', t = t' ++ t'') → looked_up t' ⊆ names).
  { intros t' [t'' ->]. unfold looked_up. intros n Hn.
    apply elem_of_list_to_set, list_elem_of_omap in Hn as (e & He & En).
    apply list_elem_of_split in He as (l1 & l2 & ->).
    specialize (Hok l1 e (l2 ++ t'')). rewrite <-app_assoc in Hok. specialize (Hok eq_refl).
    destruct (ev_call e); simplify_eq/=. done. }
  split; [|rewrite looked_up_app; specialize (Hlook t ltac:(exists []; by rewrite app_nil_r)); set_solver].
  intros t1 e t2 Ht. specialize (Hok t1 e t2 Ht). specialize (Hlook t1 ltac:(eauto)).
  unfold keeps_applied. destruct (ev_call e); try done. simpl in Hok. rewrite looked_up_app. set_solver.
Qed.

Ltac go := safe ltac:(first [exact I | done]).

Lemma updateStatus_confined desired y mutate :
  (∀ f, respects (confined ∅ desired) (mutate f)) → respects (confined ∅ desired) (updateStatus y mutate).
Proof. intros Hm. unfold updateStatus, update_status_attempt. go. Qed.

Lemma degrade_confined desired reason message f : respects (confined ∅ desired) (degrade reason message f).
Proof. unfold degrade. go. Qed.

Lemma applyInlineConfigMaps_confined desired y ctx rc autoSync :
  respects (confined ∅ desired) (applyInlineConfigMaps y ctx rc autoSync).
Proof.
  unfold applyInlineConfigMaps, inline_config_step, mutate_config_map.
  safe ltac:(first [exact I | done | apply wp_CreateOrUpdate]).
Qed.

Lemma applyDeployment_confined desired d autoSync window node :
  respects (confined {[d_Name d]} desired) (applyDeployment d autoSync window node).
Proof. unfold applyDeployment, apply_attempt, desiredDeploymentUpdate. safe ltac:(first [exact I | done | simpl; set_solver]). Qed.
#[local] Hint Resolve updateStatus_confined degrade_confined applyInlineConfigMaps_confined : safety.

Lemma prune_deployment_confined y desired autoSync st d :
  respects (confined ∅ (ds_Deployments desired)) (prune_deployment_step y desired autoSync st d).
Proof.
  unfold prune_deployment_step. safe ltac:(first [exact I | done |
    match goal with E : bool_decide (_ ∈ ds_Deployments desired) = false |- _ => by apply bool_decide_eq_false_1 in E end]).
Qed.

Lemma prune_config_map_confined y desired autoSync referenced pending st c D :
  respects (confined ∅ D) (prune_config_map_step y desired autoSync referenced pending st c).
Proof. unfold prune_config_map_step. go. Qed.
#[local] Hint Resolve prune_deployment_confined prune_config_map_confined foldPE_respects : safety.

Lemma pruneOrphans_confined y desired autoSync :
  respects (confined ∅ (ds_Deployments desired)) (pruneOrphans y desired autoSync).
Proof. unfold pruneOrphans, prune_config_maps. go. Qed.

Lemma fail_pass_confined desired y e : respects (confined ∅ desired) (fail_pass y e).
Proof. unfold fail_pass. go. Qed.

Lemma collectPods_confined desired y : respects (confined ∅ desired) (collectPods y).
Proof. unfold collectPods. go. Qed.
#[local] Hint Resolve pruneOrphans_confined fail_pass_confined collectPods_confined : safety.

Lemma finish_pass_confined env st services pods :
  respects (confined ∅ (ds_Deployments (lo_desired st))) (finish_pass env st services pods).
Proof. unfold finish_pass. go. Qed.

Lemma record_event_confined desired reason : respects (confined ∅ desired) (record_event reason).
Proof. go. Qed.

(** The loop invariant: what was looked up is desired. *)
Definition tracks (st : loop_state) (h : trace) : Prop := looked_up h ⊆ ds_Deployments (lo_desired st).

Lemma tracks_same st st' h h' :
  ds_Deployments (lo_desired st) = ds_Deployments (lo_desired st') → looked_up h' ⊆ looked_up h ∪ ∅ → tracks st h → tracks st' h'.
Proof. unfold tracks. intros <-. set_solver. Qed.

Lemma reconcile_deployment_tracks env kind on drift node acc d h :
  tracks acc.1 h →
  wp keeps_applied (reconcile_deployment env kind on drift node acc d) h (λ r h', tracks r.1 h').
Proof.
  destruct acc as [st ns]. intros Hst. unfold reconcile_deployment.
  set (d' := normalizeDeploymentReplicas d on (re_installationEnabled env)). apply wp_bind.
  eapply wp_mono; [apply (wp_confined _ {[d_Name d']} (looked_up h ∪ {[d_Name d']})); [|done];
    apply applyDeployment_confined|].
  intros [[state requeue] err] h' Hh'. cbv zeta.
  match goal with |- context [ns_set_state _ ?x] => set (state' := x) end.
  match goal with |- context [lo_add_requeue requeue ?x] => set (st' := x) end.
  assert (Hd : lo_desired st' = lo_desired (lo_add_deployment (d_Name d') st))
    by (unfold st'; by destruct err, (bool_decide (state' = "sync-waiting"))).
  assert (Ht : tracks st' h') by (unfold tracks in *; rewrite Hd; simpl; set_solver).
  destruct (bool_decide (requeue > 0)); [|by apply wp_Ret].
  apply wp_bind. eapply wp_mono; [by apply (wp_confined _ ∅ (looked_up h')); [apply record_event_confined|set_solver]|].
  intros [] h'' Hh''. apply wp_Ret. by apply (tracks_same st' _ h').
Qed.

Lemma reconcile_ref_tracks env ctx node acc ref h :
  tracks acc.1 h → wp keeps_applied (reconcile_ref env ctx node acc ref) h (λ r h', tracks r.1 h').
Proof.
  destruct acc as [st ns]. intros Hst. unfold reconcile_ref.
  destruct (ResolveBoxComponent _ _ _ _) as [[rc|]|e]; [|apply wp_Ret; by destruct (bool_decide _)|by apply wp_Ret].
  destruct (IsColocated rc); [by apply wp_Ret|]. cbv zeta. apply wp_bind.
  eapply wp_mono; [apply (wp_confined _ ∅ (looked_up h)); [apply applyInlineConfigMaps_confined|set_solver]|].
  intros [[names drift]|e] h' Hh'; [|apply wp_Ret; by apply (tracks_same st _ h)].
  destruct (RenderDeployments _ _ _) as [ds|e]; [|apply wp_Ret; by apply (tracks_same st _ h)].
  apply (wp_foldP _ (λ acc h, tracks acc.1 h)); [by apply (tracks_same st _ h)| |done].
  intros. by apply reconcile_deployment_tracks.
Qed.

Lemma run_pass_keeps env nodes enabled plans h :
  looked_up h = ∅ → wp keeps_applied (run_pass env nodes enabled plans) h (λ _ _, True).
Proof.
  intros Hh. unfold run_pass. apply wp_bind.
  apply (wp_foldPR _ tracks); [unfold tracks; rewrite Hh; set_solver| |].
  - intros st node h' _ Hst. unfold reconcile_node.
    destruct (WithRuntimeNetwork _ _ _) as [ctx|e]; [|do 2 apply wp_Ret; exact I].
    apply wp_bind, (wp_foldP _ (λ acc h, tracks acc.1 h)); [done| |].
    + intros. by apply reconcile_ref_tracks.
    + intros [st' ns] h'' Hst'. by apply wp_Ret.
  - intros st h' Hst. apply wp_bind.
    eapply wp_mono; [apply (wp_confined _ ∅ (looked_up h')); [apply collectPods_confined|set_solver]|].
    intros collected h'' Hh''. destruct (match collected with Ok _ => _ | Err _ => _ end) as [pods errs].
    eapply wp_mono; [|done]. apply (wp_confined _ ∅ (ds_Deployments (lo_desired st))).
    + destruct errs; [apply finish_pass_confined|apply fail_pass_confined].
    + unfold tracks in Hst. set_solver.
Qed.

(** Everything outside the pass looks up nothing. *)
Lemma pruneConflicting_confined y names : respects (confined ∅ ∅) (pruneConflictingDeployments y names).
Proof. unfold pruneConflictingDeployments, prune_conflicting_step. safe ltac:(first [exact I | done | set_solver]). Qed.

Lemma validateExclusiveNodes_confined desired y nodes : respects (confined ∅ desired) (validateExclusiveNodes y nodes).
Proof. unfold validateExclusiveNodes. go. Qed.

Lemma preflightResources_confined desired cfg y nodes enabled on policy owner registry :
  respects (confined ∅ desired) (preflightResources cfg y nodes enabled on policy owner registry).
Proof. unfold preflightResources, validateOperatorPlacementTransition, listPlacementProducers. go. Qed.

Lemma handleYanetDeletion_confined y : respects (confined ∅ ∅) (handleYanetDeletion y).
Proof. pose proof (pruneOrphans_confined y newDesiredSet true) as Hp. unfold handleYanetDeletion. go. Qed.

Lemma bail_out_confined desired y reason message : respects (confined ∅ desired) (bail_out y reason message).
Proof. unfold bail_out. go. Qed.

Lemma add_finalizer_confined desired y : respects (confined ∅ desired) (add_finalizer y).
Proof. unfold add_finalizer. go. Qed.
#[local] Hint Resolve pruneConflicting_confined validateExclusiveNodes_confined preflightResources_confined
  handleYanetDeletion_confined bail_out_confined add_finalizer_confined record_event_confined : safety.

(** Before the pass nothing was looked up, so anything confined may run. *)
Lemma wp_before {A} (p : prog A) h :
  looked_up h = ∅ → respects (confined ∅ ∅) p → wp keeps_applied p h (λ _ h', looked_up h' = ∅).
Proof.
  intros Hh Hp. eapply wp_mono; [apply (wp_confined p ∅ ∅); [done|set_solver]|]. intros a h' Hs. simpl in Hs. set_solver.
Qed.

Lemma wp_before_done {A} (p : prog A) h :
  looked_up h = ∅ → respects (confined ∅ ∅) p → wp keeps_applied p h (λ _ _, True).
Proof. intros Hh Hp. eapply wp_mono; [by apply wp_before|done]. Qed.

Lemma reconcile_nodes_keeps cfg y enabled h :
  looked_up h = ∅ → wp keeps_applied (reconcile_nodes cfg y enabled) h (λ _ _, True).
Proof.
  intros Hh. unfold reconcile_nodes. cbv zeta. apply wp_bind.
  eapply wp_mono; [apply wp_before; [done|go]|]. intros [nodes|e] h1 Hh1; [|by apply wp_Ret].
  apply wp_bind. eapply wp_mono; [apply wp_before; [done|go]|].
  intros [|e|messages cleanup] h2 Hh2; [|apply wp_before_done; [done|go]|apply wp_before_done; [done|go]].
  apply wp_bind. eapply wp_mono; [apply wp_before; [done|go]|].
  intros [plans|e] h3 Hh3; [by apply run_pass_keeps|apply wp_before_done; [done|go]].
Qed.

Lemma reconcile_loaded_keeps config y h :
  looked_up h = ∅ → wp keeps_applied (reconcile_loaded config y) h (λ _ _, True).
Proof.
  intros Hh. unfold reconcile_loaded, reconcile_config.
  repeat case_match; try (apply wp_before_done; [done|solve [eauto with safety]]).
  by apply reconcile_nodes_keeps.
Qed.

Lemma reconcileYanet_keeps y h :
  looked_up h = ∅ → wp keeps_applied (reconcileYanet y) h (λ _ _, True).
Proof.
  intros Hh. unfold reconcileYanet. apply wp_bind.
  eapply (wp_mono _ _ _ (λ _ _, True)); [|intros [requeue err] h' _; go].
  unfold reconcile_body. apply wp_bind.
  eapply wp_mono; [apply wp_before; [done|unfold snapshotYanetConfig; go]|].
  intros [cfg|] h1 Hh1; [by apply reconcile_loaded_keeps|].
  apply wp_bind. eapply wp_mono; [apply wp_before; [done|go]|].
  intros [config|e] h2 Hh2; [by apply reconcile_loaded_keeps|].
  destruct (IsNotFound e); [by apply reconcile_loaded_keeps|by apply wp_Ret].
Qed.
End pass.

(** C17: a reconcile never takes back what it applied: a Deployment it looked up (and
    so reported, created or updated) has another name than every Deployment the same
    run deletes later, as an orphan, in conflict cleanup or on finalization. *)
Theorem applied_deployments_survive `{MetaLib, ClientUtil, PatchLib, QuantityLib, K8sValidation, MapOrder}
    yanet t r i j namespace name got d answer :
  run (reconcileYanet yanet) t r → (i < j)%nat →
  t !! i = Some (Ev (GetDeployment namespace name) got) → t !! j = Some (Ev (DeleteDeployment d) answer) →
  name ≠ d_Name d.
Proof.
  intros Hr Hij Hi Hj ->.
  destruct (wp_sound _ _ _ _ _ (reconcileYanet_keeps yanet [] eq_refl) Hr) as [Hg _].
  apply (Hg (take j t) (Ev (DeleteDeployment d) answer) (drop (S j) t)); [by rewrite take_drop_middle|].
  apply elem_of_list_to_set, list_elem_of_omap.
  exists (Ev (GetDeployment namespace (d_Name d)) got). split; [|done].
  eapply list_elem_of_lookup_2. by rewrite lookup_take_lt.
Qed.

Import Concrete.

(** A pass over a small cluster with an orphan: the workloads are applied first, then
    the orphan is deleted. *)
Definition small_with_orphan : Fake.cluster :=
  Fake.with_deployments (Fake.small true None) [Fake.orphan_deployment].
Definition orphan_pass : trace :=
  (exec Fake.server small_with_orphan (reconcileYanet (Fake.small_yanet true None))).1.2.

Lemma applied_deployments_survive_witness : "w-1b16b1df-controlplane-numa0" ≠ "w-old".
Proof.
  apply (applied_deployments_survive (Fake.small_yanet true None) orphan_pass
           (exec Fake.server small_with_orphan (reconcileYanet (Fake.small_yanet true None))).2
           4 15 "yanet" _ Fake.not_found Fake.orphan_deployment (Ok tt)).
  - exact (exec_run _ _ _).
  - lia.
  - vm_compute. reflexivity.
  - vm_compute. reflexivity.
Defined.
