(* ===== verification/ErrorSpec.v ===== *)
(** * Failures of a pass

    What a reconcile of an installation does after a read or a write of the
    cluster has failed: it deletes nothing more, and it asks to be run again. *)

From S2P Require Import Prelude GoLib K8s Api Resolve Labels Builder Service Render Webhook.
From S2P Require Import Metrics Program Managed YanetController Reconciler Reconcile Instances SafetySpec.
#[local] Open Scope Z_scope.

(** A call that failed for another reason than the ones the source expects: an
    object that does not exist where it is looked up, and a conflict that is
    retried.  Status updates and deletions are not counted. *)
Definition failed (ev : event) : bool :=
  match ev with
  | Ev GetConfig (Err e) | Ev (GetConfigMap _ _) (Err e) | Ev (UpdateYanet _) (Err e) => negb (IsNotFound e)
  | Ev (GetDeployment _ _) (Err e) => negb (IsNotFound e) && negb (IsConflict e)
  | Ev (UpdateDeployment _ _) (Err e) => negb (IsConflict e)
  | Ev ListYanets (Err _) | Ev (ListNodes _) (Err _) | Ev (ListDeployments _) (Err _) | Ev (ListReplicaSets _) (Err _)
  | Ev (ListConfigMaps _ _) (Err _) | Ev (ListPods _ _) (Err _) => true
  | Ev (CreateDeployment _) (Err _) | Ev (CreateConfigMap _) (Err _) | Ev (UpdateConfigMap _) (Err _) => true
  | _ => false
  end.

Definition is_delete (c : call) : bool :=
  match c with DeleteDeployment _ | DeleteConfigMap _ | DeleteService _ => true | _ => false end.

(** [ctrl.Result] and error that make the manager run the reconcile again. *)
Definition retries (o : outcome) : Prop := 0 < o.1 ∨ o.2 ≠ None.

Definition clean (h : trace) : Prop := Forall (λ ev, failed ev = false) h.

(** Deletions only in a clean history. *)
Definition blocks (h : trace) (c : call) : Prop := is_delete c = true → clean h.

Lemma clean_snoc h ev : clean (h ++ [ev]) ↔ clean h ∧ failed ev = false.
Proof. unfold clean. rewrite Forall_app, Forall_singleton. done. Qed.

(** ** Calls that cannot fail in this sense *)
Definition quiet (c : call) : Prop := ∀ a, failed (Ev c a) = false.

Lemma quiet_run {A} (p : prog A) t r : respects (λ _ c, quiet c) p → run p t r → clean t.
Proof.
  intros Hp Hr. destruct (wp_sound _ _ _ _ _ (Hp []) Hr) as [Hq _]. apply Forall_forall. intros [c a] He.
  apply list_elem_of_split in He as (t1 & t2 & ->). apply (Hq t1 (Ev c a) t2 eq_refl).
Qed.

Lemma wp_quiet {A} (p : prog A) h :
  respects (λ _ c, quiet c) p → clean h → wp blocks p h (λ _ h', clean h').
Proof.
  intros Hp Hh t r Hr. pose proof (quiet_run p t r Hp Hr) as Ht. split; [|by apply Forall_app].
  intros t1 e t2 -> _. apply Forall_app. split; [done|]. by apply Forall_app in Ht as [? _].
Qed.

(** Programs without deletions: nothing to show for their calls. *)
Definition gentle (_ : trace) (c : call) : Prop := is_delete c = false.

Lemma wp_gentle {A} (p : prog A) h (ok : A → Prop) :
  respects gentle p → (∀ t r, run p t r → ok r → clean t) → wp blocks p h (λ r h', ok r → clean h → clean h').
Proof.
  intros Hg Hok t r Hr. split.
  - destruct (Hg h t r Hr) as [Hc _]. intros t1 e t2 -> Hd. specialize (Hc t1 e t2 eq_refl).
    unfold gentle in Hc. congruence.
  - intros Hr' Hh. apply Forall_app. split; [done|by eapply Hok].
Qed.

Lemma wp_gentle_any {A} (p : prog A) h : respects gentle p → wp blocks p h (λ _ _, True).
Proof. intros Hg. eapply wp_mono; [apply (wp_gentle p h (λ _, False) Hg); done|done]. Qed.

Ltac calm := safe ltac:(first [done | intros [?|?]; done | intros ?; done]).

Section failures.
Context `{MetaLib, ClientUtil, PatchLib, QuantityLib, K8sValidation, MapOrder}.

Notation quietly p := (respects (λ _ c, quiet c) p).

Lemma updateStatus_quiet y mutate : (∀ f, quietly (mutate f)) → quietly (updateStatus y mutate).
Proof. intros Hm. unfold updateStatus, update_status_attempt. calm. Qed.
Lemma degrade_quiet reason message f : quietly (degrade reason message f).
Proof. unfold degrade. calm. Qed.
Lemma record_event_quiet reason : quietly (record_event reason).
Proof. unfold record_event. calm. Qed.
Lemma prune_deployment_quiet y desired autoSync st d : quietly (prune_deployment_step y desired autoSync st d).
Proof. unfold prune_deployment_step. calm. Qed.
Lemma prune_config_map_quiet y desired autoSync referenced pending st c :
  quietly (prune_config_map_step y desired autoSync referenced pending st c).
Proof. unfold prune_config_map_step. calm. Qed.
#[local] Hint Resolve updateStatus_quiet degrade_quiet record_event_quiet prune_deployment_quiet prune_config_map_quiet
  foldPE_respects : safety.

(** ** Applying *)

(** The error of a retried closure: a conflict it passes on is one of the
    server's. *)
Lemma IsConflict_wrapped format a b e : IsConflict (Errorf format [AStr a; AStr b; AErr e]) = IsConflict e.
Proof. unfold IsConflict. simpl. by destruct (err_reason e). Qed.

(** History kept clean as long as the program reports success. *)
Ltac clean := repeat match goal with
  | |- context [clean (_ ++ [_])] => rewrite !clean_snoc
  | H : clean (_ ++ [_]) |- _ => apply clean_snoc in H as [? ?]
  end.
Ltac settle := intros; simpl in *; clean; split_and?; try done; try congruence; auto.

Lemma desiredDeploymentUpdate_reports e d h :
  clean h → wp (λ _ _, True) (desiredDeploymentUpdate e d) h
    (λ r h', match r with Ok _ => clean h' | Err e => IsConflict e = true → clean h' end).
Proof.
  intros Hh. unfold desiredDeploymentUpdate. destruct (negb _); [by apply wp_Ret|]. apply wp_try.
  unfold checkGlobalStop. apply (wp_bind_invoke _ ReadGlobal); [done|]. intros g. apply wp_Ret.
  destruct (stopped g); [by intros ?%(f_equal id)|].
  apply (wp_bind_invoke _ (UpdateDeployment true _)); [done|]. intros [c|e']; apply wp_Ret; [settle|].
  rewrite IsConflict_wrapped. intros Hc. clean. split_and!; [done..|]. simpl. by rewrite Hc.
Qed.

Lemma apply_attempt_reports d autoSync window node st h :
  clean h → wp (λ _ _, True) (apply_attempt d autoSync window node st) h
    (λ r h', match r.2 with Ok _ => clean h' | Err e => IsConflict e = true → clean h' end).
Proof.
  intros Hh. unfold apply_attempt. apply (wp_bind_invoke _ (GetDeployment _ _)); [done|].
  intros [live|e]; [|apply wp_Ret; simpl; intros Hc; clean; split; [done|]; simpl; by rewrite Hc, andb_false_r].
  destruct (validateDeploymentOwnership live d) as [[]|e] eqn:Ho; [|by apply wp_Ret; settle].
  apply wp_bind. eapply wp_mono; [apply desiredDeploymentUpdate_reports; by clean|].
  intros [[c changed]|e] h' Hh'; [|by apply wp_Ret].
  destruct (negb changed); [by apply wp_Ret|]. destruct (negb autoSync); [by apply wp_Ret|].
  apply (wp_bind_invoke _ (Throttle _ _)); [done|]. intros requeue.
  destruct (bool_decide _); [apply (wp_bind_invoke _ (Observe _)); [done|]; intros; apply wp_Ret; settle|].
  unfold checkGlobalStop. apply wp_bind, (wp_bind_invoke _ ReadGlobal); [done|]. intros g. apply wp_Ret.
  destruct (stopped g); [apply wp_Ret; settle|].
  apply (wp_bind_invoke _ (UpdateDeployment false c)); [done|].
  intros [?|e]; apply wp_Ret; simpl; [settle|]. intros Hc. clean. split_and!; [done..|]. simpl. by rewrite Hc.
Qed.

Lemma applyDeployment_reports d autoSync window node t r :
  run (applyDeployment d autoSync window node) t r → r.2 = None → clean t.
Proof.
  intros Hr. cut (wp (λ _ _, True) (applyDeployment d autoSync window node) [] (λ r h', r.2 = None → clean h')).
  { intros Hw. by destruct (Hw t r Hr). }
  unfold applyDeployment. apply (wp_bind_invoke _ (GetDeployment _ _)); [done|].
  intros [live|e].
  - destruct (validateDeploymentOwnership live d) as [[]|e]; [|by apply wp_Ret]. apply wp_bind.
    eapply (wp_mono _ _ _ (λ r h', match r.2 with Ok _ => clean h' | Err _ => True end));
      [|intros [[[] ? ?] [[]|e]] h' Hq; try by apply wp_Ret].
    2:{ apply (wp_bind_invoke _ (Observe _)); [done|]. intros ?. apply wp_Ret. intros _. by apply clean_snoc. }
    apply (wp_retry _ (λ _ h, clean h)); [by repeat constructor|]. intros st h Hh.
    eapply wp_mono; [by apply apply_attempt_reports|]. intros [st' [[]|e]] h' Hq; simpl in *; [done|].
    split; [exact I|]. intros ? [= <-]. done.
  - destruct (IsNotFound e) eqn:En; [|by apply wp_Ret].
    assert (Hh : clean ([] ++ [Ev (GetDeployment (d_Namespace d) (d_Name d)) (Err e)])) by (repeat constructor; simpl; by rewrite En).
    destruct (negb autoSync); [by apply wp_Ret|]. unfold checkGlobalStop.
    apply wp_bind, (wp_bind_invoke _ ReadGlobal); [done|]. intros g. apply wp_Ret.
    destruct (stopped g); [by apply wp_Ret|].
    apply (wp_bind_invoke _ (CreateDeployment _)); [done|]. intros [?|?]; [|by apply wp_Ret].
    apply (wp_bind_invoke _ (Observe _)); [done|]. intros ?. apply wp_Ret. intros _.
    do 3 (apply clean_snoc; split; [|done]). exact Hh.
Qed.

Lemma mutate_config_map_quiet y ctx rc content cm : quietly (mutate_config_map y ctx rc content cm).
Proof. unfold mutate_config_map. calm. Qed.

Lemma CreateOrUpdate_reports y ctx rc content cm t r :
  run (CreateOrUpdate cm (mutate_config_map y ctx rc content)) t r → r = Ok tt → clean t.
Proof.
  intros Hr%CreateOrUpdate_spec.
  assert (Hm : ∀ x t' r', run (mutate_config_map y ctx rc content x) t' r' → clean t')
    by (intros; by eapply quiet_run; [apply mutate_config_map_quiet|]).
  destruct Hr as [|e t e' Hn Hr|e t c' res Hn Hr|x t e' Hr|x t Hr|x t c' res Hr Hne]; intros Hok; try done;
    apply Hm in Hr; apply Forall_cons; (split; [simpl; by rewrite ?Hn|]); try done;
    (destruct res as [?|?]; [|done]); by apply clean_snoc.
Qed.

Lemma inline_config_step_reports y ctx rc autoSync st entry h :
  clean h → wp (λ _ _, True) (inline_config_step y ctx rc autoSync st entry) h
    (λ r h', match r with Ok _ => clean h' | Err _ => True end).
Proof.
  intros Hh. destruct st as [names drift], entry as [name content]. unfold inline_config_step.
  destruct (negb autoSync).
  - apply (wp_bind_invoke _ (GetConfigMap _ _)); [done|].
    intros [x|e]; [apply wp_Ret; settle|]. destruct (IsNotFound e) eqn:En; apply wp_Ret; [|done].
    apply clean_snoc. split; [done|]. simpl. by rewrite En.
  - apply wp_bind. intros t r Hr. split; [done|].
    destruct r as [[]|e]; [|by apply wp_Ret]. apply wp_Ret.
    apply Forall_app. split; [done|]. by eapply CreateOrUpdate_reports.
Qed.

Lemma applyInlineConfigMaps_reports y ctx rc autoSync t names drift :
  run (applyInlineConfigMaps y ctx rc autoSync) t (Ok (names, drift)) → clean t.
Proof.
  intros Hr. cut (wp (λ _ _, True) (applyInlineConfigMaps y ctx rc autoSync) []
    (λ r h', match r with Ok _ => clean h' | Err _ => True end)); [intros Hw; by destruct (Hw _ _ Hr)|].
  unfold applyInlineConfigMaps. apply (wp_foldPR _ (λ _ h, clean h)); [constructor| |done].
  intros. eapply wp_mono; [by apply inline_config_step_reports|]. by intros [?|?].
Qed.

Lemma listPlacementProducers_reports ns h :
  clean h → wp (λ _ _, True) (listPlacementProducers ns) h (λ r h', match r with Ok _ => clean h' | Err _ => True end).
Proof.
  intros Hh. unfold listPlacementProducers. calm; settle.
Qed.

Lemma preflightResources_reports cfg y nodes enabled on policy owner registry t plans :
  run (preflightResources cfg y nodes enabled on policy owner registry) t (Ok plans) → clean t.
Proof.
  intros Hr. cut (wp (λ _ _, True) (preflightResources cfg y nodes enabled on policy owner registry) []
    (λ r h', match r with Ok _ => clean h' | Err _ => True end)); [intros Hw; by destruct (Hw _ _ Hr)|].
  unfold preflightResources. destruct (preflight_render _ _ _ _ _ _ _ _) as [[ps ws]|e]; [|by apply wp_Ret].
  apply wp_try. unfold validateOperatorPlacementTransition.
  destruct (desired_roles _ _); [do 2 apply wp_Ret; constructor|]. apply wp_try.
  eapply wp_mono; [apply listPlacementProducers_reports; constructor|]. intros [producers|e] h Hh; [|done].
  apply wp_Ret. destruct (check_all _ _); [|done]. by apply wp_Ret.
Qed.

(** ** Deleting *)
Lemma wp_list_clean {A} c (k : answer c → prog A) h Q :
  is_delete c = false → (∀ a, wp blocks (k a) (h ++ [Ev c a]) Q) → wp blocks (invoke c ≫= k) h Q.
Proof. intros Hc Hk. apply (wp_bind_invoke _ c); [|done]. intros Hd. congruence. Qed.

Lemma prune_config_maps_blocks y desired autoSync deps st h :
  clean h → wp blocks (prune_config_maps y desired autoSync deps st) h (λ r h', r.2 = None → clean h').
Proof.
  intros Hh. unfold prune_config_maps. apply (wp_list_clean (ListConfigMaps _ _)); [done|].
  intros [cms|e]; [|by apply wp_Ret]. apply wp_bind.
  apply (wp_mono _ _ _ (λ r h', match r with Ok _ => clean h' | Err _ => True end)).
  - assert (Hh' : clean (h ++ [Ev (ListConfigMaps (y_Namespace y) {[labelYanet := y_Name y]}) (Ok cms)])) by (by apply clean_snoc).
    destruct cms; [by apply wp_Ret|]. apply (wp_invoke _ (ListPods _ _)); [done|].
    intros [pods|e]; [by apply clean_snoc|done].
  - intros [pods|e] h' Hh'; [|by apply wp_Ret]. apply wp_bind.
    eapply wp_mono; [apply wp_quiet; [|exact Hh']|intros [st' err] h'' Hh''; by apply wp_Ret].
    apply foldPE_respects. intros. apply prune_config_map_quiet.
Qed.

Lemma pruneOrphans_blocks y desired autoSync h :
  clean h → wp blocks (pruneOrphans y desired autoSync) h (λ r h', r.2 = None → clean h').
Proof.
  intros Hh. unfold pruneOrphans. apply (wp_list_clean (ListDeployments _)); [done|].
  intros [deps|e]; [|by apply wp_Ret]. apply wp_bind.
  eapply wp_mono; [apply wp_quiet; [|by apply clean_snoc]|].
  { apply foldPE_respects. intros. apply prune_deployment_quiet. }
  intros [st [e|]] h' Hh'; [by apply wp_Ret|].
  destruct (pv_deletionRequested st); [|by apply prune_config_maps_blocks].
  apply (wp_list_clean (ListDeployments _)); [done|].
  intros [again|e]; [|by apply wp_Ret]. apply prune_config_maps_blocks. by apply clean_snoc.
Qed.

Lemma pruneConflicting_blocks y names h : clean h → wp blocks (pruneConflictingDeployments y names) h (λ _ _, True).
Proof.
  intros Hh. unfold pruneConflictingDeployments. apply (wp_list_clean (ListDeployments _)); [done|].
  intros [deps|e]; [|by apply wp_Ret].
  apply (wp_foldPR _ (λ _ h', clean h')); [by apply clean_snoc| |done].
  intros [] d h' _ Hh'. unfold prune_conflicting_step.
  destruct (_ || _); [by apply wp_Ret|]. destruct (bool_decide (_ ∉ _)).
  - destruct (_ || _); [by apply wp_Ret|]. apply wp_try. unfold checkGlobalStop.
    apply (wp_list_clean ReadGlobal); [done|]. intros g. apply wp_Ret. destruct (stopped g); [done|].
    apply (wp_list_clean (UpdateDeployment _ _)); [done|]. intros [?|e]; apply wp_Ret; simpl; [|done].
    apply clean_snoc. split; [|done]. by apply clean_snoc.
  - apply wp_try. unfold checkGlobalStop.
    apply (wp_list_clean ReadGlobal); [done|]. intros g. apply wp_Ret. destruct (stopped g); [done|].
    apply (wp_bind_invoke _ (DeleteDeployment _)); [intros _; by apply clean_snoc|].
    intros [?|e]; [|destruct (isNotFoundOrGone _); apply wp_Ret; try done; settle].
    apply (wp_list_clean (Observe _)); [done|]. intros ?. apply wp_Ret. settle.
Qed.

(** ** The pass *)
Lemma applyDeployment_gentle d autoSync window node : respects gentle (applyDeployment d autoSync window node).
Proof. unfold applyDeployment, apply_attempt, desiredDeploymentUpdate. safe ltac:(reflexivity || done). Qed.

Lemma applyInlineConfigMaps_gentle y ctx rc autoSync : respects gentle (applyInlineConfigMaps y ctx rc autoSync).
Proof.
  unfold applyInlineConfigMaps, inline_config_step. safe ltac:(reflexivity || done).
  apply wp_CreateOrUpdate; [done| |safe ltac:(reflexivity || done)]. intros. unfold mutate_config_map. safe ltac:(reflexivity || done).
Qed.

Lemma updateStatus_gentle y mutate : (∀ f, respects gentle (mutate f)) → respects gentle (updateStatus y mutate).
Proof. intros Hm. unfold updateStatus, update_status_attempt. safe ltac:(reflexivity || done). Qed.
Lemma degrade_gentle reason message f : respects gentle (degrade reason message f).
Proof. unfold degrade. safe ltac:(reflexivity || done). Qed.
#[local] Hint Resolve updateStatus_gentle degrade_gentle : safety.

Lemma fail_pass_gentle y e : respects gentle (fail_pass y e).
Proof. unfold fail_pass. safe ltac:(reflexivity || done). Qed.
Lemma preflightResources_gentle cfg y nodes enabled on policy owner registry :
  respects gentle (preflightResources cfg y nodes enabled on policy owner registry).
Proof. unfold preflightResources, validateOperatorPlacementTransition, listPlacementProducers. safe ltac:(reflexivity || done). Qed.

(** The outcome of a program that has no deletion to make and always asks for a
    retry. *)
Definition handled (r : outcome) (h : trace) : Prop := retries r ∨ clean h.

Lemma fail_pass_handled y e h : wp blocks (fail_pass y e) h handled.
Proof.
  intros t r Hr. split; [by apply (wp_gentle_any (fail_pass y e) h (fail_pass_gentle y e) t r Hr)|].
  left. left. unfold fail_pass in Hr. apply run_bind_invoke in Hr as (now & t' & _ & Hr).
  apply run_bind in Hr as (? & ? & [? ?] & _ & _ & Hr). destruct Hr as [_ ->]. done.
Qed.

Lemma wp_handled {A} (p : prog A) (k : A → prog outcome) h :
  respects (λ _ c, quiet c) p → clean h → (∀ a h', clean h' → wp blocks (k a) h' handled) → wp blocks (p ≫= k) h handled.
Proof. intros Hp Hh Hk. apply wp_bind. eapply wp_mono; [by apply wp_quiet|]. intros a h'. apply Hk. Qed.

Lemma finish_pass_handled env st services pods h :
  clean h → wp blocks (finish_pass env st services pods) h handled.
Proof.
  intros Hh. unfold finish_pass. apply wp_bind. eapply wp_mono; [by apply pruneOrphans_blocks|].
  intros [pruned [e|]] h1 Hh1.
  - apply (wp_list_clean (Observe _)); [done|]. intros ?.
    apply wp_bind. eapply wp_mono; [apply wp_gentle_any|intros; apply fail_pass_handled].
    destruct (bool_decide _); safe ltac:(reflexivity || done).
  - apply (wp_handled (invoke (Observe _))); [calm|by apply Hh1|]. clear h1 Hh1. intros _ h1 Hh1.
    apply wp_handled; [destruct (bool_decide _); calm|done|]. intros _ h2 Hh2.
    apply (wp_handled (invoke Now)); [calm|done|]. intros now h3 Hh3.
    apply wp_handled; [destruct (pr_RetainedConfigMaps pruned); [apply respects_Ret|apply degrade_quiet]|done|].
    intros y h4 Hh4. apply (wp_handled (invoke (Observe _))); [calm|done|]. clear h4 Hh4. intros _ h4 Hh4.
    apply wp_handled; [apply updateStatus_quiet; intros; apply respects_Ret|done|].
    intros [y' [[]|e]] h5 Hh5; [destruct (lo_syncWaiting st)|]; apply wp_Ret; by right.
Qed.

(** The errors collected so far account for every failure. *)
Definition accounts (st : loop_state) (h : trace) : Prop := lo_errs st = [] → clean h.

Lemma accounts_error e st h : accounts (lo_add_err e st) h.
Proof. intros Hn. simpl in Hn. by apply app_nil in Hn as [_ ?]. Qed.

Lemma reconcile_deployment_accounts env kind on drift node acc d h :
  accounts acc.1 h → wp blocks (reconcile_deployment env kind on drift node acc d) h (λ r h', accounts r.1 h').
Proof.
  destruct acc as [st ns]. intros Hst. unfold reconcile_deployment. apply wp_bind.
  eapply wp_mono; [apply (wp_gentle _ h (λ r, r.2 = None)); [apply applyDeployment_gentle|apply applyDeployment_reports]|].
  intros [[state requeue] err] h' Hh'. cbv zeta. simpl in Hst, Hh'.
  match goal with |- context [ns_set_state _ ?x] => set (state' := x) end.
  match goal with |- context [lo_add_requeue requeue ?x] => set (st' := x) end.
  assert (Ht : accounts st' h').
  { destruct err as [e|]; [intros Hn; unfold st' in Hn; destruct (bool_decide _) in Hn; by apply app_nil in Hn as [_ ?]|].
    intros Hn. apply Hh'; [done|]. apply Hst. unfold st' in Hn. by destruct (bool_decide _) in Hn. }
  destruct (bool_decide (requeue > 0)); [|by apply wp_Ret].
  apply wp_bind. eapply wp_mono; [apply (wp_gentle _ h' (λ _, True))|].
  - safe ltac:(reflexivity || done).
  - intros t r Hr _. eapply quiet_run; [apply record_event_quiet|exact Hr].
  - intros [] h'' Hh''. apply wp_Ret. intros Hn. apply Hh''; [done|]. by apply Ht.
Qed.

Lemma reconcile_ref_accounts env ctx node acc ref h :
  accounts acc.1 h → wp blocks (reconcile_ref env ctx node acc ref) h (λ r h', accounts r.1 h').
Proof.
  destruct acc as [st ns]. intros Hst. unfold reconcile_ref.
  destruct (ResolveBoxComponent _ _ _ _) as [[rc|]|e]; [|apply wp_Ret; by destruct (bool_decide _)|apply wp_Ret, accounts_error].
  destruct (IsColocated rc); [by apply wp_Ret|]. cbv zeta. apply wp_bind.
  eapply wp_mono; [apply (wp_gentle _ h (λ r, ∃ names drift, r = Ok (names, drift))); [apply applyInlineConfigMaps_gentle|]|].
  { intros t r Hr (names & drift & ->). by eapply applyInlineConfigMaps_reports. }
  intros [[names drift]|e] h' Hh'; [|apply wp_Ret, accounts_error].
  assert (Hst' : accounts (lo_add_config_maps names st) h') by (intros Hn; apply Hh'; [by eauto|by apply Hst]).
  destruct (RenderDeployments _ _ _) as [ds|e]; [|apply wp_Ret, accounts_error].
  apply (wp_foldP _ (λ acc h, accounts acc.1 h)); [done| |done]. intros. by apply reconcile_deployment_accounts.
Qed.

Lemma run_pass_handled env nodes enabled plans h :
  clean h → wp blocks (run_pass env nodes enabled plans) h handled.
Proof.
  intros Hh. unfold run_pass. apply wp_bind, (wp_foldPR _ accounts); [by intros _| |].
  - intros st node h' _ Hst. unfold reconcile_node.
    destruct (WithRuntimeNetwork _ _ _) as [ctx|e]; [|apply wp_Ret, wp_Ret; left; by right].
    apply wp_bind, (wp_foldP _ (λ acc h, accounts acc.1 h)); [done| |].
    + intros. by apply reconcile_ref_accounts.
    + intros [st' ns] h'' Hst'. by apply wp_Ret.
  - intros st h' Hst. unfold collectPods. apply wp_bind, (wp_list_clean (ListPods _ _)); [done|].
    intros [pods|e]; apply wp_Ret.
    + destruct (lo_errs st) eqn:El; [|apply fail_pass_handled]. apply finish_pass_handled.
      apply clean_snoc. split; [by apply Hst|done].
    + destruct (lo_errs st); apply fail_pass_handled.
Qed.

Lemma handleYanetDeletion_handled y h : clean h → wp blocks (handleYanetDeletion y) h handled.
Proof.
  intros Hh. unfold handleYanetDeletion. destruct (negb _); [apply wp_Ret; by right|].
  apply wp_handled; [apply record_event_quiet|done|]. intros _ h1 Hh1.
  apply wp_bind. eapply wp_mono; [by apply pruneOrphans_blocks|].
  intros [pruned [e|]] h2 Hh2; [apply wp_Ret; left; by right|]. specialize (Hh2 eq_refl).
  apply (wp_list_clean (ListDeployments _)); [done|]. intros [deps|e]; [|apply wp_Ret; left; by right].
  destruct (existsb _ _); [apply wp_Ret; by left; left|].
  apply wp_handled; [calm|by apply clean_snoc|]. intros [[]|e] h3 Hh3; [|apply wp_Ret; left; by right].
  apply (wp_list_clean (UpdateYanet _)); [done|]. intros [?|e].
  - apply wp_Ret. right. by apply clean_snoc.
  - destruct (IsNotFound e) eqn:En; apply wp_Ret; [right; apply clean_snoc; split; [done|]; simpl; by rewrite En|left; by right].
Qed.

(** A continuation that always asks for a retry only has to be gentle. *)
Lemma wp_retrying {A} (p : prog A) (k : A → prog outcome) h :
  respects gentle p → (∀ a h', wp blocks (k a) h' (λ r _, retries r)) → wp blocks (p ≫= k) h handled.
Proof.
  intros Hp Hk. apply wp_bind. eapply wp_mono; [by apply wp_gentle_any|]. intros a h' _.
  eapply wp_mono; [apply Hk|]. intros r h''. by left.
Qed.

Lemma wp_retry_Ret n err h : 0 < n → wp blocks (Ret (n, err)) h (λ r _, retries r).
Proof. intros Hn. apply wp_Ret. by left. Qed.

Lemma bail_out_handled y reason message h : wp blocks (bail_out y reason message) h handled.
Proof.
  unfold bail_out. apply wp_bind. eapply wp_mono; [apply wp_gentle_any; safe ltac:(reflexivity || done)|]. intros _ h' _.
  apply wp_retrying; [safe ltac:(reflexivity || done)|]. intros. by apply wp_retry_Ret.
Qed.

Lemma validateExclusiveNodes_reports y nodes h :
  clean h → wp blocks (validateExclusiveNodes y nodes) h (λ r h', match r with ExclusivityFailed _ => True | _ => clean h' end).
Proof.
  intros Hh. unfold validateExclusiveNodes. destruct nodes as [|n nodes]; [by apply wp_Ret|].
  apply (wp_list_clean ListYanets); [done|]. intros [ys|e]; [|by apply wp_Ret].
  apply (wp_list_clean (ListDeployments _)); [done|]. intros [deps|e]; [|by apply wp_Ret].
  destruct (exclusive_conflicts _ _ _ _) as [[|c cs] cleanup]; apply wp_Ret; apply clean_snoc; (split; [|done]); by apply clean_snoc.
Qed.

Lemma reconcile_nodes_handled cfg y enabled h : clean h → wp blocks (reconcile_nodes cfg y enabled) h handled.
Proof.
  intros Hh. unfold reconcile_nodes. cbv zeta. apply (wp_list_clean (ListNodes _)); [done|].
  intros [nodes|e]; [|apply wp_Ret; by left; left]. apply wp_bind.
  eapply wp_mono; [by apply validateExclusiveNodes_reports; apply clean_snoc|].
  intros [|e|messages cleanup] h1 Hh1.
  - apply wp_bind. eapply wp_mono.
    { apply (wp_gentle _ h1 (λ r, ∃ plans, r = Ok plans)); [apply preflightResources_gentle|].
      intros t r Hr [plans ->]. by eapply preflightResources_reports. }
    intros [plans|e] h2 Hh2; [by apply run_pass_handled, Hh2; [eexists|]|].
    apply wp_bind. eapply wp_mono; [apply wp_gentle_any; safe ltac:(reflexivity || done)|]. intros _ h3 _.
    apply wp_retrying; [safe ltac:(reflexivity || done)|]. intros [y' r] h4. by apply wp_retry_Ret.
  - apply wp_bind. eapply wp_mono; [apply wp_gentle_any; safe ltac:(reflexivity || done)|]. intros _ h3 _.
    apply wp_retrying; [safe ltac:(reflexivity || done)|]. intros [y' r] h4. apply wp_bind, wp_Ret. by apply wp_retry_Ret.
  - apply wp_handled; [apply record_event_quiet|done|]. intros _ h2 Hh2.
    apply wp_handled; [apply updateStatus_quiet; intros; apply degrade_quiet|done|]. intros [y' r] h3 Hh3.
    apply wp_bind. eapply (wp_mono _ _ _ (λ _ _, True)); [|intros r' h4 _; apply wp_Ret; by left; left].
    destruct (re_autoSync _); [by apply pruneConflicting_blocks|by apply wp_Ret].
Qed.

Lemma add_finalizer_handled y h : clean h → wp blocks (add_finalizer y) h handled.
Proof.
  intros Hh. unfold add_finalizer. apply wp_handled; [calm|done|].
  intros [[]|e] h1 Hh1; [|apply wp_Ret; left; by right].
  apply (wp_list_clean (UpdateYanet _)); [done|]. intros [?|e]; apply wp_Ret; left; [by left|by right].
Qed.

Lemma reconcile_loaded_handled config y h : clean h → wp blocks (reconcile_loaded config y) h handled.
Proof.
  intros Hh. unfold reconcile_loaded, reconcile_config.
  destruct (stopped config); [apply wp_Ret; by right|]. destruct (bool_decide _); [by apply handleYanetDeletion_handled|].
  destruct (negb _); [by apply add_finalizer_handled|]. destruct config as [cfg|]; [|apply bail_out_handled].
  destruct (FindBoxType _ _) as [box|e]; [|apply bail_out_handled].
  destruct (ValidateEffectiveYanetComponentOverrides _ _ _) as [[]|e]; [|apply bail_out_handled].
  destruct (EnabledComponentsForBox _ _) as [enabled|e]; [by apply reconcile_nodes_handled|apply bail_out_handled].
Qed.

Lemma reconcile_body_handled y h : clean h → wp blocks (reconcile_body y) h handled.
Proof.
  intros Hh. unfold reconcile_body. apply wp_handled; [unfold snapshotYanetConfig; calm|done|].
  intros [cfg|] h1 Hh1; [by apply reconcile_loaded_handled|].
  apply (wp_list_clean GetConfig); [done|]. intros [config|e]; [apply reconcile_loaded_handled; by apply clean_snoc|].
  destruct (IsNotFound e) eqn:En; [|apply wp_Ret; left; by right].
  apply reconcile_loaded_handled, clean_snoc. split; [done|]. simpl. by rewrite En.
Qed.

Lemma reconcileYanet_blocks y : wp blocks (reconcileYanet y) [] (λ _ _, True).
Proof.
  unfold reconcileYanet. apply wp_bind. eapply wp_mono; [apply reconcile_body_handled; constructor|].
  intros [requeue err] h _. apply wp_gentle_any. safe ltac:(reflexivity || done).
Qed.
End failures.


(** ** Healthy runs *)

(** No call fails, no stop is read, and a deletion finds its object or finds it
    gone. *)
Definition healthy (ev : event) : Prop :=
  failed ev = false
  ∧ match ev with
    | Ev ReadGlobal global => stopped global = false
    | Ev (DeleteDeployment _) (Err e) | Ev (DeleteConfigMap _) (Err e) => isNotFoundOrGone (Some e) = true
    | _ => True
    end.

Section cleanup.
Context `{MetaLib, ClientUtil, PatchLib, QuantityLib, K8sValidation, MapOrder}.

(** A stop check that reads no stop. *)
Lemma run_check {B} (k : result unit → prog B) t r :
  run (checkGlobalStop ≫= k) t r → Forall healthy t →
  ∃ global t', t = Ev ReadGlobal global :: t' ∧ run (k (Ok tt)) t' r ∧ Forall healthy t'.
Proof.
  intros Hr Hh. apply run_bind in Hr as (t1 & t2 & stop & -> & (g & t3 & -> & -> & ->) & Hr).
  apply Forall_cons in Hh as [[_ Hg] Hh]. simpl in *. rewrite Hg in Hr. eauto.
Qed.

(** A loop whose steps succeed and leave no error behind. *)
Lemma run_foldPE_healthy {S A} (f : S → A → prog (S * option goerror)) (good : S → Prop) (done_ : A → trace → Prop) s l t r :
  run (foldPE f s l) t r → Forall healthy t → good s →
  (∀ s x t r, x ∈ l → run (f s x) t r → Forall healthy t → good s → r.2 = None ∧ good r.1 ∧ done_ x t) →
  (∀ x t t1 t2, done_ x t → done_ x (t1 ++ t ++ t2)) →
  r.2 = None ∧ good r.1 ∧ ∀ x, x ∈ l → done_ x t.
Proof.
  intros Hr Hh Hs Hf Hmono. revert s t Hr Hh Hs. induction l as [|x l IH]; intros s t Hr Hh Hs; simpl in Hr.
  - destruct Hr as [-> ->]. split_and!; [done..|]. intros x Hx. by apply elem_of_nil in Hx.
  - apply run_bind in Hr as (t1 & t2 & [s' e] & -> & Hx & Hr). apply Forall_app in Hh as [Hh1 Hh2].
    destruct (Hf s x t1 (s', e) ltac:(left) Hx Hh1 Hs) as (He & Hs' & Hd). simpl in *. subst e.
    destruct (IH ltac:(intros; eapply Hf; [by right|done..]) s' t2 Hr Hh2 Hs') as (He & Hg & Hl).
    split_and!; [done..|]. intros y [->|Hy]%elem_of_cons.
    + by apply (Hmono x t1 [] t2).
    + rewrite <-(app_nil_r t2). by apply (Hmono y t2 t1 []), Hl.
Qed.

Definition asked (d : Deployment) (t : trace) : Prop := ∃ a, Ev (DeleteDeployment d) a ∈ t.

Lemma deletion_answer_healthy st a :
  pv_firstErr st = None → match a with Ok _ => True | Err e => isNotFoundOrGone (Some e) = true end →
  pv_firstErr (deletion_answer st a) = None.
Proof. intros Hs. unfold deletion_answer. destruct a as [?|e]; [done|]. by intros ->. Qed.

(** An owned orphan that is not terminating is asked to be deleted. *)
Lemma prune_deployment_asks y desired st d t r :
  run (prune_deployment_step y desired true st d) t r → Forall healthy t → pv_firstErr st = None →
  r.2 = None ∧ pv_firstErr r.1 = None
  ∧ (controlledByYanet (d_Meta d) y = true → d_Name d ∉ ds_Deployments desired →
     om_DeletionTimestamp (d_Meta d) = None → asked d t).
Proof.
  intros Hr Hh Hs. unfold prune_deployment_step in Hr. cbn [negb] in Hr.
  destruct (controlledByYanet (d_Meta d) y) eqn:Ec; cbn [negb] in Hr; [|by destruct Hr as [-> ->]].
  case_bool_decide as Hd; [by destruct Hr as [-> ->]|].
  case_bool_decide as Hdt; [destruct Hr as [-> ->]; split_and!; [done..|]; intros _ _ Hn; by rewrite Hn in Hdt; destruct Hdt|].
  apply run_check in Hr as (g & t' & -> & Hr & Hh'); [|done].
  apply (run_bind_invoke (DeleteDeployment d)) in Hr as (a & t2 & -> & [-> ->]).
  apply Forall_cons in Hh' as [[_ Ha] _]. split_and!; [done| |intros; exists a; set_solver].
  cbn [fst]. apply deletion_answer_healthy; [done|by destruct a].
Qed.

Lemma prune_config_map_goes_on y desired referenced pending st c t r :
  run (prune_config_map_step y desired true referenced pending st c) t r → Forall healthy t → pv_firstErr st = None →
  r.2 = None ∧ pv_firstErr r.1 = None.
Proof.
  intros Hr Hh Hs. unfold prune_config_map_step in Hr. cbn [negb] in Hr.
  repeat match type of Hr with run (if ?b then _ else _) _ _ => destruct b; [by destruct Hr as [-> ->]|] end.
  apply run_check in Hr as (g & t' & -> & Hr & Hh'); [|done].
  apply (run_bind_invoke (DeleteConfigMap c)) in Hr as (a & t2 & -> & [-> ->]).
  apply Forall_cons in Hh' as [[_ Ha] _]. split; [done|]. cbn [fst]. apply deletion_answer_healthy; [done|by destruct a].
Qed.

Lemma prune_config_maps_goes_on y desired deps st t r :
  run (prune_config_maps y desired true deps st) t r → Forall healthy t → pv_firstErr st = None → r.2 = None.
Proof.
  intros Hr Hh Hs. unfold prune_config_maps in Hr.
  apply (run_bind_invoke (ListConfigMaps _ _)) in Hr as (a & t1 & -> & Hr). apply Forall_cons in Hh as [[Ha _] Hh].
  destruct a as [cms|e]; [|done].
  apply run_bind in Hr as (t2 & t3 & pods & -> & Hp & Hr). apply Forall_app in Hh as [Hh2 Hh3].
  destruct pods as [pods|e].
  - apply run_bind in Hr as (t4 & t5 & [st' err] & -> & Hf & [-> ->]). apply Forall_app in Hh3 as [Hh4 _].
    destruct (run_foldPE_healthy _ (λ st, pv_firstErr st = None) (λ _ _, True) _ _ _ _ Hf Hh4 Hs) as (He & Hg & _); [|done|].
    + intros s x t r _ Hx Hht Hsx. destruct (prune_config_map_goes_on _ _ _ _ _ _ _ _ Hx Hht Hsx). done.
    + simpl in *. by rewrite He, Hg.
  - exfalso. destruct cms; [by destruct Hp as [_ ?]|]. destruct Hp as (a & t' & -> & -> & <-).
    apply Forall_cons in Hh2 as [[Hf _] _]. done.
Qed.

Lemma pruneOrphans_complete y desired t r :
  run (pruneOrphans y desired true) t r → Forall healthy t →
  r.2 = None ∧ ∃ deps, Ev (ListDeployments (Some (y_Namespace y))) (Ok deps) ∈ t
    ∧ ∀ d, d ∈ deps → controlledByYanet (d_Meta d) y = true → d_Name d ∉ ds_Deployments desired →
        om_DeletionTimestamp (d_Meta d) = None → asked d t.
Proof.
  intros Hr Hh. unfold pruneOrphans in Hr.
  apply (run_bind_invoke (ListDeployments _)) in Hr as (a & t1 & -> & Hr). apply Forall_cons in Hh as [[Ha _] Hh].
  destruct a as [deps|e]; [|done]. apply run_bind in Hr as (t2 & t3 & [st early] & -> & Hf & Hr).
  apply Forall_app in Hh as [Hh2 Hh3].
  destruct (run_foldPE_healthy _ (λ st, pv_firstErr st = None) (λ d t, controlledByYanet (d_Meta d) y = true →
    d_Name d ∉ ds_Deployments desired → om_DeletionTimestamp (d_Meta d) = None → asked d t) _ _ _ _ Hf Hh2 eq_refl)
    as (He & Hg & Hall).
  { intros s x t r' _ Hx Hht Hs. by eapply prune_deployment_asks. }
  { intros x t u v Hx Hx1 Hx2 Hx3. destruct (Hx Hx1 Hx2 Hx3) as [a Hin]. exists a. set_solver. }
  simpl in He, Hg. subst early. split.
  - destruct (pv_deletionRequested st); [|by eapply prune_config_maps_goes_on].
    apply (run_bind_invoke (ListDeployments _)) in Hr as (a & t4 & -> & Hr). apply Forall_cons in Hh3 as [[Hb _] Hh4].
    destruct a as [again|e]; [|done]. by eapply prune_config_maps_goes_on.
  - exists deps. split; [set_solver|]. intros d Hd Hd1 Hd2 Hd3. destruct (Hall d Hd Hd1 Hd2 Hd3) as [a Hin]. exists a. set_solver.
Qed.
End cleanup.


(** C20: finalization completes.  A deletion pass over an installation that carries the
    finalizer, in which no call fails and no stop is read, asks for the deletion of every
    Deployment of the installation its listing shows that is not already terminating;
    then either its last listing still shows one, and the pass is repeated in five
    seconds, or its last call removes the finalizer, and the pass is over. *)
Theorem finalization_completes `{MetaLib, ClientUtil, PatchLib, QuantityLib, K8sValidation, MapOrder}
    (yanet : Yanet) (t : trace) (r : outcome) :
  run (handleYanetDeletion yanet) t r → Forall healthy t →
  ContainsFinalizer (om_Finalizers (y_Meta yanet)) yanetFinalizer = true →
  (∃ deps, Ev (ListDeployments (Some (y_Namespace yanet))) (Ok deps) ∈ t
     ∧ ∀ d, d ∈ deps → controlledByYanet (d_Meta d) yanet = true → om_DeletionTimestamp (d_Meta d) = None →
         ∃ a, Ev (DeleteDeployment d) a ∈ t)
  ∧ (r = (seconds 5, None)
       ∧ (∃ live d, last t = Some (Ev (ListDeployments (Some (y_Namespace yanet))) (Ok live)) ∧ d ∈ live
            ∧ controlledByYanet (d_Meta d) yanet = true)
     ∨ r = (0, None)
       ∧ ∃ a, last t = Some (Ev (UpdateYanet (set_y_Meta (set_om_Finalizers
               (RemoveFinalizer (om_Finalizers (y_Meta yanet)) yanetFinalizer) (y_Meta yanet)) yanet)) a)).
Proof.
  intros Hr Hh Hfin. unfold handleYanetDeletion in Hr. rewrite Hfin in Hr. cbn [negb] in Hr.
  apply run_bind in Hr as (t1 & t2 & _ & -> & _ & Hr). apply Forall_app in Hh as [_ Hh].
  apply run_bind in Hr as (t3 & t4 & [pruned err] & -> & Hp & Hr). apply Forall_app in Hh as [Hh3 Hh].
  destruct (pruneOrphans_complete _ _ _ _ Hp Hh3) as (He & deps & Hdeps & Hall). simpl in He. subst err.
  apply (run_bind_invoke (ListDeployments _)) in Hr as (a & t5 & -> & Hr). apply Forall_cons in Hh as [[Ha _] Hh].
  destruct a as [live|e]; [|done]. split.
  - exists deps. split; [set_solver|]. intros d Hd Hc Hdt. destruct (Hall d Hd Hc) as [a Hin]; [set_solver|done|].
    exists a. set_solver.
  - destruct (existsb _ live) eqn:Ex.
    + destruct Hr as [-> ->]. left. split; [done|]. apply List.existsb_exists in Ex as (d & Hd & Hc).
      exists live, d. rewrite app_assoc, last_snoc. by rewrite list_elem_of_In.
    + apply run_check in Hr as (g & t' & -> & Hr & Hh'); [|done].
      apply (run_bind_invoke (UpdateYanet _)) in Hr as (a & t6 & -> & Hr). apply Forall_cons in Hh' as [[Hf _] _].
      assert (r = (0, None) ∧ t6 = []) as [-> ->].
      { destruct a as [?|e]; [by destruct Hr as [-> ->]|]. simpl in Hf. apply negb_false_iff in Hf. rewrite Hf in Hr.
        by destruct Hr as [-> ->]. }
      right. split; [done|]. exists a. by rewrite !last_app.
Qed.

Import Concrete.

(** A server that refuses new Deployments, and a cluster with an orphan. *)
Definition refusing_serve (k : Fake.cluster) (c : call) : Fake.cluster * answer c :=
  match c with
  | CreateDeployment _ => (k, Err (APIError ReasonOther "exceeded quota"))
  | c => Fake.serve k c
  end.
Definition refusing_server : handler Fake.cluster := MkHandler _ refusing_serve.
Definition full_cluster : Fake.cluster := Fake.with_deployments (Fake.small true None) [Fake.orphan_deployment].
Definition refused := exec refusing_server full_cluster (reconcileYanet (Fake.small_yanet true None)).


(** Finalization of an installation that left a Deployment behind, and once the
    Deployment is gone. *)
Definition going : Yanet := Fake.small_yanet true (Some 100).
Definition first_pass := exec Fake.server (Fake.leftover (Some 100)) (handleYanetDeletion going).

Lemma finalization_completes_witness :
  ∃ deps, Ev (ListDeployments (Some "yanet")) (Ok deps) ∈ first_pass.1.2
    ∧ ∀ d, d ∈ deps → controlledByYanet (d_Meta d) going = true → om_DeletionTimestamp (d_Meta d) = None →
        ∃ a, Ev (DeleteDeployment d) a ∈ first_pass.1.2.
Proof.
  apply (finalization_completes going first_pass.1.2 first_pass.2).
  - exact (exec_run _ _ _).
  - vm_compute. repeat constructor.
  - vm_compute. reflexivity.
Defined.
