(* ===== verification/StatusSpec.v ===== *)
(** * Conditions, sync status and the update throttle *)

From S2P Require Import Prelude GoLib K8s Api Resolve Labels Builder Service Metrics Program Managed YanetController.
From S2P Require Import Reconciler Reconcile Instances SafetySpec.
#[local] Open Scope Z_scope.

(** ** Conditions *)

Lemma elem_of_mergeConditions existing fresh c :
  c ∈ mergeConditions existing fresh ↔
  (∃ nc, nc ∈ fresh ∧ c = keep_transition (foldl (λ m c, <[cd_Type c := c]> m) ∅ existing) nc)
  ∨ (c ∈ existing ∧ cd_Type c ∉ cd_Type <$> fresh).
Proof.
  unfold mergeConditions. rewrite elem_of_app, list_elem_of_fmap, list_elem_of_filter, elem_of_list_to_set.
  split; intros [(nc & ? & ?)|[? ?]]; eauto.
Qed.

Lemma keep_transition_same byType nc :
  cd_Type (keep_transition byType nc) = cd_Type nc
  ∧ cd_Status (keep_transition byType nc) = cd_Status nc
  ∧ cd_Reason (keep_transition byType nc) = cd_Reason nc
  ∧ cd_Message (keep_transition byType nc) = cd_Message nc
  ∧ cd_ObservedGeneration (keep_transition byType nc) = cd_ObservedGeneration nc.
Proof. unfold keep_transition. destruct (byType !! _); [|done]. by destruct (_ && _). Qed.

(** With one condition per type, [byType] finds the old condition. *)
Lemma by_type_lookup (existing : list Condition) c (m : gmap string Condition) :
  NoDup (cd_Type <$> existing) → c ∈ existing →
  foldl (λ m c, <[cd_Type c := c]> m) m existing !! cd_Type c = Some c.
Proof.
  revert m. induction existing as [|x l IH]; intros m Hnd Hc; [set_solver|]. simpl.
  inversion Hnd as [|? ? Hni Hnd']; subst. apply elem_of_cons in Hc as [->|Hc]; [|by apply IH].
  clear IH Hnd Hnd'. assert (Hm : (<[cd_Type x := x]> m) !! cd_Type x = Some x) by apply lookup_insert_eq.
  revert Hm. generalize (<[cd_Type x := x]> m). induction l as [|z l IH]; intros m' Hm; [done|].
  simpl. apply IH; [set_solver|]. rewrite lookup_insert_ne; [done|set_solver].
Qed.

(** A type without an old condition finds none. *)
Lemma by_type_none (existing : list Condition) (m : gmap string Condition) type :
  type ∉ cd_Type <$> existing → m !! type = None →
  foldl (λ m c, <[cd_Type c := c]> m) m existing !! type = None.
Proof.
  revert m. induction existing as [|x l IH]; intros m Hn Hm; [done|]. simpl in *.
  apply not_elem_of_cons in Hn as [Hx Hn]. apply IH; [done|]. by rewrite lookup_insert_ne.
Qed.

(** An overlaid condition keeps the fresh type. *)
Lemma merged_types existing fresh :
  cd_Type <$> mergeConditions existing fresh =
  (cd_Type <$> fresh) ++ (cd_Type <$> filter (λ oc, cd_Type oc ∉ (list_to_set (cd_Type <$> fresh) : gset string)) existing).
Proof.
  unfold mergeConditions. rewrite fmap_app, <-list_fmap_compose. f_equal. apply list_fmap_ext.
  intros _ nc _. apply keep_transition_same.
Qed.

(** C38: overlaying fresh conditions on the existing ones yields one condition per type; conditions
    of types that are not fresh are kept unchanged and nothing else is added; every fresh condition
    is there with its own status, reason, message and generation, and its LastTransitionTime is the
    old one exactly when the old condition of that type had the same status and reason (the fresh
    one otherwise, and when there was no such condition). *)
Theorem transition_times_are_stable existing fresh :
  NoDup (cd_Type <$> existing) → NoDup (cd_Type <$> fresh) →
  NoDup (cd_Type <$> mergeConditions existing fresh)
  ∧ (∀ c, cd_Type c ∉ cd_Type <$> fresh → c ∈ mergeConditions existing fresh ↔ c ∈ existing)
  ∧ (∀ nc, nc ∈ fresh → ∃ c, c ∈ mergeConditions existing fresh ∧ cd_Type c = cd_Type nc
      ∧ cd_Status c = cd_Status nc ∧ cd_Reason c = cd_Reason nc ∧ cd_Message c = cd_Message nc
      ∧ cd_ObservedGeneration c = cd_ObservedGeneration nc
      ∧ (cd_Type nc ∉ cd_Type <$> existing → cd_LastTransitionTime c = cd_LastTransitionTime nc)
      ∧ ∀ old, old ∈ existing → cd_Type old = cd_Type nc →
          cd_LastTransitionTime c =
            (if decide (cd_Status old = cd_Status nc ∧ cd_Reason old = cd_Reason nc)
             then cd_LastTransitionTime old else cd_LastTransitionTime nc)).
Proof.
  intros Hne Hnf. split_and!.
  - rewrite merged_types. apply NoDup_app. split_and!; [done| |].
    + intros x Hx (c & -> & Hc)%list_elem_of_fmap. apply list_elem_of_filter in Hc as [Hc _].
      apply Hc, elem_of_list_to_set, Hx.
    + eapply sublist_NoDup; [exact Hne|]. apply fmap_sublist, sublist_filter.
  - intros c Hc. rewrite elem_of_mergeConditions. split; [|by right]. intros [(nc & Hnc & ->)|[? _]]; [|done].
    destruct Hc. destruct (keep_transition_same (foldl (λ m c, <[cd_Type c := c]> m) ∅ existing) nc) as [-> _].
    by apply list_elem_of_fmap_2.
  - intros nc Hnc. set (byType := foldl (λ m c, <[cd_Type c := c]> m) ∅ existing : gmap string Condition).
    exists (keep_transition byType nc). destruct (keep_transition_same byType nc) as (? & ? & ? & ? & ?).
    split_and!; [apply elem_of_mergeConditions; left; by exists nc|done..| |].
    + intros Hni. unfold keep_transition, byType. by rewrite (by_type_none existing ∅).
    + intros old Hold Ht. unfold keep_transition.
      rewrite <-Ht. unfold byType. rewrite (by_type_lookup existing old ∅) by done.
      repeat case_bool_decide; simpl; rewrite ?decide_True, ?decide_False by tauto; done.
Qed.

Definition cond (type status reason : string) (at_ : Z) : Condition := MkCondition type status 1 at_ reason "".

(** A repeated Ready keeps its time, a changed Degraded takes the new one, a foreign type stays. *)
Lemma transition_times_are_stable_witness :
  let existing := [cond "Custom" "True" "X" 1; cond "Ready" "True" "AllChecksPassed" 5; cond "Degraded" "True" "E" 6] in
  let fresh := [cond "Ready" "True" "AllChecksPassed" 9; cond "Degraded" "False" "Healthy" 9] in
  cond "Custom" "True" "X" 1 ∈ mergeConditions existing fresh
  ∧ (∃ c, c ∈ mergeConditions existing fresh ∧ cd_Type c = "Ready" ∧ cd_LastTransitionTime c = 5)
  ∧ (∃ c, c ∈ mergeConditions existing fresh ∧ cd_Type c = "Degraded" ∧ cd_LastTransitionTime c = 9).
Proof.
  intros existing fresh.
  destruct (transition_times_are_stable existing fresh) as (_ & Hkeep & Hfresh);
    [repeat constructor; set_solver|repeat constructor; set_solver|].
  split_and!.
  - apply Hkeep; [vm_compute; set_solver|left].
  - destruct (Hfresh (cond "Ready" "True" "AllChecksPassed" 9)) as (c & Hc & Ht & _ & _ & _ & _ & _ & Hold); [left|].
    exists c. rewrite (Hold (cond "Ready" "True" "AllChecksPassed" 5)) by (done || (right; left)). done.
  - destruct (Hfresh (cond "Degraded" "False" "Healthy" 9)) as (c & Hc & Ht & _ & _ & _ & _ & _ & Hold); [right; left|].
    exists c. rewrite (Hold (cond "Degraded" "True" "E" 6)) by (done || (right; right; left)). done.
Defined.

(** The Ready condition against the aggregated lists. *)
Lemma ready_iff_lists_empty yanet missing now c :
  c ∈ computeConditions yanet missing now → cd_Type c = "Ready" →
  let sync := st_Sync (y_Status yanet) in
  cd_Status c = ConditionTrue ↔
  sy_Error sync = [] ∧ sy_OutOfSync sync = [] ∧ sy_SyncWaiting sync = [] ∧ missing = ∅.
Proof.
  intros Hc Ht sync. unfold computeConditions in Hc.
  apply elem_of_mergeConditions in Hc as [(nc & Hin & ->)|[_ Hni]].
  2:{ exfalso. apply Hni. rewrite Ht. simpl.
      unfold available_condition, progressing_condition, degraded_condition, ready_condition.
      repeat case_match; set_solver. }
  match type of Ht with cd_Type (keep_transition ?m nc) = _ =>
    destruct (keep_transition_same m nc) as (E1 & -> & _) end.
  rewrite E1 in Ht. fold sync in Hin.
  rewrite !elem_of_cons in Hin.
  assert (Hsplit : nc = ready_condition (om_Generation (y_Meta yanet)) now
    (available_condition (om_Generation (y_Meta yanet)) now sync)
    (progressing_condition (om_Generation (y_Meta yanet)) now sync)
    (degraded_condition (om_Generation (y_Meta yanet)) now sync missing)).
  { destruct Hin as [->|[->|[->|[->|?%elem_of_nil]]]]; try done; exfalso; revert Ht;
      unfold available_condition, progressing_condition, degraded_condition; repeat case_match; done. }
  rewrite Hsplit. unfold ready_condition, available_condition, progressing_condition, degraded_condition.
  destruct (decide (missing = ∅)) as [Em|Em];
    [rewrite (bool_decide_false (missing ≠ ∅)) by (by intros [])|rewrite (bool_decide_true (missing ≠ ∅)) by done];
    destruct (sy_Error sync), (sy_OutOfSync sync), (sy_SyncWaiting sync);
    (split; [intros Hs; vm_compute in Hs; try discriminate Hs|intros (? & ? & ? & ?)]; done).
Qed.

(** ** Sync status *)
Section sync.
Context `{MapOrder}.

(** The bucket a state belongs to. *)
Definition bucket (state : string) (s : SyncStatus) : list string :=
  if decide (state = "synced") then sy_Synced s
  else if decide (state = "sync-waiting") then sy_SyncWaiting s
  else if decide (state = "error") then sy_Error s
  else sy_OutOfSync s.

Definition states : list string := ["synced"; "sync-waiting"; "error"; "out-of-sync"].

Definition class_of (state : string) : string :=
  if decide (state = "synced") then "synced"
  else if decide (state = "sync-waiting") then "sync-waiting"
  else if decide (state = "error") then "error" else "out-of-sync".

Lemma bucket_add out name state b :
  b ∈ states → bucket b (add_state out name state) = bucket b out ++ (if decide (class_of state = b) then [name] else []).
Proof.
  intros Hb. unfold states in Hb. rewrite !elem_of_cons, elem_of_nil in Hb.
  unfold add_state, class_of, bucket.
  destruct Hb as [->|[->|[->|[->|[]]]]]; repeat (case_bool_decide || case_decide); simplify_eq;
    simpl; rewrite ?app_nil_r; done.
Qed.

Lemma bucket_add_list b out (l : list (string * string)) x :
  b ∈ states →
  x ∈ bucket b (foldl (λ out nv, add_state out nv.1 nv.2) out l) ↔
  x ∈ bucket b out ∨ ∃ state, (x, state) ∈ l ∧ class_of state = b.
Proof.
  intros Hb. revert out. induction l as [|[n s] l IH]; intros out; simpl.
  { split; [by left|]. intros [?|(? & ?%elem_of_nil & _)]; done. }
  rewrite IH, bucket_add, elem_of_app by done. simpl. setoid_rewrite elem_of_cons.
  case_decide as E; [|].
  - rewrite list_elem_of_singleton. naive_solver.
  - rewrite elem_of_nil. naive_solver.
Qed.

Lemma bucket_add_nodes b out (l : list (string * NodeStatus)) x :
  b ∈ states →
  x ∈ bucket b (foldl (λ out kv, foldl (λ out nv, add_state out nv.1 nv.2) out (map_range (ns_Deployments kv.2))) out l) ↔
  x ∈ bucket b out ∨ ∃ node ns state, (node, ns) ∈ l ∧ ns_Deployments ns !! x = Some state ∧ class_of state = b.
Proof.
  intros Hb. revert out. induction l as [|[n s] l IH]; intros out; simpl.
  { split; [by left|]. intros [?|(? & ? & ? & ?%elem_of_nil & _)]; done. }
  rewrite IH, bucket_add_list by done. setoid_rewrite elem_of_map_range. setoid_rewrite elem_of_cons.
  naive_solver.
Qed.
End sync.

(** A name is listed in a bucket exactly when some node reports it in a state of
    that class, and each list is sorted. *)
Lemma sync_status_partition `{MapOrder} (byNode : gmap string NodeStatus) b x :
  b ∈ states →
  (x ∈ bucket b (aggregateSyncStatus byNode) ↔
   ∃ node ns state, byNode !! node = Some ns ∧ ns_Deployments ns !! x = Some state ∧ class_of state = b)
  ∧ Sorted String.le (bucket b (aggregateSyncStatus byNode)).
Proof.
  intros Hb. unfold aggregateSyncStatus.
  set (out := foldl _ _ (map_range byNode)).
  assert (Hbk : bucket b (MkSyncStatus (sort_strings (sy_Synced out)) (sort_strings (sy_OutOfSync out))
      (sort_strings (sy_SyncWaiting out)) (sort_strings (sy_Error out)) (sy_Disabled out)) =
    sort_strings (bucket b out)).
  { unfold bucket. by repeat case_decide. }
  rewrite Hbk. split; [|apply sort_strings_sorted].
  rewrite elem_of_sort_strings. unfold out. rewrite bucket_add_nodes by done.
  setoid_rewrite elem_of_map_range.
  assert (Hnil : x ∉ bucket b (MkSyncStatus [] [] [] [] [])) by (unfold bucket; repeat case_decide; set_solver).
  naive_solver.
Qed.

Lemma bucket_empty `{MapOrder} byNode b :
  b ∈ states →
  bucket b (aggregateSyncStatus byNode) = [] ↔
  ∀ node ns name state, byNode !! node = Some ns → ns_Deployments ns !! name = Some state → class_of state ≠ b.
Proof.
  intros Hb. split.
  - intros E node ns name state Hn Hs Hc. apply (elem_of_nil name). rewrite <-E.
    apply sync_status_partition; [done|]. by exists node, ns, state.
  - intros Hall. apply elem_of_nil_inv. intros x Hx.
    apply sync_status_partition in Hx as (node & ns & state & Hn & Hs & Hc); [|done]. by eapply Hall.
Qed.

(** The Ready condition computed from a pass over the nodes. *)
Lemma computed_ready `{MapOrder} (yanet : Yanet) (byNode : gmap string NodeStatus) (services : list string)
    (pods : gmap string (list string)) (missing : gset string) (now : Z) (c : Condition) :
  c ∈ computeConditions (pass_status yanet byNode services pods) missing now → cd_Type c = "Ready" →
  cd_Status c = ConditionTrue ↔
  (∀ node ns name state, byNode !! node = Some ns → ns_Deployments ns !! name = Some state → state = "synced")
  ∧ missing = ∅.
Proof.
  intros Hc Ht. rewrite (ready_iff_lists_empty _ _ _ _ Hc Ht). simpl.
  pose proof (bucket_empty byNode "error" ltac:(set_solver)) as He.
  pose proof (bucket_empty byNode "out-of-sync" ltac:(set_solver)) as Ho.
  pose proof (bucket_empty byNode "sync-waiting" ltac:(set_solver)) as Hw.
  change (bucket "error" (aggregateSyncStatus byNode)) with (sy_Error (aggregateSyncStatus byNode)) in He.
  change (bucket "out-of-sync" (aggregateSyncStatus byNode)) with (sy_OutOfSync (aggregateSyncStatus byNode)) in Ho.
  change (bucket "sync-waiting" (aggregateSyncStatus byNode)) with (sy_SyncWaiting (aggregateSyncStatus byNode)) in Hw.
  rewrite He, Ho, Hw. split.
  - intros (H1 & H2 & H3 & ->). split; [|done]. intros node ns name state Hn Hs.
    specialize (H1 _ _ _ _ Hn Hs). specialize (H2 _ _ _ _ Hn Hs). specialize (H3 _ _ _ _ Hn Hs).
    unfold class_of in *. repeat case_decide; done.
  - intros [Hall ->]. split_and!; [..|done]; intros node ns name state Hn Hs; by rewrite (Hall _ _ _ _ Hn Hs).
Qed.

(** A fresh condition is published under its type. *)
Lemma merged_has existing fresh nc :
  nc ∈ fresh → ∃ c, c ∈ mergeConditions existing fresh ∧ cd_Type c = cd_Type nc.
Proof.
  intros Hnc. eexists. split; [apply elem_of_mergeConditions; left; eauto|]. apply keep_transition_same.
Qed.

Lemma computed_has_ready `{MapOrder} yanet missing now :
  ∃ c, c ∈ computeConditions yanet missing now ∧ cd_Type c = "Ready".
Proof.
  unfold computeConditions. edestruct merged_has as (c & Hc & Ht); [right; right; right; left|].
  exists c. split; [exact Hc|]. rewrite Ht. unfold ready_condition. by case_match.
Qed.

(** A degraded status is never Ready. *)
Lemma degraded_has_ready y reason message now :
  ∃ c, c ∈ st_Conditions (y_Status (setConditionsDegraded y reason message now)) ∧ cd_Type c = "Ready".
Proof. unfold setConditionsDegraded. simpl. edestruct merged_has as (c & Hc & Ht); [right; left|]. by exists c. Qed.

Lemma degraded_not_ready y reason message now c :
  c ∈ st_Conditions (y_Status (setConditionsDegraded y reason message now)) → cd_Type c = "Ready" →
  cd_Status c ≠ ConditionTrue.
Proof.
  unfold setConditionsDegraded. simpl. intros [(nc & Hnc & ->)|[_ Hni]]%elem_of_mergeConditions Ht;
    [|by destruct Hni; rewrite Ht; right; left].
  match type of Ht with cd_Type (keep_transition ?m nc) = _ =>
    destruct (keep_transition_same m nc) as (E1 & -> & _) end.
  rewrite E1 in Ht. apply elem_of_cons in Hnc as [->|Hnc%list_elem_of_singleton]; [done|]. by subst nc.
Qed.

(** ** What is published *)
Definition published (P : YanetStatus → Prop) (_ : trace) (c : call) : Prop :=
  match c with UpdateYanetStatus w => P (y_Status w) | _ => True end.

Definition ready_means (status : YanetStatus) (P : Prop) : Prop :=
  (∃ c, c ∈ st_Conditions status ∧ cd_Type c = "Ready")
  ∧ ∀ c, c ∈ st_Conditions status → cd_Type c = "Ready" → cd_Status c = ConditionTrue ↔ P.

(** Every Deployment a status reports, node by node, is synced. *)
Definition all_synced (status : YanetStatus) : Prop :=
  ∀ node ns name state, st_NodesStatus status !! node = Some ns → ns_Deployments ns !! name = Some state →
    state = "synced".

Lemma degraded_means_not_ready y reason message now P :
  ¬ P → ready_means (y_Status (setConditionsDegraded y reason message now)) P.
Proof.
  intros HP. split; [apply degraded_has_ready|]. intros c Hc Ht.
  pose proof (degraded_not_ready _ _ _ _ _ Hc Ht). tauto.
Qed.

Section publish.
Context `{MetaLib, ClientUtil, MapOrder}.
Ltac quiet := safe ltac:(first [exact I | done]).

(** [updateStatus] publishes what its closure makes of the fresh object. *)
Lemma updateStatus_published (P : YanetStatus → Prop) y mutate :
  (∀ fresh h, wp (published P) (mutate fresh) h (λ y' _, P (y_Status y'))) →
  respects (published P) (updateStatus y mutate).
Proof.
  intros Hm h. unfold updateStatus. apply (wp_retry _ (λ _ _, True)); [done|]. intros s h' _.
  unfold update_status_attempt. apply (wp_bind_invoke _ (GetYanet _ _)); [done|].
  intros [fresh|e]; [|by apply wp_Ret]. apply wp_bind. eapply wp_mono; [apply Hm|]. intros y' h'' HP.
  case_bool_decide; [by apply wp_Ret|]. quiet.
Qed.

Lemma prune_deployment_published P y desired autoSync st d :
  respects (published P) (prune_deployment_step y desired autoSync st d).
Proof. unfold prune_deployment_step. quiet. Qed.
Lemma prune_config_map_published P y desired autoSync referenced pending st c :
  respects (published P) (prune_config_map_step y desired autoSync referenced pending st c).
Proof. unfold prune_config_map_step. quiet. Qed.
#[local] Hint Resolve prune_deployment_published prune_config_map_published foldPE_respects : safety.
Lemma pruneOrphans_published P y desired autoSync : respects (published P) (pruneOrphans y desired autoSync).
Proof. unfold pruneOrphans, prune_config_maps. quiet. Qed.
#[local] Hint Resolve pruneOrphans_published : safety.

Lemma written_published (P : YanetStatus → Prop) y status :
  P status → respects (published P) (updateStatus y (λ fresh, Ret (set_y_Status status fresh))).
Proof. intros HP. apply updateStatus_published. intros fresh h. by apply wp_Ret. Qed.

Lemma degrade_published (P : YanetStatus → Prop) reason message fresh h :
  (∀ y now, P (y_Status (setConditionsDegraded y reason message now))) →
  wp (published P) (degrade reason message fresh) h (λ y' _, P (y_Status y')).
Proof. intros HP. unfold degrade. apply (wp_bind_invoke _ Now); [done|]. intros now. by apply wp_Ret. Qed.

(** What a finished pass publishes once its orphans are pruned. *)
Definition pass_ready (st : loop_state) (retained : list string) (err : option goerror) (status : YanetStatus) : Prop :=
  ready_means status (all_synced status ∧ lo_missing st = ∅ ∧ retained = [] ∧ err = None).

Lemma fail_pass_published (P : YanetStatus → Prop) y e :
  (∀ reason message now, P (y_Status (setConditionsDegraded y reason message now))) →
  respects (published P) (fail_pass y e).
Proof.
  intros HP h. unfold fail_pass. apply (wp_bind_invoke _ Now); [done|]. intros now.
  apply wp_bind, wp_respects; [by apply written_published|]. intros [? ?] h'. by apply wp_Ret.
Qed.

Lemma finish_pass_published env st services pods (P : YanetStatus → Prop) t r :
  run (finish_pass env st services pods) t r →
  (∀ tp pruned err, tp `prefix_of` t → run (pruneOrphans (re_yanet env) (lo_desired st) (re_autoSync env)) tp (pruned, err) →
     ∀ status, pass_ready st (pr_RetainedConfigMaps pruned) err status → P status) →
  calls_ok (published P) [] t.
Proof.
  unfold finish_pass. intros (tp & rest & [pruned err] & -> & Hp & Hr)%run_bind HP.
  apply calls_ok_app. split; [exact (proj1 (pruneOrphans_published P _ _ _ [] tp _ Hp))|].
  specialize (HP tp pruned err (prefix_app_r _ _ _ (reflexivity _)) Hp).
  refine (proj1 ((_ : wp (published P) _ _ (λ _ _, True)) rest r Hr)).
  apply (wp_bind_invoke _ (Observe _)); [done|]. intros u. apply wp_bind, wp_respects; [quiet|]. intros _ h1.
  destruct err as [e|].
  { apply wp_respects; [|done]. apply fail_pass_published. intros reason message now. apply HP.
    apply degraded_means_not_ready. by intros (_ & _ & _ & ?). }
  apply (wp_bind_invoke _ Now); [done|]. intros now. apply wp_bind.
  apply (wp_mono _ _ _ (λ y2 _, pass_ready st (pr_RetainedConfigMaps pruned) None (y_Status y2))).
  - destruct (pr_RetainedConfigMaps pruned) eqn:Er.
    + apply wp_Ret. split; [apply computed_has_ready|]. intros c Hc Ht.
      rewrite (computed_ready _ _ _ _ _ _ _ Hc Ht). split; [by intros [? ->]|by intros (? & -> & _)].
    + unfold degrade. apply (wp_bind_invoke _ Now); [done|]. intros now'. apply wp_Ret.
      apply degraded_means_not_ready. by intros (_ & _ & ? & _).
  - intros y2 h3 Hy2. apply (wp_bind_invoke _ (Observe _)); [done|]. intros u1.
    apply wp_bind, wp_respects; [by apply written_published, HP|].
    intros [y3 [[]|e]] h4; [destruct (lo_syncWaiting st)|]; by apply wp_Ret.
Qed.
End publish.

(** C35: every status that a finished pass publishes has a Ready condition, and it is True exactly
    when every Deployment that the published status reports for any node is synced (not in error,
    missing, orphaned or otherwise out of sync, nor waiting for the update window), no operator of
    the box type was missing from the palette, and pruning the orphans neither failed nor retained
    a ConfigMap. *)
Theorem ready_iff_all_synced `{MetaLib, ClientUtil, MapOrder}
    (env : reconcile_env) (st : loop_state) (services : list string) (pods : gmap string (list string))
    (t : trace) (r : outcome) (written : Yanet) (answer : result Yanet) :
  run (finish_pass env st services pods) t r → Ev (UpdateYanetStatus written) answer ∈ t →
  ∃ pruning rest pruned err,
    t = pruning ++ rest ∧ run (pruneOrphans (re_yanet env) (lo_desired st) (re_autoSync env)) pruning (pruned, err)
    ∧ (∃ c, c ∈ st_Conditions (y_Status written) ∧ cd_Type c = "Ready")
    ∧ ∀ c, c ∈ st_Conditions (y_Status written) → cd_Type c = "Ready" →
        cd_Status c = ConditionTrue ↔
        (∀ node ns name state, st_NodesStatus (y_Status written) !! node = Some ns →
           ns_Deployments ns !! name = Some state → state = "synced")
        ∧ lo_missing st = ∅ ∧ pr_RetainedConfigMaps pruned = [] ∧ err = None.
Proof.
  intros Hr (t1 & t2 & Et)%list_elem_of_split.
  apply (finish_pass_published _ _ _ _ (λ status, ∃ pruning rest pruned err, t = pruning ++ rest
    ∧ run (pruneOrphans (re_yanet env) (lo_desired st) (re_autoSync env)) pruning (pruned, err)
    ∧ pass_ready st (pr_RetainedConfigMaps pruned) err status)) in Hr as Hc.
  - exact (Hc t1 _ t2 Et).
  - intros tp pruned err [rest ->] Hp status Hs. by exists tp, rest, pruned, err.
Qed.

Import Concrete.

(** A pass over no nodes that leaves an old Deployment and an old ConfigMap in place. *)
Definition kept_run : Fake.cluster * trace * outcome :=
  exec Fake.server (Fake.leftover None)
    (finish_pass (make_env Fake.small_config (Fake.small_yanet false None)) loop_init [] ∅).

Lemma ready_iff_all_synced_witness :
  ∃ written answer pruned (err : option goerror),
    Ev (UpdateYanetStatus written) answer ∈ kept_run.1.2
    ∧ ∀ c, c ∈ st_Conditions (y_Status written) → cd_Type c = "Ready" →
        cd_Status c = ConditionTrue ↔
        (∀ node ns name state, st_NodesStatus (y_Status written) !! node = Some ns →
           ns_Deployments ns !! name = Some state → state = "synced")
        ∧ lo_missing loop_init = ∅ ∧ pr_RetainedConfigMaps pruned = [] ∧ err = None.
Proof.
  assert (Hw : ∃ written answer, Ev (UpdateYanetStatus written) answer ∈ kept_run.1.2).
  { exists (match Fake.nth_event 9 kept_run.1.2 with Ev (UpdateYanetStatus w) _ => w | _ => Fake.small_yanet false None end).
    eexists. apply (list_elem_of_lookup_2 _ 9). vm_compute. reflexivity. }
  destruct Hw as (written & answer & Hw).
  destruct (ready_iff_all_synced (make_env Fake.small_config (Fake.small_yanet false None)) loop_init [] ∅
    kept_run.1.2 kept_run.2 written answer) as (pruning & rest & pruned & err & _ & _ & _ & Hc);
    [apply exec_run|exact Hw|].
  exists written, answer, pruned, err. by split.
Defined.
