(* ===== verification/MetricsSpec.v ===== *)
(** * What the metrics say

    The counters of a reconcile against the calls it made: every successful
    create, throttled update, applied update and pruned object is counted once,
    under the right labels, and the gauge is the number the status reports. *)

From S2P Require Import Prelude GoLib K8s Api Resolve Labels Builder Service Render.
From S2P Require Import Metrics Program Managed YanetController Reconciler Reconcile Instances SafetySpec ErrorSpec StatusSpec.
#[local] Open Scope Z_scope.

(** ** Counting along a trace *)
Definition total (w : event → Z) (t : trace) : Z := foldr (λ e n, w e + n) 0 t.

Lemma total_app w t1 t2 : total w (t1 ++ t2) = total w t1 + total w t2.
Proof. induction t1 as [|e t1 IH]; simpl; lia. Qed.
Lemma total_snoc w t e : total w (t ++ [e]) = total w t + w e.
Proof. rewrite total_app. simpl. lia. Qed.

(** [increments m labels e]: what [e] adds to the counter [m] under [labels]. *)
Definition increments (m : metric) (labels : list string) (e : event) : Z :=
  match e with
  | Ev (Observe (Add m' labels' n)) _ => if bool_decide (m' = m) && bool_decide (labels' = labels) then n else 0
  | _ => 0
  end.

(** What [e] adds to the counter [m] under any labels. *)
Definition increments_all (m : metric) (e : event) : Z :=
  match e with Ev (Observe (Add m' _ n)) _ => if bool_decide (m' = m) then n else 0 | _ => 0 end.

(** Successful changes. *)
Definition created (labels : list string) (e : event) : Z :=
  match e with
  | Ev (CreateDeployment d) (Ok _) => if bool_decide ([d_Name d; d_Namespace d] = labels) then 1 else 0
  | _ => 0
  end.
Definition updated (e : event) : Z := match e with Ev (UpdateDeployment false _) (Ok _) => 1 | _ => 0 end.
Definition postponed (e : event) : Z :=
  match e with Ev (Throttle _ _) a => if bool_decide (a > 0) then 1 else 0 | _ => 0 end.
Definition deleted (e : event) : Z :=
  match e with Ev (DeleteDeployment _) (Ok _) | Ev (DeleteConfigMap _) (Ok _) => 1 | _ => 0 end.

(** ** Programs that keep a balance *)

(** The calls a balance looks at. *)
Definition counted (c : call) : bool :=
  match c with
  | Observe _ | Throttle _ _ | CreateDeployment _ | UpdateDeployment false _ | DeleteDeployment _ | DeleteConfigMap _ => true
  | _ => false
  end.
Notation uncounted p := (respects (λ _ c, counted c = false) p).

Section balance.
Variable w : event → Z.

(** [w] is zero on every call that is not counted. *)
Class Balance := balance_uncounted : ∀ c a, counted c = false → w (Ev c a) = 0.

Definition balanced {A} (p : prog A) : Prop := ∀ h, wp (λ _ _, True) p h (λ _ h', total w h' = total w h).

Context `{Balance}.

Lemma uncounted_balanced {A} (p : prog A) : uncounted p → balanced p.
Proof.
  intros Hp h t r Hr. split; [done|]. destruct (Hp [] t r Hr) as [Hc _]. clear Hr.
  rewrite total_app. enough (total w t = 0) by lia.
  induction t as [|[c a] t IH]; [done|]. apply calls_ok_cons in Hc as [Hc Ht]. simpl in *.
  rewrite (balance_uncounted c a Hc). rewrite IH; [done|]. intros t1 e t2 ->. by apply (Ht t1 e t2).
Qed.

Lemma wp_balanced {A} (p : prog A) h (Q : A → trace → Prop) :
  balanced p → (∀ a h', total w h' = total w h → Q a h') → wp (λ _ _, True) p h Q.
Proof. intros Hp HQ. eapply wp_mono; [apply Hp|]. auto. Qed.
End balance.
Arguments Balance w : clear implicits.

(** A loop with an early return. *)
Lemma wp_foldPE_early {S A} Φ (I : S → trace → Prop) (f : S → A → prog (S * option goerror)) s l h
    (Q : S * option goerror → trace → Prop) :
  I s h →
  (∀ s x h, x ∈ l → I s h → wp Φ (f s x) h (λ r h', match r.2 with Some e => Q r h' | None => I r.1 h' end)) →
  (∀ s h, I s h → Q (s, None) h) →
  wp Φ (foldPE f s l) h Q.
Proof.
  intros Hs Hf HQ. revert s h Hs. induction l as [|x l IH]; intros s h Hs; simpl; [apply wp_Ret; auto|].
  apply wp_bind. eapply wp_mono; [apply Hf; [set_solver|done]|]. intros [s' [e|]] h' Hr; simpl in Hr; [by apply wp_Ret|].
  apply IH; [|done]. intros. apply Hf; [set_solver|done].
Qed.

Create HintDb account discriminated.

(** Walks a program, adding up what its calls weigh; the balance of subprograms
    comes from the hint database. *)
Ltac weigh := intros; rewrite ?total_snoc in *; simpl in *;
  repeat (case_bool_decide || case_match); simplify_eq/=; try done; try lia.
Ltac account_step w :=
  match goal with
  | |- balanced _ _ => intros ?h
  | |- wp _ (Ret _) _ _ => apply wp_Ret
  | |- wp _ checkGlobalStop _ _ => unfold checkGlobalStop
  | |- wp _ (foldP _ _ _) ?h _ => apply (wp_foldP _ (λ _ h', total w h' = total w h)); [done| |]
  | |- wp _ (RetryOnConflict _ _) ?h _ => apply (wp_retry _ (λ _ h', total w h' = total w h)); [done|]
  | |- wp _ (foldPR _ _ _) ?h _ => apply (wp_foldPR _ (λ _ h', total w h' = total w h)); [done| |]
  | |- wp _ _ _ _ => apply (wp_balanced w); [solve [eauto with account]|]
  | |- _ ∧ _ => split
  end.
Ltac account w := repeat (account_step w || wp_step); weigh.

(** ** The balances *)
Definition creation_balance (labels : list string) (e : event) : Z :=
  increments yanetDeploymentsCreatedTotal labels e - created labels e.
Definition throttle_balance (e : event) : Z := increments_all yanetUpdateThrottledTotal e - postponed e.
Definition update_balance (e : event) : Z := increments_all yanetDeploymentsUpdatedTotal e - updated e.
(** [own] are the labels under which deletions are reported, if they are. *)
Definition prune_balance (own : option (list string)) (labels : list string) (e : event) : Z :=
  increments yanetOrphansPruned labels e - (if bool_decide (own = Some labels) then deleted e else 0).
Definition reconcile_balance (labels : list string) (e : event) : Z := increments yanetReconcileTotal labels e.

#[global] Arguments creation_balance _ _ /.
#[global] Arguments throttle_balance _ /.
#[global] Arguments update_balance _ /.
#[global] Arguments prune_balance _ _ _ /.
#[global] Arguments reconcile_balance _ _ /.

Ltac solve_balance := intros c a Hc; destruct c; simpl in *; try done; repeat case_match; simplify_eq/=; try done; lia.
#[export] Instance creation_balance_ok labels : Balance (creation_balance labels).
Proof. unfold creation_balance. solve_balance. Qed.
#[export] Instance throttle_balance_ok : Balance throttle_balance.
Proof. unfold throttle_balance. solve_balance. Qed.
#[export] Instance update_balance_ok : Balance update_balance.
Proof. unfold update_balance. solve_balance. Qed.
#[export] Instance prune_balance_ok own labels : Balance (prune_balance own labels).
Proof. unfold prune_balance. solve_balance. Qed.
#[export] Instance reconcile_balance_ok labels : Balance (reconcile_balance labels).
Proof. unfold reconcile_balance. solve_balance. Qed.

Section metrics.
Context `{MetaLib, ClientUtil, PatchLib, QuantityLib, K8sValidation, MapOrder}.

(** *** Programs without counted calls *)
Ltac plain := safe ltac:(first [reflexivity | done]).

Lemma updateStatus_uncounted y mutate : (∀ f, uncounted (mutate f)) → uncounted (updateStatus y mutate).
Proof. intros Hm. unfold updateStatus, update_status_attempt. plain. Qed.
Lemma degrade_uncounted reason message f : uncounted (degrade reason message f).
Proof. unfold degrade. plain. Qed.
Lemma record_event_uncounted reason : uncounted (record_event reason).
Proof. plain. Qed.
#[local] Hint Resolve updateStatus_uncounted degrade_uncounted record_event_uncounted : safety.
Lemma applyInlineConfigMaps_uncounted y ctx rc autoSync : uncounted (applyInlineConfigMaps y ctx rc autoSync).
Proof.
  unfold applyInlineConfigMaps, inline_config_step, mutate_config_map.
  safe ltac:(first [reflexivity | done | apply wp_CreateOrUpdate]).
Qed.
Lemma desiredDeploymentUpdate_uncounted e d : uncounted (desiredDeploymentUpdate e d).
Proof. unfold desiredDeploymentUpdate. plain. Qed.
Lemma preflightResources_uncounted cfg y nodes enabled on policy owner registry :
  uncounted (preflightResources cfg y nodes enabled on policy owner registry).
Proof. unfold preflightResources, validateOperatorPlacementTransition, listPlacementProducers. plain. Qed.
Lemma validateExclusiveNodes_uncounted y nodes : uncounted (validateExclusiveNodes y nodes).
Proof. unfold validateExclusiveNodes. plain. Qed.
Lemma fail_pass_uncounted y e : uncounted (fail_pass y e).
Proof. unfold fail_pass. plain. Qed.
Lemma bail_out_uncounted y reason message : uncounted (bail_out y reason message).
Proof. unfold bail_out. plain. Qed.
Lemma collectPods_uncounted y : uncounted (collectPods y).
Proof. unfold collectPods. plain. Qed.
Lemma snapshotYanetConfig_uncounted : uncounted snapshotYanetConfig.
Proof. unfold snapshotYanetConfig. plain. Qed.
Lemma add_finalizer_uncounted y : uncounted (add_finalizer y).
Proof. unfold add_finalizer. plain. Qed.
#[local] Hint Resolve uncounted_balanced applyInlineConfigMaps_uncounted updateStatus_uncounted degrade_uncounted
  record_event_uncounted desiredDeploymentUpdate_uncounted preflightResources_uncounted validateExclusiveNodes_uncounted
  fail_pass_uncounted bail_out_uncounted collectPods_uncounted snapshotYanetConfig_uncounted add_finalizer_uncounted
  respects_Ret creation_balance_ok throttle_balance_ok update_balance_ok prune_balance_ok reconcile_balance_ok : account.

(** *** One Deployment *)
Lemma applyDeployment_creations labels d autoSync window node :
  balanced (creation_balance labels) (applyDeployment d autoSync window node).
Proof. unfold applyDeployment, apply_attempt. account (creation_balance labels). Qed.

Lemma applyDeployment_throttles d autoSync window node :
  balanced throttle_balance (applyDeployment d autoSync window node).
Proof. unfold applyDeployment, apply_attempt. account throttle_balance. Qed.

Lemma applyDeployment_prunes own labels d autoSync window node :
  balanced (prune_balance own labels) (applyDeployment d autoSync window node).
Proof. unfold applyDeployment, apply_attempt. account (prune_balance own labels). Qed.

Lemma applyDeployment_reconciles labels d autoSync window node :
  balanced (reconcile_balance labels) (applyDeployment d autoSync window node).
Proof. unfold applyDeployment, apply_attempt. account (reconcile_balance labels). Qed.

(** The flag of an attempt stands for the update it made, which no later attempt
    repeats. *)
Lemma apply_attempt_updates d autoSync window node st h :
  ap_updated st = false →
  wp (λ _ _, True) (apply_attempt d autoSync window node st) h (λ r h',
    total update_balance h' = total update_balance h - Z.b2z (ap_updated r.1)
    ∧ ∀ e, r.2 = Err e → ap_updated r.1 = false).
Proof. intros Hst. unfold apply_attempt. account update_balance; rewrite Hst; simpl; lia. Qed.

Lemma applyDeployment_updates d autoSync window node :
  balanced update_balance (applyDeployment d autoSync window node).
Proof.
  intros h. unfold applyDeployment. apply (wp_bind_invoke _ (GetDeployment _ _)); [done|].
  intros [live|e]; [|account update_balance].
  destruct (validateDeploymentOwnership live d); [|account update_balance].
  apply wp_bind, (wp_retry _ (λ st h', ap_updated st = false ∧ total update_balance h' = total update_balance h)); [weigh|].
  intros st h' [Hst Hh']. eapply wp_mono; [by apply apply_attempt_updates|].
  intros [st' [u|e]] h'' [Hb He]; cbn [fst snd] in *.
  - split; [|done]. destruct (ap_updated st'); account update_balance.
  - rewrite (He e eq_refl) in *. split; [|split; [done|weigh]]. account update_balance.
Qed.

#[local] Hint Resolve applyDeployment_creations applyDeployment_throttles applyDeployment_prunes
  applyDeployment_updates applyDeployment_reconciles : account.

(** *** The loop over nodes, components and Deployments *)
Section pass.
Context (w : event → Z) `{!Balance w}.
Hypothesis apply_balanced : ∀ d autoSync window node, balanced w (applyDeployment d autoSync window node).
#[local] Hint Resolve apply_balanced : account.

Lemma reconcile_deployment_balanced env kind on drift node acc d :
  balanced w (reconcile_deployment env kind on drift node acc d).
Proof. destruct acc. unfold reconcile_deployment. account w. Qed.
#[local] Hint Resolve reconcile_deployment_balanced : account.

Lemma reconcile_ref_balanced env ctx node acc ref : balanced w (reconcile_ref env ctx node acc ref).
Proof. destruct acc. unfold reconcile_ref. account w. Qed.
#[local] Hint Resolve reconcile_ref_balanced : account.

Lemma reconcile_node_balanced env enabled st node : balanced w (reconcile_node env enabled st node).
Proof. unfold reconcile_node. account w. Qed.
#[local] Hint Resolve reconcile_node_balanced : account.

(** A successful deletion weighs [k], and so does a pruned object the counter is
    told of, with the opposite sign, unless the installation is being deleted. *)
Variables (y : Yanet) (k : Z).
Hypothesis weigh_deployment : ∀ d a, w (Ev (DeleteDeployment d) a) = match a with Ok _ => k | Err _ => 0 end.
Hypothesis weigh_config_map : ∀ c a, w (Ev (DeleteConfigMap c) a) = match a with Ok _ => k | Err _ => 0 end.
Notation live := (om_DeletionTimestamp (y_Meta y) = None).
Hypothesis weigh_report : live → ∀ n a, w (Ev (Observe (Add yanetOrphansPruned [y_Name y; y_Namespace y] n)) a) = - (k * n).
Hypothesis weigh_gauge : ∀ m labels n a, w (Ev (Observe (SetTo m labels n)) a) = 0.

Lemma deletion_answer_weighs st a :
  pr_Deleted (pv_result (deletion_answer st a)) = pr_Deleted (pv_result st) + match a with Ok _ => 1 | Err _ => 0 end.
Proof. destruct a; simpl; [done|]. case_match; simpl; lia. Qed.

(** The deletions made so far weigh [k] each. *)
Definition tally (h : trace) (n : Z) (h' : trace) : Prop := total w h' = total w h + k * n.

Ltac count := intros; unfold tally in *; cbn [fst snd] in *; rewrite ?total_snoc, ?deletion_answer_weighs in *;
  cbn [pv_result pr_Deleted prune_init]; rewrite ?weigh_deployment, ?weigh_config_map, ?(balance_uncounted w) by done;
  repeat case_match; simplify_eq; try done; try nia.

Lemma prune_deployment_weighs desired autoSync st d h0 h :
  tally h0 (pr_Deleted (pv_result st)) h →
  wp (λ _ _, True) (prune_deployment_step y desired autoSync st d) h
    (λ r h', tally h0 (pr_Deleted (pv_result r.1)) h').
Proof. intros Hst. unfold prune_deployment_step, checkGlobalStop. repeat wp_step; count. Qed.

Lemma prune_config_map_weighs desired autoSync referenced pending st c h0 h :
  tally h0 (pr_Deleted (pv_result st)) h →
  wp (λ _ _, True) (prune_config_map_step y desired autoSync referenced pending st c) h
    (λ r h', tally h0 (pr_Deleted (pv_result r.1)) h').
Proof. intros Hst. unfold prune_config_map_step, checkGlobalStop. repeat wp_step; count. Qed.

Lemma prune_config_maps_weighs desired autoSync deps st h0 h :
  tally h0 (pr_Deleted (pv_result st)) h →
  wp (λ _ _, True) (prune_config_maps y desired autoSync deps st) h (λ r h', tally h0 (pr_Deleted r.1) h').
Proof.
  intros Hst. unfold prune_config_maps. apply (wp_bind_invoke _ (ListConfigMaps _ _)); [done|].
  intros [cms|e]; [|apply wp_Ret; count]. apply wp_bind.
  apply (wp_mono _ _ _ (λ _ h', tally h0 (pr_Deleted (pv_result st)) h')).
  { destruct cms; [apply wp_Ret; count|]. apply (wp_invoke _ (ListPods _ _)); [done|]. count. }
  intros [pods|e] h1 Hh1; [|by apply wp_Ret].
  apply wp_bind, (wp_foldPE_early _ (λ st h', tally h0 (pr_Deleted (pv_result st)) h')); [done| |].
  - intros st' c h2 _ Hst'. eapply wp_mono; [by apply prune_config_map_weighs|].
    intros [st2 [e|]] h3 Hr; [by apply wp_Ret|done].
  - intros st' h2 Hst'. by apply wp_Ret.
Qed.

Lemma pruneOrphans_weighs desired autoSync h0 :
  wp (λ _ _, True) (pruneOrphans y desired autoSync) h0 (λ r h', tally h0 (pr_Deleted r.1) h').
Proof.
  unfold pruneOrphans. apply (wp_bind_invoke _ (ListDeployments _)); [done|].
  intros [deps|e]; [|apply wp_Ret; count].
  apply wp_bind, (wp_foldPE_early _ (λ st h', tally h0 (pr_Deleted (pv_result st)) h')); [count| |].
  - intros st d h1 _ Hst. eapply wp_mono; [by apply prune_deployment_weighs|].
    intros [st' [e|]] h2 Hr; [by apply wp_Ret|done].
  - intros st h1 Hst. destruct (pv_deletionRequested st); [|by apply prune_config_maps_weighs].
    apply (wp_bind_invoke _ (ListDeployments _)); [done|]. intros [again|e]; [|apply wp_Ret; count].
    apply prune_config_maps_weighs. count.
Qed.

(** The report after pruning settles the account. *)
Lemma finish_pass_balanced env st services pods :
  live → re_yanet env = y → balanced w (finish_pass env st services pods).
Proof.
  intros Hlive Ey h. unfold finish_pass. rewrite Ey. apply wp_bind. eapply wp_mono; [apply pruneOrphans_weighs|].
  intros [pruned err] h1 Hh1. unfold tally in Hh1. cbn [fst] in Hh1.
  apply (wp_bind_invoke _ (Observe _)); [done|]. intros u.
  assert (Hh2 : total w (h1 ++ [Ev (Observe (Add yanetOrphansPruned [y_Name y; y_Namespace y] (pr_Deleted pruned))) u]) = total w h)
    by (rewrite total_snoc, weigh_report by done; lia).
  revert Hh2. generalize (h1 ++ [Ev (Observe (Add yanetOrphansPruned [y_Name y; y_Namespace y] (pr_Deleted pruned))) u]).
  clear h1 Hh1. intros h1 Hh1.
  apply wp_bind. apply (wp_balanced w); [destruct (bool_decide _); auto with account|]. intros ? h2 Hh2.
  destruct err as [e|]; [eapply wp_mono; [apply (uncounted_balanced w), fail_pass_uncounted|]; intros; simpl in *; lia|].
  apply (wp_bind_invoke _ Now); [done|]. intros now. apply wp_bind.
  apply (wp_balanced w); [destruct (pr_RetainedConfigMaps pruned); auto with account|]. intros y' h3 Hh3.
  apply (wp_bind_invoke _ (Observe _)); [done|]. intros u'. apply wp_bind.
  apply (wp_balanced w); [auto with account|]. intros [y2 [[]|e]] h4 Hh4;
    [destruct (lo_syncWaiting st)|]; apply wp_Ret; rewrite !total_snoc, weigh_gauge in *;
    rewrite (balance_uncounted w Now) in * by done; lia.
Qed.

Lemma run_pass_balanced env nodes enabled plans :
  live → re_yanet env = y → balanced w (run_pass env nodes enabled plans).
Proof.
  intros Hlive Ey. unfold run_pass.
  pose proof (λ st services pods, finish_pass_balanced env st services pods Hlive Ey). account w.
Qed.

(** *** The other ends of a reconcile *)

(** A status update keeps the identity of the local object. *)
Lemma updateStatus_key mutate h :
  (∀ f, uncounted (mutate f)) →
  wp (λ _ _, True) (updateStatus y mutate) h (λ r h',
    total w h' = total w h ∧ y_Name r.1 = y_Name y ∧ y_Namespace r.1 = y_Namespace y).
Proof.
  intros Hm. unfold updateStatus.
  apply (wp_retry _ (λ y' h', total w h' = total w h ∧ y_Name y' = y_Name y ∧ y_Namespace y' = y_Namespace y)); [done|].
  intros y' h' (Hh & Hn & Hs). unfold update_status_attempt.
  repeat (account_step w || wp_step); intros; rewrite ?total_snoc, ?(balance_uncounted w) in * by done; simpl in *;
    split_and?; try done; try lia.
Qed.

(** Draining a Deployment weighs nothing. *)
Hypothesis weigh_drain : ∀ d a, w (Ev (UpdateDeployment false d) a) = 0.

Lemma pruneConflictingDeployments_balanced y' names :
  live → y_Name y' = y_Name y → y_Namespace y' = y_Namespace y → balanced w (pruneConflictingDeployments y' names).
Proof.
  intros Hlive En Es. unfold pruneConflictingDeployments, prune_conflicting_step, Inc. rewrite En, Es.
  repeat (account_step w || wp_step); intros;
    rewrite ?total_snoc, ?weigh_drain, ?weigh_deployment, ?weigh_report, ?(balance_uncounted w) in * by done; simpl; lia.
Qed.

Lemma reconcile_nodes_balanced cfg enabled : live → balanced w (reconcile_nodes cfg y enabled).
Proof.
  intros Hlive h. unfold reconcile_nodes.
  apply (wp_bind_invoke _ (ListNodes _)); [done|]. intros [nodes|e]; [|apply wp_Ret; rewrite total_snoc, (balance_uncounted w) by done; lia].
  apply wp_bind, (wp_balanced w); [auto with account|]. intros verdict h1 Hh1.
  rewrite total_snoc, (balance_uncounted w), Z.add_0_r in Hh1 by done.
  destruct verdict as [|e|messages cleanup]; cbv zeta.
  - apply wp_bind, (wp_balanced w); [auto with account|]. intros [plans|e] h2 Hh2.
    + eapply wp_mono; [by apply run_pass_balanced|]. intros; simpl in *; congruence.
    + account w; congruence.
  - account w; congruence.
  - apply wp_bind, (wp_balanced w); [auto with account|]. intros _ h2 Hh2. apply wp_bind.
    eapply wp_mono; [apply updateStatus_key; apply degrade_uncounted|]. intros [y' r] h3 (Hh3 & En & Es).
    cbn [fst] in *. apply wp_bind, (wp_balanced w); [|intros; apply wp_Ret; congruence].
    destruct (re_autoSync _); [by apply pruneConflictingDeployments_balanced|].
    apply (uncounted_balanced w), respects_Ret.
Qed.
#[local] Hint Resolve reconcile_nodes_balanced : account.

Lemma reconcile_config_balanced cfg : live → balanced w (reconcile_config cfg y).
Proof. intros Hlive. unfold reconcile_config. account w. Qed.

Lemma handleYanetDeletion_balanced : k = 0 → balanced w (handleYanetDeletion y).
Proof.
  intros Hk h. unfold handleYanetDeletion. destruct (negb _); [by apply wp_Ret|].
  apply wp_bind, (wp_balanced w); [auto with account|]. intros _ h1 Hh1.
  apply wp_bind. eapply wp_mono; [apply pruneOrphans_weighs|]. intros [pruned err] h2 Hh2.
  unfold tally in Hh2. rewrite Hk in Hh2. simpl in Hh2.
  destruct err; account w; rewrite ?(balance_uncounted w) in * by done; lia.
Qed.

Hypothesis live_or_weightless : live ∨ k = 0.

Lemma reconcileYanet_balanced : balanced w (reconcileYanet y).
Proof.
  assert (Hl : ∀ config, balanced w (reconcile_loaded config y)).
  { intros config. unfold reconcile_loaded. destruct (stopped config); [account w|].
    destruct (bool_decide _) eqn:Ed.
    - apply handleYanetDeletion_balanced. apply bool_decide_eq_true_1 in Ed as [x Hx]. destruct live_or_weightless; congruence.
    - destruct (negb _); [auto with account|].
      apply bool_decide_eq_false_1 in Ed. destruct config; [|auto with account].
      apply reconcile_config_balanced. by destruct (om_DeletionTimestamp (y_Meta y)) eqn:E; [destruct Ed|]. }
  assert (Hb : balanced w (reconcile_body y)).
  { unfold reconcile_body. account w; rewrite ?(balance_uncounted w) in * by done; lia. }
  intros h. unfold reconcileYanet. apply wp_bind, (wp_balanced w); [exact Hb|].
  intros [requeue err] h1 Hh1. account w; rewrite ?(balance_uncounted w) in * by done; lia.
Qed.
End pass.

(** *** Updates

    A reconcile either accounts for its updates, or it is a pass that lost a node
    and only drained: it consulted no update window and reported nothing. *)
Definition idle (c : call) : Prop :=
  match c with
  | Throttle _ _ => False
  | Observe (Add m _ _) => m ≠ yanetDeploymentsUpdatedTotal
  | _ => True
  end.
Notation idles p := (respects (λ _ c, idle c) p).
Definition accounted {A} (p : prog A) : Prop :=
  ∀ t r, run p t r → total update_balance t = 0 ∨ Forall (λ e, idle (ev_call e)) t.

Lemma run_Forall {A} (P : call → Prop) (p : prog A) t r :
  respects (λ _ c, P c) p → run p t r → Forall (λ e, P (ev_call e)) t.
Proof.
  intros Hp Hr. destruct (Hp [] t r Hr) as [Hc _]. apply Forall_forall. intros e He.
  apply list_elem_of_split in He as (t1 & t2 & ->). by apply (Hc t1 e t2).
Qed.

Lemma balanced_total w {A} (p : prog A) t r : balanced w p → run p t r → total w t = 0.
Proof. intros Hp Hr. by destruct (Hp [] t r Hr). Qed.

Lemma balanced_accounted {A} (p : prog A) : balanced update_balance p → accounted p.
Proof. intros Hp t r Hr. left. by eapply balanced_total. Qed.
Lemma idle_accounted {A} (p : prog A) : idles p → accounted p.
Proof. intros Hp t r Hr. right. by eapply run_Forall. Qed.

Lemma uncounted_idle t : Forall (λ e, counted (ev_call e) = false) t → Forall (λ e, idle (ev_call e)) t.
Proof. intros Ht. eapply Forall_impl; [exact Ht|]. by intros [[] a]. Qed.

Lemma accounted_bind {A B} (p : prog A) (f : A → prog B) :
  (uncounted p ∧ ∀ a, accounted (f a)) ∨ (accounted p ∧ ∀ a, uncounted (f a)) → accounted (p ≫= f).
Proof.
  assert (Hu : ∀ {C} (q : prog C) t r, uncounted q → run q t r →
            total update_balance t = 0 ∧ Forall (λ e, idle (ev_call e)) t).
  { intros C q t r Hq Hr. split; [by eapply balanced_total; [apply uncounted_balanced; [apply _|exact Hq]|]|].
    eapply uncounted_idle, (run_Forall (λ c, counted c = false)); eauto. }
  intros Hpf t r (t1 & t2 & a & -> & Hr1 & Hr2)%run_bind. rewrite total_app, Forall_app.
  destruct Hpf as [[Hp Hf]|[Hp Hf]].
  - destruct (Hu _ p t1 a Hp Hr1). destruct (Hf a t2 r Hr2); [left; lia|by right].
  - destruct (Hu _ (f a) t2 r (Hf a) Hr2). destruct (Hp t1 a Hr1); [left; lia|by right].
Qed.

Lemma pruneConflicting_idle y names : idles (pruneConflictingDeployments y names).
Proof. unfold pruneConflictingDeployments, prune_conflicting_step. safe ltac:(done). Qed.
Lemma updateStatus_idle y mutate : (∀ f, idles (mutate f)) → idles (updateStatus y mutate).
Proof. intros Hm. unfold updateStatus, update_status_attempt. safe ltac:(done). Qed.
Lemma degrade_idle reason message f : idles (degrade reason message f).
Proof. unfold degrade. safe ltac:(done). Qed.
#[local] Hint Resolve pruneConflicting_idle updateStatus_idle degrade_idle : safety.

Lemma run_pass_updates env nodes enabled plans :
  om_DeletionTimestamp (y_Meta (re_yanet env)) = None → balanced update_balance (run_pass env nodes enabled plans).
Proof. intros Hl. apply (run_pass_balanced _ applyDeployment_updates (re_yanet env) 0); try done; by intros ? []. Qed.

Lemma reconcile_nodes_accounted cfg y enabled :
  om_DeletionTimestamp (y_Meta y) = None → accounted (reconcile_nodes cfg y enabled).
Proof.
  intros Hl. unfold reconcile_nodes. apply accounted_bind. left. split; [plain|]. intros [nodes|e].
  2:{ apply idle_accounted, respects_Ret. }
  apply accounted_bind. left. split; [apply validateExclusiveNodes_uncounted|]. cbv zeta. intros [|e|messages cleanup].
  - apply accounted_bind. left. split; [apply preflightResources_uncounted|]. intros [plans|e].
    + by apply balanced_accounted, run_pass_updates.
    + apply idle_accounted. safe ltac:(done).
  - apply idle_accounted. safe ltac:(done).
  - apply idle_accounted. safe ltac:(done).
Qed.

Lemma uncounted_accounted {A} (p : prog A) : uncounted p → accounted p.
Proof. intros Hp. apply balanced_accounted, uncounted_balanced; [apply _|done]. Qed.

Lemma reconcile_config_accounted cfg y :
  om_DeletionTimestamp (y_Meta y) = None → accounted (reconcile_config cfg y).
Proof.
  intros Hl. unfold reconcile_config.
  repeat (case_match; [|apply uncounted_accounted, bail_out_uncounted]). by apply reconcile_nodes_accounted.
Qed.

Lemma reconcile_loaded_accounted config y : accounted (reconcile_loaded config y).
Proof.
  unfold reconcile_loaded. destruct (stopped config); [apply uncounted_accounted, respects_Ret|].
  destruct (bool_decide _) eqn:Ed.
  - apply balanced_accounted, (handleYanetDeletion_balanced _ y 0); try done; by intros ? [].
  - apply bool_decide_eq_false_1, eq_None_not_Some in Ed.
    destruct (negb _); [apply uncounted_accounted, add_finalizer_uncounted|].
    destruct config; [by apply reconcile_config_accounted|apply uncounted_accounted, bail_out_uncounted].
Qed.

Lemma reconcileYanet_accounted y : accounted (reconcileYanet y).
Proof.
  unfold reconcileYanet. apply accounted_bind. right. split.
  - unfold reconcile_body. apply accounted_bind. left. split; [apply snapshotYanetConfig_uncounted|].
    intros [cfg|]; [apply reconcile_loaded_accounted|].
    apply accounted_bind. left. split; [plain|]. intros [config|e]; [apply reconcile_loaded_accounted|].
    destruct (IsNotFound e); [apply reconcile_loaded_accounted|apply uncounted_accounted, respects_Ret].
  - intros [requeue err]. destruct (match err with Some e => _ | None => _ end); plain.
Qed.

(** *** No operation on a collector panics *)
Definition accepted (_ : trace) (c : call) : Prop :=
  match c with Observe o => observation_panics o = false | _ => True end.

Lemma deletions_nonnegative t : 0 ≤ total deleted t.
Proof. induction t as [|[c a] t IH]; simpl; [done|]. destruct c; simpl; try lia; case_match; lia. Qed.

#[local] Instance deleted_ok : Balance deleted.
Proof. intros c a Hc. by destruct c; simpl in *. Qed.

Lemma pruneOrphans_counts y desired autoSync t r :
  run (pruneOrphans y desired autoSync) t r → pr_Deleted r.1 = total deleted t.
Proof.
  intros Hr. destruct (pruneOrphans_weighs deleted y 1 ltac:(by intros ? []) ltac:(by intros ? []) desired autoSync [] t r Hr)
    as [_ Ht]. unfold tally in Ht. simpl in Ht. lia.
Qed.

Ltac accept := safe ltac:(first [reflexivity | done]).

Lemma updateStatus_accepted y mutate : (∀ f, respects accepted (mutate f)) → respects accepted (updateStatus y mutate).
Proof. intros Hm. unfold updateStatus, update_status_attempt. accept. Qed.
Lemma degrade_accepted reason message f : respects accepted (degrade reason message f).
Proof. unfold degrade. accept. Qed.
Lemma uncounted_accepted {A} (p : prog A) : uncounted p → respects accepted p.
Proof.
  intros Hp h. eapply wp_weaken; [apply Hp|]. intros t c Hc. simpl in Hc. by destruct c.
Qed.
Lemma applyDeployment_accepted d autoSync window node : respects accepted (applyDeployment d autoSync window node).
Proof. unfold applyDeployment, apply_attempt, desiredDeploymentUpdate. accept. Qed.
#[local] Hint Resolve uncounted_accepted updateStatus_accepted degrade_accepted applyDeployment_accepted
  applyInlineConfigMaps_uncounted fail_pass_uncounted collectPods_uncounted preflightResources_uncounted
  validateExclusiveNodes_uncounted bail_out_uncounted snapshotYanetConfig_uncounted add_finalizer_uncounted : safety.

Lemma prune_deployment_accepted y desired autoSync st d : respects accepted (prune_deployment_step y desired autoSync st d).
Proof. unfold prune_deployment_step. accept. Qed.
Lemma prune_config_map_accepted y desired autoSync referenced pending st c :
  respects accepted (prune_config_map_step y desired autoSync referenced pending st c).
Proof. unfold prune_config_map_step. accept. Qed.
#[local] Hint Resolve prune_deployment_accepted prune_config_map_accepted foldPE_respects : safety.
Lemma pruneOrphans_accepted y desired autoSync : respects accepted (pruneOrphans y desired autoSync).
Proof. unfold pruneOrphans, prune_config_maps. accept. Qed.
#[local] Hint Resolve pruneOrphans_accepted : safety.

Lemma finish_pass_accepted env st services pods : respects accepted (finish_pass env st services pods).
Proof.
  intros h. unfold finish_pass. apply wp_bind. intros t [pruned err] Hr.
  split; [by apply (pruneOrphans_accepted _ _ _ h t _ Hr)|].
  pose proof (pruneOrphans_counts _ _ _ _ _ Hr) as Hd. pose proof (deletions_nonnegative t). simpl in Hd.
  apply (wp_bind_invoke _ (Observe _)); [|intros ?; accept]. simpl. apply bool_decide_eq_false. lia.
Qed.
#[local] Hint Resolve finish_pass_accepted : safety.

Lemma reconcile_accepted namespace name : respects accepted (Reconcile namespace name).
Proof.
  unfold Reconcile, reconcileYanet, reconcile_body, reconcile_loaded, reconcile_config, reconcile_nodes, run_pass,
    reconcile_node, reconcile_ref, reconcile_deployment, handleYanetDeletion, pruneConflictingDeployments, prune_conflicting_step.
  accept.
Qed.

(** *** A whole reconcile *)
Lemma total_sub f g t : total (λ e, f e - g e) t = total f t - total g t.
Proof. induction t as [|e t IH]; simpl; lia. Qed.
Lemma total_zero t : total (λ _, 0) t = 0.
Proof. induction t as [|e t IH]; simpl; lia. Qed.

(** A balance that is even on a reconcile stays even with its closing records. *)
Definition closing (namespace name : string) (start now : Z) (err : option goerror) : trace :=
  [Ev Now now; Ev (Observe (ObserveValue yanetReconcileDuration [name; namespace] (now - start))) tt;
   Ev (Observe (Inc yanetReconcileTotal [name; namespace; match err with Some _ => "error" | None => "success" end])) tt].

Lemma Reconcile_run namespace name t r yanet :
  run (Reconcile namespace name) t r → t !! 1%nat = Some (Ev (GetYanet namespace name) (Ok yanet)) →
  ∃ start now t1, run (reconcileYanet yanet) t1 r
    ∧ t = Ev Now start :: Ev (GetYanet namespace name) (Ok yanet) :: t1 ++ closing namespace name start now r.2.
Proof.
  unfold Reconcile. intros (start & t' & -> & Hr)%run_bind_invoke Ht.
  apply run_bind_invoke in Hr as (got & t1 & -> & Hr).
  apply (f_equal (λ o, match o with Some (Ev (GetYanet _ _) a) => a | _ => got end)) in Ht. simpl in Ht. subst got.
  apply run_bind in Hr as (t2 & t3 & [requeue err] & -> & Hy & Hr).
  apply run_bind_invoke in Hr as (now & t4 & -> & Hr).
  apply run_bind_invoke in Hr as ([] & t5 & -> & Hr).
  apply run_bind_invoke in Hr as ([] & t6 & -> & [-> ->]). by exists start, now, t2.
Qed.

Section balances.
Variable y : Yanet.
Notation own := [y_Name y; y_Namespace y].

Lemma creations_balanced labels : balanced (creation_balance labels) (reconcileYanet y).
Proof.
  apply (reconcileYanet_balanced _ (applyDeployment_creations labels) y 0); try done; try (by intros ? []); [by right].
Qed.

Lemma throttles_balanced : balanced throttle_balance (reconcileYanet y).
Proof.
  apply (reconcileYanet_balanced _ applyDeployment_throttles y 0); try done; try (by intros ? []); [by right].
Qed.

Lemma reconciles_balanced labels : balanced (reconcile_balance labels) (reconcileYanet y).
Proof.
  apply (reconcileYanet_balanced _ (applyDeployment_reconciles labels) y 0); try done; try (by intros ? []); [by right].
Qed.

(** Deletions are reported unless the installation is being deleted. *)
Definition reporting : option (list string) :=
  match om_DeletionTimestamp (y_Meta y) with None => Some own | Some _ => None end.

Lemma prunes_balanced labels : balanced (prune_balance reporting labels) (reconcileYanet y).
Proof.
  apply (reconcileYanet_balanced _ (applyDeployment_prunes reporting labels) y
           (if bool_decide (reporting = Some labels) then -1 else 0)); try done.
  - intros d a. simpl. by destruct (bool_decide _), a.
  - intros c a. simpl. by destruct (bool_decide _), a.
  - intros Hl n a. unfold reporting. rewrite Hl. cbn -[bool_decide]. rewrite (bool_decide_true (yanetOrphansPruned = _)) by done.
    simpl. destruct (decide (own = labels)) as [<-|Hne].
    + rewrite !bool_decide_true by done. lia.
    + rewrite !bool_decide_false by naive_solver. lia.
  - intros m labels' n a. simpl. by destruct (bool_decide _).
  - intros d a. simpl. by destruct (bool_decide _), a.
  - destruct (om_DeletionTimestamp (y_Meta y)) eqn:E; [right|by left]. unfold reporting. by rewrite E, bool_decide_false.
Qed.
End balances.

Lemma idle_increments t : Forall (λ e, idle (ev_call e)) t → total (increments_all yanetDeploymentsUpdatedTotal) t = 0.
Proof.
  induction 1 as [|[c a] t He _ IH]; [done|]. simpl. rewrite IH. destruct c as [| | | | | | | | | | | | | | | | | | | | | | | | | | | |o]; try done.
  destruct o; simpl in *; try done. by rewrite bool_decide_false.
Qed.
Lemma updates_nonnegative t : 0 ≤ total updated t.
Proof. induction t as [|[c a] t IH]; simpl; [done|]. destruct c; simpl; try lia; repeat case_match; lia. Qed.

Lemma updates_bounded y t r :
  run (reconcileYanet y) t r → total (increments_all yanetDeploymentsUpdatedTotal) t ≤ total updated t.
Proof.
  intros Hr. destruct (reconcileYanet_accounted y t r Hr) as [Ht|Ht].
  - unfold update_balance in Ht. rewrite total_sub in Ht. lia.
  - rewrite (idle_increments _ Ht). apply updates_nonnegative.
Qed.

Lemma updates_exact y t r :
  run (reconcileYanet y) t r → (∃ window host wait, Ev (Throttle window host) wait ∈ t) →
  total (increments_all yanetDeploymentsUpdatedTotal) t = total updated t.
Proof.
  intros Hr (window & host & wait & He). destruct (reconcileYanet_accounted y t r Hr) as [Ht|Ht].
  - unfold update_balance in Ht. rewrite total_sub in Ht. lia.
  - rewrite Forall_forall in Ht. destruct (Ht _ He).
Qed.
End metrics.

(** C36: the counters tell what a reconcile of an existing installation did.  No operation on a
    collector panics; creations are counted per Deployment; deferred updates are counted; updates
    are never counted twice, and exactly once each whenever the update window was consulted; deletions are counted under
    the installation's labels unless it is being deleted itself; and the reconcile is counted once,
    under its result. *)
Theorem metrics_count_changes `{MetaLib, ClientUtil, PatchLib, QuantityLib, K8sValidation, MapOrder}
    (namespace name : string) (t : trace) (r : outcome) (yanet : Yanet) :
  run (Reconcile namespace name) t r →
  t !! 1%nat = Some (Ev (GetYanet namespace name) (Ok yanet)) →
  Forall (λ e, match ev_call e with Observe o => observation_panics o = false | _ => True end) t
  ∧ (∀ labels, total (increments yanetDeploymentsCreatedTotal labels) t = total (created labels) t)
  ∧ total (increments_all yanetUpdateThrottledTotal) t = total postponed t
  ∧ total (increments_all yanetDeploymentsUpdatedTotal) t ≤ total updated t
  ∧ ((∃ window host wait, Ev (Throttle window host) wait ∈ t) →
       total (increments_all yanetDeploymentsUpdatedTotal) t = total updated t)
  ∧ (∀ labels, total (increments yanetOrphansPruned labels) t
       = if bool_decide (reporting yanet = Some labels) then total deleted t else 0)
  ∧ ∀ labels, total (increments yanetReconcileTotal labels) t
      = if bool_decide (labels = [name; namespace; match r.2 with Some _ => "error" | None => "success" end]) then 1 else 0.
Proof.
  intros Hr Hy. pose proof (run_Forall (accepted []) _ _ _ (reconcile_accepted namespace name) Hr) as Hok.
  destruct (Reconcile_run _ _ _ _ _ Hr Hy) as (start & now & t1 & Hy1 & ->). clear Hr Hy.
  assert (Hsplit : ∀ f, total f (Ev Now start :: Ev (GetYanet namespace name) (Ok yanet) :: t1 ++ closing namespace name start now r.2)
    = f (Ev Now start) + (f (Ev (GetYanet namespace name) (Ok yanet))
        + (total f t1 + total f (closing namespace name start now r.2)))) by (intros f; simpl; by rewrite total_app).
  assert (Heven : ∀ f g, balanced (λ e, f e - g e) (reconcileYanet yanet) → total f t1 = total g t1).
  { intros f g Hb. pose proof (balanced_total _ _ _ _ Hb Hy1) as Ht. rewrite total_sub in Ht. lia. }
  split_and!; [exact Hok|..].
  - intros labels. rewrite !Hsplit, (Heven _ _ (creations_balanced yanet labels)). simpl. lia.
  - rewrite !Hsplit, (Heven _ _ (throttles_balanced yanet)). simpl. lia.
  - rewrite !Hsplit. simpl. pose proof (updates_bounded yanet t1 r Hy1). lia.
  - intros (window & host & wait & He). rewrite !Hsplit. simpl. rewrite (updates_exact yanet t1 r Hy1); [lia|].
    exists window, host, wait. set_solver.
  - intros labels. pose proof (Heven _ _ (prunes_balanced yanet labels)) as Hp. revert Hp.
    destruct (bool_decide (reporting yanet = Some labels)); intros Hp; rewrite !Hsplit, Hp; simpl; [reflexivity|].
    rewrite total_zero. lia.
  - intros labels. pose proof (balanced_total _ _ _ _ (reconciles_balanced yanet labels) Hy1 : total (increments _ labels) t1 = 0) as Ht.
    rewrite !Hsplit, Ht.
    simpl. repeat case_bool_decide; try lia; naive_solver.
Qed.

Import Concrete.

(** A cluster with an orphan: the pass creates what is missing and prunes it. *)
Definition orphaned : Fake.cluster := Fake.with_deployments (Fake.small true None) [Fake.orphan_deployment].

Lemma metrics_count_changes_witness :
  let x := exec Fake.server orphaned (Reconcile "yanet" "w") in
  total (increments yanetDeploymentsCreatedTotal ["w-1b16b1df-controlplane-numa0"; "yanet"]) x.1.2 = 1
  ∧ total (increments yanetOrphansPruned ["w"; "yanet"]) x.1.2 = 1
  ∧ total (increments yanetReconcileTotal ["w"; "yanet"; "success"]) x.1.2 = 1.
Proof.
  intros x.
  destruct (metrics_count_changes "yanet" "w" x.1.2 x.2 (Fake.small_yanet true None)) as (_ & Hc & _ & _ & _ & Hp & Hr).
  - exact (exec_run _ _ _).
  - vm_compute. reflexivity.
  - rewrite Hc, Hp, Hr. vm_compute. done.
Defined.
