(* ===== verification/GaugeSpec.v ===== *)
(** * The out-of-sync gauge

    A pass sets the gauge right before it writes its status; the two agree, and
    neither ever mentions a Deployment in error. *)

From S2P Require Import Prelude GoLib K8s Api Resolve Labels Builder Service Render.
From S2P Require Import Metrics Program Managed YanetController Reconciler Reconcile Instances SafetySpec StatusSpec.
#[local] Open Scope Z_scope.

(** The value the gauge was last set to. *)
Definition gauge_of (g : option Z) (e : event) : option Z :=
  match e with Ev (Observe (SetTo _ _ n)) _ => Some n | _ => g end.
Definition gauge (h : trace) : option Z := foldl gauge_of None h.

Lemma gauge_snoc h e : gauge (h ++ [e]) = gauge_of (gauge h) e.
Proof. unfold gauge. by rewrite foldl_app. Qed.

Definition sets_gauge (c : call) : bool := match c with Observe (SetTo _ _ _) => true | _ => false end.
Notation gaugeless p := (respects (λ _ c, sets_gauge c = false) p).

(** A status written after the gauge was set shows the same number, and no
    Deployment in error. *)
Definition agrees (status : YanetStatus) (n : Z) : Prop :=
  sy_Error (st_Sync status) = [] ∧ n = Z.of_nat (length (sy_OutOfSync (st_Sync status))).
Definition consistent (own : list string) (h : trace) (c : call) : Prop :=
  match c with
  | UpdateYanetStatus y => ∀ n, gauge h = Some n → agrees (y_Status y) n
  | Observe (SetTo m labels _) => gauge h = None ∧ m = yanetDeploymentsOutOfSync ∧ labels = own
  | _ => True
  end.

Lemma gauge_kept h t : calls_ok (λ _ c, sets_gauge c = false) [] t → gauge (h ++ t) = gauge h.
Proof.
  induction t as [|[c a] t IH] using rev_ind; intros Hc; [by rewrite app_nil_r|].
  apply calls_ok_app in Hc as [Hc [He _]%calls_ok_cons]. rewrite app_assoc, gauge_snoc, IH by done.
  simpl in *. by destruct c; try done; destruct o.
Qed.

(** Until the gauge is set there is nothing to show. *)
Lemma wp_gaugeless {A} own (p : prog A) h (Q : A → trace → Prop) :
  gaugeless p → gauge h = None → (∀ a h', gauge h' = None → Q a h') → wp (consistent own) p h Q.
Proof.
  intros Hp Hh HQ t r Hr. destruct (Hp [] t r Hr) as [Hc _].
  split; [|apply HQ; by rewrite gauge_kept]. intros t1 e t2 ->. apply calls_ok_app in Hc as [Hc [He _]%calls_ok_cons].
  unfold consistent. simpl in He. destruct (ev_call e); try done; [|by destruct o].
  intros n Hn. rewrite gauge_kept in Hn by done. congruence.
Qed.

(** ** States of a pass *)
Definition errorless (ns : NodeStatus) : Prop := ∀ name, ns_Deployments ns !! name ≠ Some "error".
Definition errorless_nodes (nodes : gmap string NodeStatus) : Prop := map_Forall (λ _ ns, errorless ns) nodes.

Lemma errorless_set name state ns : state ≠ "error" → errorless ns → errorless (ns_set_state name state ns).
Proof.
  intros Hs Hn x. simpl. destruct (decide (name = x)) as [<-|Hne]; [rewrite lookup_insert_eq; congruence|].
  rewrite lookup_insert_ne by done. apply Hn.
Qed.

Lemma errorless_orphans nodes deps : errorless_nodes nodes → errorless_nodes (foldl record_orphan nodes deps).
Proof.
  revert nodes. induction deps as [|d deps IH]; intros nodes Hn; [done|]. simpl. apply IH.
  unfold record_orphan. apply map_Forall_insert_2; [|done]. apply errorless_set; [done|].
  intros x. simpl. destruct (nodes !! _) as [ns|] eqn:E; simpl; [by apply (Hn _ _ E)|by rewrite lookup_empty].
Qed.

Lemma errorless_sync `{MapOrder} nodes : errorless_nodes nodes → sy_Error (aggregateSyncStatus nodes) = [].
Proof.
  intros Hn. apply (bucket_empty nodes "error"); [set_solver|]. intros node ns name state Ens Est.
  pose proof (Hn node ns Ens name) as Hne. unfold class_of. repeat case_decide; try done. congruence.
Qed.

Section gauge.
Context `{MetaLib, ClientUtil, PatchLib, QuantityLib, K8sValidation, MapOrder}.

Ltac plain := safe ltac:(first [reflexivity | done]).

Lemma updateStatus_gaugeless y mutate : (∀ f, gaugeless (mutate f)) → gaugeless (updateStatus y mutate).
Proof. intros Hm. unfold updateStatus, update_status_attempt. plain. Qed.
Lemma degrade_gaugeless reason message f : gaugeless (degrade reason message f).
Proof. unfold degrade. plain. Qed.
Lemma record_event_gaugeless reason : gaugeless (record_event reason).
Proof. plain. Qed.
#[local] Hint Resolve updateStatus_gaugeless degrade_gaugeless record_event_gaugeless : safety.
Lemma applyInlineConfigMaps_gaugeless y ctx rc autoSync : gaugeless (applyInlineConfigMaps y ctx rc autoSync).
Proof.
  unfold applyInlineConfigMaps, inline_config_step, mutate_config_map.
  safe ltac:(first [reflexivity | done | apply wp_CreateOrUpdate]).
Qed.
Lemma applyDeployment_gaugeless d autoSync window node : gaugeless (applyDeployment d autoSync window node).
Proof. unfold applyDeployment, apply_attempt, desiredDeploymentUpdate. plain. Qed.
Lemma prune_deployment_gaugeless y desired autoSync st d : gaugeless (prune_deployment_step y desired autoSync st d).
Proof. unfold prune_deployment_step. plain. Qed.
Lemma prune_config_map_gaugeless y desired autoSync referenced pending st c :
  gaugeless (prune_config_map_step y desired autoSync referenced pending st c).
Proof. unfold prune_config_map_step. plain. Qed.
#[local] Hint Resolve prune_deployment_gaugeless prune_config_map_gaugeless foldPE_respects : safety.
Lemma pruneOrphans_gaugeless y desired autoSync : gaugeless (pruneOrphans y desired autoSync).
Proof. unfold pruneOrphans, prune_config_maps. plain. Qed.
#[local] Hint Resolve pruneOrphans_gaugeless : safety.
Lemma pruneConflictingDeployments_gaugeless y names : gaugeless (pruneConflictingDeployments y names).
Proof. unfold pruneConflictingDeployments, prune_conflicting_step. plain. Qed.
Lemma preflightResources_gaugeless cfg y nodes enabled on policy owner registry :
  gaugeless (preflightResources cfg y nodes enabled on policy owner registry).
Proof. unfold preflightResources, validateOperatorPlacementTransition, listPlacementProducers. plain. Qed.
Lemma validateExclusiveNodes_gaugeless y nodes : gaugeless (validateExclusiveNodes y nodes).
Proof. unfold validateExclusiveNodes. plain. Qed.
Lemma handleYanetDeletion_gaugeless y : gaugeless (handleYanetDeletion y).
Proof. unfold handleYanetDeletion. plain. Qed.
Lemma fail_pass_gaugeless y e : gaugeless (fail_pass y e).
Proof. unfold fail_pass. plain. Qed.
#[local] Hint Resolve pruneConflictingDeployments_gaugeless preflightResources_gaugeless
  validateExclusiveNodes_gaugeless handleYanetDeletion_gaugeless fail_pass_gaugeless : safety.

(** An application in error says so. *)
Lemma applyDeployment_errors d autoSync window node t r :
  run (applyDeployment d autoSync window node) t r → r.2 = None → r.1.1 ≠ "error".
Proof.
  intros Hr. cut (wp (λ _ _, True) (applyDeployment d autoSync window node) [] (λ r _, r.2 = None → r.1.1 ≠ "error")).
  { intros Hw. by destruct (Hw t r Hr). }
  unfold applyDeployment. apply (wp_bind_invoke _ (GetDeployment _ _)); [done|].
  intros [live|e]; [|safe ltac:(done)].
  destruct (validateDeploymentOwnership live d) as [[]|e]; [|by apply wp_Ret].
  apply wp_bind, (wp_retry _ (λ st _, ap_state st ≠ "error")); [done|]. intros st h Hst.
  unfold apply_attempt, desiredDeploymentUpdate. safe ltac:(done).
Qed.

(** ** The pass *)
Section pass.
Variable own : list string.

(** Before the gauge is set, and without errors unless one is recorded. *)
Definition unreported (acc : loop_state * NodeStatus) (h : trace) : Prop :=
  gauge h = None ∧ (lo_errs acc.1 = [] → errorless_nodes (lo_nodesStatus acc.1) ∧ errorless acc.2).

Lemma unreported_error e st ns h : gauge h = None → unreported (lo_add_err e st, ns) h.
Proof. intros Hh. split; [done|]. intros Hn. simpl in Hn. by apply app_nil in Hn as [_ ?]. Qed.

Lemma reconcile_deployment_unreported env kind on drift node acc d h :
  unreported acc h → wp (consistent own) (reconcile_deployment env kind on drift node acc d) h unreported.
Proof.
  destruct acc as [st ns]. intros [Hh Hst]. unfold reconcile_deployment. cbn [fst snd] in Hst.
  apply wp_bind. intros t [[state requeue] err] Hr.
  split; [by apply (wp_gaugeless own _ h (λ _ _, True) (applyDeployment_gaugeless _ _ _ _) Hh ltac:(done) t _ Hr)|].
  pose proof (applyDeployment_errors _ _ _ _ _ _ Hr) as Hstate. cbn [fst snd] in Hstate.
  assert (Hh' : gauge (h ++ t) = None).
  { rewrite <-Hh. apply gauge_kept. by destruct (applyDeployment_gaugeless _ _ _ _ [] t _ Hr). }
  cbv zeta. match goal with |- context [ns_set_state _ ?x] => set (state' := x) end.
  match goal with |- context [lo_add_requeue requeue ?x] => set (st' := x) end.
  match goal with |- context [(st', ?x)] => set (ns' := x) end.
  assert (Hst' : lo_errs st' = [] → errorless_nodes (lo_nodesStatus st') ∧ errorless ns').
  { intros Hn. destruct err as [e|]; [unfold st' in Hn; destruct (bool_decide _) in Hn; by apply app_nil in Hn as [_ ?]|].
    assert (Hold : lo_errs st = []) by (unfold st' in Hn; by destruct (bool_decide _) in Hn).
    destruct (Hst Hold) as [Hns Hn']. split.
    - unfold st'. by case_bool_decide.
    - apply errorless_set; [unfold state'; destruct (_ && _); [done|by apply Hstate]|]. by destruct (bool_decide (kind = _)). }
  destruct (bool_decide (requeue > 0)); [|by apply wp_Ret].
  apply wp_bind, wp_gaugeless; [apply record_event_gaugeless|done|]. intros _ h' Hh''. by apply wp_Ret.
Qed.

Lemma reconcile_ref_unreported env ctx node acc ref h :
  unreported acc h → wp (consistent own) (reconcile_ref env ctx node acc ref) h unreported.
Proof.
  destruct acc as [st ns]. intros [Hh Hst]. unfold reconcile_ref.
  destruct (ResolveBoxComponent _ _ _ _) as [[rc|]|e]; [|apply wp_Ret; by destruct (bool_decide _)|by apply wp_Ret, unreported_error].
  destruct (IsColocated rc); [by apply wp_Ret|]. cbv zeta.
  apply wp_bind, wp_gaugeless; [apply applyInlineConfigMaps_gaugeless|done|].
  intros [[names drift]|e] h' Hh'; [|by apply wp_Ret, unreported_error].
  destruct (RenderDeployments _ _ _) as [ds|e]; [|by apply wp_Ret, unreported_error].
  apply (wp_foldP _ unreported); [done| |done]. intros. by apply reconcile_deployment_unreported.
Qed.

(** The status after the gauge is the one it was computed from. *)
Lemma status_agrees y status n h :
  gauge h = Some n → agrees status n →
  wp (consistent own) (updateStatus y (λ fresh, Ret (set_y_Status status fresh))) h (λ _ _, True).
Proof.
  intros Hh Ha. unfold updateStatus. apply (wp_retry _ (λ _ h, gauge h = Some n)); [done|]. intros y' h' Hh'.
  unfold update_status_attempt. apply (wp_bind_invoke _ (GetYanet _ _)); [done|].
  intros [fresh|e]; [|apply wp_Ret; by rewrite gauge_snoc].
  apply wp_bind, wp_Ret. destruct (bool_decide _); [apply wp_Ret; by rewrite gauge_snoc|].
  unfold checkGlobalStop. apply wp_bind, (wp_bind_invoke _ ReadGlobal); [done|]. intros g. apply wp_Ret.
  destruct (stopped g); [apply wp_Ret; by rewrite !gauge_snoc|].
  apply (wp_bind_invoke _ (UpdateYanetStatus _)).
  - intros n'. rewrite !gauge_snoc. simpl. intros Hn. by simplify_eq.
  - intros [stored|e]; apply wp_Ret; by rewrite !gauge_snoc.
Qed.

Lemma finish_pass_consistent env st services pods h :
  own = [y_Name (re_yanet env); y_Namespace (re_yanet env)] → gauge h = None → errorless_nodes (lo_nodesStatus st) →
  wp (consistent own) (finish_pass env st services pods) h (λ _ _, True).
Proof.
  intros Eown Hh Hst. unfold finish_pass. apply wp_bind, wp_gaugeless; [apply pruneOrphans_gaugeless|done|].
  intros [pruned err] h1 Hh1. apply (wp_bind_invoke _ (Observe _)); [done|]. intros ?.
  apply wp_bind, wp_gaugeless; [destruct (bool_decide _); plain|by rewrite gauge_snoc|]. intros _ h2 Hh2.
  destruct err as [e|]; [apply wp_gaugeless; [apply fail_pass_gaugeless|done|done]|].
  apply (wp_bind_invoke _ Now); [done|]. intros now. apply wp_bind.
  set (nodes := foldl record_orphan _ _). match goal with |- context [set_y_Status ?x ?y] => set (y1 := set_y_Status x y) end.
  apply (wp_mono _ _ _ (λ y2 h', gauge h' = None ∧ st_Sync (y_Status y2) = aggregateSyncStatus nodes
    ∧ own = [y_Name y2; y_Namespace y2])).
  { destruct (pr_RetainedConfigMaps pruned); [apply wp_Ret; by rewrite gauge_snoc|].
    unfold degrade. apply (wp_bind_invoke _ Now); [done|]. intros now'. apply wp_Ret. by rewrite !gauge_snoc. }
  intros y2 h3 (Hh3 & Hs & Eo). apply (wp_bind_invoke _ (Observe _)); [done|]. intros ?. rewrite Hs.
  apply wp_bind. eapply wp_mono; [eapply status_agrees; [by rewrite gauge_snoc|]|].
  - pose proof (errorless_sync nodes (errorless_orphans _ _ Hst)) as He. unfold agrees. rewrite Hs, He. simpl.
    split; [done|lia].
  - intros [y3 [[]|e]] h4 _; [destruct (lo_syncWaiting st)|]; by apply wp_Ret.
Qed.

Lemma run_pass_consistent env nodes enabled plans h :
  own = [y_Name (re_yanet env); y_Namespace (re_yanet env)] → gauge h = None →
  wp (consistent own) (run_pass env nodes enabled plans) h (λ _ _, True).
Proof.
  intros Eown Hh. unfold run_pass.
  apply wp_bind, (wp_foldPR _ (λ st h, gauge h = None ∧ (lo_errs st = [] → errorless_nodes (lo_nodesStatus st)))).
  - split; [done|]. intros _. apply map_Forall_empty.
  - intros st node h' _ [Hh' Hst]. unfold reconcile_node.
    destruct (WithRuntimeNetwork _ _ _) as [ctx|e]; [|by apply wp_Ret, wp_Ret].
    apply wp_bind, (wp_foldP _ unreported).
    + split; [done|]. intros Hn. split; [by apply Hst|]. intros x. simpl. by rewrite lookup_empty.
    + intros. by apply reconcile_ref_unreported.
    + intros [st' ns] h'' [Hh'' Hst']. apply wp_Ret. split; [done|]. simpl. intros [Hn Hx]%Hst'.
      by apply map_Forall_insert_2.
  - intros st h' [Hh' Hst]. apply wp_bind. unfold collectPods.
    apply (wp_bind_invoke _ (ListPods _ _)); [done|]. intros [pods|e]; apply wp_Ret.
    + destruct (lo_errs st) eqn:El.
      * apply finish_pass_consistent; [done|by rewrite gauge_snoc|by apply Hst].
      * apply wp_gaugeless; [apply fail_pass_gaugeless|by rewrite gauge_snoc|done].
    + destruct (lo_errs st); (apply wp_gaugeless; [apply fail_pass_gaugeless|by rewrite gauge_snoc|done]).
Qed.
End pass.

(** ** The reconcile *)
Lemma reconcile_nodes_consistent cfg y enabled h :
  gauge h = None → wp (consistent [y_Name y; y_Namespace y]) (reconcile_nodes cfg y enabled) h (λ _ _, True).
Proof.
  intros Hh. unfold reconcile_nodes. cbv zeta. apply (wp_bind_invoke _ (ListNodes _)); [done|].
  intros [nodes|e]; [|by apply wp_Ret]. apply wp_bind, wp_gaugeless; [auto with safety|by rewrite gauge_snoc|].
  intros [|e|messages cleanup] h1 Hh1.
  - apply wp_bind, wp_gaugeless; [auto with safety|done|]. intros [plans|e] h2 Hh2; [by apply run_pass_consistent|].
    apply wp_gaugeless; [plain|done|done].
  - apply wp_gaugeless; [plain|done|done].
  - apply wp_gaugeless; [plain|done|done].
Qed.

Lemma reconcile_loaded_consistent config y h :
  gauge h = None → wp (consistent [y_Name y; y_Namespace y]) (reconcile_loaded config y) h (λ _ _, True).
Proof.
  intros Hh. unfold reconcile_loaded. destruct (stopped config); [by apply wp_Ret|].
  destruct (bool_decide _); [by apply wp_gaugeless; [auto with safety|..]|].
  destruct (negb _); [by apply wp_gaugeless; [unfold add_finalizer; plain|..]|].
  assert (Hbail : ∀ reason message, wp (consistent [y_Name y; y_Namespace y]) (bail_out y reason message) h (λ _ _, True))
    by (intros; apply wp_gaugeless; [unfold bail_out; plain|done..]).
  destruct config as [cfg|]; [|done]. unfold reconcile_config.
  repeat (case_match; [|done]). by apply reconcile_nodes_consistent.
Qed.

Lemma reconcileYanet_consistent y :
  wp (consistent [y_Name y; y_Namespace y]) (reconcileYanet y) [] (λ _ _, True).
Proof.
  unfold reconcileYanet, reconcile_body. apply wp_bind.
  apply (wp_mono _ _ _ (λ _ _, True)).
  - apply wp_bind, wp_gaugeless; [unfold snapshotYanetConfig; plain|done|].
    intros [cfg|] h Hh; [by apply reconcile_loaded_consistent|].
    apply (wp_bind_invoke _ GetConfig); [done|]. intros [config|e]; [by apply reconcile_loaded_consistent; rewrite gauge_snoc|].
    destruct (IsNotFound e); [by apply reconcile_loaded_consistent; rewrite gauge_snoc|by apply wp_Ret].
  - intros [requeue err] h _. plain.
Qed.

(** Nothing sets the gauge a second time. *)
Lemma gauge_after own t1 m labels n a t2 :
  calls_ok (consistent own) [] (t1 ++ Ev (Observe (SetTo m labels n)) a :: t2) →
  gauge (t1 ++ Ev (Observe (SetTo m labels n)) a :: t2) = Some n.
Proof.
  induction t2 as [|e t2 IH] using rev_ind; intros Hc; [by rewrite gauge_snoc|].
  rewrite app_comm_cons, app_assoc in *. apply calls_ok_app in Hc as [Hc [He _]%calls_ok_cons].
  specialize (IH Hc). rewrite gauge_snoc, IH. simpl in He. destruct e as [c x]; destruct c; try done; destruct o; try done.
  simpl in He. destruct He as [He _]. congruence.
Qed.

(** Every call after the gauge was set finds its value. *)
Lemma after_gauge own t1 m labels n a t2 e :
  calls_ok (consistent own) [] (t1 ++ Ev (Observe (SetTo m labels n)) a :: t2) → e ∈ t2 →
  ∃ h, gauge h = Some n ∧ consistent own h (ev_call e).
Proof.
  intros Hc (u1 & u2 & ->)%list_elem_of_split. rewrite app_comm_cons, app_assoc in Hc.
  apply calls_ok_app in Hc as [Hc [He _]%calls_ok_cons]. eexists. split; [by eapply gauge_after|exact He].
Qed.

Lemma gauge_none t : gauge t = None → Forall (λ e, sets_gauge (ev_call e) = false) t.
Proof.
  induction t as [|e t IH] using rev_ind; [constructor|]. rewrite gauge_snoc. intros Ht. apply Forall_app.
  destruct e as [c a]; destruct c; try (split; [by apply IH|by constructor]).
  destruct o; (split; [by apply IH|by constructor]).
Qed.
End gauge.

(** C37: a reconcile sets the gauge of out-of-sync Deployments at most once, under its own labels, and
    every status it writes afterwards lists exactly that many Deployments as out of sync and none as
    failed: Deployments in error never reach the gauge. *)
Theorem gauge_matches_written_status `{MetaLib, ClientUtil, PatchLib, QuantityLib, K8sValidation, MapOrder}
    (yanet : Yanet) (t1 t2 : trace) (m : metric) (labels : list string) (n : Z) (a : unit) (r : outcome) :
  run (reconcileYanet yanet) (t1 ++ Ev (Observe (SetTo m labels n)) a :: t2) r →
  m = yanetDeploymentsOutOfSync ∧ labels = [y_Name yanet; y_Namespace yanet]
  ∧ Forall (λ e, sets_gauge (ev_call e) = false) (t1 ++ t2)
  ∧ ∀ written answer, Ev (UpdateYanetStatus written) answer ∈ t2 →
      sy_Error (st_Sync (y_Status written)) = []
      ∧ n = Z.of_nat (length (sy_OutOfSync (st_Sync (y_Status written)))).
Proof.
  intros Hr. destruct (reconcileYanet_consistent yanet _ _ Hr) as [Hc _].
  pose proof (Hc t1 _ t2 eq_refl) as (Hnone & Hm & Hl). split_and!; [done..| |].
  - apply Forall_app. split; [by apply gauge_none|]. apply Forall_forall. intros e He.
    destruct (after_gauge _ _ _ _ _ _ _ e Hc He) as (h & Hg & Hok).
    destruct e as [c x]; destruct c; try done; destruct o; try done. destruct Hok as [Hn _]. congruence.
  - intros written answer He. destruct (after_gauge _ _ _ _ _ _ _ _ Hc He) as (h & Hg & Hok). by apply Hok.
Qed.

Import Concrete.

(** A report-only pass over a node without workloads: two missing Deployments. *)
Lemma gauge_matches_written_status_witness :
  let x := exec Fake.server (Fake.small false None) (reconcileYanet (Fake.small_yanet false None)) in
  ∃ t1 t2 written answer, x.1.2 = t1 ++ Ev (Observe (SetTo yanetDeploymentsOutOfSync ["w"; "yanet"] 2)) tt :: t2
    ∧ Ev (UpdateYanetStatus written) answer ∈ t2 ∧ 2 = Z.of_nat (length (sy_OutOfSync (st_Sync (y_Status written)))).
Proof.
  intros x.
  assert (Hs : x.1.2 = take 11 x.1.2 ++ Ev (Observe (SetTo yanetDeploymentsOutOfSync ["w"; "yanet"] 2)) tt :: drop 12 x.1.2)
    by (symmetry; apply take_drop_middle; vm_compute; reflexivity).
  assert (Hw : ∃ written answer, Ev (UpdateYanetStatus written) answer ∈ drop 12 x.1.2)
    by (do 2 eexists; apply (list_elem_of_lookup_2 _ 2); vm_compute; reflexivity).
  destruct Hw as (written & answer & Hw). exists (take 11 x.1.2), (drop 12 x.1.2), written, answer.
  split; [exact Hs|]. split; [exact Hw|].
  destruct (gauge_matches_written_status (Fake.small_yanet false None) (take 11 x.1.2) (drop 12 x.1.2)
              yanetDeploymentsOutOfSync ["w"; "yanet"] 2 tt x.2) as (_ & _ & _ & Hall).
  - rewrite <-Hs. exact (exec_run _ _ _).
  - exact (proj2 (Hall written answer Hw)).
Defined.
