(* ===== verification/ExclusionSpec.v ===== *)
(** * Mutual exclusion: the update window, node ownership and placement *)

From S2P Require Import Prelude GoLib K8s Api Resolve Labels Builder Service Render Webhook.
From S2P Require Import Metrics Program Managed YanetController Reconciler Reconcile ConfigController Instances.
#[local] Open Scope Z_scope.

(** ** The update window *)

(** The outcome of one request. *)
Lemma checkUpdateRequeue_cases st now window host :
  0 < window →
  (checkUpdateRequeue st now window host = (MkThrottle now host, 0)
   ∧ (host = lastUpdateHost st ∨ lastUpdateTS st + window < now))
  ∨ (checkUpdateRequeue st now window host = (st, wrap_int64 (window - time_Sub now (lastUpdateTS st)))
     ∧ host ≠ lastUpdateHost st ∧ now ≤ lastUpdateTS st + window).
Proof.
  intros Hw. unfold checkUpdateRequeue. rewrite bool_decide_false by lia.
  case_bool_decide; case_bool_decide; simpl; [left|left|right|left]; split_and?; try done; try lia; auto.
Qed.

(** The throttle delays but never starves: a rejected request is told a delay
    between zero and the window, the window of the previous host is unchanged, and the
    same request made again that much later (or at any later time before another
    update is recorded) is let through with no delay. *)
Theorem throttle_delay_suffices st window now host later :
  0 < window → is_int64 window → lastUpdateTS st ≤ now →
  let '(st', wait) := checkUpdateRequeue st now window host in
  0 ≤ wait ≤ window
  ∧ (wait ≠ 0 → st' = st)
  ∧ (now + wait ≤ later → (checkUpdateRequeue st' later window host).2 = 0).
Proof.
  intros Hw Hi Hnow. assert (Hsub : ∀ t, lastUpdateTS st ≤ t ≤ lastUpdateTS st + window →
    wrap_int64 (window - time_Sub t (lastUpdateTS st)) = lastUpdateTS st + window - t).
  { intros t Ht. unfold time_Sub, MaxInt64, is_int64 in *. rewrite Z.min_r, Z.max_r by lia.
    rewrite wrap_int64_id by (unfold is_int64; lia). lia. }
  destruct (checkUpdateRequeue_cases st now window host Hw) as [[-> _]|(-> & Hne & Hle)].
  - split_and!; [lia|lia|done|]. intros _.
    destruct (checkUpdateRequeue_cases (MkThrottle now host) later window host Hw) as [[-> _]|(_ & Hh & _)]; done.
  - rewrite Hsub by lia. split_and!; [lia|lia|done|]. intros Hlater.
    destruct (checkUpdateRequeue_cases st later window host Hw) as [[-> _]|(-> & _ & Hl)]; [done|].
    simpl. rewrite Hsub by lia. lia.
Qed.

Lemma throttle_delay_suffices_witness :
  0 ≤ 200 ≤ 300 ∧ (200 ≠ 0 → MkThrottle 1000 "a" = MkThrottle 1000 "a")
  ∧ (1100 + 200 ≤ 1301 → (checkUpdateRequeue (MkThrottle 1000 "a") 1301 300 "b").2 = 0).
Proof.
  apply (throttle_delay_suffices (MkThrottle 1000 "a") 300 1100 "b" 1301).
  - lia.
  - unfold is_int64. lia.
  - simpl. lia.
Defined.

(** C40: at the exact end of the window a different host is let through (the delay
    is zero) but the update is not recorded, so the window of the previous host
    stays in force and yet another host may follow at once. *)
Theorem window_boundary_is_unrecorded st window host third :
  0 < window → is_int64 window → host ≠ lastUpdateHost st →
  let boundary := lastUpdateTS st + window in
  checkUpdateRequeue st boundary window host = (st, 0)
  ∧ checkUpdateRequeue st (boundary + 1) window third = (MkThrottle (boundary + 1) third, 0).
Proof.
  intros Hw Hi Hh boundary. unfold checkUpdateRequeue, boundary. rewrite !(bool_decide_false (window = 0)) by lia.
  rewrite (bool_decide_false (_ < _)) by lia. rewrite (bool_decide_true (host ≠ _)) by done.
  rewrite (bool_decide_true (_ < _)) by lia. simpl. split; [|done]. f_equal.
  unfold time_Sub, MaxInt64, is_int64 in *.
  replace (lastUpdateTS st + window - lastUpdateTS st) with window by lia.
  rewrite Z.min_r, Z.max_r by lia. rewrite Z.sub_diag. reflexivity.
Qed.

Lemma window_boundary_is_unrecorded_witness :
  checkUpdateRequeue (MkThrottle 1000 "a") (1000 + 300) 300 "b" = (MkThrottle 1000 "a", 0)
  ∧ checkUpdateRequeue (MkThrottle 1000 "a") (1000 + 300 + 1) 300 "c" = (MkThrottle (1000 + 300 + 1) "c", 0).
Proof.
  apply (window_boundary_is_unrecorded (MkThrottle 1000 "a") 300 "b" "c").
  - lia.
  - unfold is_int64. lia.
  - done.
Defined.

(** ** Node ownership *)
Definition yanet_key (y : Yanet) : string := y_Namespace y +:+ "/" +:+ y_Name y.

Lemma yanetPrecedes_asym a b : yanetPrecedes a b = true → yanetPrecedes b a = false.
Proof.
  unfold yanetPrecedes. repeat case_bool_decide; try lia; try congruence.
  apply str_lt_asym.
Qed.

Lemma yanetPrecedes_total a b : yanet_key a ≠ yanet_key b → yanetPrecedes a b = negb (yanetPrecedes b a).
Proof.
  intros Hk. unfold yanetPrecedes. repeat case_bool_decide; try lia; try congruence; try done.
  by apply str_lt_total.
Qed.

Lemma yanetPrecedes_trans a b c :
  yanetPrecedes a b = true → yanetPrecedes b c = true → yanetPrecedes a c = true.
Proof.
  unfold yanetPrecedes. repeat case_bool_decide; try lia; try congruence; try done.
  apply str_lt_trans.
Qed.

(** A relation that is transitive and decides every pair with different keys has a
    greatest element on every non-empty list. *)
Lemma greatest_exists {A K} (key : A → K) (beats : A → A → bool) `{EqDecision K} x0 l :
  (∀ a b c, beats a b = true → beats b c = true → beats a c = true) →
  (∀ a b, key a ≠ key b → beats a b = negb (beats b a)) →
  NoDup (key <$> x0 :: l) →
  ∃ w, w ∈ x0 :: l ∧ ∀ x, x ∈ x0 :: l → key x ≠ key w → beats w x = true.
Proof.
  intros Htrans Htotal. revert x0. induction l as [|y l IH]; intros x0 Hn.
  { exists x0. split; [set_solver|]. intros x ->%list_elem_of_singleton. done. }
  rewrite fmap_cons in Hn. apply NoDup_cons in Hn as [Hx0 Hn]. destruct (IH y Hn) as (w & Hw & Hbest).
  assert (Hkey : key x0 ≠ key w) by (intros E; apply Hx0; rewrite E; by apply (list_elem_of_fmap_2 key)).
  destruct (beats x0 w) eqn:Hb.
  - exists x0. split; [set_solver|]. intros x [->|Hx]%elem_of_cons Hne; [done|].
    destruct (decide (key x = key w)) as [E|Hxw]; [|eauto].
    by rewrite (NoDup_key_inj key (y :: l) x w).
  - exists w. split; [set_solver|]. intros x [->|Hx]%elem_of_cons Hne; [|by apply Hbest].
    rewrite Htotal by congruence. by rewrite Hb.
Qed.

Section exclusive.
Context `{MetaLib}.

Lemma current_wins_asym deployments a b node :
  current_wins deployments a b node = true → current_wins deployments b a node = false.
Proof.
  unfold current_wins. do 2 case_bool_decide; try congruence.
  - apply yanetPrecedes_asym.
  - destruct (has_workload deployments a _), (has_workload deployments b _); simpl; done.
Qed.

Lemma current_wins_total deployments node a b :
  yanet_key a ≠ yanet_key b → current_wins deployments a b node = negb (current_wins deployments b a node).
Proof.
  intros Hk. unfold current_wins. do 2 case_bool_decide; try congruence.
  - by apply yanetPrecedes_total.
  - by destruct (has_workload deployments a _), (has_workload deployments b _).
Qed.

Lemma current_wins_trans deployments node a b c :
  current_wins deployments a b node = true → current_wins deployments b c node = true →
  current_wins deployments a c node = true.
Proof.
  unfold current_wins.
  destruct (has_workload deployments a _), (has_workload deployments b _), (has_workload deployments c _);
    simpl; try done; apply yanetPrecedes_trans.
Qed.

Lemma same_key_refl a : same_key a a = true.
Proof. unfold same_key. by rewrite !bool_decide_true. Qed.

Lemma same_key_sym a b : same_key a b = same_key b a.
Proof. unfold same_key. f_equal; apply bool_decide_ext; naive_solver. Qed.

Lemma exclusive_step_empty deployments y other st node :
  (exclusive_step deployments y other st node).1 = [] →
  st.1 = [] ∧ (claims deployments other node = true →
               current_wins deployments y other node = true ∧ om_DeletionTimestamp (y_Meta other) = None).
Proof.
  unfold exclusive_step. destruct st as [conflicts cleanup].
  destruct (claims deployments other node); simpl; [|done].
  destruct (current_wins deployments y other node), (bool_decide (om_DeletionTimestamp (y_Meta other) = None)) eqn:E;
    simpl; try (intros Hn%(f_equal length); rewrite length_app in Hn; simpl in Hn; lia).
  intros ->. apply bool_decide_eq_true_1 in E. done.
Qed.

Lemma exclusive_nodes_empty deployments y other st nodes :
  (foldl (exclusive_step deployments y other) st nodes).1 = [] →
  st.1 = [] ∧ ∀ node, node ∈ nodes → claims deployments other node = true →
    current_wins deployments y other node = true ∧ om_DeletionTimestamp (y_Meta other) = None.
Proof.
  revert st. induction nodes as [|n nodes IH]; intros st; simpl; [intros ->; split; [done|set_solver]|].
  intros (H1 & H2)%IH. apply exclusive_step_empty in H1 as [H1 H3]. split; [done|].
  intros node [->|Hin]%elem_of_cons; auto.
Qed.

Lemma exclusive_conflicts_empty y nodes installations deployments other node :
  (exclusive_conflicts y nodes installations deployments).1 = [] →
  other ∈ installations → same_key other y = false → node ∈ nodes → claims deployments other node = true →
  current_wins deployments y other node = true ∧ om_DeletionTimestamp (y_Meta other) = None.
Proof.
  intros Hc Ho Hk Hn Hcl. unfold exclusive_conflicts in Hc. revert Hc. generalize (([], ∅) : list string * gset string).
  assert (Hmono : ∀ l st, (foldl (λ st other, if same_key other y then st
      else foldl (exclusive_step deployments y other) st nodes) st l).1 = [] → st.1 = []).
  { induction l as [|o l IH]; intros st; simpl; [done|]. intros E%IH.
    destruct (same_key o y); [done|]. by apply exclusive_nodes_empty in E as [? _]. }
  induction installations as [|o l IH]; intros st Hc; [set_solver|]. simpl in Hc.
  apply elem_of_cons in Ho as [->|Ho]; [|by eapply IH].
  rewrite Hk in Hc. apply Hmono, exclusive_nodes_empty in Hc as [_ Hc]. by apply Hc.
Qed.

(** Nobody else has a better claim: no conflict. *)
Lemma exclusive_conflicts_none y node installations deployments :
  (∀ other, other ∈ installations → same_key other y = false → claims deployments other node = true →
     current_wins deployments y other node = true ∧ om_DeletionTimestamp (y_Meta other) = None) →
  (exclusive_conflicts y [node] installations deployments).1 = [].
Proof.
  unfold exclusive_conflicts. generalize (∅ : gset string) as cleanup.
  induction installations as [|o l IH]; intros cleanup Hwin; simpl; [done|].
  assert (Hrest : ∀ other, other ∈ l → same_key other y = false → claims deployments other node = true →
    current_wins deployments y other node = true ∧ om_DeletionTimestamp (y_Meta other) = None) by set_solver.
  destruct (same_key o y) eqn:Hk; [by apply IH|]. unfold exclusive_step.
  destruct (claims deployments o node) eqn:Hc; simpl; [|by apply IH].
  destruct (Hwin o ltac:(set_solver) Hk Hc) as [-> ->]. by apply IH.
Qed.

(** The cleanup list is exactly the nodes with own workloads that somebody else wins. *)
Definition lost (deployments : list Deployment) (y other : Yanet) (node : Node) : Prop :=
  claims deployments other node = true ∧ has_workload deployments y (n_Name node) = true
  ∧ current_wins deployments y other node = false.

Lemma exclusive_step_cleanup deployments y other st node x :
  x ∈ (exclusive_step deployments y other st node).2 ↔ x ∈ st.2 ∨ lost deployments y other node ∧ n_Name node = x.
Proof.
  destruct st as [conflicts cleanup]. unfold exclusive_step, lost.
  destruct (claims deployments other node), (current_wins deployments y other node),
    (bool_decide (om_DeletionTimestamp (y_Meta other) = None)), (has_workload deployments y (n_Name node));
    simpl; set_solver.
Qed.

Lemma exclusive_nodes_cleanup deployments y other st nodes x :
  x ∈ (foldl (exclusive_step deployments y other) st nodes).2
  ↔ x ∈ st.2 ∨ ∃ node, node ∈ nodes ∧ lost deployments y other node ∧ n_Name node = x.
Proof.
  revert st. induction nodes as [|n nodes IH]; intros st; cbn [foldl]; [set_solver|].
  rewrite IH, exclusive_step_cleanup. setoid_rewrite elem_of_cons. naive_solver.
Qed.

Lemma exclusive_conflicts_cleanup y nodes installations deployments x :
  x ∈ (exclusive_conflicts y nodes installations deployments).2
  ↔ ∃ other node, other ∈ installations ∧ same_key other y = false ∧ node ∈ nodes
      ∧ lost deployments y other node ∧ n_Name node = x.
Proof.
  unfold exclusive_conflicts.
  cut (∀ st, x ∈ (foldl (λ st other, if same_key other y then st else foldl (exclusive_step deployments y other) st nodes)
           st installations).2 ↔ x ∈ st.2 ∨ ∃ other node, other ∈ installations ∧ same_key other y = false ∧ node ∈ nodes
      ∧ lost deployments y other node ∧ n_Name node = x).
  { intros Hc. rewrite Hc. simpl. set_solver. }
  induction installations as [|o l IH]; intros st; cbn [foldl]; [set_solver|].
  rewrite IH. setoid_rewrite elem_of_cons. destruct (same_key o y) eqn:Hk; [naive_solver congruence|].
  rewrite exclusive_nodes_cleanup. naive_solver.
Qed.

(** Losing a node is a conflict, and workloads on it are to be removed. *)
Lemma lost_node y winner node nodes installations deployments :
  winner ∈ installations → same_key winner y = false → node ∈ nodes → claims deployments winner node = true →
  current_wins deployments y winner node = false →
  (exclusive_conflicts y nodes installations deployments).1 ≠ []
  ∧ (has_workload deployments y (n_Name node) = true →
     n_Name node ∈ (exclusive_conflicts y nodes installations deployments).2).
Proof.
  intros Hw Hk Hn Hc Hlost. split.
  - intros E. destruct (exclusive_conflicts_empty _ _ _ _ winner node E) as [Hwin _]; [done..|congruence].
  - intros Hload. apply exclusive_conflicts_cleanup. by exists winner, node.
Qed.
End exclusive.

(** C12: one node belongs to at most one installation: two different installations
    that both claim a node cannot both pass the exclusivity check against the same
    view of the cluster, and none passes while an installation that claims one of
    its nodes is still being deleted. *)
Theorem nodes_are_exclusive `{MetaLib} a b nodesA nodesB installations deployments node :
  a ∈ installations → b ∈ installations → same_key a b = false →
  node ∈ nodesA → node ∈ nodesB → claims deployments a node = true → claims deployments b node = true →
  (exclusive_conflicts a nodesA installations deployments).1 = [] →
  om_DeletionTimestamp (y_Meta b) = None
  ∧ (exclusive_conflicts b nodesB installations deployments).1 ≠ [].
Proof.
  intros Ha Hb Hk HnA HnB HcA HcB Hpass.
  assert (Hk' : same_key b a = false) by (by rewrite same_key_sym).
  destruct (exclusive_conflicts_empty a nodesA installations deployments b node) as [Hwin Hdel]; try done.
  split; [done|]. intros Hpass'.
  destruct (exclusive_conflicts_empty b nodesB installations deployments a node) as [Hwin' _]; try done.
  apply current_wins_asym in Hwin. congruence.
Qed.

Import Concrete.

Lemma nodes_are_exclusive_witness :
  om_DeletionTimestamp (y_Meta Fake.newcomer) = None
  ∧ (exclusive_conflicts Fake.newcomer [Fake.node] [Fake.yanet; Fake.newcomer] []).1 ≠ [].
Proof.
  apply (nodes_are_exclusive Fake.yanet Fake.newcomer [Fake.node] [Fake.node] [Fake.yanet; Fake.newcomer] [] Fake.node).
  - set_solver.
  - set_solver.
  - vm_compute. reflexivity.
  - set_solver.
  - set_solver.
  - vm_compute. reflexivity.
  - vm_compute. reflexivity.
  - vm_compute. reflexivity.
Defined.

(** C21: each contested node, taken by itself, has a winner, and the losers make room.  When no
    installation is being deleted, some installation that claims the node is not contested on
    it; every other installation that claims it fails its exclusivity check as long as its
    selection contains the node, whatever else it selects, and is told to remove the workloads
    it has there.
    This is a statement about one node: a pass needs all the nodes it selects, and two
    installations that each win a different node can block each other, see
    [crossed_owners_block]. *)
Theorem contested_node_has_winner `{MetaLib} installations deployments node claimant :
  NoDup (yanet_key <$> installations) →
  Forall (λ y, om_DeletionTimestamp (y_Meta y) = None) installations →
  claimant ∈ installations → claims deployments claimant node = true →
  ∃ winner, winner ∈ installations ∧ claims deployments winner node = true
    ∧ (exclusive_conflicts winner [node] installations deployments).1 = []
    ∧ ∀ loser nodes, loser ∈ installations → same_key winner loser = false → node ∈ nodes →
        claims deployments loser node = true →
        (exclusive_conflicts loser nodes installations deployments).1 ≠ []
        ∧ (has_workload deployments loser (n_Name node) = true →
           n_Name node ∈ (exclusive_conflicts loser nodes installations deployments).2).
Proof.
  intros Hn Hlive Hc Hcl.
  set (l := filter (λ y, claims deployments y node = true) installations).
  assert (Hl : claimant ∈ l) by (by apply list_elem_of_filter).
  destruct l as [|x0 l'] eqn:El; [set_solver|].
  destruct (greatest_exists yanet_key (λ a b, current_wins deployments a b node) x0 l') as (w & Hw & Hbest).
  { intros a b c. apply current_wins_trans. }
  { intros a b. apply current_wins_total. }
  { rewrite <-El. unfold l. eapply sublist_NoDup; [exact Hn|]. apply fmap_sublist, sublist_filter. }
  rewrite <-El in Hw, Hbest. unfold l in Hw, Hbest. apply list_elem_of_filter in Hw as [Hwc Hw].
  assert (Hkeys : ∀ y, y ∈ installations → same_key y w = false → yanet_key y ≠ yanet_key w).
  { intros y Hy Hk E. assert (y = w) as -> by (by eapply NoDup_key_inj). by rewrite same_key_refl in Hk. }
  exists w. split_and!; [done|done| |].
  - apply exclusive_conflicts_none. intros other Ho Hk Hco. rewrite Forall_forall in Hlive. split; [|by apply Hlive].
    apply Hbest; [by apply list_elem_of_filter|]. by apply Hkeys.
  - intros loser nodes Hlo Hk Hnode Hcl'. apply (lost_node loser w); try done.
    apply current_wins_asym, Hbest; [by apply list_elem_of_filter|]. apply Hkeys; [done|]. by rewrite same_key_sym.
Qed.


Lemma contested_node_has_winner_witness :
  ∃ winner, winner ∈ [Fake.yanet; Fake.newcomer] ∧ claims [] winner Fake.node = true
    ∧ (exclusive_conflicts winner [Fake.node] [Fake.yanet; Fake.newcomer] []).1 = []
    ∧ ∀ loser nodes, loser ∈ [Fake.yanet; Fake.newcomer] → same_key winner loser = false → Fake.node ∈ nodes →
        claims [] loser Fake.node = true →
        (exclusive_conflicts loser nodes [Fake.yanet; Fake.newcomer] []).1 ≠ []
        ∧ (has_workload [] loser (n_Name Fake.node) = true →
           n_Name Fake.node ∈ (exclusive_conflicts loser nodes [Fake.yanet; Fake.newcomer] []).2).
Proof.
  apply (contested_node_has_winner [Fake.yanet; Fake.newcomer] [] Fake.node Fake.yanet).
  - apply (bool_decide_eq_true_1 (NoDup _)). vm_compute. reflexivity.
  - repeat constructor.
  - set_solver.
  - vm_compute. reflexivity.
Defined.

(** Two installations, two nodes, one workload each. *)
Definition workload_on (node : string) (owner : Yanet) : Deployment :=
  MkDeployment "Deployment" "apps/v1"
    (MkObjectMeta (y_Name owner +:+ "-" +:+ node) (y_Namespace owner) "uid-x" "9" 1 1 None {[labelNode := node]} ∅
       [MkOwnerReference GroupVersion "Yanet" (y_Name owner) (om_UID (y_Meta owner)) (Some true) (Some true)] [] "")
    (d_Spec Fake.orphan_deployment) (d_Status Fake.orphan_deployment).
Definition other_node : Node := MkNode "node-b" {["pool" := "edge"]} ∅.
Definition crossed : list Deployment := [workload_on "node-a" Fake.yanet; workload_on "node-b" Fake.newcomer].


(** ** Placement transitions *)

Lemma sort_by_perm {A} (key : A → string) l : sort_by key l ≡ₚ l.
Proof. apply merge_sort_Permutation. Qed.

(** C29: when the placement guard lets a reconcile proceed with at least one live
    role, it has listed the Deployments, ReplicaSets and Pods of the namespace, and
    no listed workload of this installation that can still produce Pods on the
    node of a role runs that role in the other placement (standalone versus
    dataplane sidecar). *)
Theorem placement_guard_is_sound `{MetaLib} yanet nodes workloads t :
  run (validateOperatorPlacementTransition yanet nodes workloads) t (Ok tt) →
  desired_roles nodes workloads ≠ [] →
  ∃ deps sets pods,
    t = [Ev (ListDeployments (Some (y_Namespace yanet))) (Ok deps); Ev (ListReplicaSets (y_Namespace yanet)) (Ok sets);
         Ev (ListPods (y_Namespace yanet) ∅) (Ok pods)]
    ∧ ∀ target producer,
        target ∈ desired_roles nodes workloads → producer ∈ live_producers deps sets pods →
        get (pt_Labels (pp_template producer)) labelYanet = y_Name yanet →
        producer_on_node (pp_template producer) (pl_node target) = true →
        incompatibleOperatorPlacement (pt_Labels (pp_template producer)) (pl_name target) (pl_colocated target) = false.
Proof.
  intros Hr Hne. unfold validateOperatorPlacementTransition in Hr.
  destruct (desired_roles nodes workloads) as [|r0 rs] eqn:Er; [done|]. rewrite <-Er in *. clear Hne Er.
  apply run_bind in Hr as (t1 & t2 & [producers|e] & -> & Hl & Hr); [|by destruct Hr].
  destruct Hr as [-> Hr]. symmetry in Hr. rewrite app_nil_r.
  unfold listPlacementProducers in Hl.
  apply (run_bind_invoke (ListDeployments _)) in Hl as ([deps|e] & ? & -> & Hl); [|by destruct Hl].
  apply (run_bind_invoke (ListReplicaSets _)) in Hl as ([sets|e] & ? & -> & Hl); [|by destruct Hl].
  apply (run_bind_invoke (ListPods _ _)) in Hl as ([pods|e] & ? & -> & Hl); [|by destruct Hl].
  destruct Hl as [-> [= ->]]. exists deps, sets, pods. split; [done|].
  intros target producer Ht Hp Hy Hn. rewrite check_all_Ok, Forall_forall in Hr.
  specialize (Hr target). rewrite sort_by_perm in Hr. specialize (Hr Ht).
  rewrite check_all_Ok, Forall_forall in Hr. specialize (Hr producer Hp).
  unfold check_producer in Hr. rewrite err_if_Ok, bool_decide_true, Hn in Hr by done. done.
Qed.

(** A standalone operator role on the node of the example. *)
Definition sample_workloads : gmap string (list renderedWorkload) :=
  {["n" := [MkRendered Fake.orphan_deployment (literal_component KindOperator "route" true (rc_Image zero_component))]]}.

Lemma placement_guard_is_sound_witness :
  ∃ deps sets pods,
    (exec Fake.server (Fake.small true None)
       (validateOperatorPlacementTransition (Fake.small_yanet true None) [MkNode "n" ∅ ∅] sample_workloads)).1.2 =
      [Ev (ListDeployments (Some "yanet")) (Ok deps); Ev (ListReplicaSets "yanet") (Ok sets);
       Ev (ListPods "yanet" ∅) (Ok pods)]
    ∧ ∀ target producer,
        target ∈ desired_roles [MkNode "n" ∅ ∅] sample_workloads → producer ∈ live_producers deps sets pods →
        get (pt_Labels (pp_template producer)) labelYanet = "w" →
        producer_on_node (pp_template producer) (pl_node target) = true →
        incompatibleOperatorPlacement (pt_Labels (pp_template producer)) (pl_name target) (pl_colocated target) = false.
Proof.
  apply (placement_guard_is_sound (Fake.small_yanet true None) [MkNode "n" ∅ ∅] sample_workloads).
  - exact (exec_run Fake.server (Fake.small true None)
             (validateOperatorPlacementTransition (Fake.small_yanet true None) [MkNode "n" ∅ ∅] sample_workloads)).
  - vm_compute. discriminate.
Defined.
