(* ===== verification/ThrottleSpec.v ===== *)
(** * The update window of the running process

    The throttle is shared by all reconciles behind its mutex.  The answers they
    get are those of one sequential throttle that saw every request before, in
    the order and at the times of the history, so that updates of different
    hosts are spaced by the window, whatever the goroutines do. *)

From S2P Require Import Prelude GoLib K8s Api Resolve Labels Builder Service Render Webhook.
From S2P Require Import Metrics Program Managed YanetController Reconciler Reconcile ConfigController System Instances.
From S2P Require Import StopSpec SystemSpec ExclusionSpec.
#[local] Open Scope Z_scope.

(** ** The sequential throttle of a history *)
Definition request_step (st : throttle) (e : entry) : throttle :=
  match en_event e with
  | Ev (Throttle window host) _ => (checkUpdateRequeue st (en_time e) window host).1
  | _ => st
  end.
Definition throttle_after (h : history) : throttle := foldl request_step throttle_init h.

Lemma throttle_after_snoc h e : throttle_after (h ++ [e]) = request_step (throttle_after h) e.
Proof. unfold throttle_after. by rewrite foldl_app. Qed.

(** What the process says to a request, given what came before. *)
Definition answered (h : history) (e : entry) : Prop :=
  match en_event e with
  | Ev (Throttle window host) wait => wait = (checkUpdateRequeue (throttle_after h) (en_time e) window host).2
  | _ => True
  end.

(** Every request got its sequential answer, and time does not run backwards. *)
Definition sequential (clock : Z) (h : history) : Prop :=
  (∀ h1 e h2, h = h1 ++ e :: h2 → answered h1 e)
  ∧ StronglySorted (λ a b, en_time a ≤ en_time b) h ∧ Forall (λ e, en_time e ≤ clock) h.

Lemma sequential_later clock clock' h : clock ≤ clock' → sequential clock h → sequential clock' h.
Proof. intros Hle (Ha & Hs & Ht). split_and!; [done..|]. eapply Forall_impl; [exact Ht|]. simpl. intros. lia. Qed.

Lemma sequential_snoc clock h i e :
  sequential clock h → answered h (MkEntry i clock e) → sequential clock (h ++ [MkEntry i clock e]).
Proof.
  intros (Ha & Hs & Ht) He. split_and!.
  - intros h1 x h2 E. destruct h2 as [|y h2 _] using rev_ind.
    + apply app_inj_tail in E as [? ?]. by subst.
    + rewrite app_comm_cons, app_assoc in E. apply app_inj_tail in E as [-> _]. by eapply Ha.
  - apply StronglySorted_app. split_and!; [|done|repeat constructor].
    intros x y Hx ->%list_elem_of_singleton. rewrite Forall_forall in Ht. by apply Ht.
  - apply Forall_app. split; [done|]. by repeat constructor.
Qed.

(** A memory with the throttle of the history. *)
Lemma atomic_throttle `{MetaLib, ClientUtil, PatchLib, QuantityLib, K8sValidation, MapOrder} s :
  atomic_reachable s →
  mem_throttle (at_memory s) = throttle_after (at_history s) ∧ sequential (mem_clock (at_memory s)) (at_history s).
Proof.
  induction 1 as [now got|s mv s' Hs [IH IHs] E].
  { split; [done|]. split_and!; [by intros []|constructor|constructor]. }
  destruct mv as [j|now|got|i server]; cbn [atomic_step] in E.
  - by injection E as <-.
  - case_bool_decide; [|done]. injection E as <-. split; [done|]. by eapply sequential_later.
  - by injection E as <-.
  - destruct (at_jobs s !! i) as [[j [r|c k]]|] eqn:Hi; [done| |done].
    destruct (serve server (at_memory s) c) as [m a] eqn:Es. injection E as <-. cbn [at_memory at_history].
    rewrite throttle_after_snoc, <-IH. assert (Hc : mem_clock m = mem_clock (at_memory s)) by (by destruct c; injection Es as <- <-).
    split; [destruct c; by injection Es as <- <-|]. rewrite Hc. apply sequential_snoc; [done|].
    unfold answered. cbn [en_event en_time]. rewrite <-IH. destruct c; try done. by injection Es as <- <-.
Qed.

(** ** Spacing *)

(** The windows of the requests of [h] are at least [W]. *)
Definition windows_at_least (W : Z) (h : history) : Prop :=
  Forall (λ e, match en_event e with Ev (Throttle window _) _ => W ≤ window | _ => True end) h.

(** A request of another host than the last one that is recorded comes after the
    window. *)
Lemma recorded_late W st h b :
  0 < W → windows_at_least W (h ++ [b]) → StronglySorted (λ a b, en_time a ≤ en_time b) (h ++ [b]) →
  Forall (λ e, lastUpdateTS st ≤ en_time e) (h ++ [b]) →
  ∀ window host wait, en_event b = Ev (Throttle window host) wait → host ≠ lastUpdateHost st →
  foldl request_step st (h ++ [b]) = MkThrottle (en_time b) host → lastUpdateTS st + W < en_time b.
Proof.
  intros HW. revert st. induction h as [|e h IH]; intros st Hw Hs Hge window host wait Eb Hne Hfold.
  - simpl in Hfold. unfold request_step in Hfold. rewrite Eb in Hfold.
    apply Forall_cons_1 in Hw as [Hw _]. rewrite Eb in Hw.
    destruct (checkUpdateRequeue_cases st (en_time b) window host) as [[_ Hc]|(E & _ & _)]; [lia| |].
    + destruct Hc; [done|lia].
    + rewrite E in Hfold. simpl in Hfold. by rewrite Hfold in Hne.
  - apply Forall_cons_1 in Hw as [He Hw]. apply Forall_cons_1 in Hge as [Hge Hges].
    apply StronglySorted_inv in Hs as [Hs Hle]. cbn [foldl app] in Hfold.
    assert (Hnext : ∀ ts h', (ts = en_time e ∨ ts = lastUpdateTS st) → host ≠ h' →
      foldl request_step (MkThrottle ts h') (h ++ [b]) = MkThrottle (en_time b) host → ts + W < en_time b).
    { intros ts h' Hts Hh' Hf. apply (IH (MkThrottle ts h') Hw Hs) with window host wait; try done.
      destruct Hts as [->| ->]; simpl; [exact Hle|exact Hges]. }
    unfold request_step in Hfold at 2. destruct (en_event e) as [c a] eqn:Ee.
    assert (Hsame : foldl request_step st (h ++ [b]) = MkThrottle (en_time b) host → lastUpdateTS st + W < en_time b).
    { destruct st. intros. eapply Hnext; eauto. }
    destruct c; try (by apply Hsame). destruct (checkUpdateRequeue_cases st (en_time e) updateWindow updateHost)
      as [[E Hc]|(E & _ & _)]; [lia| |rewrite E in Hfold; by apply Hsame].
    rewrite E in Hfold. cbn [fst] in Hfold. destruct Hc as [->|Hexp].
    + enough (en_time e + W < en_time b) by lia. eapply Hnext; eauto.
    + rewrite Forall_forall in Hle. assert (en_time e ≤ en_time b) by (apply Hle; set_solver). lia.
Qed.

(** C30: the update window is one throttle for the whole process.  Whatever the goroutines do, the
    mutex makes every reconcile's answer the one a sequential throttle gives after all earlier
    requests, at times that never run backwards; and two recorded updates of different hosts are
    more than the window apart as long as the configured window does not fall below it. *)
Theorem process_spaces_hosts `{MetaLib, ClientUtil, PatchLib, QuantityLib, K8sValidation, MapOrder} (s : lock_state) :
  lock_reachable s →
  (∀ h1 e h2 window host wait, lk_history s = h1 ++ e :: h2 → en_event e = Ev (Throttle window host) wait →
     wait = (checkUpdateRequeue (throttle_after h1) (en_time e) window host).2)
  ∧ ∀ h1 a h2 b h3 W window host wait window' host' wait',
      lk_history s = h1 ++ a :: h2 ++ b :: h3 →
      en_event a = Ev (Throttle window host) wait → throttle_after (h1 ++ [a]) = MkThrottle (en_time a) host →
      en_event b = Ev (Throttle window' host') wait' →
      throttle_after (h1 ++ a :: h2 ++ [b]) = MkThrottle (en_time b) host' →
      host ≠ host' → 0 < W → windows_at_least W (h2 ++ [b]) → en_time a + W < en_time b.
Proof.
  intros Hs. destruct (atomic_throttle _ (locks_simulate s Hs)) as [_ (Hans & Hsort & _)].
  cbn [at_history abstraction] in *. split.
  - intros h1 e h2 window host wait Eh Ee. specialize (Hans h1 e h2 Eh). unfold answered in Hans. by rewrite Ee in Hans.
  - intros h1 a h2 b h3 W window host wait window' host' wait' Eh Ea Hra Eb Hrb Hne HW Hwin.
    rewrite Eh in Hsort. apply StronglySorted_app_1_r, StronglySorted_inv in Hsort as [Hsort Hle].
    change (b :: h3) with ([b] ++ h3) in Hsort, Hle. rewrite app_assoc in Hsort, Hle.
    apply StronglySorted_app_1_l in Hsort. apply Forall_app in Hle as [Hle _].
    change (h1 ++ a :: h2 ++ [b]) with (h1 ++ [a] ++ (h2 ++ [b])) in Hrb. rewrite app_assoc in Hrb.
    unfold throttle_after in Hrb. rewrite foldl_app in Hrb. fold (throttle_after (h1 ++ [a])) in Hrb. rewrite Hra in Hrb.
    by apply (recorded_late W (MkThrottle (en_time a) host) h2 b HW Hwin Hsort Hle window' host' wait').
Qed.

(** ** A schedule

    Two reconciles want to change Deployments on different nodes; the second one
    asks 400 seconds later, with a window of 300 seconds. *)
Module Windows.
Import Concrete.

Definition window_config : YanetConfigSpec :=
  MkYanetConfigSpec false 300 (yc_Images Fake.small_config) (yc_Components Fake.small_config)
    (yc_Patches Fake.small_config) (yc_BoxTypes Fake.small_config).
Definition window_object : YanetConfig := MkYanetConfig (yc_Meta Fake.config_object) window_config.

(** One node, with drifted Deployments on it. *)
Definition api (node : string) : answers := λ c,
  match c with
  | ListNodes _ => Ok [MkNode node ∅ ∅]
  | GetDeployment _ _ => Ok Fake.orphan_deployment
  | c => (Fake.serve (Fake.small true None) c).2
  end.

(** The mapper publishes the configuration; each reconcile stops inside its
    throttle request or right after it. *)
Definition moves : list move :=
  [Start MapConfigJob; Start (YanetJob "yanet" "w"); Start (YanetJob "yanet" "w")]
  ++ replicate 5 (Advance 0 (api "n")) ++ replicate 18 (Advance 1 (api "n"))
  ++ [Tick (seconds 4000000400)] ++ replicate 16 (Advance 2 (api "m")).

Definition first : lock_state := lock_initial (seconds 4000000000) (Ok window_object).
Definition final : lock_state := default first (run_schedule first moves).

Lemma windows_reached : lock_reachable final.
Proof.
  unfold final. destruct (run_schedule first moves) as [s|] eqn:E; [|apply lock_reachable_initial].
  eapply run_schedule_reachable; [apply lock_reachable_initial|exact E].
Qed.

Definition granted (i : nat) (now : Z) (host : string) : entry := MkEntry i now (Ev (Throttle (seconds 300) host) 0).
Definition a : entry := granted 1 (seconds 4000000000) "n".
Definition b : entry := granted 2 (seconds 4000000400) "m".

Lemma split_twice {A} (l : list A) i j x y :
  l !! i = Some x → drop (S i) l !! j = Some y → drop (S j) (drop (S i) l) = [] →
  l = take i l ++ x :: take j (drop (S i) l) ++ [y].
Proof.
  intros Hx Hy Hn. rewrite <-(take_drop_middle l i x Hx) at 1. f_equal. f_equal.
  rewrite <-(take_drop_middle _ j y Hy) at 1. by rewrite Hn.
Qed.

Lemma windows_split :
  lk_history final = take 12 (lk_history final) ++ a :: take 10 (drop 13 (lk_history final)) ++ [b].
Proof. apply split_twice; vm_compute; reflexivity. Qed.
End Windows.

Import Concrete.

Lemma process_spaces_hosts_witness : en_time Windows.a + seconds 300 < en_time Windows.b.
Proof.
  destruct (process_spaces_hosts Windows.final Windows.windows_reached) as [_ Hspace].
  eapply (Hspace _ Windows.a _ Windows.b [] (seconds 300) (seconds 300) "n" 0 (seconds 300) "m" 0 Windows.windows_split).
  - reflexivity.
  - vm_compute. reflexivity.
  - reflexivity.
  - vm_compute. reflexivity.
  - discriminate.
  - reflexivity.
  - assert (Hw : forallb (λ e, match en_event e with Ev (Throttle window _) _ => seconds 300 <=? window | _ => true end)
      (take 10 (drop 13 (lk_history Windows.final)) ++ [Windows.b]) = true) by (vm_compute; reflexivity).
    rewrite List.forallb_forall in Hw. apply Forall_forall. intros e He%list_elem_of_In. specialize (Hw e He).
    destruct (en_event e) as [c x]; destruct c; try exact I. by apply Z.leb_le.
Defined.
