(* ===== verification/ServicesSpec.v ===== *)
(** * Shared Services: planning and pruning *)

From S2P Require Import Prelude GoLib K8s Api Resolve Labels Listeners Builder Service Render Webhook.
From S2P Require Import Metrics Program Managed YanetController Reconciler Reconcile ConfigController Instances.
#[local] Open Scope Z_scope.

Section prune.
Context `{MetaLib, ClientUtil, K8sValidation, MapOrder}.

(** The plan of one pass over the installations. *)
Definition service_plan (config : YanetConfig) (installations : list Yanet) : shared_state :=
  foldl (plan_installation (yc_Spec config) (NewControllerRef (yc_Meta config) GroupVersion "YanetConfig"))
    shared_init installations.

(** *** Planning, declaratively *)
Definition service_context (yanet : Yanet) : BuildContext :=
  MkBuildContext "" (y_Namespace yanet) (ys_BoxType (y_Spec yanet)) "" ∅ "" [] (MkOwnerReference "" "" "" "" None None) [].

(** [plan] is a Service plan of an enabled component of the installation. *)
Definition plans (config : YanetConfigSpec) (yanet : Yanet) (plan : ServicePlan) : Prop :=
  ∃ refs ref component, EnabledComponentsForBox config (ys_BoxType (y_Spec yanet)) = Ok refs ∧ ref ∈ refs
    ∧ ResolveBoxServiceComponent (Some config) (ys_BoxType (y_Spec yanet)) (ref_Kind ref) (ref_OperatorName ref)
      = Ok (Some component)
    ∧ plan ∈ BuildServices (service_context yanet) component.

(** Nothing fails in the planning of an installation: its box type and every enabled
    component resolve, and every plan validates. *)
Definition plans_cleanly (config : YanetConfigSpec) (yanet : Yanet) : Prop :=
  ∃ refs, EnabledComponentsForBox config (ys_BoxType (y_Spec yanet)) = Ok refs
    ∧ (∀ ref, ref ∈ refs → ∃ component,
        ResolveBoxServiceComponent (Some config) (ys_BoxType (y_Spec yanet)) (ref_Kind ref) (ref_OperatorName ref) = Ok component)
    ∧ ∀ plan, plans config yanet plan → ServicePlan_Validate plan = Ok tt.

Definition installation_scope (yanet : Yanet) : service_scope := (y_Namespace yanet, ys_BoxType (y_Spec yanet)).
Definition alive (yanet : Yanet) : Prop := om_DeletionTimestamp (y_Meta yanet) = None.

(** A key the planner knows about, as a desired Service or as an ambiguous one. *)
Definition recorded (st : shared_state) (key : service_key) : Prop :=
  is_Some (sh_desired st !! key) ∨ key ∈ sh_blocked st.

(** Planning forgets no key, no protected scope and no failure. *)
Definition extends (acc acc' : shared_state * bool) : Prop :=
  (∀ key, recorded acc.1 key → recorded acc'.1 key) ∧ sh_protected acc.1 ⊆ sh_protected acc'.1
  ∧ (acc.2 = true → acc'.2 = true).
#[local] Instance extends_preorder : PreOrder extends.
Proof. split; [by intros ?|intros ? ? ? (? & ? & ?) (? & ? & ?); split_and!; [auto|by etrans|auto]]. Qed.

Section planner.
Context (config : YanetConfigSpec) (owner : OwnerReference).

Lemma recorded_insert key service st blocked protected scopes errs key' :
  blocked = sh_blocked st →
  recorded st key' ∨ key' = key →
  recorded (MkShared (<[key := service]> (sh_desired st)) blocked protected scopes errs) key'.
Proof.
  intros ->. unfold recorded. simpl. destruct (decide (key' = key)) as [->|Hne].
  - intros _. left. rewrite lookup_insert_eq. by eexists.
  - rewrite lookup_insert_ne by done. intros [?|?]; done.
Qed.

Lemma recorded_delete key st protected scopes errs key' :
  recorded st key' ∨ key' = key →
  recorded (MkShared (delete key (sh_desired st)) ({[key]} ∪ sh_blocked st) protected scopes errs) key'.
Proof.
  unfold recorded. simpl. destruct (decide (key' = key)) as [->|Hne]; [intros _; right; set_solver|].
  rewrite lookup_delete_ne by done. set_solver.
Qed.

(** One plan: it is recorded, or the installation has failed. *)
Lemma plan_service_spec namespace acc plan :
  extends acc (plan_service owner namespace acc plan)
  ∧ match ServicePlan_Validate plan with
    | Ok _ => recorded (plan_service owner namespace acc plan).1 (sv_key (ToService plan namespace owner))
    | Err _ => (plan_service owner namespace acc plan).2 = true
    end.
Proof.
  destruct acc as [st failed]. unfold plan_service, extends.
  destruct (ServicePlan_Validate plan) as [u|e]; [|by split_and!]. cbv zeta. set (key := sv_key _).
  case_bool_decide as Hb; [split_and!; try done; by right|].
  destruct (sh_desired st !! key) as [previous|] eqn:Ek; [case_bool_decide|]; cbn [fst snd].
  - split_and!; try done; [intros k Hk|]; apply (recorded_delete key st); auto.
  - split_and!; try done; [intros k Hk|]; apply (recorded_insert key _ st); auto.
  - split_and!; try done; [intros k Hk|]; apply (recorded_insert key _ st); auto.
Qed.

Lemma plan_services_spec namespace acc services :
  extends acc (foldl (plan_service owner namespace) acc services)
  ∧ ∀ plan, plan ∈ services →
      match ServicePlan_Validate plan with
      | Ok _ => recorded (foldl (plan_service owner namespace) acc services).1 (sv_key (ToService plan namespace owner))
      | Err _ => (foldl (plan_service owner namespace) acc services).2 = true
      end.
Proof.
  induction services as [|plan services [He IH]] using rev_ind; [split; [done|]; by intros ? ?%elem_of_nil|].
  rewrite foldl_app. cbn [foldl]. destruct (plan_service_spec namespace (foldl (plan_service owner namespace) acc services) plan)
    as [Hx Hp]. split; [by etrans|]. intros plan' [Hin| ->%list_elem_of_singleton]%elem_of_app; [|exact Hp].
  specialize (IH plan' Hin). destruct Hx as (Hr & _ & Hf). destruct (ServicePlan_Validate plan'); auto.
Qed.

(** One enabled component. *)
Lemma plan_ref_spec yanet acc ref :
  let acc' := plan_ref config owner yanet acc ref in
  extends acc acc'
  ∧ match ResolveBoxServiceComponent (Some config) (ys_BoxType (y_Spec yanet)) (ref_Kind ref) (ref_OperatorName ref) with
    | Err _ => acc'.2 = true
    | Ok None => True
    | Ok (Some component) => ∀ plan, plan ∈ BuildServices (service_context yanet) component →
        match ServicePlan_Validate plan with
        | Ok _ => recorded acc'.1 (sv_key (ToService plan (y_Namespace yanet) owner))
        | Err _ => acc'.2 = true
        end
    end.
Proof.
  destruct acc as [st failed]. cbv zeta. unfold plan_ref.
  destruct (ResolveBoxServiceComponent _ _ _ _) as [[component|]|e]; [apply plan_services_spec|done|].
  done.
Qed.

Lemma plan_refs_spec yanet acc refs :
  let acc' := foldl (plan_ref config owner yanet) acc refs in
  extends acc acc'
  ∧ ∀ ref, ref ∈ refs →
    match ResolveBoxServiceComponent (Some config) (ys_BoxType (y_Spec yanet)) (ref_Kind ref) (ref_OperatorName ref) with
    | Err _ => acc'.2 = true
    | Ok None => True
    | Ok (Some component) => ∀ plan, plan ∈ BuildServices (service_context yanet) component →
        match ServicePlan_Validate plan with
        | Ok _ => recorded acc'.1 (sv_key (ToService plan (y_Namespace yanet) owner))
        | Err _ => acc'.2 = true
        end
    end.
Proof.
  cbv zeta. induction refs as [|ref refs [He IH]] using rev_ind; [split; [done|]; by intros ? ?%elem_of_nil|].
  rewrite foldl_app. cbn [foldl]. destruct (plan_ref_spec yanet (foldl (plan_ref config owner yanet) acc refs) ref) as [Hx Hp].
  split; [by etrans|]. intros ref' [Hin| ->%list_elem_of_singleton]%elem_of_app; [|exact Hp].
  specialize (IH ref' Hin). destruct Hx as (Hr & _ & Hf).
  destruct (ResolveBoxServiceComponent _ _ (ref_Kind ref') _) as [[component|]|]; [|done|auto].
  intros plan Hplan. specialize (IH plan Hplan). destruct (ServicePlan_Validate plan); auto.
Qed.

(** What the planner guarantees for one installation: every valid plan is recorded, and
    unless the planning is clean its scope is protected. *)
Definition accounted (yanet : Yanet) (st : shared_state) : Prop :=
  (∀ plan, plans config yanet plan → ServicePlan_Validate plan = Ok tt →
     recorded st (sv_key (ToService plan (y_Namespace yanet) owner)))
  ∧ (installation_scope yanet ∉ sh_protected st → plans_cleanly config yanet).

Lemma plan_installation_spec st yanet :
  extends (st, false) (plan_installation config owner st yanet, false)
  ∧ (alive yanet → accounted yanet (plan_installation config owner st yanet)).
Proof.
  unfold plan_installation, alive. case_bool_decide as Hd.
  { split; [done|]. intros E. destruct Hd as [? Hd]. congruence. }
  destruct (EnabledComponentsForBox config (ys_BoxType (y_Spec yanet))) as [refs|e] eqn:Er.
  2:{ split; [split_and!; [done|simpl; set_solver|done]|]. intros _. unfold accounted, plans. rewrite Er.
      split; [by intros ? (? & ? & ? & ? & _)|]. simpl. intros []. set_solver. }
  destruct (plan_refs_spec yanet (sh_add_scope (installation_scope yanet) st, false) refs) as [Hx Hp].
  unfold installation_scope in Hx, Hp. destruct (foldl _ _ refs) as [st' failed] eqn:Ef. cbn [fst snd] in *.
  destruct Hx as (Hr & Hs & _). cbn [fst snd] in *.
  assert (Hrec : ∀ plan, plans config yanet plan → ServicePlan_Validate plan = Ok tt →
    recorded st' (sv_key (ToService plan (y_Namespace yanet) owner))).
  { intros plan (refs' & ref & component & E & Href & Ec & Hplan) Hv. rewrite Er in E. injection E as <-.
    specialize (Hp ref Href). rewrite Ec in Hp. specialize (Hp plan Hplan). by rewrite Hv in Hp. }
  destruct failed; (split; [split_and!; [done|simpl in *; set_solver|done]|]); intros _.
  - split; [done|intros []; simpl; set_solver].
  - split; [done|]. intros _. exists refs. split; [done|]. split.
    + intros ref Href. specialize (Hp ref Href). destruct (ResolveBoxServiceComponent _ _ _ _) as [c|]; [by exists c|done].
    + intros plan (refs' & ref & component & E & Href & Ec & Hplan). rewrite Er in E. injection E as <-. specialize (Hp ref Href). rewrite Ec in Hp.
        specialize (Hp plan Hplan). by destruct (ServicePlan_Validate plan) as [[]|].
Qed.

Lemma service_plan_accounted installations st yanet :
  yanet ∈ installations → alive yanet → accounted yanet (foldl (plan_installation config owner) st installations).
Proof.
  induction installations as [|y l IH] using rev_ind; [by intros ?%elem_of_nil|]. rewrite foldl_app. simpl.
  destruct (plan_installation_spec (foldl (plan_installation config owner) st l) y) as [(Hr & Hs & _) Hy].
  intros [Hin| ->%list_elem_of_singleton]%elem_of_app Ha; [|by apply Hy].
  destruct (IH Hin Ha) as [Hrec Hclean]. cbn [fst snd] in *.
  split; [intros plan Hp Hv; by apply Hr, Hrec|intros Hn; apply Hclean; set_solver].
Qed.
End planner.

(** What a Service write of the pass may be. *)
Definition planned_write (config : YanetConfig) (h : trace) (c : call) : Prop :=
  match c with
  | DeleteService s =>
      let owner := NewControllerRef (yc_Meta config) GroupVersion "YanetConfig" in
      controlledBy (sv_Meta s) owner = true
      ∧ ∃ installations, Ev ListYanets (Ok installations) ∈ h
        ∧ ∀ yanet, yanet ∈ installations → alive yanet →
            (∀ plan, plans (yc_Spec config) yanet plan → ServicePlan_Validate plan = Ok tt →
               sv_key (ToService plan (y_Namespace yanet) owner) ≠ sv_key s)
            ∧ (installation_scope yanet = sv_scope s → plans_cleanly (yc_Spec config) yanet)
  | CreateDeployment _ | UpdateDeployment _ _ | DeleteDeployment _ | CreateConfigMap _ | UpdateConfigMap _
  | DeleteConfigMap _ | UpdateYanet _ | UpdateYanetStatus _ => False
  | _ => True
  end.

Ltac planned := wp_walk ltac:(idtac; match goal with
  | |- respects _ _ => intros ?h
  | |- wp _ checkGlobalStop _ _ => unfold checkGlobalStop
  | |- wp _ sharedServicesStopped _ _ => unfold sharedServicesStopped
  | |- _ ∧ _ => split
  | |- _ => exact I
  | |- _ => done
  end).

Lemma applySharedService_planned config s : respects (planned_write config) (applySharedService s).
Proof. unfold applySharedService, shared_service_attempt. planned. Qed.

(** The set of protected scopes only grows while Services are applied. *)
Definition grows (acc r : option (gset service_scope * list goerror)) : Prop :=
  match acc, r with
  | Some (p, _), Some (p', _) => p ⊆ p'
  | None, Some _ => False
  | _, None => True
  end.

Lemma grows_refl acc : grows acc acc.
Proof. destruct acc as [[p errs]|]; simpl; set_solver. Qed.

Lemma apply_step_planned (config : YanetConfig) blocked acc s (e : event) (h : trace) :
  e ∈ h → wp (planned_write config) (apply_service_step blocked acc s) h
            (λ r (h' : trace), e ∈ h' ∧ grows acc r).
Proof.
  intros He. unfold apply_service_step. destruct acc as [[p errs]|]; [|by apply wp_Ret].
  destruct (bool_decide _); [apply wp_Ret; auto using grows_refl|].
  unfold sharedServicesStopped. apply wp_bind, (wp_bind_invoke _ ReadGlobal); [done|]. intros g. apply wp_Ret.
  destruct (stopped g); [apply wp_Ret; (split; [set_solver|done])|].
  apply wp_bind. intros t r Hr. destruct (applySharedService_planned config s (h ++ [Ev ReadGlobal g]) t r Hr) as [Hok _].
  split; [done|]. destruct r; apply wp_Ret; (split; [set_solver|]); simpl; set_solver.
Qed.

Lemma wp_apply_all (config : YanetConfig) (blocked : gset service_scope) (services : list Service) (acc : option (gset service_scope * list goerror)) (e : event) (h : trace) (Q : option (gset service_scope * list goerror) → trace → Prop) :
  e ∈ h →
  (∀ r (h' : trace), e ∈ h' → grows acc r → Q r h') →
  wp (planned_write config) (foldP (apply_service_step blocked) acc services) h Q.
Proof.
  intros He HQ.
  apply (wp_foldP _ (λ r (h' : trace), e ∈ h' ∧ grows acc r)).
  - auto using grows_refl.
  - intros r s h' _ [He' Hr]. eapply wp_mono; [by apply apply_step_planned|].
    intros r' h'' [He'' Hr']. split; [done|].
    destruct acc as [[p ?]|], r as [[p' ?]|], r' as [[p'' ?]|]; try done. set_solver.
  - intros r h' [He' Hr]. by apply HQ.
Qed.

Lemma blocked_scopes_planned config spec scopes :
  respects (planned_write config) (blockedSharedServicePlacementScopes spec scopes).
Proof. unfold blockedSharedServicePlacementScopes, blocked_scope_step, listPlacementProducers. planned. Qed.

Lemma wp_keeps {A} Φ (p : prog A) e h : e ∈ h → respects Φ p → wp Φ p h (λ _ h', e ∈ h').
Proof. intros He Hp t r Hr. destruct (Hp h t r Hr) as [Hok _]. split; [done|]. set_solver. Qed.

Lemma reconcileSharedServices_planned config : respects (planned_write config) (reconcileSharedServices config).
Proof.
  intros h. unfold reconcileSharedServices. apply (wp_bind_invoke _ ListYanets); [done|].
  intros [installations|e]; [|by apply wp_Ret]. cbv zeta. fold (service_plan config installations).
  set (e := Ev ListYanets (Ok installations)). set (st := service_plan config installations).
  apply wp_bind. eapply wp_mono; [apply (wp_keeps _ _ e); [set_solver|apply blocked_scopes_planned]|].
  intros [blocked errs] h1 He1. apply wp_bind. eapply wp_apply_all; [done|].
  intros [[protected errs']|] h2 He2 Hp; [|by apply wp_Ret]. simpl in Hp.
  apply (wp_bind_invoke _ (ListServices _)); [done|]. intros [live|err]; [|by apply wp_Ret].
  apply wp_bind, (wp_foldP _ (λ _ h', e ∈ h')); [set_solver| |intros; by apply wp_Ret].
  intros acc s h3 _ He3. unfold prune_service_step. destruct acc as [errs''|]; [|by apply wp_Ret].
  destruct (_ || _) eqn:Eb; [by apply wp_Ret|].
  rewrite !orb_false_iff, !bool_decide_eq_false, negb_false_iff in Eb. destruct Eb as (((Ed & Es) & Ek) & Ec).
  unfold sharedServicesStopped. apply wp_bind, (wp_bind_invoke _ ReadGlobal); [done|]. intros g. apply wp_Ret.
  destruct (stopped g); [apply wp_Ret; set_solver|].
  apply (wp_bind_invoke _ (DeleteService s)).
  - split; [done|]. exists installations. split; [set_solver|]. intros yanet Hy Ha.
    destruct (service_plan_accounted (yc_Spec config) (NewControllerRef (yc_Meta config) GroupVersion "YanetConfig")
      installations shared_init yanet Hy Ha) as [Hrec Hclean].
    fold (service_plan config installations) in Hrec, Hclean. fold st in Hrec, Hclean. split.
    + intros plan Hplan Hv Ek'. specialize (Hrec plan Hplan Hv). rewrite Ek' in Hrec. by destruct Hrec.
    + intros Esc. apply Hclean. rewrite Esc. set_solver.
  - intros [?|err]; [apply wp_Ret; set_solver|]. destruct (IsNotFound err); apply wp_Ret; set_solver.
Qed.
End prune.

(** C28: the shared-Service pass writes nothing but Services.  A Service it deletes is
    controlled by this exact YanetConfig; no installation of the listing that is not being
    deleted plans a Service of that namespace and name; and in every such installation of the
    Service's namespace and box type nothing of the planning failed: the box type and each of
    its enabled components resolved and each of their Service plans validated.  So a failed
    plan never causes a live Service of its scope to be pruned. *)
Theorem service_pruning_is_safe `{MetaLib, ClientUtil, K8sValidation, MapOrder} config t r t1 e t2 :
  run (reconcileSharedServices config) t r → t = t1 ++ e :: t2 →
  planned_write config t1 (ev_call e).
Proof.
  intros Hr ->.
  destruct (wp_sound _ _ _ _ _ (reconcileSharedServices_planned config []) Hr) as [Hg _]. by apply (Hg t1 e t2).
Qed.

Import Concrete.

(** A shared Service of a box type nobody selects any more, next to an installation
    with a planned one. *)
Definition stale_service : Service :=
  ToService (MkServicePlan "yanet-old-cp" "old" "cp" {["a" := "b"]} [MkServicePortPlan "grpc" 8080 0 ""] true)
    "yanet" (NewControllerRef (yc_Meta Fake.config_object) GroupVersion "YanetConfig").
Definition small_object : YanetConfig := MkYanetConfig (yc_Meta Fake.config_object) Fake.small_config.
Definition with_stale : Fake.cluster := Fake.with_services (Fake.small true None) [stale_service].

Lemma service_pruning_is_safe_witness :
  planned_write small_object
    (take 7 (exec Fake.server with_stale (reconcileSharedServices small_object)).1.2) (DeleteService stale_service).
Proof.
  set (x := exec Fake.server with_stale (reconcileSharedServices small_object)).
  apply (service_pruning_is_safe small_object x.1.2 x.2 (take 7 x.1.2) (Ev (DeleteService stale_service) (Ok tt)) (drop 8 x.1.2)).
  - exact (exec_run _ _ _).
  - vm_compute. reflexivity.
Defined.
