(* ===== verification/ServiceConvergenceSpec.v ===== *)
(** * Convergence of the shared Services

    The pass of the YanetConfig controller writes settled forms of the planned
    Services, leaves settled ones alone, and reaches every planned Service. *)

From S2P Require Import Prelude GoLib K8s Api Resolve Labels Listeners Builder Service Render Webhook.
From S2P Require Import Metrics Program Managed YanetController Reconciler Reconcile ConfigController Instances.
From S2P Require Import StopSpec SafetySpec ManagedSpec ConvergenceSpec ServicesSpec.
#[local] Open Scope Z_scope.

Section service.
Context `{MetaLib, ClientUtil, K8sValidation, MapOrder}.

(** A stored Service that carries the desired one: the addresses and IP families
    are the server's, everything else of the spec is the operator's, and the
    metadata is a merge into whatever was there, without the label that selects
    the workloads of one installation. *)
Definition service_settled (desired stored : Service) : Prop :=
  let d := sv_Spec desired in
  let s := sv_Spec stored in
  s = MkServiceSpec (ss_Type d) (ss_Selector d) (ss_Ports d) (ss_InternalTrafficPolicy d) ServiceAffinityNone
        (ss_ClusterIP s) (ss_ClusterIPs s) (ss_IPFamilies s) (ss_IPFamilyPolicy s) (ss_other d)
  ∧ (ss_IPFamilyPolicy s = None → ss_IPFamilyPolicy d = None)
  ∧ om_OwnerReferences (sv_Meta stored) = om_OwnerReferences (sv_Meta desired)
  ∧ om_Labels (sv_Meta stored) !! labelYanet = None
  ∧ ∃ before, om_Labels (sv_Meta stored) = om_Labels (mergeManagedMeta before (sv_Meta desired))
      ∧ om_Annotations (sv_Meta stored) = om_Annotations (mergeManagedMeta before (sv_Meta desired)).

(** What the planner produces. *)
Record planned_service (desired : Service) : Prop := {
  planned_owner : is_Some (GetControllerOf (sv_Meta desired));
  planned_labels : plain_keys (om_Labels (sv_Meta desired));
  planned_annotations : plain_keys (om_Annotations (sv_Meta desired));
  planned_unselected : om_Labels (sv_Meta desired) !! labelYanet = None;
}.

Lemma service_update_settled existing desired :
  om_Labels (sv_Meta desired) !! labelYanet = None →
  service_settled desired (desiredSharedServiceUpdate existing desired).1.
Proof.
  intros Hn. unfold service_settled, desiredSharedServiceUpdate.
  cbn [fst sv_Spec sv_Meta ss_Type ss_Selector ss_Ports ss_InternalTrafficPolicy ss_ClusterIP ss_ClusterIPs ss_IPFamilies ss_IPFamilyPolicy ss_other].
  split_and!; [done|by destruct (ss_IPFamilyPolicy (sv_Spec existing))|done|apply lookup_delete_eq|].
  set (m := set_om_OwnerReferences _ (sv_Meta existing)).
  exists (set_om_Labels (delete labelYanet (om_Labels m)) m). split; apply map_eq; intros k.
  - cbn [om_Labels set_om_Labels]. rewrite merged_labels. destruct (decide (k = labelYanet)) as [->|Hk].
    + rewrite lookup_delete_eq, Hn. cbn [om_Labels set_om_Labels]. rewrite lookup_delete_eq. by case_bool_decide.
    + rewrite lookup_delete_ne by done. rewrite merged_labels. cbn [om_Labels set_om_Labels].
      by rewrite lookup_delete_ne by done.
  - change (om_Annotations (set_om_Labels (delete labelYanet (om_Labels (mergeManagedMeta m (sv_Meta desired)))) (mergeManagedMeta m (sv_Meta desired))))
      with (om_Annotations (mergeManagedMeta m (sv_Meta desired))).
    by rewrite !merged_annotations.
Qed.

Lemma service_create_settled desired :
  om_Labels (sv_Meta desired) !! labelYanet = None →
  service_settled desired (MkService (mergeManagedMeta (sv_Meta desired) (sv_Meta desired))
                             (set_ss_SessionAffinity ServiceAffinityNone (sv_Spec desired))).
Proof.
  intros Hn. split_and!; [done|done|done| |by eexists]. cbn [sv_Meta]. rewrite merged_labels, Hn. by case_bool_decide.
Qed.

Section stable.
Variable desired : Service.
Hypothesis planned : planned_service desired.

Lemma service_settled_owned stored : service_settled desired stored → validateServiceOwnership stored desired = Ok tt.
Proof. intros (_ & _ & Ho & _). apply same_owners_validate; [done|apply planned]. Qed.

Lemma service_settled_unchanged stored :
  service_settled desired stored → (desiredSharedServiceUpdate stored desired).2 = false.
Proof.
  intros (Hs & Hp & Ho & Hy & m & HL & HA). unfold desiredSharedServiceUpdate. cbn [snd].
  assert (Em : set_om_OwnerReferences (om_OwnerReferences (sv_Meta desired)) (sv_Meta stored) = sv_Meta stored)
    by (rewrite <-Ho; by destruct (sv_Meta stored)).
  rewrite Em, (merge_settled m _ _ (planned_labels _ planned) (planned_annotations _ planned) HL HA).
  rewrite (delete_id _ _ Hy). rewrite !orb_false_iff, !bool_decide_eq_false. split_and!; try (intros Hx; by apply Hx).
  intros Hx. apply Hx. rewrite Hs at 1. f_equal.
  destruct (ss_IPFamilyPolicy (sv_Spec stored)); [done|]. symmetry. by apply Hp.
Qed.

(** Reads find settled Services. *)
Definition finds (e : event) : Prop :=
  match e with
  | Ev (GetService namespace name) a =>
      (namespace, name) = sv_key desired → ∃ stored, a = Ok stored ∧ service_settled desired stored
  | _ => True
  end.

(** Reads and stop checks. *)
Definition watches (c : call) : Prop := match c with ReadGlobal | GetService _ _ => True | _ => False end.
Definition leaves_alone (h : trace) (c : call) : Prop := Forall finds h → watches c.

Lemma found h got :
  Forall finds (h ++ [Ev (GetService (om_Namespace (sv_Meta desired)) (om_Name (sv_Meta desired))) got]) →
  ∃ stored, got = Ok stored ∧ service_settled desired stored.
Proof. intros [_ He]%Forall_app. apply Forall_cons_1 in He as [He _]. by apply He. Qed.

Lemma shared_service_attempt_quiet h :
  wp leaves_alone (shared_service_attempt desired tt) h (λ r h', Forall finds h' → r = (tt, Ok tt)).
Proof.
  unfold shared_service_attempt. apply (wp_bind_invoke _ (GetService _ _)); [done|]. intros got.
  apply wp_assume. intros (stored & -> & Hs)%found. rewrite service_settled_owned by done.
  pose proof (service_settled_unchanged stored Hs) as Hu.
  destruct (desiredSharedServiceUpdate stored desired) as [candidate changed]. simpl in Hu. subst changed. by apply wp_Ret.
Qed.

Lemma applySharedService_quiet h :
  wp leaves_alone (applySharedService desired) h (λ _ _, True).
Proof.
  unfold applySharedService. destruct (_ || _); [by apply wp_Ret|].
  apply (wp_mono _ _ _ (λ _ h', Forall finds h' → True)); [|done].
  apply (wp_bind_invoke _ (GetService _ _)); [done|]. intros got.
  apply wp_assume. intros (stored & -> & Hs)%found. rewrite service_settled_owned by done.
  apply wp_bind, (wp_retry _ (λ _ _, True)); [done|]. intros [] h' _.
  eapply wp_mono; [apply shared_service_attempt_quiet|]. intros [[] r] h'' _. split; [by apply wp_Ret|done].
Qed.

(** What a write sends. *)
Definition settles_service (c : call) : Prop :=
  match c with CreateService s | UpdateService s => service_settled desired s | DeleteService _ => False | _ => True end.

Lemma applySharedService_settles : respects (λ _ c, settles_service c) (applySharedService desired).
Proof.
  pose proof (planned_unselected _ planned) as Hn. intros h. unfold applySharedService.
  destruct (_ || _); [by apply wp_Ret|]. apply (wp_bind_invoke _ (GetService _ _)); [done|]. intros [stored|e].
  - destruct (validateServiceOwnership stored desired); [|by apply wp_Ret].
    apply wp_bind, (wp_retry _ (λ _ _, True)); [done|]. intros [] h' _. unfold shared_service_attempt.
    apply (wp_bind_invoke _ (GetService _ _)); [done|]. intros [fresh|e]; [|apply wp_Ret; split; [by apply wp_Ret|done]].
    destruct (validateServiceOwnership fresh desired); [|apply wp_Ret; split; [by apply wp_Ret|done]].
    pose proof (service_update_settled fresh desired Hn) as Hs.
    destruct (desiredSharedServiceUpdate fresh desired) as [candidate changed].
    destruct (negb changed); [apply wp_Ret; split; [by apply wp_Ret|done]|].
    unfold sharedServicesStopped. apply wp_bind, (wp_bind_invoke _ ReadGlobal); [done|]. intros g. apply wp_Ret.
    destruct (stopped g); [apply wp_Ret; split; [by apply wp_Ret|done]|].
    apply (wp_bind_invoke _ (UpdateService candidate)); [exact Hs|].
    intros written. apply wp_Ret. split; [by apply wp_Ret|done].
  - destruct (IsNotFound e); [|by apply wp_Ret].
    unfold sharedServicesStopped. apply wp_bind, (wp_bind_invoke _ ReadGlobal); [done|]. intros g. apply wp_Ret.
    destruct (stopped g); [by apply wp_Ret|].
    apply (wp_bind_invoke _ (CreateService _)); [by apply service_create_settled|]. intros. by apply wp_Ret.
Qed.
End stable.
End service.

(** ** The plan *)

(** A loop keeps what its body keeps. *)
Lemma foldl_keeps {A B} (P : A → Prop) (f : A → B → A) acc l :
  (∀ acc x, P acc → P (f acc x)) → P acc → P (foldl f acc l).
Proof. intros Hf. revert acc. induction l as [|x l IH]; intros acc Hacc; simpl; auto. Qed.

Section plan.
Context `{MetaLib, ClientUtil, K8sValidation, MapOrder}.
Variable config : YanetConfig.
Notation owner := (NewControllerRef (yc_Meta config) GroupVersion "YanetConfig").

(** Every planned Service is a plan's, under its own key. *)
Definition made (key : service_key) (s : Service) : Prop :=
  sv_key s = key ∧ ∃ plan namespace, s = ToService plan namespace owner.
Definition well_planned (st : shared_state) : Prop := map_Forall made (sh_desired st).

Lemma plan_service_made namespace acc plan :
  well_planned acc.1 → well_planned (plan_service owner namespace acc plan).1.
Proof.
  destruct acc as [st failed]. unfold well_planned, plan_service. simpl. intros Hst.
  destruct (ServicePlan_Validate plan); [|done]. case_bool_decide; [done|].
  assert (Hnew : map_Forall made (<[sv_key (ToService plan namespace owner) := ToService plan namespace owner]> (sh_desired st))).
  { apply map_Forall_insert_2; [|done]. split; [done|by eauto]. }
  case_match; [|done]. case_bool_decide; [|done]. simpl. by apply map_Forall_delete.
Qed.

Lemma plan_ref_made yanet acc ref :
  well_planned acc.1 → well_planned (plan_ref (yc_Spec config) owner yanet acc ref).1.
Proof.
  intros Hacc. unfold plan_ref. destruct acc as [st failed].
  destruct (ResolveBoxServiceComponent _ _ _ _) as [[component|]|]; [|done|done].
  apply (foldl_keeps (λ acc, well_planned acc.1)); [|done]. intros acc plan. apply plan_service_made.
Qed.

Lemma plan_installation_made st yanet :
  well_planned st → well_planned (plan_installation (yc_Spec config) owner st yanet).
Proof.
  intros Hst. unfold plan_installation. case_bool_decide; [done|].
  destruct (EnabledComponentsForBox _ _) as [refs|]; [|done].
  pose proof (foldl_keeps (λ acc, well_planned acc.1) (plan_ref (yc_Spec config) owner yanet)
    (sh_add_scope (y_Namespace yanet, ys_BoxType (y_Spec yanet)) st, false) refs (λ acc ref, plan_ref_made yanet acc ref) Hst) as Hf.
  destruct (foldl (plan_ref _ _ _) _ _) as [st' []]; exact Hf.
Qed.

Lemma service_plan_made installations : well_planned (service_plan config installations).
Proof. unfold service_plan. apply foldl_keeps; [apply plan_installation_made|apply map_Forall_empty]. Qed.

Hypothesis named : om_Name (yc_Meta config) ≠ "".

Lemma made_planned key s : made key s → planned_service s.
Proof.
  intros (_ & plan & namespace & ->).
  assert (Hlabels : ∀ k, is_Some (om_Labels (sv_Meta (ToService plan namespace owner)) !! k) →
    k ∈ [labelNuma; labelComponent; labelBoxType; labelSharedService]).
  { intros k [v Hv]. cbn [ToService sv_Meta om_Labels] in Hv.
    destruct (pl_Selector plan !! labelNuma); repeat (apply lookup_insert_Some in Hv as [[<- _]|[_ Hv]]; [set_solver|]); done. }
  split.
  - destruct (GetControllerOf (sv_Meta (ToService plan namespace owner))) as [o|] eqn:E; [by eexists|].
    exfalso. apply (GetControllerOf_None _ owner E); [|by rewrite NewControllerRef_spec].
    cbn [ToService sv_Meta om_OwnerReferences]. rewrite bool_decide_true; [set_solver|]. by rewrite NewControllerRef_spec.
  - intros k Hk%Hlabels. rewrite !elem_of_cons, elem_of_nil in Hk. by destruct Hk as [->|[->|[->|[->|[]]]]].
  - by intros k [v Hv].
  - destruct (om_Labels (sv_Meta (ToService plan namespace owner)) !! labelYanet) eqn:E; [|done].
    specialize (Hlabels labelYanet). rewrite E, !elem_of_cons, elem_of_nil in Hlabels.
    by destruct Hlabels as [?|[?|[?|[?|[]]]]].
Qed.

(** ** The pass *)
Variable installations : list Yanet.
Notation st := (service_plan config installations).

Definition planned_services : list Service :=
  omap (λ key, sh_desired st !! key) (merge_sort key_le (map_range (sh_desired st)).*1).

Lemma elem_of_planned s : s ∈ planned_services ↔ sh_desired st !! sv_key s = Some s.
Proof.
  unfold planned_services. rewrite list_elem_of_omap. setoid_rewrite merge_sort_Permutation. split.
  - intros (key & _ & Hs). by destruct (service_plan_made installations key s Hs) as [-> _].
  - intros Hs. exists (sv_key s). split; [|done]. apply list_elem_of_fmap. exists (sv_key s, s). split; [done|].
    rewrite map_range_perm. by apply elem_of_map_to_list.
Qed.

Lemma planned_ok s : s ∈ planned_services → planned_service s.
Proof. intros Hs%elem_of_planned. eapply made_planned, (service_plan_made installations), Hs. Qed.

(** The cluster holds settled forms of the plan, and nothing else of this
    configuration. *)
Definition settled_services (e : event) : Prop :=
  (∀ s, s ∈ planned_services → finds s e)
  ∧ match e with
    | Ev (ListServices _) (Ok live) =>
        ∀ s, s ∈ live → controlledBy (sv_Meta s) owner = true → is_Some (sh_desired st !! sv_key s)
    | _ => True
    end.

Definition service_write (c : call) : bool :=
  match c with CreateService _ | UpdateService _ | DeleteService _ => true | _ => false end.
Definition steady_services (h : trace) (c : call) : Prop := Forall settled_services h → service_write c = false.

(** A write is a settled form of a planned Service. *)
Definition plan_write (c : call) : Prop :=
  match c with
  | CreateService s | UpdateService s => ∃ desired, desired ∈ planned_services ∧ service_settled desired s
  | _ => True
  end.

Lemma applySharedService_steady s h :
  s ∈ planned_services → wp steady_services (applySharedService s) h (λ _ _, True).
Proof.
  intros Hs. eapply wp_weaken; [apply (applySharedService_quiet s (planned_ok s Hs))|].
  intros t c Hc Hh. assert (Hf : Forall (finds s) (h ++ t)).
  { eapply Forall_impl; [exact Hh|]. intros e [He _]. by apply He. }
  specialize (Hc Hf). by destruct c.
Qed.

Lemma applySharedService_plan s : s ∈ planned_services → respects (λ _ c, plan_write c) (applySharedService s).
Proof.
  intros Hs h. eapply wp_weaken; [apply (applySharedService_settles s (planned_ok s Hs))|].
  intros t c Hc. destruct c; try done; by exists s.
Qed.

(** *** Migrations only read *)
Lemma blocked_scopes_silent spec scopes :
  respects (λ _ c, service_write c = false) (blockedSharedServicePlacementScopes spec scopes).
Proof.
  unfold blockedSharedServicePlacementScopes, blocked_scope_step, listPlacementProducers.
  safe ltac:(first [reflexivity | done]).
Qed.

(** Every blocked scope comes with an error. *)
Lemma blocked_scopes_report spec scopes h :
  wp (λ _ _, True) (blockedSharedServicePlacementScopes spec scopes) h (λ r _, r.2 = [] → r.1 = ∅).
Proof.
  unfold blockedSharedServicePlacementScopes. apply wp_bind.
  apply (wp_foldP _ (λ acc _, acc.1.2 = [] → acc.1.1 = ∅)); [done| |intros [[b e] i] h' Hr; by apply wp_Ret].
  intros [[blocked errs] inventory] [namespace boxType] h' _ Hacc. unfold blocked_scope_step. simpl in Hacc.
  destruct (FindBoxType _ _) as [box|]; [|by apply wp_Ret]. destruct (_ && _); [by apply wp_Ret|].
  apply wp_bind, (wp_mono _ _ _ (λ _ _, True)); [destruct (inventory !! namespace); [by apply wp_Ret|]; by apply wp_any|].
  intros [producers|e] h'' _; [|apply wp_Ret; intros Hn; simpl in Hn; by apply app_nil in Hn as [_ ?]].
  destruct (scope_conflict _ _ _) as [[name producer]|]; apply wp_Ret; [|done].
  intros Hn. simpl in Hn. by apply app_nil in Hn as [_ ?].
Qed.

(** *** A settled cluster is left alone *)
Lemma silent_steady {A} (p : prog A) h (Q : A → trace → Prop) :
  respects (λ _ c, service_write c = false) p → (∀ a h', Q a h') → wp steady_services p h Q.
Proof. intros Hp HQ. eapply wp_mono; [eapply wp_weaken; [apply Hp|]|auto]. by intros t c Hc _. Qed.

Lemma apply_service_steady blocked acc s h :
  s ∈ planned_services → wp steady_services (apply_service_step blocked acc s) h (λ _ _, True).
Proof.
  intros Hs. unfold apply_service_step. destruct acc as [[protected errs]|]; [|by apply wp_Ret].
  destruct (bool_decide _); [by apply wp_Ret|]. unfold sharedServicesStopped.
  apply wp_bind, (wp_bind_invoke _ ReadGlobal); [done|]. intros g. apply wp_Ret. destruct (stopped g); [by apply wp_Ret|].
  apply wp_bind. eapply wp_mono; [by apply applySharedService_steady|]. intros [u|e] h' _; by apply wp_Ret.
Qed.

(** What is listed is the installations of the plan. *)
Definition lists (e : event) : Prop := match e with Ev ListYanets a => a = Ok installations | _ => True end.

Lemma listed h got (P : event → Prop) :
  (∀ e, P e → lists e) → Forall P (h ++ [Ev ListYanets got]) → got = Ok installations.
Proof. intros HP [_ He]%Forall_app. apply Forall_cons_1 in He as [He _]. exact (HP _ He). Qed.

Definition steady (e : event) : Prop := lists e ∧ settled_services e.

(** The pass once the installations are listed. *)
Definition shared_pass : prog (option goerror) :=
  '(migrationBlocked, migrationErrs) ← blockedSharedServicePlacementScopes (yc_Spec config) (sh_scopes st);
  applied ← foldP (apply_service_step migrationBlocked)
              (Some (migrationBlocked ∪ sh_protected st, sh_errs st ++ migrationErrs)) planned_services;
  match applied with
  | None => Ret None
  | Some (protected, errs) =>
      listed ← invoke (ListServices {[labelSharedService := "true"]});
      match listed with
      | Err e => Ret (Some (Joined (errs ++ [Errorf "list shared Services for pruning: %w" [AErr e]])))
      | Ok live =>
          pruned ← foldP (prune_service_step owner (sh_desired st) (sh_blocked st) protected) (Some errs) live;
          Ret (match pruned with None => None | Some errs => errors_Join (Some <$> errs) end)
      end
  end.

Lemma wp_shared_pass (P : event → Prop) (Φ : trace → call → Prop) (Q : option goerror → trace → Prop) :
  (∀ e, P e → lists e) → Φ [] ListYanets →
  (∀ h, wp Φ shared_pass h Q) →
  wp (λ h c, Forall P h → Φ h c) (reconcileSharedServices config) [] (λ r h', Forall P h' → Q r h').
Proof.
  intros HP Hfirst Hp. unfold reconcileSharedServices. apply (wp_bind_invoke _ ListYanets); [done|]. intros got.
  apply wp_assume. intros Hgot%(listed _ _ P); [|done]. subst got.
  eapply wp_mono; [eapply wp_weaken; [apply Hp|]|]; auto.
Qed.

Lemma shared_pass_steady h : wp steady_services shared_pass h (λ _ _, True).
Proof.
  apply wp_bind, silent_steady; [apply blocked_scopes_silent|]. intros [blocked errs] h1.
  apply wp_bind, (wp_foldP _ (λ _ _, True)); [done| |].
  { intros acc s h2 Hs _. by apply apply_service_steady. }
  intros [[protected errs']|] h2 _; [|by apply wp_Ret].
  apply (wp_bind_invoke _ (ListServices _)); [done|]. intros [live|e]; [|by apply wp_Ret].
  set (h3 := h2 ++ _).
  apply wp_bind, (wp_foldP _ (λ _ h', ∃ t, h' = h3 ++ t)).
  - exists []. by rewrite app_nil_r.
  - intros acc s h4 Hs [t ->]. unfold prune_service_step. destruct acc as [errs''|]; [|apply wp_Ret; eauto].
    destruct (_ || _) eqn:Eb; [apply wp_Ret; eauto|].
    rewrite !orb_false_iff, !bool_decide_eq_false, negb_false_iff in Eb. destruct Eb as (((Ed & _) & _) & Ec).
    unfold sharedServicesStopped. apply wp_bind, (wp_bind_invoke _ ReadGlobal); [done|]. intros g. apply wp_Ret.
    rewrite <-app_assoc. destruct (stopped g); [apply wp_Ret; eauto|]. apply (wp_bind_invoke _ (DeleteService s)).
    + intros [Hh _]%Forall_app. apply Forall_app in Hh as [_ [[_ Hl] _]%Forall_cons_1]. by destruct (Ed (Hl s Hs Ec)).
    + intros [u|e]; [|destruct (IsNotFound e)]; apply wp_Ret; rewrite <-app_assoc; eauto.
  - intros acc h4 _. by apply wp_Ret.
Qed.

(** *** Writes follow the plan *)
Lemma silent_plan {A} (p : prog A) : respects (λ _ c, service_write c = false) p → respects (λ _ c, plan_write c) p.
Proof. intros Hp h. eapply wp_weaken; [apply Hp|]. intros t c Hc. by destruct c. Qed.

Lemma shared_pass_plan h : wp (λ _ c, plan_write c) shared_pass h (λ _ _, True).
Proof.
  apply wp_bind, wp_respects; [apply silent_plan, blocked_scopes_silent|]. intros [blocked errs] h1.
  apply wp_bind, (wp_foldP _ (λ _ _, True)); [done| |].
  - intros acc s h2 Hs _. unfold apply_service_step. destruct acc as [[protected errs']|]; [|by apply wp_Ret].
    destruct (bool_decide _); [by apply wp_Ret|]. unfold sharedServicesStopped.
    apply wp_bind, (wp_bind_invoke _ ReadGlobal); [done|]. intros g. apply wp_Ret. destruct (stopped g); [by apply wp_Ret|].
    apply wp_bind, wp_respects; [by apply applySharedService_plan|]. intros [u|e] h3; by apply wp_Ret.
  - intros [[protected errs']|] h2 _; [|by apply wp_Ret].
    unfold prune_service_step, sharedServicesStopped. safe ltac:(done).
Qed.

(** *** Every planned Service is reached *)
Definition unstopped (e : event) : Prop := match e with Ev ReadGlobal g => stopped g = false | _ => True end.
Definition reached (s : Service) (h : trace) : Prop :=
  ∃ a, Ev (GetService (om_Namespace (sv_Meta s)) (om_Name (sv_Meta s))) a ∈ h.

Lemma applySharedService_reaches s h :
  wp (λ _ _, True) (applySharedService s) h (λ r h', (r = Ok tt → reached s h') ∧ ∃ t, h' = h ++ t).
Proof.
  unfold applySharedService. destruct (_ || _); [apply wp_Ret; split; [done|]; exists []; by rewrite app_nil_r|].
  apply (wp_bind_invoke _ (GetService _ _)); [done|]. intros got t r Hr. split; [done|]. rewrite <-app_assoc.
  split; [|eauto]. intros _. exists got. set_solver.
Qed.

Lemma reached_app s h t : reached s h → reached s (h ++ t).
Proof. intros [a Ha]. exists a. set_solver. Qed.
Lemma unstopped_app h t : Forall unstopped (h ++ t) → Forall unstopped h.
Proof. by intros [? _]%Forall_app. Qed.

(** Without a stop the loop goes on; without an error nothing is blocked and it
    has reached the Services so far. *)
Definition reaching (blocked : gset service_scope) (done : list Service)
    (acc : option (gset service_scope * list goerror)) (h : trace) : Prop :=
  Forall unstopped h →
  ∃ protected errs, acc = Some (protected, errs) ∧ (errs = [] → blocked = ∅ ∧ ∀ s, s ∈ done → reached s h).

Lemma apply_service_reaches blocked done acc s h :
  reaching blocked done acc h → wp (λ _ _, True) (apply_service_step blocked acc s) h (reaching blocked (done ++ [s])).
Proof.
  intros Hacc. unfold apply_service_step. destruct acc as [[protected errs]|]; [|apply wp_Ret; intros Hh; by destruct (Hacc Hh) as (? & ? & ? & _)].
  assert (Hold : ∀ t, Forall unstopped (h ++ t) → errs = [] → blocked = ∅ ∧ ∀ x, x ∈ done → reached x (h ++ t)).
  { intros t Hh%unstopped_app Hn. destruct (Hacc Hh) as (? & ? & [= <- <-] & Hr). destruct (Hr Hn) as [Hb Hd].
    split; [done|]. intros x Hx. by apply reached_app, Hd. }
  case_bool_decide as Hin.
  { apply wp_Ret. intros Hh. exists protected, errs. split; [done|]. intros Hn. exfalso.
    destruct (Hold [] ltac:(by rewrite app_nil_r) Hn) as [-> _]. set_solver. }
  unfold sharedServicesStopped. apply wp_bind, (wp_bind_invoke _ ReadGlobal); [done|]. intros g. apply wp_Ret.
  destruct (stopped g) eqn:Eg.
  { apply wp_Ret. intros [_ He]%Forall_app. apply Forall_cons_1 in He as [He _]. simpl in He. congruence. }
  apply wp_bind. eapply wp_mono; [apply applySharedService_reaches|]. intros r h' [Hr [t ->]]. rewrite <-app_assoc in *.
  destruct r as [[]|e]; apply wp_Ret; intros Hh.
  - exists protected, errs. split; [done|]. intros Hn. destruct (Hold _ Hh Hn) as [Hb Hd]. split; [done|].
    intros x [Hx| ->%list_elem_of_singleton]%elem_of_app; [by apply Hd|by apply Hr].
  - eexists _, _. split; [done|]. intros Hn. by apply app_nil in Hn as [_ ?].
Qed.

Lemma shared_pass_reaches h :
  wp (λ _ _, True) shared_pass h (λ r h', Forall unstopped h' → r = None → ∀ s, s ∈ planned_services → reached s h').
Proof.
  unfold shared_pass. apply wp_bind. eapply wp_mono; [apply blocked_scopes_report|]. intros [blocked errs] h1 Hb. simpl in Hb.
  apply wp_bind, (wp_foldP_done _ (reaching blocked)).
  - intros _. eexists _, _. split; [done|]. intros [_ Hn]%app_nil. split; [by apply Hb|]. by intros s ?%elem_of_nil.
  - intros done acc s h2 _ Hacc. by apply apply_service_reaches.
  - intros acc h2 Hacc. destruct acc as [[protected errs']|].
    2:{ apply wp_Ret. intros Hh. by destruct (Hacc Hh) as (? & ? & ? & _). }
    apply (wp_bind_invoke _ (ListServices _)); [done|]. intros [live|e]; [|by apply wp_Ret].
    set (h3 := h2 ++ _).
    apply wp_bind, (wp_foldP _ (λ acc h', (∃ t, h' = h3 ++ t)
      ∧ (Forall unstopped h' → ∃ errs, acc = Some errs ∧ (errs = [] → errs' = [])))).
    + split; [exists []; by rewrite app_nil_r|]. intros _. by exists errs'.
    + intros acc s h4 _ [[t ->] Hacc4]. unfold prune_service_step.
      destruct acc as [errs4|]; [|apply wp_Ret; split; [by eauto|done]].
      destruct (_ || _); [apply wp_Ret; split; [by eauto|done]|].
      unfold sharedServicesStopped. apply wp_bind, (wp_bind_invoke _ ReadGlobal); [done|]. intros g. apply wp_Ret.
      rewrite <-app_assoc. destruct (stopped g) eqn:Eg.
      { apply wp_Ret. split; [by eauto|]. rewrite app_assoc. intros [_ He]%Forall_app. apply Forall_cons_1 in He as [He _].
        simpl in He. congruence. }
      assert (Hold : ∀ t', Forall unstopped (h3 ++ t ++ t') → errs4 = [] → errs' = []).
      { intros t' Hh Hn. rewrite app_assoc in Hh. destruct (Hacc4 (unstopped_app _ _ Hh)) as (? & [= <-] & Hr). by apply Hr. }
      apply (wp_bind_invoke _ (DeleteService s)); [done|].
      intros [u|e]; [|destruct (IsNotFound e)]; apply wp_Ret; rewrite <-!app_assoc; (split; [by eauto|]); intros Hh.
      * eexists. split; [done|]. by eapply Hold.
      * eexists. split; [done|]. by eapply Hold.
      * eexists. split; [done|]. intros Hn. by apply app_nil in Hn as [_ ?].
    + intros acc h4 [[t ->] Hacc4]. apply wp_Ret. intros Hh Hnone s Hs.
      destruct (Hacc4 Hh) as (errs4 & -> & Hn). destruct errs4 as [|x l]; [|done].
      assert (Hh2 : Forall unstopped h2) by (unfold h3 in Hh; by apply unstopped_app, unstopped_app in Hh).
      destruct (Hacc Hh2) as (? & ? & [= <- <-] & Hr). destruct (Hr (Hn eq_refl)) as [_ Hd].
      unfold h3. rewrite <-app_assoc. by apply reached_app, Hd.
Qed.
End plan.

(** C18: shared Services converge.  Take any run of the shared-Service pass of a YanetConfig over the
    installations it lists.  Every Service it creates or updates is a settled form of a planned one;
    unless it is stopped, it succeeds only after it has looked at every planned Service; and over a
    cluster that holds settled forms of the plan (with whatever addresses the server allocated) and no
    other Service of this configuration, it writes nothing. *)
Theorem shared_services_converge `{MetaLib, ClientUtil, K8sValidation, MapOrder}
    (config : YanetConfig) (installations : list Yanet) (t : trace) (r : option goerror) :
  run (reconcileSharedServices config) t r → Forall (lists installations) t → om_Name (yc_Meta config) ≠ "" →
  Forall (λ e, plan_write config installations (ev_call e)) t
  ∧ (Forall unstopped t → r = None → ∀ s, s ∈ planned_services config installations → reached s t)
  ∧ (Forall (settled_services config installations) t → Forall (λ e, service_write (ev_call e) = false) t).
Proof.
  intros Hr Hl Hn. split_and!.
  - pose proof (wp_shared_pass config installations (lists installations) _ (λ _ _, True) (λ _, id) I
                  (shared_pass_plan config Hn installations)) as Hw.
    destruct (wp_sound _ _ _ _ _ Hw Hr) as [Hg _]. apply Forall_forall. intros e He.
    apply list_elem_of_split in He as (t1 & t2 & ->). apply (Hg t1 e t2 eq_refl). by apply Forall_app in Hl as [Hl _].
  - pose proof (wp_shared_pass config installations (lists installations) _ _ (λ _, id) I
                  (shared_pass_reaches config Hn installations)) as Hw.
    destruct (wp_sound _ _ _ _ _ Hw Hr) as [_ Hq]. intros Hu. exact (Hq Hl Hu).
  - intros Hs. pose proof (wp_shared_pass config installations (steady config installations)
                  (steady_services config installations) (λ _ _, True) (λ e He, proj1 He) (λ _, eq_refl) (shared_pass_steady config Hn installations)) as Hw.
    destruct (wp_sound _ _ _ _ _ Hw Hr) as [Hg _]. apply Forall_forall. intros e He.
    apply list_elem_of_split in He as (t1 & t2 & ->). apply Forall_app in Hl as [Hl _]. apply Forall_app in Hs as [Hs _].
    apply (Hg t1 e t2 eq_refl); [|done]. apply Forall_forall. rewrite Forall_forall in Hl, Hs. split; auto.
Qed.

(** ** Two passes over the example cluster *)
Module SharedPasses.
Import Concrete.

Definition installations : list Yanet := [Fake.small_yanet true None].
Definition pass : prog (option goerror) := reconcileSharedServices small_object.
Definition served : Fake.cluster := (exec Fake.server (Fake.small true None) pass).1.1.
Definition second : trace := (exec Fake.server served pass).1.2.
Definition wanted : list Service := planned_services small_object installations.

Definition settled_check (desired stored : Service) : bool :=
  let d := sv_Spec desired in
  let s := sv_Spec stored in
  let merged := mergeManagedMeta (sv_Meta desired) (sv_Meta desired) in
  bool_decide (s = MkServiceSpec (ss_Type d) (ss_Selector d) (ss_Ports d) (ss_InternalTrafficPolicy d) ServiceAffinityNone
        (ss_ClusterIP s) (ss_ClusterIPs s) (ss_IPFamilies s) (ss_IPFamilyPolicy s) (ss_other d))
  && bool_decide (ss_IPFamilyPolicy d = None)
  && bool_decide (om_OwnerReferences (sv_Meta stored) = om_OwnerReferences (sv_Meta desired))
  && bool_decide (om_Labels (sv_Meta stored) !! labelYanet = None)
  && bool_decide (om_Labels (sv_Meta stored) = om_Labels merged)
  && bool_decide (om_Annotations (sv_Meta stored) = om_Annotations merged).

Lemma service_settled_check_sound desired stored : settled_check desired stored = true → service_settled desired stored.
Proof.
  unfold settled_check. rewrite !andb_true_iff, !bool_decide_eq_true. intros (((((Hs & Hp) & Ho) & Hy) & Hl) & Ha).
  split_and!; [exact Hs|done..|]. by exists (sv_Meta desired).
Qed.

Definition world_check (e : event) : bool :=
  match e with
  | Ev (GetService namespace name) (Ok stored) =>
      forallb (λ s, negb (bool_decide ((namespace, name) = sv_key s)) || settled_check s stored) wanted
  | Ev (GetService _ _) _ => false
  | Ev (ListServices _) (Ok live) =>
      forallb (λ s, bool_decide (is_Some (sh_desired (service_plan small_object installations) !! sv_key s))) live
  | _ => true
  end.

Lemma service_world_check_sound e : world_check e = true → settled_services small_object installations e.
Proof.
  intros Hw. split.
  - intros s Hs. destruct e as [c a]; destruct c; try done. intros Hk. cbn [world_check] in Hw. destruct a as [stored|]; [|done].
    exists stored. split; [done|]. apply service_settled_check_sound. rewrite List.forallb_forall in Hw.
    specialize (Hw s (proj1 (list_elem_of_In _ _) Hs)). by rewrite bool_decide_true in Hw.
  - destruct e as [c a]; destruct c; try done. cbn [world_check] in Hw. destruct a as [live|]; [|done].
    intros s Hs _. rewrite List.forallb_forall in Hw. specialize (Hw s (proj1 (list_elem_of_In _ _) Hs)).
    by apply bool_decide_eq_true_1 in Hw.
Qed.

Lemma services_second_settled : Forall (settled_services small_object installations) second.
Proof.
  assert (Hw : forallb world_check second = true) by (vm_compute; reflexivity).
  rewrite List.forallb_forall in Hw. apply Forall_forall. intros e He.
  apply service_world_check_sound, Hw. exact (proj1 (list_elem_of_In _ _) He).
Qed.

Lemma second_lists : Forall (lists installations) second.
Proof. vm_compute. repeat constructor. Qed.
End SharedPasses.

Import Concrete.

Lemma shared_services_converge_witness :
  length SharedPasses.wanted = 1%nat ∧ Forall (λ e, service_write (ev_call e) = false) SharedPasses.second.
Proof.
  split; [vm_compute; reflexivity|].
  destruct (shared_services_converge small_object SharedPasses.installations SharedPasses.second
              (exec Fake.server SharedPasses.served SharedPasses.pass).2) as (_ & _ & Hquiet).
  - exact (exec_run Fake.server SharedPasses.served SharedPasses.pass).
  - exact SharedPasses.second_lists.
  - discriminate.
  - exact (Hquiet SharedPasses.services_second_settled).
Defined.
