(* ===== verification/LabelsSpec.v ===== *)
(** * Workload identity

    What a patch can and cannot change about the objects the operator owns. *)

From S2P Require Import Prelude GoLib Sha256 K8s Api Resolve Labels Instances.
#[local] Open Scope Z_scope.

Section labels.
Context `{MapOrder}.

Lemma copyMap_id (m : gmap string string) : copyMap m = m.
Proof. apply map_eq. intros k. unfold copyMap. rewrite lookup_copy. by destruct (m !! k). Qed.

Lemma reservedLabels_lookup (m : gmap string string) k :
  reservedLabels m !! k = if reserved_label k then m !! k else None.
Proof.
  unfold reservedLabels. rewrite (lookup_copy_if reserved_label), lookup_empty.
  by destruct (reserved_label k), (m !! k).
Qed.

Lemma mergeIdentityLabels_lookup (labels identity : gmap string string) k :
  mergeIdentityLabels labels identity !! k =
  match identity !! k with
  | Some v => Some v
  | None => if reserved_label k then None else labels !! k
  end.
Proof.
  unfold mergeIdentityLabels. rewrite lookup_copy. destruct (identity !! k); [done|].
  rewrite (lookup_delete_range (λ k, HasPrefix k operatorMembershipPrefix)).
  set (m := foldl _ _ workloadIdentityLabels).
  assert (Hm : m !! k = if bool_decide (k ∈ workloadIdentityLabels) then None else labels !! k).
  { exact (lookup_delete_keys (λ _, true) workloadIdentityLabels labels k). }
  rewrite Hm. unfold reserved_label.
  destruct (bool_decide (k ∈ workloadIdentityLabels)); simpl; [by destruct (_ && _)|].
  destruct (HasPrefix k operatorMembershipPrefix); simpl; [|done].
  case_bool_decide as E; [done|]. destruct (labels !! k); [|done]. by destruct E.
Qed.

(** Restoring captured labels over patched ones: reserved keys come from the
    capture, all others from the patch. *)
Lemma restored_labels (patched base : gmap string string) k :
  mergeIdentityLabels patched (reservedLabels base) !! k =
  if reserved_label k then base !! k else patched !! k.
Proof.
  rewrite mergeIdentityLabels_lookup, reservedLabels_lookup.
  destruct (reserved_label k); [|done]. by destruct (base !! k).
Qed.
End labels.

(** What identifies a workload: two Deployments with the same identity are the
    same object for the cluster, the selector and the operator. *)
Definition same_identity (d d' : Deployment) : Prop :=
  d_Name d' = d_Name d ∧ d_Namespace d' = d_Namespace d
  ∧ om_OwnerReferences (d_Meta d') = om_OwnerReferences (d_Meta d)
  ∧ ds_Selector (d_Spec d') = ds_Selector (d_Spec d)
  ∧ ds_Strategy (d_Spec d') = ds_Strategy (d_Spec d)
  ∧ ps_NodeName (d_Pod d') = ps_NodeName (d_Pod d)
  ∧ ps_NodeSelector (d_Pod d') = ps_NodeSelector (d_Pod d)
  ∧ (∀ k, reserved_label k = true → d_Labels d' !! k = d_Labels d !! k)
  ∧ (∀ k, reserved_label k = true → pt_Labels (d_Template d') !! k = pt_Labels (d_Template d) !! k).

#[export] Instance same_identity_preorder : PreOrder same_identity.
Proof.
  split; [by intros d; unfold same_identity; split_and!|].
  intros d1 d2 d3 (A1 & A2 & A3 & A4 & A5 & A6 & A7 & A8 & A9) (B1 & B2 & B3 & B4 & B5 & B6 & B7 & B8 & B9).
  unfold same_identity. split_and!; try congruence; intros k Hk; [rewrite B8, A8|rewrite B9, A9]; done.
Qed.

Lemma restore_fields `{MapOrder} (base patched : Deployment) :
  let restored := RestoreWorkloadIdentity patched (CaptureWorkloadIdentity base) in
  same_identity base restored
  ∧ (∀ k, d_Labels restored !! k = if reserved_label k then d_Labels base !! k else d_Labels patched !! k)
  ∧ (∀ k, pt_Labels (d_Template restored) !! k =
       if reserved_label k then pt_Labels (d_Template base) !! k else pt_Labels (d_Template patched) !! k).
Proof.
  intros restored.
  assert (Hl : ∀ k, d_Labels restored !! k = if reserved_label k then d_Labels base !! k else d_Labels patched !! k).
  { intros k. unfold restored, RestoreWorkloadIdentity. set (identity := CaptureWorkloadIdentity base).
    destruct (wi_ManageNativeSidecars identity); apply restored_labels. }
  assert (Hp : ∀ k, pt_Labels (d_Template restored) !! k =
    if reserved_label k then pt_Labels (d_Template base) !! k else pt_Labels (d_Template patched) !! k).
  { intros k. unfold restored, RestoreWorkloadIdentity. set (identity := CaptureWorkloadIdentity base).
    destruct (wi_ManageNativeSidecars identity); apply restored_labels. }
  split; [|done].
  assert (Hsel : ps_NodeSelector (d_Pod restored) = ps_NodeSelector (d_Pod base)).
  { unfold restored, RestoreWorkloadIdentity. set (identity := CaptureWorkloadIdentity base).
    assert (Hsel : copyMap (wi_NodeSelector identity) = ps_NodeSelector (d_Pod base))
      by (unfold identity; simpl; by rewrite !copyMap_id).
    by destruct (wi_ManageNativeSidecars identity). }
  unfold same_identity. split_and!; try done;
    try (unfold restored, RestoreWorkloadIdentity; by destruct (wi_ManageNativeSidecars _)).
  - intros k Hk. by rewrite Hl, Hk.
  - intros k Hk. by rewrite Hp, Hk.
Qed.

(** C5: restoring the captured identity undoes every attempt of a patch to take a
    workload away: for any patched Deployment at all, the name, namespace, owners,
    selector, node pinning and strategy are those of the Deployment the operator
    built, a reserved label (including every membership label) has exactly its
    built value or is absent, and every other label is the patched one. *)
Theorem patches_cannot_change_identity `{MapOrder} (base patched : Deployment) :
  let restored := RestoreWorkloadIdentity patched (CaptureWorkloadIdentity base) in
  d_Name restored = d_Name base ∧ d_Namespace restored = d_Namespace base
  ∧ om_OwnerReferences (d_Meta restored) = om_OwnerReferences (d_Meta base)
  ∧ ds_Selector (d_Spec restored) = ds_Selector (d_Spec base)
  ∧ ds_Strategy (d_Spec restored) = ds_Strategy (d_Spec base)
  ∧ ps_NodeName (d_Pod restored) = ps_NodeName (d_Pod base)
  ∧ ps_NodeSelector (d_Pod restored) = ps_NodeSelector (d_Pod base)
  ∧ (∀ k, d_Labels restored !! k = if reserved_label k then d_Labels base !! k else d_Labels patched !! k)
  ∧ (∀ k, pt_Labels (d_Template restored) !! k =
       if reserved_label k then pt_Labels (d_Template base) !! k else pt_Labels (d_Template patched) !! k).
Proof.
  destruct (restore_fields base patched) as ((? & ? & ? & ? & ? & ? & ? & _ & _) & ? & ?). split_and!; done.
Qed.

(** ** Native sidecars *)

Section native.
Variables (managed : gset string).

Notation is_managed c := (c_Name c ∈ managed).

Lemma filter_snoc (P : Container → Prop) `{∀ c, Decision (P c)} (l : list Container) c :
  filter P (l ++ [c]) = filter P l ++ (if decide (P c) then [c] else []).
Proof. rewrite filter_app. f_equal. Qed.

(** What the first pass finds: a managed container at [lastFixed], or none at
    all, and the patched version of each managed name. *)
Lemma scan_managed_spec init :
  match (scan_managed managed init).2 with
  | None => Forall (λ c, ¬ is_managed c) init
  | Some i => ∃ c, init !! i = Some c ∧ is_managed c
  end
  ∧ ∀ n, match (scan_managed managed init).1 !! n with
         | Some c => c_Name c = n ∧ c ∈ init
         | None => n ∈ managed → n ∉ c_Name <$> init
         end.
Proof.
  unfold scan_managed. induction init as [|c init IH] using rev_ind;
    [split; [constructor|intros n; simpl; rewrite lookup_empty; set_solver]|].
  rewrite enumerate_snoc, foldl_app. simpl.
  destruct (foldl _ _ (enumerate init)) as [patched last]. simpl in *. destruct IH as [IH1 IH2].
  destruct (decide (is_managed c)) as [Hc|Hc].
  - rewrite bool_decide_true by done. simpl. split.
    + exists c. split; [|done]. rewrite lookup_app_r, Nat.sub_diag by lia. done.
    + intros n. specialize (IH2 n). destruct (decide (c_Name c = n)) as [<-|Hne].
      * rewrite lookup_insert_eq. set_solver.
      * rewrite lookup_insert_ne by done. rewrite fmap_app. destruct (patched !! n); set_solver.
  - rewrite bool_decide_false by done. simpl. split.
    + destruct last as [i|].
      * destruct IH1 as (x & Hx & Hm). exists x. split; [by apply lookup_app_l_Some|done].
      * apply Forall_app. split; [done|]. by constructor.
    + intros n. specialize (IH2 n). rewrite fmap_app. destruct (patched !! n); set_solver.
Qed.

(** The second pass, for restored containers [R] that are all managed. *)
Section second_pass.
Variables (R : list Container).
Hypothesis (HR : Forall (λ c, is_managed c) R).

Definition pass_ok (done_ : list Container) (st : list Container * nat) : Prop :=
  filter (λ c, is_managed c) st.1 = take st.2 R
  ∧ filter (λ c, ¬ is_managed c) st.1 = filter (λ c, ¬ is_managed c) done_.

Lemma filter_managed_R l : l ⊆ R → filter (λ c, is_managed c) l = l ∧ filter (λ c, ¬ is_managed c) l = [].
Proof.
  intros Hl. rewrite Forall_forall in HR. split; [apply filter_all|apply filter_none]; apply Forall_forall; auto.
Qed.

Lemma restore_step_ok last k c st :
  pass_ok k st →
  pass_ok (k ++ [c]) (restore_step managed R last st (length k, c))
  ∧ (is_managed c → last = Some (length k) → (restore_step managed R last st (length k, c)).2 = length R)
  ∧ (st.2 = length R → (restore_step managed R last st (length k, c)).2 = length R).
Proof.
  destruct st as [restored next]. unfold pass_ok. simpl. intros [E1 E2]. unfold restore_step.
  destruct (decide (is_managed c)) as [Hc|Hc].
  2:{ rewrite bool_decide_false by done. simpl. rewrite !filter_snoc, E1, E2.
      rewrite (decide_False (P := is_managed c)), decide_True by done. rewrite app_nil_r.
      split_and!; [done..|by intros ?|done]. }
  rewrite bool_decide_true by done.
  assert (Hnext : ∃ restored' next',
    match R !! next with Some c => (restored ++ [c], S next) | None => (restored, next) end = (restored', next')
    ∧ filter (λ c, is_managed c) restored' = take next' R
    ∧ filter (λ c, ¬ is_managed c) restored' = filter (λ c, ¬ is_managed c) k
    ∧ (next = length R → next' = length R)).
  { destruct (R !! next) as [x|] eqn:Ex.
    - exists (restored ++ [x]), (S next). split; [done|].
      assert (Hx : is_managed x) by (by eapply Forall_lookup_1 in HR).
      rewrite !filter_snoc, E1, E2, decide_True, decide_False by auto. rewrite app_nil_r.
      split_and!; [by rewrite (take_S_r R next x)|done|]. intros ->. apply lookup_lt_Some in Ex. lia.
    - exists restored, next. done. }
  destruct Hnext as (restored' & next' & -> & F1 & F2 & F3).
  rewrite filter_snoc, decide_False, app_nil_r by (by intros []).
  case_bool_decide as El; simpl; [|naive_solver].
  destruct (filter_managed_R (drop next' R)) as [G1 G2]; [apply subseteq_drop|].
  rewrite !filter_app, F1, F2, G1, G2, take_drop, app_nil_r, firstn_all. done.
Qed.
End second_pass.
End native.

Lemma restore_expected_name (patched : gmap string Container) c :
  (∀ n x, patched !! n = Some x → c_Name x = n) → c_Name (restore_expected patched c) = c_Name c.
Proof. intros Hp. unfold restore_expected. simpl. destruct (patched !! c_Name c) eqn:E; simpl; [by apply Hp|done]. Qed.

(** Whatever a patch does to the init containers of a dataplane Pod (drop,
    reorder, duplicate or edit them), after restoration the managed native sidecars
    are exactly the declared ones, in the declared order and with the declared
    restart policy; each has the contents a patched container of that name has, and
    its declared contents only when the patch dropped it; the other init containers
    are the patched ones in their order. *)
Theorem native_sidecars_are_restored (init expected : list Container) :
  let managed : gset string := list_to_set (c_Name <$> expected) in
  let restored := restore_init init expected in
  Forall2 (λ baseline c, c_Name c = c_Name baseline
      ∧ ∃ x, c = set_c_RestartPolicy (c_RestartPolicy baseline) x
        ∧ (x ∈ init ∨ x = baseline ∧ c_Name baseline ∉ c_Name <$> init))
    expected (filter (λ c, c_Name c ∈ managed) restored)
  ∧ filter (λ c, c_Name c ∉ managed) restored = filter (λ c, c_Name c ∉ managed) init.
Proof.
  intros managed restored.
  destruct (scan_managed_spec managed init) as [Hlast Hnames].
  unfold restored, restore_init. fold managed.
  destruct (scan_managed managed init) as [patched last]. simpl in Hlast, Hnames.
  set (R := restore_expected patched <$> expected).
  assert (HRn : ∀ c, c_Name (restore_expected patched c) = c_Name c).
  { intros c. apply restore_expected_name. intros n x Hx. specialize (Hnames n). rewrite Hx in Hnames. tauto. }
  assert (HR : Forall (λ c, c_Name c ∈ managed) R).
  { apply Forall_fmap, Forall_forall. intros c Hc. unfold compose. rewrite HRn. apply elem_of_list_to_set.
    by apply list_elem_of_fmap_2. }
  cut (filter (λ c, c_Name c ∈ managed)
         (foldl (restore_step managed R last) (match last with None => R | Some _ => [] end, 0%nat) (enumerate init)).1 = R
       ∧ filter (λ c, c_Name c ∉ managed)
         (foldl (restore_step managed R last) (match last with None => R | Some _ => [] end, 0%nat) (enumerate init)).1
         = filter (λ c, c_Name c ∉ managed) init).
  { intros [-> ->]. split; [|done]. apply Forall2_fmap_r, Forall_Forall2_diag, Forall_forall. intros c Hc.
    split; [apply HRn|]. unfold restore_expected. eexists. split; [done|]. specialize (Hnames (c_Name c)).
    destruct (patched !! c_Name c); simpl; [tauto|]. right. split; [done|]. apply Hnames. set_solver. }
  destruct last as [last|].
  - destruct Hlast as (c & Hc & Hm).
    assert (Hpass : ∀ k, pass_ok managed R k (foldl (restore_step managed R (Some last)) ([], 0%nat) (enumerate k))
      ∧ (∀ x, k !! last = Some x → c_Name x ∈ managed →
           (foldl (restore_step managed R (Some last)) ([], 0%nat) (enumerate k)).2 = length R)).
    { induction k as [|x k [IH1 IH2]] using rev_ind; [split; [done|intros; by rewrite lookup_nil in *]|].
      rewrite enumerate_snoc, foldl_app. simpl.
      destruct (restore_step_ok managed R HR (Some last) k x _ IH1) as (S1 & S2 & S3).
      split; [done|]. intros z Hz Hzm. apply lookup_app_Some in Hz as [Hz|[Hlen Hz]].
      - apply S3. by eapply IH2.
      - apply list_lookup_singleton_Some in Hz as [Hz ->]. apply S2; [done|]. f_equal. lia. }
    destruct (Hpass init) as [[P1 P2] P3]. rewrite P1, P2, (P3 c Hc Hm), firstn_all. done.
  - assert (Hpass : ∀ k, Forall (λ c, c_Name c ∉ managed) k →
      foldl (restore_step managed R None) (R, 0%nat) (enumerate k) = (R ++ k, 0%nat)).
    { induction k as [|x k IH] using rev_ind; [by rewrite app_nil_r|]. intros [Hk Hx]%Forall_app.
      apply Forall_cons in Hx as [Hx _].
      rewrite enumerate_snoc, foldl_app, IH by done. simpl. rewrite bool_decide_false by done. by rewrite app_assoc. }
    rewrite Hpass by done. simpl. rewrite !filter_app.
    destruct (filter_managed_R managed R HR R) as [-> ->]; [done|].
    rewrite filter_none by done. by rewrite app_nil_r.
Qed.
