(* ===== verification/PodsSpec.v ===== *)
(** * What the Pod validators accept

    Declarative contracts of [validateConcurrentPodPorts] and
    [ValidateComposedPod], and the theorems that the code decides them. *)

From S2P Require Import Prelude GoLib Sha256 K8s Api Resolve Labels Listeners Builder Service Render.
#[local] Open Scope Z_scope.

(** ** Ports of containers that run at the same time *)

Definition has_key (c : Container) (k : Z * string) : Prop := k ∈ port_key <$> c_Ports c.
#[export] Instance has_key_dec c k : Decision (has_key c k).
Proof. unfold has_key. apply _. Defined.

(** Two containers of different names use one port and protocol. *)
Definition conflict (c c' : Container) : Prop :=
  c_Name c ≠ c_Name c' ∧ ∃ k, has_key c k ∧ has_key c' k.

(** Application containers and restartable init containers run together until
    the Pod ends; an ordinary init container runs together with the restartable
    ones that started before it. *)
Definition ports_disjoint (pod : PodSpec) : Prop :=
  (∀ c c', c ∈ ps_Containers pod ++ filter restartable (ps_InitContainers pod) →
           c' ∈ ps_Containers pod ++ filter restartable (ps_InitContainers pod) → ¬ conflict c c')
  ∧ (∀ before c after, ps_InitContainers pod = before ++ c :: after → restartable c = false →
       ∀ s, s ∈ filter restartable before → ¬ conflict s c).

(** The owner map after a list of containers without conflicts. *)
Definition owns (occupied : gmap (Z * string) string) (l : list Container) : Prop :=
  ∀ k n, occupied !! k = Some n ↔ ∃ c, c ∈ l ∧ c_Name c = n ∧ has_key c k.

Lemma owns_nil : owns ∅ [].
Proof. intros k n. rewrite lookup_empty. set_solver. Qed.

Lemma insert_keys_lookup (n : string) (ports : list ContainerPort) (occupied : gmap (Z * string) string) k :
  foldl (λ m port, <[port_key port := n]> m) occupied ports !! k =
  if bool_decide (k ∈ port_key <$> ports) then Some n else occupied !! k.
Proof.
  induction ports as [|p ports IH] using rev_ind; [done|].
  rewrite foldl_app. simpl. destruct (decide (port_key p = k)) as [<-|Hne].
  - rewrite lookup_insert_eq, bool_decide_true; [done|]. set_solver.
  - rewrite lookup_insert_ne, IH by done.
    rewrite (bool_decide_ext _ (k ∈ port_key <$> ports ++ [p])); [done|]. set_solver.
Qed.

Lemma reserve_ports_lookup occupied c k :
  reserve_ports occupied c !! k =
  if bool_decide (has_key c k) then Some (c_Name c) else occupied !! k.
Proof.
  unfold reserve_ports. rewrite insert_keys_lookup.
  by rewrite (bool_decide_ext (k ∈ port_key <$> c_Ports c) (has_key c k)).
Qed.

Lemma check_ports_Ok occupied c :
  check_ports occupied c = Ok tt ↔ ∀ k n, has_key c k → occupied !! k = Some n → n = c_Name c.
Proof.
  unfold check_ports, has_key. rewrite check_all_Ok, Forall_forall. setoid_rewrite err_if_Ok.
  split.
  - intros Hp k n (p & -> & Hin)%list_elem_of_fmap Hn. specialize (Hp p Hin). rewrite Hn in Hp.
    apply bool_decide_eq_false_1 in Hp. by destruct (decide (n = c_Name c)).
  - intros Hk p Hin. destruct (occupied !! port_key p) as [n|] eqn:E; [|done].
    apply bool_decide_eq_false_2. rewrite (Hk (port_key p) n); [by intros []| |done].
    by apply list_elem_of_fmap_2.
Qed.

Lemma check_ports_owns occupied l c :
  owns occupied l → check_ports occupied c = Ok tt ↔ ∀ s, s ∈ l → ¬ conflict s c.
Proof.
  intros Ho. rewrite check_ports_Ok. unfold conflict. split.
  - intros Hc s Hs [Hne (k & Hk & Hk')]. apply Hne. apply (Hc k); [done|]. apply Ho. eauto.
  - intros Hs k n Hk Hn. apply Ho in Hn as (s & Hin & <- & Hk'). specialize (Hs s Hin).
    destruct (decide (c_Name s = c_Name c)); [done|]. naive_solver.
Qed.

Lemma reserve_ports_owns occupied l c :
  owns occupied l → (∀ s, s ∈ l → ¬ conflict s c) → owns (reserve_ports occupied c) (l ++ [c]).
Proof.
  intros Ho Hc k n. rewrite reserve_ports_lookup. case_bool_decide as Hk.
  - split; [intros [= <-]; set_solver|]. intros (s & [Hs| ->%list_elem_of_singleton]%elem_of_app & <- & Hsk); [|done].
    f_equal. destruct (decide (c_Name c = c_Name s)) as [|Hne]; [done|]. destruct (Hc s Hs). unfold conflict. eauto.
  - rewrite (Ho k n). set_solver.
Qed.

(** No two containers of a list conflict. *)
Definition compatible (l : list Container) : Prop := ∀ c c', c ∈ l → c' ∈ l → ¬ conflict c c'.

Lemma conflict_sym c c' : conflict c c' → conflict c' c.
Proof. unfold conflict. naive_solver. Qed.

Lemma compatible_snoc l c : compatible (l ++ [c]) ↔ compatible l ∧ ∀ s, s ∈ l → ¬ conflict s c.
Proof.
  unfold compatible. split; [set_solver|]. intros [H1 H2] a b Ha Hb.
  apply elem_of_app in Ha as [Ha|Ha%list_elem_of_singleton]; apply elem_of_app in Hb as [Hb|Hb%list_elem_of_singleton];
    subst; [auto..| |].
  - intros ?%conflict_sym. eapply H2; eauto.
  - by intros [[] _].
Qed.

Lemma concurrent_apps_spec l :
  match foldM concurrent_step_app ∅ l with
  | Ok occupied => compatible l ∧ owns occupied l
  | Err _ => ¬ compatible l
  end.
Proof.
  induction l as [|c l IH] using rev_ind; simpl;
    [split; [by intros c c' ?%elem_of_nil|apply owns_nil]|].
  rewrite foldM_app. destruct (foldM _ _ l) as [occupied|]; simpl.
  2:{ by intros [? _]%compatible_snoc. }
  destruct IH as [Hl Ho]. unfold concurrent_step_app.
  pose proof (check_ports_owns occupied l c Ho) as Hc.
  destruct (check_ports occupied c) as [[]|]; simpl.
  - assert (∀ s, s ∈ l → ¬ conflict s c) by (by apply Hc). split; [by apply compatible_snoc|].
    by apply reserve_ports_owns.
  - rewrite compatible_snoc. intros [_ Hn]. by apply Hc in Hn.
Qed.

(** The init containers: [apps] are the application containers. *)
Definition init_ok (apps init : list Container) : Prop :=
  compatible (apps ++ filter restartable init)
  ∧ (∀ before c after, init = before ++ c :: after → restartable c = false →
       ∀ s, s ∈ filter restartable before → ¬ conflict s c).

Lemma snoc_split {A} (l before after : list A) (x c : A) :
  l ++ [x] = before ++ c :: after ↔
  (after = [] ∧ before = l ∧ c = x) ∨ (∃ after', after = after' ++ [x] ∧ l = before ++ c :: after').
Proof.
  split.
  - destruct after as [|a after _] using rev_ind.
    + intros [-> [= ->]]%app_inj_tail. by left.
    + rewrite app_comm_cons, app_assoc. intros [-> ->]%app_inj_tail. right. by exists after.
  - intros [(-> & -> & ->)|(after' & -> & ->)]; [done|]. by rewrite <-app_assoc.
Qed.

Lemma init_ok_snoc apps init c :
  init_ok apps (init ++ [c]) ↔
  init_ok apps init ∧ ∀ s, s ∈ (if restartable c then apps else []) ++ filter restartable init → ¬ conflict s c.
Proof.
  unfold init_ok. setoid_rewrite snoc_split.
  assert (Hf : filter restartable (init ++ [c]) = filter restartable init ++ if restartable c then [c] else []).
  { rewrite filter_app. f_equal. rewrite filter_cons. by destruct (restartable c). }
  rewrite Hf. destruct (restartable c) eqn:Hc; simpl.
  - rewrite app_assoc, compatible_snoc. split.
    + intros [[H1 H2] H3]. split_and!; [done| |done]. intros before x after ->. apply (H3 before x (after ++ [c])).
      right. by exists after.
    + intros [[H1 H3] H2]. split_and!; [done..|]. intros before x after [(-> & -> & ->)|(after' & -> & ->)];
        [congruence|]. by apply (H3 before x after').
  - rewrite app_nil_r. split.
    + intros [H1 H2]. split_and!; [done| |].
      * intros before x after ->. apply (H2 before x (after ++ [c])). right. by exists after.
      * apply (H2 init c []); [by left|done].
    + intros [[H1 H3] H2]. split_and!; [done|]. intros before x after [(-> & -> & ->)|(after' & -> & ->)];
        [done|]. by apply (H3 before x after').
Qed.

Lemma concurrent_init_spec apps persistent init :
  compatible apps → owns persistent apps →
  match foldM concurrent_step_init (persistent, ∅) init with
  | Ok (persistent, sidecars) =>
      init_ok apps init ∧ owns persistent (apps ++ filter restartable init)
      ∧ owns sidecars (filter restartable init)
  | Err _ => ¬ init_ok apps init
  end.
Proof.
  intros Ha Ho. induction init as [|c init IH] using rev_ind; simpl.
  { rewrite app_nil_r. split_and!; [|done|apply owns_nil]. split; [by rewrite app_nil_r|].
    intros before c after Hn. by destruct before. }
  rewrite foldM_app. destruct (foldM _ _ init) as [[p s]|]; simpl.
  2:{ by intros [? _]%init_ok_snoc. }
  destruct IH as (Hi & Hp & Hs).
  assert (Hf : filter restartable (init ++ [c]) = filter restartable init ++ if restartable c then [c] else []).
  { rewrite filter_app. f_equal. rewrite filter_cons. by destruct (restartable c). }
  pose proof (init_ok_snoc apps init c) as Hstep. rewrite Hf.
  destruct (restartable c) eqn:Hc; simpl in *.
  - pose proof (check_ports_owns p _ c Hp) as Hchk. destruct (check_ports p c) as [[]|]; simpl.
    + assert (Hn := proj1 Hchk eq_refl). split_and!; [by apply Hstep| |].
      * rewrite app_assoc. by apply reserve_ports_owns.
      * apply reserve_ports_owns; [done|]. set_solver.
    + rewrite Hstep. intros [_ Hn]. by apply Hchk in Hn.
  - pose proof (check_ports_owns s _ c Hs) as Hchk. destruct (check_ports s c) as [[]|]; simpl.
    + rewrite !app_nil_r. split_and!; [|done..]. apply Hstep. split; [done|]. by apply Hchk.
    + rewrite Hstep. intros [_ Hn]. by apply Hchk in Hn.
Qed.

Lemma validateConcurrentPodPorts_spec pod : validateConcurrentPodPorts pod = Ok tt ↔ ports_disjoint pod.
Proof.
  change (ports_disjoint pod) with (init_ok (ps_Containers pod) (ps_InitContainers pod)).
  unfold validateConcurrentPodPorts.
  pose proof (concurrent_apps_spec (ps_Containers pod)) as Happs.
  destruct (foldM concurrent_step_app ∅ (ps_Containers pod)) as [p|]; simpl.
  - destruct Happs as [Ha Ho].
    pose proof (concurrent_init_spec _ p (ps_InitContainers pod) Ha Ho) as Hinit.
    destruct (foldM concurrent_step_init _ _) as [[]|]; simpl; naive_solver.
  - split; [done|]. intros [Hc _]. destruct Happs. unfold compatible in *. set_solver.
Qed.

(** ** The whole Pod *)

Definition in_port_range (n : Z) : Prop := 1 ≤ n ≤ 65535.

(** A probe or lifecycle port names a TCP port of its own container, or is a
    port number. *)
Definition probe_target_ok (c : Container) (port : IntOrString) : Prop :=
  match port with
  | StrVal s => s ≠ "" ∧ ∃ p, p ∈ c_Ports c ∧ is_tcp (cp_Protocol p) = true ∧ cp_Name p = s
  | IntVal n => in_port_range n
  end.

Definition probes_ok (c : Container) : Prop :=
  (∀ port, port ∈ visitContainerPortActions c → probe_target_ok c port)
  ∧ ∀ probe port, probe ∈ container_probes c → pr_GRPC probe = Some port → in_port_range port.

Definition port_names (l : list Container) : list string :=
  filter (λ n, n ≠ "") (cp_Name <$> mjoin (c_Ports <$> l)).

Section wellformed.
Context `{K8sValidation}.

Definition port_ok (p : ContainerPort) : Prop :=
  valid_protocol (cp_Protocol p) = true ∧ in_port_range (cp_ContainerPort p)
  ∧ 0 ≤ cp_HostPort p ≤ 65535 ∧ (cp_Name p ≠ "" → IsValidPortName (cp_Name p) = []).

Definition container_ok (volumes : list string) (c : Container) : Prop :=
  (c_RestartPolicy c = None ∨ c_RestartPolicy c = Some ContainerRestartPolicyAlways)
  ∧ IsDNS1123Label (c_Name c) = []
  ∧ (∀ m, m ∈ c_VolumeMounts c → vm_Name m ∈ volumes)
  ∧ (∀ d, d ∈ c_VolumeDevices c → vd_Name d ∈ volumes)
  ∧ (∀ p, p ∈ c_Ports c → port_ok p)
  ∧ probes_ok c.

(** Container names: unique in the Pod, and the names of managed sidecars are
    not used by the application containers of a dataplane. *)
Definition names_ok (d : Deployment) : Prop :=
  NoDup (c_Name <$> pod_containers (d_Pod d))
  ∧ (get (pt_Labels (d_Template d)) labelComponent = kind_string KindDataplane →
     ∀ c, c ∈ ps_Containers (d_Pod d) → isManagedNativeContainer (c_Name c) = false).

Definition refs_ok (pod : PodSpec) : Prop :=
  ∀ r, r ∈ resource_refs pod → rf_ContainerName r = "" ∨ rf_ContainerName r ∈ c_Name <$> pod_containers pod.

Definition well_formed_pod (d : Deployment) : Prop :=
  let pod := d_Pod d in
  private_pod pod ∧ names_ok d ∧ IsDNS1123Subdomain (d_Name d) = [] ∧ ps_Containers pod ≠ []
  ∧ (NoDup (v_Name <$> ps_Volumes pod) ∧ ∀ v, v ∈ ps_Volumes pod → IsDNS1123Label (v_Name v) = [])
  ∧ ((∀ c, c ∈ pod_containers pod → container_ok (v_Name <$> ps_Volumes pod) c)
     ∧ NoDup (port_names (pod_containers pod)))
  ∧ refs_ok pod ∧ ports_disjoint pod.

(** A loop that remembers the last error succeeds when nothing is wrong. *)
Lemma last_error_Ok {A} (good : A → Prop) `{∀ x, Decision (good x)} (f : result unit → A → result unit) l :
  (∀ acc x, good x → f acc x = acc) → (∀ acc x, ¬ good x → ∃ e, f acc x = Err e) →
  foldl f (Ok tt) l = Ok tt ↔ Forall good l.
Proof.
  intros Hg Hb. induction l as [|x l IH] using rev_ind; [done|].
  rewrite foldl_app, Forall_app, Forall_singleton. simpl. destruct (decide (good x)) as [Hx|Hx].
  - rewrite Hg by done. tauto.
  - destruct (Hb (foldl f (Ok tt) l) x Hx) as [e ->]. naive_solver.
Qed.

(** A loop that collects names in a set accepts distinct, new ones. *)
Lemma collect_names_Ok {A} (name : A → string) (bad : A → bool) (e : A → goerror) l (seen seen' : gset string) :
  foldM (λ seen x, err_if (bad x || bool_decide (name x ∈ seen)) (e x);; Ok ({[name x]} ∪ seen)) seen l = Ok seen'
  ↔ (∀ x, x ∈ l → bad x = false) ∧ NoDup (name <$> l) ∧ (∀ x, x ∈ l → name x ∉ seen)
    ∧ seen' = list_to_set (name <$> l) ∪ seen.
Proof.
  revert seen. induction l as [|x l IH]; intros seen; simpl.
  { rewrite NoDup_nil. split; [intros [= <-]; set_solver|intros (_ & _ & _ & ->)]. f_equal. set_solver. }
  destruct (bad x) eqn:Hb; simpl.
  { split; [done|]. intros (H1 & _). rewrite H1 in Hb by left. done. }
  case_bool_decide as Hx; simpl.
  { split; [done|]. intros (_ & _ & H3 & _). exfalso. apply (H3 x); [left|done]. }
  rewrite IH, NoDup_cons. clear IH. split.
  - intros (H1 & H2 & H3 & ->). split_and!; [set_solver| |done|set_solver|set_solver].
    intros (y & Hy & Hyl)%list_elem_of_fmap. specialize (H3 y Hyl). set_solver.
  - intros (H1 & [Hnx H2] & H3 & ->). split_and!; [set_solver|done| |set_solver].
    intros y Hy. apply not_elem_of_union. split; [|set_solver].
    apply not_elem_of_singleton. intros Heq. apply Hnx. rewrite <-Heq. by apply list_elem_of_fmap_2.
Qed.

Lemma check_volumes_Ok l volumes :
  foldM check_volume ∅ l = Ok volumes ↔
  (NoDup (v_Name <$> l) ∧ ∀ v, v ∈ l → IsDNS1123Label (v_Name v) = []) ∧ volumes = list_to_set (v_Name <$> l).
Proof.
  unfold check_volume. rewrite (collect_names_Ok v_Name (λ v, bool_decide (IsDNS1123Label (v_Name v) ≠ []))).
  rewrite union_empty_r_L. split.
  - intros (H1 & H2 & _ & ->). split_and!; [done| |done]. intros v Hv.
    specialize (H1 v Hv). apply bool_decide_eq_false_1 in H1. by apply dec_stable.
  - intros [[H1 H2] ->]. split_and!; [|done|set_solver|done]. intros v Hv.
    apply bool_decide_eq_false_2. intros []. by apply H2.
Qed.

Lemma range_false a b n : bool_decide (n < a) || bool_decide (n > b) = false ↔ a ≤ n ≤ b.
Proof. rewrite orb_false_iff, !bool_decide_eq_false. lia. Qed.

Lemma check_port_Ok c seen seen' p :
  check_port c seen p = Ok seen' ↔
  port_ok p ∧ (cp_Name p ≠ "" → cp_Name p ∉ seen)
  ∧ seen' = if bool_decide (cp_Name p ≠ "") then {[cp_Name p]} ∪ seen else seen.
Proof.
  unfold check_port, port_ok, in_port_range.
  destruct (valid_protocol (cp_Protocol p)); simpl; [|naive_solver].
  repeat case_bool_decide; simpl; try (split; [discriminate|intros; exfalso; naive_solver lia]);
    (split; [intros [= <-]|intros (_ & _ & ->); done]);
    (split_and!; try lia; try done; naive_solver).
Qed.

Lemma check_container_ports_Ok c seen seen' l :
  foldM (check_port c) seen l = Ok seen' ↔
  (∀ p, p ∈ l → port_ok p)
  ∧ NoDup (filter (λ n, n ≠ "") (cp_Name <$> l))
  ∧ (∀ n, n ∈ filter (λ n, n ≠ "") (cp_Name <$> l) → n ∉ seen)
  ∧ seen' = list_to_set (filter (λ n, n ≠ "") (cp_Name <$> l)) ∪ seen.
Proof.
  revert seen. induction l as [|p l IH]; intros seen; simpl.
  { rewrite NoDup_nil. split; [intros [= <-]; set_solver|intros (_ & _ & _ & ->)]. f_equal. set_solver. }
  rewrite filter_cons. pose proof (check_port_Ok c seen) as Hp.
  destruct (check_port c seen p) as [s|] eqn:E; simpl.
  - apply Hp in E as (H1 & H2 & ->). rewrite IH. case_bool_decide as Hn.
    + destruct (decide (cp_Name p ≠ "")) as [?|?]; [|done]. rewrite NoDup_cons. simpl. split.
      * intros (F1 & F2 & F3 & ->). clear IH Hp. split_and!; [set_solver| |done|set_solver|set_solver].
        intros Hin. by apply (F3 _ Hin), elem_of_union_l, elem_of_singleton.
      * intros (F1 & [F2 F2'] & F3 & ->). clear IH Hp. split_and!; [set_solver|done| |set_solver].
        intros x Hin. specialize (F3 x). set_solver.
    + clear IH Hp. destruct (decide (cp_Name p ≠ "")) as [?|?]; [done|]. set_solver.
  - split; [done|]. intros (F1 & F2 & F3 & _). exfalso.
    enough (Hok : ∃ s, check_port c seen p = Ok s) by (destruct Hok; congruence).
    eexists. apply Hp. split_and!; [set_solver| |done]. intros Hn. apply F3. rewrite decide_True by done. set_solver.
Qed.

Lemma validateContainerProbePorts_Ok c : validateContainerProbePorts c = Ok tt ↔ probes_ok c.
Proof.
  unfold validateContainerProbePorts, probes_ok. rewrite bind_Ok.
  assert (Hrange : ∀ n, bool_decide (n < 1) || bool_decide (n > 65535) = false ↔ in_port_range n)
    by (intros; apply range_false).
  assert (Hact : ∀ r, r = Ok tt ↔ Forall (probe_target_ok c) (visitContainerPortActions c) →
    (∃ a : unit, r = Ok a ∧ check_all (λ probe,
       match pr_GRPC probe with
       | None => Ok tt
       | Some port =>
           err_if (bool_decide (port < 1) || bool_decide (port > 65535))
             (Errorf "container %q gRPC probe has invalid port %d" [AStr (c_Name c); AInt port])
       end) (container_probes c) = Ok tt)
    ↔ (∀ port, port ∈ visitContainerPortActions c → probe_target_ok c port)
      ∧ ∀ probe port, probe ∈ container_probes c → pr_GRPC probe = Some port → in_port_range port).
  { intros r Hr. rewrite Forall_forall in Hr. split.
    - intros ([] & E & Hp). rewrite check_all_Ok, Forall_forall in Hp. split; [by apply Hr|]. intros probe port Hin E'. specialize (Hp probe Hin).
      rewrite E' in Hp. apply err_if_Ok in Hp. by apply Hrange.
    - intros [Ha Hp]. exists tt. split; [by apply Hr|]. apply check_all_Ok, Forall_forall. intros probe Hin.
      destruct (pr_GRPC probe) as [port|] eqn:E'; [|done]. apply err_if_Ok, Hrange. eauto. }
  apply Hact. apply last_error_Ok.
  - intros port. unfold probe_target_ok, in_port_range. destruct port; [apply _|].
    destruct (decide (s = "")); [right; tauto|].
    destruct (decide (Exists (λ p, is_tcp (cp_Protocol p) = true ∧ cp_Name p = s) (c_Ports c))) as [He|He];
      rewrite Exists_exists in He; [left|right]; naive_solver.
  - intros acc [n|s] Hg; simpl in Hg.
    + by rewrite (proj2 (Hrange n) Hg).
    + destruct Hg as (Hne & p & Hin & Htcp & <-). rewrite bool_decide_false by done. simpl.
      rewrite bool_decide_false; [done|]. intros Hn. apply Hn, elem_of_list_to_set, list_elem_of_fmap_2.
      apply list_elem_of_filter. by rewrite Htcp.
  - intros acc [n|s] Hg; simpl in Hg.
    + destruct (_ || _) eqn:E; [eauto|]. by apply Hrange in E.
    + case_bool_decide; simpl; [eauto|]. case_bool_decide as Hn; [eauto|]. exfalso. apply Hg. split; [done|].
      apply elem_of_list_to_set in Hn as (p & -> & [Htcp Hin]%list_elem_of_filter)%list_elem_of_fmap.
      exists p. split_and!; [done| |done]. by apply Is_true_eq_true.
Qed.

Lemma check_all_member {A} (f : A → result unit) l x : check_all f l = Ok tt → x ∈ l → f x = Ok tt.
Proof. rewrite check_all_Ok, Forall_forall. auto. Qed.

Lemma check_container_Ok volumes seen seen' c :
  check_container (list_to_set volumes) seen c = Ok seen' ↔
  container_ok volumes c ∧ NoDup (port_names [c]) ∧ (∀ n, n ∈ port_names [c] → n ∉ seen)
  ∧ seen' = list_to_set (port_names [c]) ∪ seen.
Proof.
  unfold check_container, container_ok, port_names. simpl. rewrite app_nil_r.
  rewrite bind_Ok.
  assert (Hrp : match c_RestartPolicy c with
                | Some policy => bool_decide (policy ≠ ContainerRestartPolicyAlways)
                | None => false
                end = false ↔ c_RestartPolicy c = None ∨ c_RestartPolicy c = Some ContainerRestartPolicyAlways).
  { destruct (c_RestartPolicy c) as [x|]; [|naive_solver]. rewrite bool_decide_eq_false.
    destruct (decide (x = ContainerRestartPolicyAlways)); naive_solver. }
  set (declared := list_to_set volumes : gset string).
  assert (Hdecl : ∀ n, n ∈ declared ↔ n ∈ volumes) by (intros; apply elem_of_list_to_set). clearbody declared.
  split.
  - intros (u & Hr%err_if_Ok & Hrest). apply Hrp in Hr. inv_ok.
    match goal with Hf : foldM _ _ _ = Ok _ |- _ => apply check_container_ports_Ok in Hf as (P1 & P2 & P3 & ->) end.
    match goal with Hf : validateContainerProbePorts _ = Ok _ |- _ => apply validateContainerProbePorts_Ok in Hf end.
    split_and!; try done; 
      [by apply dec_stable|intros m Hm|intros m Hm];
      (eapply check_all_member in Hm; [|eassumption]; simpl in Hm; inv_ok; apply Hdecl; by apply dec_stable).
  - intros ((Hr & Hn & Hm & Hd & Hp & Hprobes) & P2 & P3 & ->). exists tt. split; [by apply err_if_Ok, Hrp|].
    rewrite Hn. simpl.
    rewrite (proj2 (check_all_Ok _ (c_VolumeMounts c))); [simpl|].
    2:{ apply Forall_forall. intros m Hin. apply err_if_Ok, bool_decide_eq_false_2. rewrite Hdecl. firstorder. }
    rewrite (proj2 (check_all_Ok _ (c_VolumeDevices c))); [simpl|].
    2:{ apply Forall_forall. intros m Hin. apply err_if_Ok, bool_decide_eq_false_2. rewrite Hdecl. firstorder. }
    rewrite (proj2 (check_container_ports_Ok c seen _ (c_Ports c)) (conj Hp (conj P2 (conj P3 eq_refl)))). simpl.
    by rewrite (proj2 (validateContainerProbePorts_Ok c) Hprobes).
Qed.

Lemma port_names_cons c l : port_names (c :: l) = port_names [c] ++ port_names l.
Proof. unfold port_names. simpl. by rewrite app_nil_r, fmap_app, filter_app. Qed.

Lemma check_containers_Ok volumes seen l :
  (∃ seen', foldM (check_container (list_to_set volumes)) seen l = Ok seen') ↔
  (∀ c, c ∈ l → container_ok volumes c) ∧ NoDup (port_names l) ∧ (∀ n, n ∈ port_names l → n ∉ seen).
Proof.
  revert seen. induction l as [|c l IH]; intros seen; simpl.
  { split; [intros _; split_and!; [set_solver|constructor|intros n Hn; by apply elem_of_nil in Hn]|eauto]. }
  rewrite port_names_cons, NoDup_app. pose proof (check_container_Ok volumes seen) as Hc.
  destruct (check_container _ seen c) as [seen'|] eqn:E; simpl.
  - apply Hc in E as (C1 & C2 & C3 & ->). rewrite IH. clear IH Hc. split.
    + intros (F1 & F2 & F3). split_and!; [|done| |done|].
      * intros x [->|Hx]%elem_of_cons; auto.
      * intros n Hn Hn'. apply (F3 n Hn'), elem_of_union_l. by apply elem_of_list_to_set.
      * intros n [Hn|Hn]%elem_of_app; [auto|]. specialize (F3 n Hn). set_solver.
    + intros (F1 & (F2 & F4 & F5) & F3). split_and!; [|done|].
      * intros x Hx. apply F1. by right.
      * intros n Hn. rewrite not_elem_of_union, elem_of_list_to_set. split.
        -- intros Hn'. by apply (F4 n).
        -- apply F3, elem_of_app. by right.
  - split; [by intros []|]. intros (F1 & (F2 & _ & _) & F3). exfalso.
    enough (Hok : ∃ s, check_container (list_to_set volumes) seen c = Ok s) by (destruct Hok; congruence).
    eexists. apply Hc. split_and!; [apply F1; left|done| |done]. intros n Hn. apply F3, elem_of_app. by left.
Qed.

(** One group of containers: [seen] holds the names found before. *)
Lemma check_container_names_Ok d kind (seen : gmap string string) l :
  (∃ seen', check_container_names d kind seen l = Ok seen' ∧ dom seen' = dom seen ∪ list_to_set (c_Name <$> l)) ∨
  (∃ e, check_container_names d kind seen l = Err e)
  ∧ ¬ (NoDup (c_Name <$> l) ∧ (∀ c, c ∈ l → c_Name c ∉ dom seen)
       ∧ (kind = "regular" → get (pt_Labels (d_Template d)) labelComponent = kind_string KindDataplane →
          ∀ c, c ∈ l → isManagedNativeContainer (c_Name c) = false)).
Proof.
  revert seen. induction l as [|c l IH]; intros seen; simpl.
  { left. exists seen. split; [done|]. set_solver. }
  unfold check_container_names in *. simpl.
  destruct (_ && isManagedNativeContainer (c_Name c)) eqn:Hm; simpl.
  { right. split; [eauto|]. intros (_ & _ & Hk). inv_ok. rewrite Hk in * by (done || left). done. }
  destruct (seen !! c_Name c) as [previous|] eqn:Hs; simpl.
  { right. split; [eauto|]. intros (_ & Hd & _). apply (Hd c); [left|]. by eapply elem_of_dom_2. }
  destruct (IH (<[c_Name c := kind]> seen)) as [(seen' & E & Hdom)|[[e E] Hn]].
  - left. exists seen'. split; [done|]. rewrite Hdom, dom_insert_L. set_solver.
  - right. split; [by exists e|]. intros ([Hc Hl]%NoDup_cons & Hd & Hk). apply Hn. split_and!; [done| |].
    + intros x Hx. rewrite dom_insert_L, not_elem_of_union, not_elem_of_singleton. split; [|apply Hd; by right].
      intros Heq. apply Hc. rewrite <-Heq. by apply list_elem_of_fmap_2.
    + intros -> Hlab x Hx. apply Hk; [done..|by right].
Qed.

Lemma check_container_names_inv d kind (seen seen' : gmap string string) l :
  check_container_names d kind seen l = Ok seen' →
  NoDup (c_Name <$> l) ∧ (∀ c, c ∈ l → c_Name c ∉ dom seen) ∧ dom seen' = dom seen ∪ list_to_set (c_Name <$> l)
  ∧ (kind = "regular" → get (pt_Labels (d_Template d)) labelComponent = kind_string KindDataplane →
     ∀ c, c ∈ l → isManagedNativeContainer (c_Name c) = false).
Proof.
  revert seen. unfold check_container_names. induction l as [|c l IH]; intros seen; simpl.
  { intros [= <-]. split_and!; [constructor|set_solver|set_solver|set_solver]. }
  intros E. apply bind_Ok in E as (s & E & Hrest).
  destruct (_ && isManagedNativeContainer (c_Name c)) eqn:Hm; [done|]. simpl in E.
  destruct (seen !! c_Name c) as [previous|] eqn:Hs; [done|]. injection E as <-.
  destruct (IH _ Hrest) as (I1 & I2 & I3 & I4). rewrite dom_insert_L in I2, I3. split_and!.
  - apply NoDup_cons. split; [|done]. intros (y & Hy & Hin)%list_elem_of_fmap. apply (I2 y Hin).
    apply elem_of_union_l, elem_of_singleton. by symmetry.
  - intros x [->|Hx]%elem_of_cons; [by apply not_elem_of_dom|]. specialize (I2 x Hx). set_solver.
  - rewrite I3. set_solver.
  - intros -> Hlab x [->|Hx]%elem_of_cons; [|by apply I4]. rewrite !bool_decide_true in Hm by done. done.
Qed.

Lemma ValidatePodContainerNames_Ok d : ValidatePodContainerNames d = Ok tt ↔ names_ok d.
Proof.
  unfold ValidatePodContainerNames, names_ok, pod_containers. rewrite fmap_app, NoDup_app.
  destruct (check_container_names_Ok d "regular" ∅ (ps_Containers (d_Pod d))) as [(s & E & _)|[[e E] Hn]]; rewrite E; simpl.
  2:{ split; [done|]. intros [(H1 & _) H2]. destruct Hn. split_and!; [done|set_solver|auto]. }
  apply check_container_names_inv in E as (N1 & _ & Hdom & N2). rewrite dom_empty_L, union_empty_l_L in Hdom.
  destruct (check_container_names_Ok d "init" s (ps_InitContainers (d_Pod d))) as [(s' & E & _)|[[e E] Hn]];
    rewrite E; simpl.
  - apply check_container_names_inv in E as (I1 & I2 & _). split; [|done]. intros _. split_and!; [done| |done|auto].
    intros n Hn (c & -> & Hc)%list_elem_of_fmap. apply (I2 c Hc). rewrite Hdom. by apply elem_of_list_to_set.
  - split; [done|]. intros [(_ & H2 & H3) _]. destruct Hn. split_and!; [done| |done].
    intros c Hc. rewrite Hdom, elem_of_list_to_set. intros Hin. apply (H2 _ Hin). by apply list_elem_of_fmap_2.
Qed.

Lemma check_resource_refs_Ok pod : check_resource_refs pod = Ok tt ↔ refs_ok pod.
Proof.
  unfold check_resource_refs, refs_ok. set (names := list_to_set (c_Name <$> pod_containers pod) : gset string).
  assert (Hnames : ∀ n, n ∈ names ↔ n ∈ c_Name <$> pod_containers pod) by (intros; apply elem_of_list_to_set).
  clearbody names.
  rewrite (last_error_Ok (λ r, rf_ContainerName r = "" ∨ rf_ContainerName r ∈ names)).
  - rewrite Forall_forall. by setoid_rewrite Hnames.
  - intros acc r [Hr|Hr].
    + rewrite bool_decide_false; [done|]. rewrite Hr. tauto.
    + rewrite (bool_decide_false (rf_ContainerName r ∉ names)), andb_false_r by tauto. done.
  - intros acc r Hr. rewrite !bool_decide_true by tauto. simpl. eauto.
Qed.

Lemma ValidateComposedPod_Ok d : ValidateComposedPod d = Ok tt ↔ well_formed_pod d.
Proof.
  unfold ValidateComposedPod, well_formed_pod.
  rewrite <-ValidatePrivatePodNetwork_spec, <-ValidatePodContainerNames_Ok, <-validateConcurrentPodPorts_spec,
    <-check_resource_refs_Ok.
  pose proof (check_volumes_Ok (ps_Volumes (d_Pod d))) as Hvol.
  pose proof (check_containers_Ok (v_Name <$> ps_Volumes (d_Pod d)) ∅ (pod_containers (d_Pod d))) as Hcon.
  split.
  - intros E. apply bind_Ok in E as ([] & E1 & E). apply bind_Ok in E as ([] & E2 & E).
    apply bind_Ok in E as ([] & E3 & E). apply bind_Ok in E as ([] & E4 & E).
    apply bind_Ok in E as (vols & E5 & E). apply bind_Ok in E as (ports & E6 & E).
    apply bind_Ok in E as ([] & E7 & E). apply Hvol in E5 as [Hv ->].
    apply err_if_Ok, bool_decide_eq_false_1, dec_stable in E3.
    apply err_if_Ok, bool_decide_eq_false_1 in E4.
    destruct Hcon as [Hcon _]. destruct (Hcon (ex_intro _ ports E6)) as (C1 & C2 & _).
    destruct Hv. split_and!; done.
  - intros (E1 & E2 & E3 & E4 & Hv & [C1 C2] & E7 & E8). rewrite E1, E2, E3. simpl.
    rewrite bool_decide_false by done. simpl. rewrite (proj2 (Hvol _) (conj Hv eq_refl)). simpl.
    destruct (proj2 Hcon) as [ports ->]; [split_and!; [done..|set_solver]|]. simpl. by rewrite E7.
Qed.
End wellformed.

(** C11: the validation of a composed Pod accepts a Deployment exactly when it is well
    formed.  No host networking, and no host port on any container.  A valid Deployment
    name.  At least one application container; container names valid and unique in the
    whole Pod and, in a dataplane Pod, no application container named like a managed
    sidecar; every container's restartPolicy absent or Always.  Volume names valid and
    unique, and every volume mount and device of a container backed by a volume.  Port
    numbers in range, protocols empty, TCP, UDP or SCTP, port names valid and unique in the
    Pod.  Every probe and lifecycle-hook port either a number from 1 to 65535 or the
    non-empty name of a TCP port of its own container, every gRPC probe port from 1 to
    65535; a number need not be declared.  Every resource field reference without a
    container name or naming a container of the Pod.  And no two concurrent containers of
    different names on one port and protocol. *)
Theorem pod_validation_exact `{K8sValidation} (d : Deployment) :
  ValidateComposedPod d = Ok tt ↔ well_formed_pod d.
Proof. apply ValidateComposedPod_Ok. Qed.
