(* ===== verification/RenderSpec.v ===== *)
(** * What the rendering path produces

    The identity and shape of every Deployment [RenderDeployments] returns,
    whatever the patches of the palette do. *)

From S2P Require Import Prelude GoLib Sha256 K8s Api Resolve Labels Listeners Builder Service Render.
From S2P Require Import LabelsSpec PodsSpec Instances.
#[local] Open Scope Z_scope.

(** ** Steps that keep the identity of a Deployment *)

Lemma same_upd_pod f d :
  ps_NodeName (f (d_Pod d)) = ps_NodeName (d_Pod d) →
  ps_NodeSelector (f (d_Pod d)) = ps_NodeSelector (d_Pod d) → same_identity d (upd_pod f d).
Proof. intros. by unfold same_identity. Qed.

Lemma same_upd_container name f d : same_identity d (upd_container name f d).
Proof. by apply same_upd_pod. Qed.
#[local] Hint Resolve same_upd_container : yanet.

Lemma same_listeners d c composed d' :
  configureComponentListeners d c composed = Ok d' → same_identity d d'.
Proof.
  unfold configureComponentListeners. destruct (ListenerPorts c); [intros [= <-]; reflexivity|].
  intros E. inv_ok. auto with yanet.
Qed.

Lemma foldM_same {A} (f : Deployment → A → result Deployment) l d d' :
  (∀ d x d', f d x = Ok d' → same_identity d d') → foldM f d l = Ok d' → same_identity d d'.
Proof.
  intros Hf. apply (foldM_ind (λ _ d', same_identity d d')); [reflexivity|].
  intros k x s s' Hs E. etransitivity; [done|eauto].
Qed.

Lemma same_ConfigureListeners d c d' : ConfigureListeners d c = Ok d' → same_identity d d'.
Proof.
  unfold ConfigureListeners. intros (d1 & E1 & E2)%bind_Ok. etransitivity; [by eapply same_listeners|].
  eapply foldM_same; [|done]. intros x s x' E. unfold configure_sidecar_listeners in E. inv_ok.
  destruct (rc_Enabled s); [by eapply same_listeners|]. by inv_ok.
Qed.

Lemma same_runtime_container d ctx c composed d' :
  configureRuntimeContainer d ctx c composed = Ok d' → same_identity d d'.
Proof.
  unfold configureRuntimeContainer. intros ([n s] & _ & E)%bind_Ok.
  destruct (ConfigSource_IsZero s); [by inv_ok|]. apply bind_Ok in E as (k & _ & E).
  destruct (negb _); [by inv_ok|]. inv_ok. auto with yanet.
Qed.

Lemma same_ConfigureRuntimeNetwork d ctx c d' :
  ConfigureRuntimeNetwork d ctx c = Ok d' → same_identity d d'.
Proof.
  unfold ConfigureRuntimeNetwork. intros (d1 & E1 & E2)%bind_Ok. transitivity d1.
  - case_bool_decide; [by eapply same_runtime_container|by inv_ok].
  - eapply foldM_same; [|done]. intros x s x' E. simpl in E.
    destruct (rc_Enabled s); [by eapply same_runtime_container|by inv_ok].
Qed.

Section rendering.
Context `{PatchLib, QuantityLib, K8sValidation, MapOrder}.

Lemma same_networks d c d' : configureDataplaneNetworks d c = Ok d' → same_identity d d'.
Proof.
  unfold configureDataplaneNetworks. destruct (rc_Networks c) as [declared|]; [|by intros [= <-]].
  intros E. inv_ok. set (networks := default_namespace (d_Namespace d) <$> declared) in *.
  destruct networks as [|n ns]; [by inv_ok|]. inv_ok.
  assert (Hr : ∀ counts p, ps_NodeName (reserve_devices counts p) = ps_NodeName p
                           ∧ ps_NodeSelector (reserve_devices counts p) = ps_NodeSelector p).
  { intros counts p. unfold reserve_devices. by destruct (ps_Containers p). }
  destruct d as [k v m s st], s as [r sel str [l a p o] o'].
  unfold same_identity. simpl. destruct (Hr (resource_counts (n :: ns)) p). split_and!; done.
Qed.

(** Composition adds the membership label of the sidecar to the Pod, nothing else. *)
Definition composed_from (d d' : Deployment) : Prop :=
  d_Name d' = d_Name d ∧ d_Namespace d' = d_Namespace d
  ∧ om_OwnerReferences (d_Meta d') = om_OwnerReferences (d_Meta d)
  ∧ ds_Selector (d_Spec d') = ds_Selector (d_Spec d)
  ∧ ds_Strategy (d_Spec d') = ds_Strategy (d_Spec d)
  ∧ ps_NodeName (d_Pod d') = ps_NodeName (d_Pod d)
  ∧ ps_NodeSelector (d_Pod d') = ps_NodeSelector (d_Pod d)
  ∧ d_Labels d' = d_Labels d
  ∧ (∀ k, HasPrefix k operatorMembershipPrefix = false →
       pt_Labels (d_Template d') !! k = pt_Labels (d_Template d) !! k).

Lemma composed_refl d : composed_from d d.
Proof. unfold composed_from. by split_and!. Qed.

Lemma composed_trans d1 d2 d3 : composed_from d1 d2 → composed_from d2 d3 → composed_from d1 d3.
Proof.
  intros (A1 & A2 & A3 & A4 & A5 & A6 & A7 & A8 & A9) (B1 & B2 & B3 & B4 & B5 & B6 & B7 & B8 & B9).
  unfold composed_from. split_and!; try congruence. intros k Hk. by rewrite B9, A9.
Qed.

Lemma composed_merge d role pod : composed_from d (merge_sidecar d role pod).
Proof.
  unfold composed_from. split_and!; try done. intros k Hk. simpl. apply lookup_insert_ne. intros <-.
  unfold OperatorMembershipLabel in Hk. by rewrite HasPrefix_app in Hk.
Qed.

Lemma composed_sidecar ctx d s registry d' : composeSidecar ctx d s registry = Ok d' → composed_from d d'.
Proof.
  unfold composeSidecar. intros E. do 8 (apply bind_Ok in E as (? & _ & E)).
  destruct (negb _); injection E as <-; [apply composed_refl|apply composed_merge].
Qed.

Lemma composed_sidecars ctx d sidecars registry d' :
  foldM (λ d s, wrap_err (λ e, Errorf "compose sidecar %q: %w" [AStr (rc_Name s); AErr e])
                  (composeSidecar ctx d s registry)) d sidecars = Ok d' → composed_from d d'.
Proof.
  apply (foldM_ind (λ _ d', composed_from d d')); [apply composed_refl|].
  intros k x s s' Hs E%wrap_err_Ok. eapply composed_trans; [done|]. by eapply composed_sidecar.
Qed.

(** A rendered Deployment has the identity of what composition built. *)
Lemma render_one_base ctx c registry d d' :
  render_one ctx c registry d = Ok d' → ∃ base,
    foldM (λ d s, wrap_err (λ e, Errorf "compose sidecar %q: %w" [AStr (rc_Name s); AErr e])
                    (composeSidecar ctx d s registry)) d (rc_Sidecars c) = Ok base
    ∧ same_identity base d'.
Proof.
  unfold render_one. intros (base & Hbase & E)%bind_Ok. exists base. split; [done|].
  apply bind_Ok in E as (p1 & _ & E). apply bind_Ok in E as (p2 & _ & E). apply bind_Ok in E as (u & _ & E).
  apply bind_Ok in E as (d3 & E3 & E). apply bind_Ok in E as (u2 & _ & E).
  apply bind_Ok in E as (d4 & E4%same_ConfigureListeners & E).
  apply bind_Ok in E as (d5 & E5%same_ConfigureRuntimeNetwork & E).
  apply bind_Ok in E as (u3 & _ & E). apply bind_Ok in E as (u4 & _ & E). injection E as <-.
  destruct (restore_fields base p2) as [Hr _]. etransitivity; [exact Hr|]. etransitivity; [|exact E5].
  etransitivity; [|exact E4]. case_bool_decide; [by eapply same_networks|by injection E3 as <-].
Qed.

Lemma render_one_identity ctx c registry d d' :
  render_one ctx c registry d = Ok d' → ∃ base, composed_from d base ∧ same_identity base d'.
Proof. intros (base & Hbase%composed_sidecars & Hs)%render_one_base. eauto. Qed.

Lemma render_one_valid ctx c registry d d' : render_one ctx c registry d = Ok d' → well_formed_pod d'.
Proof.
  unfold render_one. intros E. do 8 (apply bind_Ok in E as (? & _ & E)).
  apply bind_Ok in E as ([] & Ev%ValidateComposedPod_Ok & E). apply bind_Ok in E as (? & _ & E).
  by injection E as <-.
Qed.
End rendering.

(** ** The identity the operator gives a workload *)

Definition identity_labels (ctx : BuildContext) (c : ResolvedComponent) (numa : option Z) : gmap string string :=
  match numa with
  | Some i => <[labelNuma := sprint_d i]> (baseLabels ctx c)
  | None => baseLabels ctx c
  end.

(** The Deployment of one instance of component [c]: its name, owner, placement
    and strategy, and a selector that its own Pods match. *)
Definition instance_of (ctx : BuildContext) (c : ResolvedComponent) (numa : option Z) (d : Deployment) : Prop :=
  d_Name d = match numa with Some i => numaDeploymentName ctx c i | None => singleDeploymentName ctx c end
  ∧ d_Namespace d = bx_Namespace ctx
  ∧ om_OwnerReferences (d_Meta d) = [bx_OwnerRef ctx]
  ∧ ds_Selector (d_Spec d) = Some (MkLabelSelector (identity_labels ctx c numa) "")
  ∧ ds_Strategy (d_Spec d) = MkStrategy "Recreate" ""
  ∧ ps_NodeName (d_Pod d) = ""
  ∧ ps_NodeSelector (d_Pod d) = nodeSelector ctx
  ∧ identity_labels ctx c numa ⊆ d_Labels d
  ∧ identity_labels ctx c numa ⊆ pt_Labels (d_Template d)
  ∧ (bx_BoxType ctx ≠ "" → pt_Labels (d_Template d) !! labelBoxType = Some (bx_BoxType ctx)).

(** The instances of a component, in the order they are built. *)
Definition instances (c : ResolvedComponent) : list (option Z) :=
  if bool_decide (rc_Kind c = KindControlplane) then Some <$> enabled_numa c else [None].

Lemma identity_keys ctx c numa k :
  is_Some (identity_labels ctx c numa !! k) → k ∈ workloadIdentityLabels ∧ k ≠ labelBoxType.
Proof.
  unfold identity_labels, baseLabels, workloadIdentityLabels. intros [v Hv].
  assert (Hk : k ∈ [labelNuma; labelNode; "app"; labelComponent; labelYanet]).
  { destruct numa, (bool_decide (bx_NodeName ctx ≠ "")); rewrite ?lookup_insert_Some, lookup_empty in Hv; set_solver. }
  repeat (apply elem_of_cons in Hk as [->|Hk]); [split; [set_solver|done]..|by apply elem_of_nil in Hk].
Qed.

Lemma identity_reserved k :
  k ∈ workloadIdentityLabels → reserved_label k = true ∧ HasPrefix k operatorMembershipPrefix = false.
Proof.
  unfold workloadIdentityLabels. intros Hk. repeat (apply elem_of_cons in Hk as [->|Hk]);
    [by vm_compute..|by apply elem_of_nil in Hk].
Qed.

Lemma instance_transport ctx c numa d d' :
  (d_Name d' = d_Name d ∧ d_Namespace d' = d_Namespace d
   ∧ om_OwnerReferences (d_Meta d') = om_OwnerReferences (d_Meta d)
   ∧ ds_Selector (d_Spec d') = ds_Selector (d_Spec d) ∧ ds_Strategy (d_Spec d') = ds_Strategy (d_Spec d)
   ∧ ps_NodeName (d_Pod d') = ps_NodeName (d_Pod d) ∧ ps_NodeSelector (d_Pod d') = ps_NodeSelector (d_Pod d)) →
  (∀ k, k ∈ workloadIdentityLabels → d_Labels d' !! k = d_Labels d !! k) →
  (∀ k, k ∈ workloadIdentityLabels → pt_Labels (d_Template d') !! k = pt_Labels (d_Template d) !! k) →
  instance_of ctx c numa d → instance_of ctx c numa d'.
Proof.
  intros (A1 & A2 & A3 & A4 & A5 & A6 & A7) A8 A9 (B1 & B2 & B3 & B4 & B5 & B6 & B7 & B8 & B9 & B10).
  unfold instance_of. split_and!; try congruence.
  - apply map_subseteq_spec. intros k v Hk. rewrite A8 by (eapply identity_keys; eauto). by eapply lookup_weaken.
  - apply map_subseteq_spec. intros k v Hk. rewrite A9 by (eapply identity_keys; eauto). by eapply lookup_weaken.
  - intros Hb. rewrite A9; [auto|]. unfold workloadIdentityLabels. set_solver.
Qed.

Lemma instance_same ctx c numa d d' : same_identity d d' → instance_of ctx c numa d → instance_of ctx c numa d'.
Proof.
  intros (A1 & A2 & A3 & A4 & A5 & A6 & A7 & A8 & A9). apply instance_transport; [done| |];
    intros k [Hk _]%identity_reserved; auto.
Qed.

Lemma instance_composed ctx c numa d d' : composed_from d d' → instance_of ctx c numa d → instance_of ctx c numa d'.
Proof.
  intros (A1 & A2 & A3 & A4 & A5 & A6 & A7 & A8 & A9). apply instance_transport; [done| |];
    intros k [_ Hk]%identity_reserved; [congruence|auto].
Qed.

Section identity.
Context `{QuantityLib, MapOrder}.

Lemma workloadLabels_spec ctx m :
  (∀ k, k ≠ labelBoxType → workloadLabels ctx m !! k = m !! k)
  ∧ (bx_BoxType ctx ≠ "" → workloadLabels ctx m !! labelBoxType = Some (bx_BoxType ctx)).
Proof.
  unfold workloadLabels. rewrite copyMap_id. case_bool_decide as Hb; [|done]. split.
  - intros k Hk. by apply lookup_insert_ne.
  - intros _. apply lookup_insert_eq.
Qed.

Lemma instance_skeleton ctx c annotations pod :
  ps_NodeName pod = "" → ps_NodeSelector pod = nodeSelector ctx →
  instance_of ctx c None (deployment_skeleton ctx c annotations pod).
Proof.
  intros Hn Hs. destruct (workloadLabels_spec ctx (baseLabels ctx c)) as [Hw Hb].
  assert (Hsub : baseLabels ctx c ⊆ workloadLabels ctx (baseLabels ctx c)).
  { apply map_subseteq_spec. intros k v Hk. rewrite Hw; [done|]. eapply (identity_keys ctx c None). eauto. }
  unfold instance_of. simpl. rewrite !copyMap_id. split_and!; done.
Qed.

Lemma instance_single ctx c : instance_of ctx c None (buildSingle ctx c).
Proof.
  unfold buildSingle. destruct (buildConfigVolumes ctx c) as [[[vols mounts] cm] args]. by apply instance_skeleton.
Qed.

Lemma instance_operator ctx c : instance_of ctx c None (buildOperator ctx c).
Proof. unfold buildOperator. destruct (foldl _ _ _) as [vols cs]. by apply instance_skeleton. Qed.

Lemma instance_numa ctx c i : instance_of ctx c (Some i) (numa_instance ctx c i).
Proof.
  destruct (instance_single ctx c) as (B1 & B2 & B3 & B4 & B5 & B6 & B7 & B8 & B9 & B10).
  unfold numa_instance. unfold instance_of. set (b := buildSingle ctx c) in *. clearbody b.
  destruct b as [k v m [r sel str [l a p o] o'] st]. simpl in *. subst. simpl. split_and!; try done.
  - by apply insert_mono.
  - by apply insert_mono.
  - intros Hb. rewrite lookup_insert_ne by done. auto.
Qed.

Lemma resolved_hugepages ctx c c' :
  resolve_build_hugepages ctx c = Ok c' → ∃ h, c' = set_rc_Hugepages h c.
Proof.
  unfold resolve_build_hugepages. case_bool_decide; [destruct (negb (rc_Enabled c) && _)|]; intros Hc; inv_ok; eauto.
  exists (rc_Hugepages c'). by destruct c'.
Qed.

Lemma built_instances ctx c ds :
  BuildDeployments ctx c = Ok ds → Forall2 (instance_of ctx c) (instances c) ds.
Proof.
  unfold BuildDeployments. intros (c' & Hc & E)%bind_Ok.
  apply resolved_hugepages in Hc as [h ->]. apply bind_Ok in E as (? & _ & E). apply bind_Ok in E as (? & _ & E).
  apply mapR_Ok in E.
  assert (Hinst : ∀ numa d, instance_of ctx (set_rc_Hugepages h c) numa d → instance_of ctx c numa d) by done.
  assert (Hbase : Forall2 (instance_of ctx c) (instances c)
    match rc_Kind (set_rc_Hugepages h c) with
    | KindControlplane => buildControlplaneFanout ctx (set_rc_Hugepages h c)
    | KindOperator => [buildOperator ctx (set_rc_Hugepages h c)]
    | _ => [buildSingle ctx (set_rc_Hugepages h c)]
    end).
  { unfold instances. change (rc_Kind (set_rc_Hugepages h c)) with (rc_Kind c). destruct (rc_Kind c) eqn:Hk; simpl;
      try (apply Forall2_cons; split; [apply Hinst; first [apply instance_single|apply instance_operator]|constructor]).
    unfold buildControlplaneFanout. change (enabled_numa (set_rc_Hugepages h c)) with (enabled_numa c).
    apply Forall2_fmap. apply Forall_Forall2_diag, Forall_forall. intros i _. apply Hinst, instance_numa. }
  eapply Forall2_trans; [|exact Hbase|exact E].
  intros numa d d' Hd Hd'%wrap_err_Ok%same_listeners. by eapply instance_same.
Qed.
End identity.

Definition instance_name (ctx : BuildContext) (c : ResolvedComponent) (numa : option Z) : string :=
  match numa with Some i => numaDeploymentName ctx c i | None => singleDeploymentName ctx c end.

Lemma instance_names_of ctx c l ds : Forall2 (instance_of ctx c) l ds → d_Name <$> ds = instance_name ctx c <$> l.
Proof. induction 1 as [|numa d l ds [Hd _] _ IH]; [done|]. rewrite !fmap_cons, IH. by f_equal. Qed.

Lemma numaDeploymentName_inj ctx c i j : numaDeploymentName ctx c i = numaDeploymentName ctx c j → i = j.
Proof.
  unfold numaDeploymentName, sprint_d. case_bool_decide; rewrite !app_str_assoc; intros E;
    apply app_str_inj_l in E; by apply (inj pretty) in E.
Qed.

Lemma instance_names_distinct ctx c : NoDup (instance_name ctx c <$> instances c).
Proof.
  unfold instances. case_bool_decide; [|apply NoDup_singleton].
  rewrite <-list_fmap_compose. apply NoDup_fmap_2_strong; [|apply NoDup_filter, NoDup_seqZ].
  intros i j _ _. apply numaDeploymentName_inj.
Qed.

(** Rendering keeps the instances that were built. *)
Lemma rendered_instances `{PatchLib, QuantityLib, K8sValidation, MapOrder}
    (ctx : BuildContext) (c : ResolvedComponent) (registry : gmap string NamedPatch) (ds : list Deployment) :
  RenderDeployments ctx c registry = Ok ds → rc_Kind c ≠ KindSidecar → Forall2 (instance_of ctx c) (instances c) ds.
Proof.
  unfold RenderDeployments, IsColocated. intros E Hk. rewrite bool_decide_false in E by done.
  apply bind_Ok in E as (built & Hb%built_instances & E%mapR_Ok).
  eapply Forall2_trans; [|exact Hb|exact E]. intros numa d d' Hd (base & Hc & Hs)%render_one_identity.
  eapply instance_same; [done|]. by eapply instance_composed.
Qed.

(** C8: whatever patches, overrides and sidecars apply, the Deployments rendered for
    a component are exactly its instances (one per enabled NUMA node for the
    controlplane, one otherwise) under distinct names, each with the name, namespace, controller owner,
    Recreate strategy and node selector the operator computed, without a pinned
    node name, with a selector that its own Pod template satisfies, and carrying the
    identity labels by which the reconciler finds it again. *)
Theorem rendered_identity `{PatchLib, QuantityLib, K8sValidation, MapOrder}
    (ctx : BuildContext) (c : ResolvedComponent) (registry : gmap string NamedPatch) (ds : list Deployment) :
  RenderDeployments ctx c registry = Ok ds → rc_Kind c ≠ KindSidecar →
  Forall2 (instance_of ctx c) (instances c) ds ∧ NoDup (d_Name <$> ds).
Proof.
  intros E Hk. pose proof (rendered_instances _ _ _ _ E Hk) as Hds.
  split; [done|]. rewrite (instance_names_of _ _ _ _ Hds). apply instance_names_distinct.
Qed.

(** C32: every Deployment the rendering path returns is well formed: what a patch
    breaks is reported as an error before anything is written, never rendered. *)
Theorem rendered_pods_are_well_formed `{PatchLib, QuantityLib, K8sValidation, MapOrder}
    (ctx : BuildContext) (c : ResolvedComponent) (registry : gmap string NamedPatch) (ds : list Deployment) :
  RenderDeployments ctx c registry = Ok ds → Forall well_formed_pod ds.
Proof.
  unfold RenderDeployments. destruct (IsColocated c); [intros [= <-]; constructor|].
  intros (built & _ & E%mapR_Ok)%bind_Ok. apply Forall_forall. intros d' Hd'.
  apply list_elem_of_lookup in Hd' as [i Hi]. destruct (Forall2_lookup_r _ _ _ _ _ E Hi) as (d & _ & Hd).
  by eapply render_one_valid.
Qed.

(** ** Services reach the Pods they select *)

(** The ports of the containers, by name; runtime configuration keeps them. *)
Definition port_view (d : Deployment) : list (string * list ContainerPort) :=
  (λ c, (c_Name c, c_Ports c)) <$> pod_containers (d_Pod d).

Lemma port_view_upd name f d :
  (∀ c, c_Name (f c) = c_Name c ∧ c_Ports (f c) = c_Ports c) → port_view (upd_container name f d) = port_view d.
Proof.
  intros Hf. unfold port_view, pod_containers. simpl. rewrite !fmap_app, <-!list_fmap_compose.
  f_equal; apply list_fmap_ext; intros i x _; simpl; case_bool_decide; [|done| |done];
    destruct (Hf x) as [-> ->]; done.
Qed.

Lemma port_view_runtime d ctx c composed d' :
  configureRuntimeContainer d ctx c composed = Ok d' → port_view d' = port_view d.
Proof.
  unfold configureRuntimeContainer. intros ([n s] & _ & E)%bind_Ok.
  destruct (ConfigSource_IsZero s); [by inv_ok|]. apply bind_Ok in E as (k & _ & E).
  destruct (negb _); [by inv_ok|]. inv_ok. by apply port_view_upd.
Qed.

Lemma port_view_ConfigureRuntimeNetwork d ctx c d' :
  ConfigureRuntimeNetwork d ctx c = Ok d' → port_view d' = port_view d.
Proof.
  unfold ConfigureRuntimeNetwork. intros (d1 & E1 & E2)%bind_Ok. transitivity (port_view d1).
  - revert E2. apply (foldM_ind (λ _ d', port_view d' = port_view d1)); [done|].
    intros k s x x' Hx E. destruct (rc_Enabled s); [|by inv_ok]. by rewrite <-Hx, (port_view_runtime _ _ _ _ _ E).
  - case_bool_decide; [by eapply port_view_runtime|by inv_ok].
Qed.

Lemma findContainer_elem d name c :
  findContainer d name = Ok c → c ∈ pod_containers (d_Pod d) ∧ c_Name c = name.
Proof.
  unfold findContainer. intros E.
  assert (Hf : c ∈ filter (λ c, c_Name c = name) (pod_containers (d_Pod d))).
  { destruct (filter _ _) as [|x [|]]; [done| |done]. injection E as ->. left. }
  apply list_elem_of_filter in Hf. tauto.
Qed.

Lemma findContainer_unique d name c x :
  findContainer d name = Ok c → x ∈ pod_containers (d_Pod d) → c_Name x = name → x = c.
Proof.
  unfold findContainer. intros E Hx Hn.
  assert (Hf : x ∈ filter (λ c, c_Name c = name) (pod_containers (d_Pod d))) by (by apply list_elem_of_filter).
  destruct (filter _ _) as [|y [|]]; [done| |done]. injection E as ->. by apply list_elem_of_singleton in Hf.
Qed.

(** The container a role listens in. *)
Definition listening_container (c : ResolvedComponent) (composed : bool) : string :=
  if composed then scopedOperatorName (rc_Name c) (ListenerContainerName c) else ListenerContainerName c.

(** The listeners of a role are ports of its container afterwards. *)
Lemma listeners_configured d c composed d' l :
  configureComponentListeners d c composed = Ok d' → l ∈ ListenerPorts c →
  ∃ pair ports, runtimePortPair c = Ok pair ∧ (listening_container c composed, ports) ∈ port_view d'
    ∧ listener_port pair l ∈ ports.
Proof.
  unfold configureComponentListeners. intros E Hl. destruct (ListenerPorts c) as [|l0 ls] eqn:El;
    [by apply elem_of_nil in Hl|]. rewrite <-El in *.
  apply bind_Ok in E as (k & [Hk Hname]%findContainer_elem & E). apply bind_Ok in E as (pair & Hp & E).
  apply bind_Ok in E as (u & _ & E). injection E as <-.
  match goal with |- context [upd_container ?n (set_c_Ports ?p) d] => exists pair, p end.
  split_and!; [done| |by apply elem_of_app; left; apply list_elem_of_fmap_2].
  unfold port_view, pod_containers. simpl. rewrite <-fmap_app. fold (pod_containers (d_Pod d)).
  rewrite <-list_fmap_compose. apply list_elem_of_fmap. exists k. split; [|done].
  simpl. rewrite bool_decide_true by done. simpl. by rewrite Hname.
Qed.

Section services.
Context `{PatchLib, QuantityLib, K8sValidation, MapOrder}.

Lemma render_one_ports ctx c registry d d' l :
  render_one ctx c registry d = Ok d' → rc_Sidecars c = [] → l ∈ ListenerPorts c →
  ∃ pair ports name, runtimePortPair c = Ok pair ∧ (name, ports) ∈ port_view d' ∧ listener_port pair l ∈ ports.
Proof.
  unfold render_one. intros E Hs Hl. rewrite Hs in E. do 6 (apply bind_Ok in E as (? & _ & E)).
  apply bind_Ok in E as (d4 & E4 & E). apply bind_Ok in E as (d5 & E5 & E). do 2 (apply bind_Ok in E as (? & _ & E)).
  injection E as <-. unfold ConfigureListeners in E4. apply bind_Ok in E4 as (d4' & E4 & Efold).
  rewrite Hs in Efold. injection Efold as ->.
  rewrite (port_view_ConfigureRuntimeNetwork _ _ _ _ E5).
  destruct (listeners_configured _ _ _ _ _ E4 Hl) as (pair & ports & ? & ? & ?). by exists pair, ports, (listening_container c false).
Qed.

Lemma built_numa_valid ctx c ds :
  BuildDeployments ctx c = Ok ds → rc_Kind c = KindControlplane → ValidateControlplaneNuma (effectiveNuma c) = Ok tt.
Proof.
  unfold BuildDeployments. intros (c' & [h ->]%resolved_hugepages & E)%bind_Ok Hk.
  apply bind_Ok in E as ([] & E & _). simpl in E. by rewrite bool_decide_true in E by done.
Qed.

Lemma instance_plan_built ctx c ds numa :
  BuildDeployments ctx c = Ok ds → rc_Kind c ≠ KindSidecar → ListenerPorts c ≠ [] → numa ∈ instances c →
  buildServicePlan ctx c numa (ListenerPorts c) ∈ BuildServices ctx c.
Proof.
  intros Hb Hk Hl Hn. unfold BuildServices, instances in *. destruct (ListenerPorts c) as [|l ls] eqn:El; [done|].
  rewrite <-El. case_bool_decide as Hc; case_bool_decide as Hc'; try done.
  - rewrite (built_numa_valid _ _ _ Hb Hc). apply list_elem_of_fmap in Hn as (i & -> & Hi).
    apply list_elem_of_fmap. exists i. split; [done|]. by apply list_elem_of_filter in Hi as [_ Hi].
  - apply list_elem_of_singleton in Hn as ->. left.
Qed.

Lemma instance_component ctx c numa d :
  instance_of ctx c numa d → pt_Labels (d_Template d) !! labelComponent = Some (rc_Name c).
Proof.
  intros (_ & _ & _ & _ & _ & _ & _ & _ & Hl & _). eapply lookup_weaken; [|exact Hl].
  unfold identity_labels, baseLabels. destruct numa, (bool_decide (bx_NodeName ctx ≠ "")); by vm_compute.
Qed.

Lemma instance_selected ctx c numa d :
  instance_of ctx c numa d → rc_Kind c ≠ KindSidecar → bx_BoxType ctx ≠ "" →
  pl_Selector (buildServicePlan ctx c numa (ListenerPorts c)) ⊆ pt_Labels (d_Template d).
Proof.
  intros Hinst Hk Hbox. pose proof (instance_component _ _ _ _ Hinst) as Hcomp.
  destruct Hinst as (_ & _ & _ & _ & _ & _ & _ & _ & Hl & Hb). unfold buildServicePlan, IsColocated.
  rewrite bool_decide_false by done. simpl.
  assert (Hnuma : ∀ i, numa = Some i → identity_labels ctx c numa !! labelNuma = Some (sprint_d i)).
  { intros i ->. apply lookup_insert_eq. }
  apply map_subseteq_spec. intros k v. destruct numa as [i|]; rewrite !lookup_insert_Some, lookup_empty;
    intros Hkv; repeat destruct Hkv as [[? ?]|[? Hkv]]; subst; try done;
    try (by apply Hb); eapply lookup_weaken; eauto.
Qed.

Lemma listener_number c pair l :
  rc_Kind c ≠ KindSidecar → runtimePortPair c = Ok pair → l ∈ ListenerPorts c →
  cp_ContainerPort (listener_port pair l) = lp_ServicePort l.
Proof.
  unfold runtimePortPair, IsColocated, ListenerPorts. intros Hk. rewrite !bool_decide_false with (P := rc_Kind c = KindSidecar) by done.
  intros [= <-]. case_bool_decide; [intros Hl; by apply elem_of_nil in Hl|].
  intros (n & -> & _)%list_elem_of_fmap. simpl. by case_bool_decide.
Qed.
End services.

(** C10: every Pod rendered for a role outside the dataplane is reachable through the
    shared Service planned for it: the plan of each instance is among the planned
    Services of the box, its selector matches the labels of the rendered Pod, and each
    of its ports targets by name a TCP port the Pod declares, with the same number. *)
Theorem services_reach_rendered_pods `{PatchLib, QuantityLib, K8sValidation, MapOrder}
    (ctx : BuildContext) (c : ResolvedComponent) (registry : gmap string NamedPatch) (ds : list Deployment) :
  RenderDeployments ctx c registry = Ok ds → rc_Kind c ≠ KindSidecar → rc_Sidecars c = [] →
  ListenerPorts c ≠ [] → bx_BoxType ctx ≠ "" →
  Forall2 (λ numa d,
      let plan := buildServicePlan ctx c numa (ListenerPorts c) in
      plan ∈ BuildServices ctx c
      ∧ pl_Selector plan ⊆ pt_Labels (d_Template d)
      ∧ ∀ p, p ∈ pl_Ports plan →
          ∃ k q, k ∈ pod_containers (d_Pod d) ∧ q ∈ c_Ports k ∧ cp_Name q = spp_TargetPortName p
                 ∧ cp_ContainerPort q = spp_Port p ∧ cp_Protocol q = ProtocolTCP)
    (instances c) ds.
Proof.
  unfold RenderDeployments, IsColocated. intros E Hk Hs Hl Hbox. rewrite bool_decide_false in E by done.
  apply bind_Ok in E as (built & Hb & E%mapR_Ok).
  assert (Hplan : ∀ numa, numa ∈ instances c → buildServicePlan ctx c numa (ListenerPorts c) ∈ BuildServices ctx c)
    by (intros; by eapply instance_plan_built).
  apply built_instances in Hb. apply Forall2_same_length_lookup_2.
  { by rewrite (Forall2_length _ _ _ Hb), (Forall2_length _ _ _ E). }
  intros i numa d Hi Hd. destruct (Forall2_lookup_r _ _ _ _ _ E Hd) as (d0 & Hd0 & Er).
  pose proof (Forall2_lookup_lr _ _ _ _ _ _ Hb Hi Hd0) as Hinst.
  split_and!; [by eapply Hplan, list_elem_of_lookup_2| |].
  - destruct (render_one_identity _ _ _ _ _ Er) as (base & Hc & Hsame).
    apply instance_selected; [|done..]. eapply instance_same; [done|]. by eapply instance_composed.
  - intros p (l & -> & Hin)%list_elem_of_fmap.
    destruct (render_one_ports _ _ _ _ _ _ Er Hs Hin) as (pair & ports & name & Hp & Hv & Hport).
    apply list_elem_of_fmap in Hv as (k & [= -> ->] & Hk'). exists k, (listener_port pair l).
    split_and!; [done..| |done]. by eapply listener_number.
Qed.

(** ** Witnesses: the sample palette, whose patches try to steal the workloads *)

Import Concrete.

Lemma rendered_identity_witness :
  ∃ ds, RenderDeployments Sample.ctx (Sample.resolved KindControlplane "controlplane") Sample.registry = Ok ds
    ∧ Forall2 (instance_of Sample.ctx (Sample.resolved KindControlplane "controlplane"))
        (instances (Sample.resolved KindControlplane "controlplane")) ds
    ∧ NoDup (d_Name <$> ds).
Proof.
  destruct (proj1 (is_ok_spec (RenderDeployments Sample.ctx (Sample.resolved KindControlplane "controlplane")
                                 Sample.registry))) as [ds E]; [vm_compute; reflexivity|].
  exists ds. split; [exact E|]. apply (rendered_identity _ _ _ _ E). vm_compute. discriminate.
Defined.

Lemma rendered_pods_are_well_formed_witness :
  ∃ ds, RenderDeployments Sample.ctx (Sample.resolved KindDataplane "dataplane") Sample.registry = Ok ds
    ∧ Forall well_formed_pod ds.
Proof.
  destruct (proj1 (is_ok_spec (RenderDeployments Sample.ctx (Sample.resolved KindDataplane "dataplane")
                                 Sample.registry))) as [ds E]; [vm_compute; reflexivity|].
  exists ds. split; [exact E|]. exact (rendered_pods_are_well_formed _ _ _ _ E).
Defined.

Lemma services_reach_rendered_pods_witness :
  ∃ ds, RenderDeployments Sample.ctx (Sample.resolved KindOperator "route") Sample.registry = Ok ds
    ∧ Forall2 (λ numa d,
        let c := Sample.resolved KindOperator "route" in
        let plan := buildServicePlan Sample.ctx c numa (ListenerPorts c) in
        plan ∈ BuildServices Sample.ctx c
        ∧ pl_Selector plan ⊆ pt_Labels (d_Template d)
        ∧ ∀ p, p ∈ pl_Ports plan →
            ∃ k q, k ∈ pod_containers (d_Pod d) ∧ q ∈ c_Ports k ∧ cp_Name q = spp_TargetPortName p
                   ∧ cp_ContainerPort q = spp_Port p ∧ cp_Protocol q = ProtocolTCP)
        (instances (Sample.resolved KindOperator "route")) ds.
Proof.
  destruct (proj1 (is_ok_spec (RenderDeployments Sample.ctx (Sample.resolved KindOperator "route")
                                 Sample.registry))) as [ds E]; [vm_compute; reflexivity|].
  exists ds. split; [exact E|].
  apply (services_reach_rendered_pods _ _ _ _ E); vm_compute; first [reflexivity|discriminate].
Defined.
