(* ===== verification/PassSpec.v ===== *)
(** * A pass over a settled cluster

    What one pass of the reconciler wants is a pure function of the configuration
    and the nodes.  Every Deployment the pass persists is a settled form of a
    wanted one, and once the cluster holds settled forms of all of them, and
    nothing else, a pass changes nothing and reports everything as synced. *)

From S2P Require Import Prelude GoLib K8s Api Resolve Labels Builder Service Render Webhook Metrics Program.
From S2P Require Import Managed YanetController Reconciler Reconcile Instances SafetySpec ManagedSpec ConvergenceSpec.
From S2P Require Import StatusSpec MetricsSpec LabelsSpec RenderSpec.
From Stdlib Require Import Ascii.
#[local] Open Scope Z_scope.

(** ** What a pass wants *)
Section wanted.
Context `{MetaLib, ClientUtil, PatchLib, QuantityLib, K8sValidation, MapOrder}.
Variable env : reconcile_env.

(** The component of a slot, as the loop renders it. *)
Definition slot_component (ref : ComponentRef) : option ResolvedComponent :=
  match ResolveBoxComponent (Some (re_cfg env)) (Some (y_Spec (re_yanet env))) (ref_Kind ref) (ref_OperatorName ref) with
  | Ok (Some rc) =>
      if IsColocated rc then None else Some (set_rc_Enabled (rc_Enabled rc && re_installationEnabled env) rc)
  | _ => None
  end.

Definition slot_deployments (ctx : BuildContext) (ref : ComponentRef) : list Deployment :=
  match slot_component ref with
  | Some rc =>
      match RenderDeployments ctx rc (re_registry env) with
      | Ok ds => (λ d, normalizeDeploymentReplicas d (rc_Enabled rc) (re_installationEnabled env)) <$> ds
      | Err _ => []
      end
  | None => []
  end.

(** The inline ConfigMaps of a slot: the component, the name and the content. *)
Definition slot_config_maps (ctx : BuildContext) (ref : ComponentRef) : list (ResolvedComponent * (string * string)) :=
  match slot_component ref with
  | Some rc => (λ entry, (rc, entry)) <$> map_range (InlineConfigMaps ctx rc)
  | None => []
  end.

Definition pass_context (node : Node) : result BuildContext :=
  WithRuntimeNetwork (node_context (re_cfg env) (re_yanet env) (re_pullPolicy env) (re_owner env) node)
    (re_cfg env) (y_Spec (re_yanet env)).

Definition on_nodes {A} (f : BuildContext → ComponentRef → list A) (nodes : list Node) (enabled : list ComponentRef) : list A :=
  nodes ≫= λ node, match pass_context node with Ok ctx => enabled ≫= f ctx | Err _ => [] end.

Definition wanted_deployments := on_nodes slot_deployments.
Definition wanted_config_maps := on_nodes slot_config_maps.

Lemma elem_of_on_nodes {A} (f : BuildContext → ComponentRef → list A) nodes enabled x :
  x ∈ on_nodes f nodes enabled ↔
  ∃ node ctx ref, node ∈ nodes ∧ pass_context node = Ok ctx ∧ ref ∈ enabled ∧ x ∈ f ctx ref.
Proof.
  unfold on_nodes. rewrite list_elem_of_bind. split.
  - intros (node & Hx & Hn). destruct (pass_context node) as [ctx|] eqn:E; [|by apply elem_of_nil in Hx].
    apply list_elem_of_bind in Hx as (ref & Hx & Hr). by exists node, ctx, ref.
  - intros (node & ctx & ref & Hn & E & Hr & Hx). exists node. rewrite E. split; [|done].
    apply list_elem_of_bind. by exists ref.
Qed.

Lemma pass_context_fields node ctx :
  pass_context node = Ok ctx →
  bx_YanetName ctx = y_Name (re_yanet env) ∧ bx_Namespace ctx = y_Namespace (re_yanet env) ∧ bx_OwnerRef ctx = re_owner env.
Proof.
  unfold pass_context, WithRuntimeNetwork. intros ([c|] & _ & E)%bind_Ok; by injection E as <-.
Qed.
End wanted.

(** ** A settled world *)
Section settled_world.
Context `{MetaLib, ClientUtil, PatchLib, QuantityLib, K8sValidation, MapOrder}.
Variable defaulted : DeploymentSpec → DeploymentSpec.
Variables (env : reconcile_env) (nodes : list Node) (enabled : list ComponentRef).
Notation yanet := (re_yanet env).
Notation D := (wanted_deployments env nodes enabled).
Notation C := (wanted_config_maps env nodes enabled).

(** A stored ConfigMap that the mutate function of the pass leaves alone. *)
Definition carries (rc : ResolvedComponent) (content : string) (cm : ConfigMap) : Prop :=
  controlledByYanet (cm_Meta cm) yanet = true
  ∧ om_DeletionTimestamp (cm_Meta cm) = None
  ∧ ensureLabel (ensureLabel (cm_Meta cm) labelYanet (y_Name yanet)) labelComponent (rc_Name rc) = cm_Meta cm
  ∧ SetControllerReference yanet (cm_Meta cm) = Ok (cm_Meta cm)
  ∧ cm_Data cm = {["config" := content]}.

(** The wanted ConfigMaps exist as wanted, and the installation owns nothing that
    is not wanted. *)
Definition tidy (e : event) : Prop :=
  match e with
  | Ev (GetConfigMap _ name) a =>
      ∃ cm, a = Ok cm ∧ ∀ rc content, (rc, (name, content)) ∈ C → carries rc content cm
  | Ev (ListDeployments _) (Ok deps) =>
      ∀ d, d ∈ deps → controlledByYanet (d_Meta d) yanet = true → ∃ w, w ∈ D ∧ d_Name w = d_Name d
  | Ev (ListConfigMaps _ _) (Ok cms) =>
      ∀ c, c ∈ cms → controlledByYanet (cm_Meta c) yanet = true → ∃ w, w ∈ C ∧ w.2.1 = om_Name (cm_Meta c)
  | _ => True
  end.

Definition settled_world (e : event) : Prop := admits defaulted e ∧ (∀ d, d ∈ D → holds defaulted d e) ∧ tidy e.

(** The calls of a pass that has nothing to do: no change of a workload, no
    request to the update window, and a status in which everything is synced. *)
Definition all_synced (status : SyncStatus) : Prop :=
  sy_OutOfSync status = [] ∧ sy_SyncWaiting status = [] ∧ sy_Error status = [].
Definition undisturbing (c : call) : Prop :=
  workload_write c = false
  ∧ match c with
    | Throttle _ _ => False
    | UpdateYanetStatus y => all_synced (st_Sync (y_Status y))
    | _ => True
    end.
Definition rests (h : trace) (c : call) : Prop := Forall settled_world h → undisturbing c.

(** Calls that disturb nobody whatever the world is like. *)
Definition harmless (c : call) : bool :=
  match c with Throttle _ _ | UpdateYanetStatus _ => false | _ => negb (workload_write c) end.
Lemma harmless_rests c : harmless c = true → undisturbing c.
Proof. by destruct c as [| | | | | | | | | | | | | [] | | | | | | | | | | | | | | |]. Qed.

Lemma wp_harmless {A} (p : prog A) h (Q : A → trace → Prop) :
  respects (λ _ c, harmless c = true) p → (∀ a h', Q a h') → wp rests p h Q.
Proof.
  intros Hp HQ. eapply wp_mono; [eapply wp_weaken; [apply Hp|]|auto].
  intros t c Hc _. by apply harmless_rests.
Qed.

Lemma world_app h t : Forall settled_world (h ++ t) → Forall settled_world h ∧ Forall settled_world t.
Proof. apply Forall_app. Qed.
Lemma world_last h e : Forall settled_world (h ++ [e]) → settled_world e.
Proof. intros [_ He]%Forall_app. by apply Forall_cons_1 in He as [He _]. Qed.

Hypothesis owned : ∀ d, d ∈ D → is_Some (GetControllerOf (d_Meta d)).
Hypothesis plain : ∀ d, d ∈ D → plain_keys (om_Labels (d_Meta d)) ∧ plain_keys (om_Annotations (d_Meta d)).

(** *** One Deployment *)
Lemma applyDeployment_rests d autoSync window node h :
  d ∈ D →
  wp rests (applyDeployment d autoSync window node) h (λ r h', Forall settled_world h' → r = ("synced", 0, None)).
Proof.
  intros Hd. destruct (plain d Hd) as [HpL HpA].
  assert (Hw : ∀ h, Forall settled_world h → Forall (steady defaulted d) h).
  { intros h' Hh. eapply Forall_impl; [exact Hh|]. intros e (Ha & Hh' & _). split; [done|by apply Hh']. }
  eapply wp_mono.
  - eapply wp_weaken; [apply (applyDeployment_quiet defaulted d autoSync window node (owned d Hd) HpL HpA h)|].
    intros t c Hc Hh%Hw%Hc. apply harmless_rests. by destruct c as [| | | | | | | | | | | | | [] | | | | | | | | | | | | | | |].
  - intros r h' Hr Hh. by apply Hr, Hw.
Qed.

(** *** Inline ConfigMaps *)
Lemma mutate_carried ctx rc content cm t r :
  bx_YanetName ctx = y_Name yanet → carries rc content cm →
  run (mutate_config_map yanet ctx rc content cm) t r →
  ∃ g, t = [Ev ReadGlobal g] ∧ r = if stopped g then Err ErrGlobalStop else Ok cm.
Proof.
  intros Ey (Hc & _ & Hl & Ho & Hd) Hr. unfold mutate_config_map in Hr. rewrite Hc, andb_false_r, Ey, Hl, Ho in Hr.
  apply run_bind in Hr as (t1 & t2 & a & -> & Ha & Hr). apply run_bind_invoke in Ha as (g & t' & -> & [-> ->]).
  exists g. destruct (stopped g); destruct Hr as [-> ->]; (split; [done|]); [done|].
  rewrite <-Hd. by destruct cm.
Qed.

Lemma mutate_harmless ctx rc content cm : respects (λ _ c, harmless c = true) (mutate_config_map yanet ctx rc content cm).
Proof. unfold mutate_config_map. safe ltac:(first [reflexivity | done]). Qed.

Lemma world_carried h ns name x t rc content :
  (rc, (name, content)) ∈ C → Forall settled_world (h ++ Ev (GetConfigMap ns name) x :: t) →
  ∃ cm, x = Ok cm ∧ carries rc content cm.
Proof.
  intros Hin [_ [(_ & _ & Ht) _]%Forall_cons_1]%Forall_app. destruct Ht as (cm & -> & Hcm). eauto.
Qed.

Lemma CreateOrUpdate_rests ctx rc name content h :
  bx_YanetName ctx = y_Name yanet → (rc, (name, content)) ∈ C →
  wp rests (CreateOrUpdate (inline_config_map ctx rc name content) (mutate_config_map yanet ctx rc content)) h
    (λ r h', Forall settled_world h' → r = Ok tt).
Proof.
  intros Ey Hin t r Hr%CreateOrUpdate_spec.
  assert (Hm : ∀ x t' r' h', run (mutate_config_map yanet ctx rc content x) t' r' → calls_ok rests h' t').
  { intros x t' r' h' Hx. by apply (wp_harmless _ h' (λ _ _, True) (mutate_harmless ctx rc content x) ltac:(done) t' r' Hx). }
  assert (Hget : ∀ c, calls_ok rests h [Ev (GetConfigMap (bx_Namespace ctx) name) c]).
  { intros c. apply calls_ok_cons. split; [|apply calls_ok_nil]. intros _. by apply harmless_rests. }
  pose proof (λ x t, world_carried h (bx_Namespace ctx) name x t rc content Hin) as Hw.
  destruct Hr as [e He|e t e' He Hr|e t c' res He Hr|x t e' Hr|x t Hr|x t c' res Hr Hne]; cbn [inline_config_map cm_Meta om_Name om_Namespace] in *.
  - split; [done|]. intros (cm & ? & _)%Hw. done.
  - split; [apply (calls_ok_app _ h [_]); eauto|]. intros (cm & ? & _)%Hw. done.
  - split; [|intros (cm & ? & _)%Hw; done].
    apply (calls_ok_app _ h [_]). split; [done|]. apply calls_ok_app. split; [by eapply Hm|].
    apply calls_ok_cons. split; [|apply calls_ok_nil]. rewrite <-app_assoc. intros (cm & ? & _)%Hw. done.
  - split; [apply (calls_ok_app _ h [_]); eauto|]. intros Hh. destruct (Hw _ _ Hh) as (cm & [= ->] & Hc).
    destruct (mutate_carried _ _ _ _ _ _ Ey Hc Hr) as (g & -> & Eg). destruct (stopped g) eqn:E; [|done].
    apply Forall_app in Hh as [_ [_ [[Ha _] _]%Forall_cons_1]%Forall_cons_1]. simpl in Ha. congruence.
  - split; [apply (calls_ok_app _ h [_]); eauto|done].
  - assert (Habs : ∀ t', Forall settled_world (h ++ Ev (GetConfigMap (bx_Namespace ctx) name) (Ok x) :: t') → False).
    { intros t' Hh. destruct (Hw _ _ Hh) as (cm & [= ->] & Hc).
      destruct (mutate_carried _ _ _ _ _ _ Ey Hc Hr) as (g & -> & Eg). destruct (stopped g); [done|]. by injection Eg as ->. }
    split; [|intros Hh; by destruct (Habs _ Hh)].
    apply (calls_ok_app _ h [_]). split; [done|]. apply calls_ok_app. split; [by eapply Hm|].
    apply calls_ok_cons. split; [|apply calls_ok_nil]. rewrite <-app_assoc. intros Hh. by destruct (Habs _ Hh).
Qed.

(** What the loop over the inline configuration returns. *)
Definition configured (done : list (string * string)) (st : list string * bool) (h : trace) : Prop :=
  st.1 = done.*1 ∧ (Forall settled_world h → st.2 = false).

Lemma applyInlineConfigMaps_rests ctx rc autoSync h :
  bx_YanetName ctx = y_Name yanet → (∀ entry, entry ∈ map_range (InlineConfigMaps ctx rc) → (rc, entry) ∈ C) →
  wp rests (applyInlineConfigMaps yanet ctx rc autoSync) h (λ r h',
    match r with
    | Ok (names, drift) => names = (map_range (InlineConfigMaps ctx rc)).*1 ∧ (Forall settled_world h' → drift = false)
    | Err _ => True
    end).
Proof.
  intros Ey Hin. unfold applyInlineConfigMaps.
  apply (wp_foldPR_done _ configured); [by split| |intros [names drift] h' Hc; exact Hc].
  intros done [names drift] [name content] h' Hent [Hn Hd]. simpl in Hn, Hd. unfold inline_config_step.
  assert (Hnext : names ++ [name] = (done ++ [(name, content)]).*1) by (by rewrite fmap_app, Hn).
  destruct (negb autoSync).
  - apply (wp_bind_invoke _ (GetConfigMap _ _)); [intros _; by apply harmless_rests|]. intros [existing|e].
    + apply wp_Ret. split; [done|]. simpl. intros Hh. rewrite (Hd (proj1 (world_app _ _ Hh))).
      destruct (world_carried _ _ _ _ [] rc content (Hin _ Hent) Hh) as (cm & [= <-] & Hc & Hdel & _ & _ & Hdata).
      rewrite Hc, Hdel, Hdata. cbn [negb orb inline_config_map cm_Data]. rewrite !bool_decide_false; try done; naive_solver.
    + destruct (IsNotFound e); apply wp_Ret; [|done]. split; [done|]. intros Hh.
      by destruct (world_carried _ _ _ _ [] rc content (Hin _ Hent) Hh) as (cm & ? & _).
  - apply wp_bind. eapply wp_mono; [by apply wp_grows, CreateOrUpdate_rests, Hin|].
    intros [[]|e] h'' [Hr [t ->]]; apply wp_Ret; [|done]. split; [done|]. simpl. intros [Hh _]%world_app. by apply Hd.
Qed.

(** *** The loop *)
Definition node_synced (ns : NodeStatus) : Prop := map_Forall (λ _ state, state = "synced") (ns_Deployments ns).

(** Without an error, everything wanted so far is in the desired sets; in a
    settled world everything reported so far is synced. *)
Definition progress (ds : list Deployment) (cs : list (ResolvedComponent * (string * string)))
    (acc : loop_state * NodeStatus) (h : trace) : Prop :=
  (lo_errs acc.1 = [] →
     (∀ d, d ∈ ds → d_Name d ∈ ds_Deployments (lo_desired acc.1))
     ∧ (∀ c, c ∈ cs → c.2.1 ∈ ds_ConfigMaps (lo_desired acc.1)))
  ∧ (Forall settled_world h → map_Forall (λ _ ns, node_synced ns) (lo_nodesStatus acc.1) ∧ node_synced acc.2).

Lemma progress_error e ds cs ds' cs' st ns h h' t :
  progress ds cs (st, ns) h → h' = h ++ t → progress ds' cs' (lo_add_err e st, ns) h'.
Proof.
  intros [_ Hs] ->. split; [intros Hn; simpl in Hn; by apply app_nil in Hn as [_ ?]|].
  intros [Hh _]%world_app. by apply Hs.
Qed.

Lemma progress_later ds cs acc h t : progress ds cs acc h → progress ds cs acc (h ++ t).
Proof. intros [Hc Hs]. split; [done|]. intros [Hh _]%world_app. by apply Hs. Qed.

Lemma reconcile_deployment_progress kind on drift node ds cs acc d h :
  normalizeDeploymentReplicas d on (re_installationEnabled env) ∈ D →
  progress ds cs acc h → (Forall settled_world h → drift = false) →
  wp rests (reconcile_deployment env kind on drift node acc d) h
    (progress (ds ++ [normalizeDeploymentReplicas d on (re_installationEnabled env)]) cs).
Proof.
  destruct acc as [st ns]. intros Hd [Hc Hs] Hdrift. unfold reconcile_deployment.
  set (d' := normalizeDeploymentReplicas d on (re_installationEnabled env)) in *.
  apply wp_bind. eapply wp_mono; [by apply wp_grows, applyDeployment_rests|].
  intros [[state requeue] err] h' [Hr [t ->]]. cbv zeta.
  match goal with |- context [ns_set_state _ ?x] => set (state' := x) end.
  match goal with |- context [lo_add_requeue requeue ?x] => set (st' := x) end.
  match goal with |- context [(st', ?x)] => set (ns' := x) end.
  assert (Hp : progress (ds ++ [d']) cs (st', ns') (h ++ t)).
  { split.
    - intros Hn. assert (Hold : lo_errs st = []).
      { unfold st' in Hn. case_bool_decide; destruct err; simpl in Hn; try done; by apply app_nil in Hn as [? _]. }
      assert (Hset : ds_Deployments (lo_desired st') = {[d_Name d']} ∪ ds_Deployments (lo_desired st)
                     ∧ ds_ConfigMaps (lo_desired st') = ds_ConfigMaps (lo_desired st))
        by (unfold st'; case_bool_decide; by destruct err).
      destruct Hset as [HsetD HsetC]. cbn [fst]. rewrite HsetD, HsetC. destruct (Hc Hold) as [HcD HcC]. split; [|done].
      intros x [Hx| ->%list_elem_of_singleton]%elem_of_app; [apply elem_of_union_r; by apply HcD|set_solver].
    - intros Hh. destruct (world_app _ _ Hh) as [Hh' _]. specialize (Hr Hh). injection Hr as -> -> ->.
      destruct (Hs Hh') as [Hns Hn]. split; [unfold st'; by case_bool_decide|]. unfold ns', node_synced. simpl. apply map_Forall_insert_2.
      + unfold state'. by rewrite (Hdrift Hh').
      + by destruct (bool_decide (kind = _)). }
  destruct (bool_decide (requeue > 0)); [|by apply wp_Ret].
  apply wp_bind. eapply wp_mono; [apply wp_grows, (wp_harmless _ _ (λ _ _, True)); [safe ltac:(first [reflexivity|done])|done]|].
  intros [] h'' [_ [t' ->]]. apply wp_Ret. by apply progress_later.
Qed.

Lemma reconcile_ref_progress ctx node ds cs acc ref h :
  bx_YanetName ctx = y_Name yanet →
  (∀ d, d ∈ slot_deployments env ctx ref → d ∈ D) → (∀ c, c ∈ slot_config_maps env ctx ref → c ∈ C) →
  progress ds cs acc h →
  wp rests (reconcile_ref env ctx node acc ref) h
    (progress (ds ++ slot_deployments env ctx ref) (cs ++ slot_config_maps env ctx ref)).
Proof.
  destruct acc as [st ns]. intros Ey HD HC Hp. unfold reconcile_ref. unfold slot_deployments, slot_config_maps in *.
  unfold slot_component in *.
  destruct (ResolveBoxComponent _ _ _ _) as [[rc|]|e];
    [|apply wp_Ret; rewrite !app_nil_r; by destruct (bool_decide _)|by apply wp_Ret, (progress_error e ds cs _ _ st ns h _ []); rewrite ?app_nil_r].
  destruct (IsColocated rc) eqn:Eco; [apply wp_Ret; by rewrite !app_nil_r|]. cbv zeta.
  set (rc' := set_rc_Enabled _ rc) in *.
  apply wp_bind. eapply wp_mono; [apply wp_grows, applyInlineConfigMaps_rests; [done|]|].
  { intros entry Hent. apply HC. apply list_elem_of_fmap. eauto. }
  intros [[names drift]|e] h' [Hr [t ->]]; [|by apply wp_Ret; eapply progress_error].
  destruct Hr as [-> Hdrift].
  set (st1 := lo_add_config_maps _ st). set (cs' := (λ entry, (rc', entry)) <$> map_range (InlineConfigMaps ctx rc')) in *.
  assert (Hp1 : progress ds (cs ++ cs') (st1, ns) (h ++ t)).
  { destruct Hp as [Hc Hs]. split; [|intros [Hh _]%world_app; by apply Hs]. intros Hn. destruct (Hc Hn) as [HcD HcC].
    split; [done|]. intros c [Hc'|Hc']%elem_of_app; [apply elem_of_union_r; by apply HcC|].
    apply elem_of_union_l, elem_of_list_to_set. apply list_elem_of_fmap in Hc' as (entry & -> & Hent).
    apply list_elem_of_fmap. eauto. }
  destruct (RenderDeployments ctx rc' _) as [rendered|e]; [|by apply wp_Ret, (progress_error e _ _ _ _ _ _ _ _ [] Hp1); rewrite app_nil_r].
  set (f := λ d, normalizeDeploymentReplicas d (rc_Enabled rc') (re_installationEnabled env)) in *.
  apply (wp_foldP_done _ (λ done acc h, progress (ds ++ (f <$> done)) (cs ++ cs') acc h
                            ∧ (Forall settled_world h → drift = false))).
  - by rewrite fmap_nil, app_nil_r.
  - intros done acc d h1 Hd [Hp2 Hdr]. eapply wp_mono; [apply wp_grows, reconcile_deployment_progress; try done|].
    + apply HD, list_elem_of_fmap. eauto.
    + intros acc' h2 [Hp3 [t' ->]]. rewrite fmap_app, app_assoc. split; [done|]. intros [Hh _]%world_app. by apply Hdr.
  - by intros acc h1 [Hp2 _].
Qed.

(** Both loops, over the components of a node and over the nodes. *)
Lemma reconcile_nodes_progress h :
  wp rests (foldPR (reconcile_node env enabled) loop_init nodes) h (λ r h',
    match r with Ok st => progress D C (st, MkNodeStatus "" None ∅ 0) h' | Err _ => True end).
Proof.
  apply (wp_foldPR_done _ (λ done st h, progress (wanted_deployments env done enabled) (wanted_config_maps env done enabled)
                             (st, MkNodeStatus "" None ∅ 0) h)); [|..].
  - split; [intros _; split; intros ? []%elem_of_nil|]. intros _. split; apply map_Forall_empty.
  - intros done st node h' Hnode Hp. unfold reconcile_node. fold (pass_context env node).
    destruct (pass_context env node) as [ctx|e] eqn:Ectx; [|by apply wp_Ret].
    destruct (pass_context_fields _ _ _ Ectx) as (Ey & _ & _).
    apply wp_bind, (wp_foldP_done _ (λ refs acc h, progress
      (wanted_deployments env done enabled ++ (refs ≫= slot_deployments env ctx))
      (wanted_config_maps env done enabled ++ (refs ≫= slot_config_maps env ctx)) acc h)).
    + destruct Hp as [Hc Hs]. split; [by rewrite !app_nil_r|]. intros Hh. split; [by apply Hs|apply map_Forall_empty].
    + intros refs acc ref h1 Href Hp1. eapply wp_mono; [apply reconcile_ref_progress; try done|].
      * intros d Hd. apply elem_of_on_nodes. eauto 8.
      * intros c Hc. apply elem_of_on_nodes. eauto 8.
      * intros acc' h2 Hp2. rewrite !bind_app. simpl. by rewrite !app_nil_r, !app_assoc.
    + intros [st' ns] h1 [Hc Hs]. apply wp_Ret. unfold wanted_deployments, wanted_config_maps, on_nodes in *.
      rewrite !bind_app. simpl. rewrite Ectx, !app_nil_r. split; [exact Hc|].
      intros [Hns Hn]%Hs. split; [|apply map_Forall_empty]. by apply map_Forall_insert_2.
  - done.
Qed.

(** *** Pruning *)
Section tidy.
Variable desired : desiredSet.
Hypothesis covers_deployments : ∀ d, d ∈ D → d_Name d ∈ ds_Deployments desired.
Hypothesis covers_config_maps : ∀ c, c ∈ C → c.2.1 ∈ ds_ConfigMaps desired.

Lemma listed_deployments h ns deps d :
  Forall settled_world (h ++ [Ev (ListDeployments ns) (Ok deps)]) → d ∈ deps →
  controlledByYanet (d_Meta d) yanet = true → d_Name d ∈ ds_Deployments desired.
Proof. intros (_ & _ & Ht)%world_last Hd Hc. destruct (Ht d Hd Hc) as (w & Hw & <-). by apply covers_deployments. Qed.

Lemma listed_config_maps h ns selector cms c :
  Forall settled_world (h ++ [Ev (ListConfigMaps ns selector) (Ok cms)]) → c ∈ cms →
  controlledByYanet (cm_Meta c) yanet = true → om_Name (cm_Meta c) ∈ ds_ConfigMaps desired.
Proof. intros (_ & _ & Ht)%world_last Hd Hc. destruct (Ht c Hd Hc) as (w & Hw & <-). by apply covers_config_maps. Qed.

(** Nothing was deleted and nothing retained. *)
Definition untouched (st : prune_state) : Prop := st = prune_init.

(** A loop step of the pruning that a settled world passes by. *)
Lemma wp_passed_by (mine kept : bool) st (p : prog (prune_state * option goerror)) (h : trace) :
  (Forall settled_world h → untouched st) → (Forall settled_world h → mine = true → kept = true) →
  wp rests (if negb mine then Ret (st, None) else if kept then Ret (st, None) else p) h
    (λ (r : prune_state * option goerror) h', Forall settled_world h' → r = (st, None) ∧ untouched st).
Proof.
  intros Hst Hk. destruct mine; simpl; [|apply wp_Ret; auto]. destruct kept; [apply wp_Ret; auto|].
  intros t r Hr. split; [intros t1 e t2 -> [Hh _]%world_app|intros [Hh _]%world_app]; by specialize (Hk Hh eq_refl).
Qed.

Lemma prune_deployment_rests autoSync st d h :
  (Forall settled_world h → untouched st) →
  (Forall settled_world h → controlledByYanet (d_Meta d) yanet = true → d_Name d ∈ ds_Deployments desired) →
  wp rests (prune_deployment_step yanet desired autoSync st d) h
    (λ r h', Forall settled_world h' → r = (st, None) ∧ untouched st).
Proof.
  intros Hst Hk. apply (wp_passed_by _ (bool_decide (d_Name d ∈ ds_Deployments desired))); [done|].
  intros Hh Hc. apply bool_decide_true. auto.
Qed.

Lemma prune_config_map_rests autoSync referenced pending st c h :
  (Forall settled_world h → untouched st) →
  (Forall settled_world h → controlledByYanet (cm_Meta c) yanet = true → om_Name (cm_Meta c) ∈ ds_ConfigMaps desired) →
  wp rests (prune_config_map_step yanet desired autoSync referenced pending st c) h
    (λ r h', Forall settled_world h' → r = (st, None) ∧ untouched st).
Proof.
  intros Hst Hk. apply (wp_passed_by _ (bool_decide (om_Name (cm_Meta c) ∈ ds_ConfigMaps desired))); [done|].
  intros Hh Hc. apply bool_decide_true. auto.
Qed.

(** A loop of such steps. *)
Lemma wp_passing {A} (f : prune_state → A → prog (prune_state * option goerror)) st l h :
  (Forall settled_world h → untouched st) →
  (∀ st x t, x ∈ l → (Forall settled_world (h ++ t) → untouched st) →
     wp rests (f st x) (h ++ t) (λ r h', Forall settled_world h' → r = (st, None) ∧ untouched st)) →
  wp rests (foldPE f st l) h (λ r h', Forall settled_world h' → r = (prune_init, None)).
Proof.
  intros Hst Hf.
  apply (wp_foldPE_early _ (λ st h', (∃ t, h' = h ++ t) ∧ (Forall settled_world h' → untouched st))).
  - split; [exists []; by rewrite app_nil_r|done].
  - intros st' x h' Hx [[t ->] Hst']. eapply wp_mono; [apply wp_grows, Hf; done|].
    intros [st2 [e|]] h2 [Hr [t' ->]]; simpl; [intros Hh; by destruct (Hr Hh)|].
    split; [exists (t ++ t'); by rewrite app_assoc|]. intros Hh. destruct (Hr Hh) as [[= ->] ?]. done.
  - intros st' h' [_ Hst'] Hh. by rewrite (Hst' Hh).
Qed.

Lemma prune_config_maps_rests autoSync deps st h :
  (Forall settled_world h → untouched st) →
  wp rests (prune_config_maps yanet desired autoSync deps st) h (λ r h', Forall settled_world h' → r.1 = pv_result prune_init).
Proof.
  intros Hst. unfold prune_config_maps. apply (wp_bind_invoke _ (ListConfigMaps _ _)); [intros _; by apply harmless_rests|].
  intros [cms|e]; [|apply wp_Ret; intros [Hh _]%world_app; by rewrite (Hst Hh)].
  apply wp_bind. eapply wp_mono; [apply wp_grows, (wp_harmless _ _ (λ _ _, True)); [|done]|].
  { destruct cms; safe ltac:(first [reflexivity|done]). }
  intros [pods|e] h1 [_ [t ->]]; [|apply wp_Ret; intros [[Hh _]%world_app _]%world_app; by rewrite (Hst Hh)].
  apply wp_bind. eapply wp_mono; [apply wp_passing|].
  - intros [[Hh _]%world_app _]%world_app. auto.
  - intros st' c t' Hc Hst'. apply prune_config_map_rests; [done|].
    intros [[Hh _]%world_app _]%world_app. by eapply listed_config_maps.
  - intros r h2 Hr. apply wp_Ret. intros Hh. by rewrite (Hr Hh).
Qed.

Lemma pruneOrphans_rests autoSync h :
  wp rests (pruneOrphans yanet desired autoSync) h (λ r h', Forall settled_world h' → r.1 = pv_result prune_init).
Proof.
  unfold pruneOrphans. apply (wp_bind_invoke _ (ListDeployments _)); [intros _; by apply harmless_rests|].
  intros [deps|e]; [|by apply wp_Ret].
  apply wp_bind. eapply wp_mono; [apply wp_passing; [done|]|].
  - intros st d t Hd Hst. apply prune_deployment_rests; [done|]. intros [Hh _]%world_app. by eapply listed_deployments.
  - intros [st [e|]] h1 Hr; [apply wp_Ret; intros Hh; by specialize (Hr Hh)|].
    assert (Hst : Forall settled_world h1 → untouched st) by (intros Hh; by injection (Hr Hh)).
    destruct (pv_deletionRequested st); [|by apply prune_config_maps_rests].
    apply (wp_bind_invoke _ (ListDeployments _)); [intros _; by apply harmless_rests|].
    intros [again|e]; [|apply wp_Ret; intros [Hh _]%world_app; by rewrite (Hst Hh)].
    apply prune_config_maps_rests. intros [Hh _]%world_app. auto.
Qed.
End tidy.

(** *** Status *)
Lemma synced_status byNode : map_Forall (λ _ ns, node_synced ns) byNode → all_synced (aggregateSyncStatus byNode).
Proof.
  intros Hn. assert (Hb : ∀ b, b ∈ states → b ≠ "synced" → bucket b (aggregateSyncStatus byNode) = []).
  { intros b Hb Hne. apply bucket_empty; [done|]. intros node ns name state En Es Hc.
    rewrite (Hn node ns En name state Es) in Hc. unfold class_of in Hc. by rewrite decide_True in Hc. }
  split_and!; [apply (Hb "out-of-sync")|apply (Hb "sync-waiting")|apply (Hb "error")]; set_solver.
Qed.

Lemma updateStatus_rests y status h :
  (Forall settled_world h → all_synced (st_Sync status)) →
  wp rests (updateStatus y (λ fresh, Ret (set_y_Status status fresh))) h (λ _ _, True).
Proof.
  intros Hs. apply (wp_mono _ _ _ (λ _ _, True)); [|done].
  unfold updateStatus. apply (wp_retry _ (λ _ h', Forall settled_world h' → all_synced (st_Sync status))); [done|].
  intros y' h' Hs'. unfold update_status_attempt.
  apply (wp_bind_invoke _ (GetYanet _ _)); [intros _; by apply harmless_rests|].
  intros [fresh|e]; [|apply wp_Ret; split; [done|]; intros ? _ _ [Hh _]%world_app; auto].
  apply wp_bind, wp_Ret. destruct (bool_decide _); [by apply wp_Ret|].
  unfold checkGlobalStop. apply wp_bind, (wp_bind_invoke _ ReadGlobal); [intros _; by apply harmless_rests|]. intros g. apply wp_Ret.
  destruct (stopped g); [apply wp_Ret; split; [done|]; intros ? _ _ [[Hh _]%world_app _]%world_app; auto|].
  apply (wp_bind_invoke _ (UpdateYanetStatus _)).
  - intros [[Hh _]%world_app _]%world_app. split; [done|]. by apply Hs'.
  - intros [stored|e]; apply wp_Ret; (split; [done|]); intros ? _ _ [[[Hh _]%world_app _]%world_app _]%world_app; auto.
Qed.

Lemma fail_pass_rests y e h :
  (Forall settled_world h → all_synced (st_Sync (y_Status y))) → wp rests (fail_pass y e) h (λ _ _, True).
Proof.
  intros Hs. unfold fail_pass. apply (wp_bind_invoke _ Now); [intros _; by apply harmless_rests|]. intros now.
  apply wp_bind. eapply wp_mono; [apply updateStatus_rests|intros [] h' _; by apply wp_Ret].
  intros [Hh _]%world_app. exact (Hs Hh).
Qed.

Lemma finish_pass_rests st services pods h :
  lo_errs st = [] → progress D C (st, MkNodeStatus "" None ∅ 0) h →
  wp rests (finish_pass env st services pods) h (λ _ _, True).
Proof.
  intros Hn [Hc Hs]. destruct (Hc Hn) as [HcD HcC]. unfold finish_pass.
  apply wp_bind. eapply wp_mono; [apply wp_grows, (pruneOrphans_rests _ HcD HcC)|].
  intros [pruned err] h1 [Hr [t1 ->]]. cbn [fst] in Hr.
  apply (wp_bind_invoke _ (Observe _)); [intros _; by apply harmless_rests|]. intros u.
  apply wp_bind. eapply wp_mono; [apply wp_grows, (wp_harmless _ _ (λ _ _, True)); [|done]|].
  { destruct (bool_decide _); safe ltac:(first [reflexivity|done]). }
  intros _ h2 [_ [t2 ->]].
  set (byNode := foldl record_orphan (lo_nodesStatus st) (pr_RetainedDeployments pruned)).
  assert (Hsync : ∀ t, Forall settled_world ((((h ++ t1) ++ [Ev (Observe _) u]) ++ t2) ++ t) →
                       all_synced (aggregateSyncStatus byNode)).
  { intros t [[[Hh _]%world_app _]%world_app _]%world_app. apply synced_status. unfold byNode. rewrite (Hr Hh).
    apply world_app in Hh as [Hh _]. by apply Hs. }
  destruct err as [e|].
  - apply fail_pass_rests. intros Hh. apply (Hsync []). by rewrite app_nil_r.
  - apply (wp_bind_invoke _ Now); [intros _; by apply harmless_rests|]. intros now. apply wp_bind.
    apply (wp_mono _ _ _ (λ y h', st_Sync (y_Status y) = aggregateSyncStatus byNode
             ∧ ∃ t, h' = (((h ++ t1) ++ [Ev (Observe _) u]) ++ t2) ++ t)).
    { destruct (pr_RetainedConfigMaps pruned); [apply wp_Ret; eauto|]. unfold degrade.
      apply (wp_bind_invoke _ Now); [intros _; by apply harmless_rests|]. intros now'. apply wp_Ret.
      rewrite <-app_assoc. eauto. }
    intros y h3 [Hy [t3 ->]]. apply (wp_bind_invoke _ (Observe _)); [intros _; by apply harmless_rests|]. intros u'.
    apply wp_bind. eapply wp_mono; [apply updateStatus_rests|].
    + intros Hh. rewrite Hy. rewrite <-app_assoc in Hh. by eapply Hsync.
    + intros [y' [[]|e]] h4 _; [destruct (lo_syncWaiting st)|]; by apply wp_Ret.
Qed.

Lemma run_pass_rests plans h : wp rests (run_pass env nodes enabled plans) h (λ _ _, True).
Proof.
  unfold run_pass. apply wp_bind. eapply wp_mono; [apply reconcile_nodes_progress|].
  intros [st|e] h1 Hp; [|by apply wp_Ret]. unfold collectPods.
  apply wp_bind, (wp_bind_invoke _ (ListPods _ _)); [intros _; by apply harmless_rests|]. intros listed. apply (progress_later _ _ _ _ [Ev (ListPods _ _) listed]) in Hp.
  assert (Hstatus : ∀ services pods, Forall settled_world (h1 ++ [Ev (ListPods _ _) listed]) →
    all_synced (st_Sync (y_Status (pass_status yanet (lo_nodesStatus st) services pods)))).
  { intros services pods Hh. apply synced_status. by apply Hp. }
  destruct listed as [pods|e]; apply wp_Ret.
  - destruct (lo_errs st) eqn:En; [by apply finish_pass_rests|]. apply fail_pass_rests. apply Hstatus.
  - destruct (lo_errs st); apply fail_pass_rests; apply Hstatus.
Qed.
End settled_world.

(** ** What a pass persists *)
Section persisted.
Context `{MetaLib, ClientUtil, PatchLib, QuantityLib, K8sValidation, MapOrder}.
Variable defaulted : DeploymentSpec → DeploymentSpec.
Variables (env : reconcile_env) (nodes : list Node) (enabled : list ComponentRef).
Notation D := (wanted_deployments env nodes enabled).

(** A Deployment is written for a wanted one that it settles. *)
Definition persists (c : call) : Prop :=
  match c with
  | CreateDeployment _ | UpdateDeployment false _ => ∃ d, d ∈ D ∧ settles defaulted d c
  | _ => True
  end.
Definition persisting (h : trace) (c : call) : Prop := Forall (admits defaulted) h → persists c.

(** Programs that write no Deployment. *)
Definition writes_deployment (c : call) : bool :=
  match c with CreateDeployment _ | UpdateDeployment false _ => true | _ => false end.
Notation readonly p := (respects (λ _ c, writes_deployment c = false) p).

Lemma readonly_persisting {A} (p : prog A) : readonly p → respects persisting p.
Proof.
  intros Hp h. eapply wp_weaken; [apply Hp|]. intros t c Hc _.
  by destruct c as [| | | | | | | | | | | | | [] | | | | | | | | | | | | | | |].
Qed.

Lemma applyDeployment_persists d autoSync window node :
  d ∈ D → respects persisting (applyDeployment d autoSync window node).
Proof.
  intros Hd h. eapply wp_weaken; [apply (applyDeployment_settles defaulted d autoSync window node)|].
  intros t c Hc Ha%Hc. destruct c as [| | | | | | | | | | | | | [] | | | | | | | | | | | | | | |]; try done; by exists d.
Qed.

Ltac read := safe ltac:(first [reflexivity | done]).

Lemma updateStatus_readonly y mutate : (∀ f, readonly (mutate f)) → readonly (updateStatus y mutate).
Proof. intros Hm. unfold updateStatus, update_status_attempt. read. Qed.
Lemma degrade_readonly reason message f : readonly (degrade reason message f).
Proof. unfold degrade. read. Qed.
#[local] Hint Resolve updateStatus_readonly degrade_readonly : safety.
Lemma applyInlineConfigMaps_readonly y ctx rc autoSync : readonly (applyInlineConfigMaps y ctx rc autoSync).
Proof.
  unfold applyInlineConfigMaps, inline_config_step, mutate_config_map.
  safe ltac:(first [reflexivity | done | apply wp_CreateOrUpdate]).
Qed.
Lemma prune_deployment_readonly y desired autoSync st d : readonly (prune_deployment_step y desired autoSync st d).
Proof. unfold prune_deployment_step. read. Qed.
Lemma prune_config_map_readonly y desired autoSync referenced pending st c :
  readonly (prune_config_map_step y desired autoSync referenced pending st c).
Proof. unfold prune_config_map_step. read. Qed.
#[local] Hint Resolve prune_deployment_readonly prune_config_map_readonly foldPE_respects : safety.
Lemma pruneOrphans_readonly y desired autoSync : readonly (pruneOrphans y desired autoSync).
Proof. unfold pruneOrphans, prune_config_maps. read. Qed.
Lemma fail_pass_readonly y e : readonly (fail_pass y e).
Proof. unfold fail_pass. read. Qed.
Lemma collectPods_readonly y : readonly (collectPods y).
Proof. unfold collectPods. read. Qed.
#[local] Hint Resolve pruneOrphans_readonly fail_pass_readonly collectPods_readonly : safety.
Lemma finish_pass_readonly env' st services pods : readonly (finish_pass env' st services pods).
Proof. unfold finish_pass. read. Qed.

Lemma reconcile_deployment_persists kind on drift node acc d :
  normalizeDeploymentReplicas d on (re_installationEnabled env) ∈ D →
  respects persisting (reconcile_deployment env kind on drift node acc d).
Proof.
  intros Hd h. destruct acc as [st ns]. unfold reconcile_deployment. apply wp_bind, wp_respects; [by apply applyDeployment_persists|].
  intros [[state requeue] err] h'. cbv zeta. destruct (bool_decide (requeue > 0)); [|by apply wp_Ret].
  apply wp_bind, wp_respects; [apply readonly_persisting; read|]. intros [] h''. by apply wp_Ret.
Qed.

Lemma reconcile_ref_persists ctx node acc ref :
  (∀ d, d ∈ slot_deployments env ctx ref → d ∈ D) → respects persisting (reconcile_ref env ctx node acc ref).
Proof.
  destruct acc as [st ns]. intros HD h. unfold reconcile_ref. unfold slot_deployments, slot_component in HD.
  destruct (ResolveBoxComponent _ _ _ _) as [[rc|]|e]; try by apply wp_Ret.
  destruct (IsColocated rc); [by apply wp_Ret|]. cbv zeta in *.
  apply wp_bind, wp_respects; [apply readonly_persisting, applyInlineConfigMaps_readonly|].
  intros [[names drift]|e] h'; [|by apply wp_Ret].
  destruct (RenderDeployments ctx _ _) as [rendered|e]; [|by apply wp_Ret].
  apply (wp_foldP _ (λ _ _, True)); [done| |done]. intros acc d h1 Hd _.
  apply reconcile_deployment_persists, HD, list_elem_of_fmap. eauto.
Qed.

Lemma run_pass_persists plans : respects persisting (run_pass env nodes enabled plans).
Proof.
  intros h. unfold run_pass. apply wp_bind, (wp_foldPR _ (λ _ _, True)); [done| |].
  - intros st node h' Hnode _. unfold reconcile_node. fold (pass_context env node).
    destruct (pass_context env node) as [ctx|e] eqn:Ectx; [|by apply wp_Ret, wp_Ret].
    apply wp_bind, (wp_foldP _ (λ _ _, True)); [done| |].
    + intros acc ref h1 Href _. apply reconcile_ref_persists. intros d Hd. apply elem_of_on_nodes. eauto 8.
    + intros [st' ns] h1 _. by apply wp_Ret.
  - intros st h1 _. apply wp_bind, wp_respects; [apply readonly_persisting, collectPods_readonly|].
    intros [pods|e] h2; destruct (lo_errs st);
      (apply readonly_persisting; first [apply finish_pass_readonly|apply fail_pass_readonly]).
Qed.

Lemma normalize_meta d on installation : d_Meta (normalizeDeploymentReplicas d on installation) = d_Meta d.
Proof. by destruct on, installation. Qed.

(** The wanted Deployments have the installation as their controller. *)
Lemma wanted_owned : or_Controller (re_owner env) = Some true → ∀ d, d ∈ D → is_Some (GetControllerOf (d_Meta d)).
Proof.
  intros Ho d (node & ctx & ref & _ & Ectx & _ & Hd)%elem_of_on_nodes.
  unfold slot_deployments, slot_component in Hd.
  destruct (ResolveBoxComponent _ _ _ _) as [[rc|]|e]; [|by apply elem_of_nil in Hd..].
  destruct (IsColocated rc) eqn:Eco; [by apply elem_of_nil in Hd|]. cbv zeta in Hd.
  destruct (RenderDeployments ctx _ _) as [ds|] eqn:Eds; [|by apply elem_of_nil in Hd].
  apply rendered_instances in Eds; [|by apply bool_decide_eq_false_1 in Eco].
  apply list_elem_of_fmap in Hd as (d0 & -> & Hd0).
  apply list_elem_of_lookup in Hd0 as [i Hi]. destruct (Forall2_lookup_r _ _ _ _ _ Eds Hi) as (numa & _ & Hinst).
  destruct Hinst as (_ & _ & Hown & _). destruct (pass_context_fields _ _ _ Ectx) as (_ & _ & Eo). rewrite Eo in Hown.
  rewrite normalize_meta. destruct (GetControllerOf (d_Meta d0)) as [o|] eqn:E; [by eexists|].
  exfalso. apply (GetControllerOf_None _ (re_owner env) E); [rewrite Hown; set_solver|done].
Qed.
End persisted.

(** C16: a pass converges.  Take any run of the pass over the nodes, against a server that defaults
    Deployment specs by some function, without a stop.  Every Deployment it creates or updates is a
    settled form of one the configuration wants; and once every read finds wanted Deployments settled
    (whoever settled them), inline ConfigMaps as wanted, and nothing owned beside them, the pass
    changes no workload, does not consult the update window, and every status it writes reports
    everything as synced.  API defaults and foreign metadata never turn into perpetual drift. *)
Theorem passes_converge `{MetaLib, ClientUtil, PatchLib, QuantityLib, K8sValidation, MapOrder}
    (defaulted : DeploymentSpec → DeploymentSpec) (cfg : YanetConfigSpec) (yanet : Yanet)
    (nodes : list Node) (enabled : list ComponentRef) (plans : gmap string ServicePlan) (t : trace) (r : outcome) :
  let env := make_env cfg yanet in
  run (run_pass env nodes enabled plans) t r →
  (∀ d, d ∈ wanted_deployments env nodes enabled →
     plain_keys (om_Labels (d_Meta d)) ∧ plain_keys (om_Annotations (d_Meta d))) →
  (Forall (admits defaulted) t → Forall (λ e, persists defaulted env nodes enabled (ev_call e)) t)
  ∧ (Forall (settled_world defaulted env nodes enabled) t → Forall (λ e, undisturbing (ev_call e)) t).
Proof.
  intros env Hr Hplain. split; intros Ht; apply Forall_forall; intros e He; apply list_elem_of_split in He as (t1 & t2 & ->);
    apply Forall_app in Ht as [Ht _].
  - destruct (wp_sound _ _ _ _ _ (run_pass_persists defaulted env nodes enabled plans []) Hr) as [Hg _].
    by apply (Hg t1 e t2).
  - assert (Hown : ∀ d, d ∈ wanted_deployments env nodes enabled → is_Some (GetControllerOf (d_Meta d))) by (by apply wanted_owned).
    destruct (wp_sound _ _ _ _ _ (run_pass_rests defaulted env nodes enabled Hown Hplain plans []) Hr) as [Hg _].
    by apply (Hg t1 e t2).
Qed.

(** ** Two passes over the example cluster *)
Module Passes.
Import Concrete.

Definition env : reconcile_env := make_env Fake.small_config (Fake.small_yanet true None).
Definition nodes : list Node := [MkNode "n" ∅ ∅].
Definition refs : list ComponentRef :=
  match EnabledComponentsForBox Fake.small_config "mini" with Ok refs => refs | Err _ => [] end.
Definition wanted : list Deployment := wanted_deployments env nodes refs.

(** The first pass creates the Deployments, the second finds them. *)
Definition pass : prog outcome := run_pass env nodes refs ∅.
Definition created : Fake.cluster := (exec Fake.server (Fake.small true None) pass).1.1.
Definition second : trace := (exec Fake.server created pass).1.2.

(** The example server stores specs as they are. *)
Definition settled_check (desired stored : Deployment) : bool :=
  let merged := mergeManagedMeta (d_Meta desired) (d_Meta desired) in
  bool_decide (d_Spec stored = d_Spec desired)
  && bool_decide (om_OwnerReferences (d_Meta stored) = om_OwnerReferences (d_Meta desired))
  && bool_decide (om_Labels (d_Meta stored) = om_Labels merged)
  && bool_decide (om_Annotations (d_Meta stored) = om_Annotations merged).

Lemma settled_check_sound desired stored : settled_check desired stored = true → settled id desired stored.
Proof.
  unfold settled_check. rewrite !andb_true_iff, !bool_decide_eq_true. intros [[[Hs Ho] Hl] Ha].
  split_and!; [done|done|]. by exists (d_Meta desired).
Qed.

Definition world_check (ds : list Deployment) (e : event) : bool :=
  match e with
  | Ev ReadGlobal g => negb (stopped g)
  | Ev (GetDeployment _ name) (Ok live) =>
      forallb (λ d, negb (bool_decide (name = d_Name d)) || settled_check d live) ds
  | Ev (GetDeployment _ _) _ | Ev (UpdateDeployment true _) _ | Ev (GetConfigMap _ _) _ => false
  | Ev (ListDeployments _) (Ok deps) =>
      forallb (λ d, negb (controlledByYanet (d_Meta d) (re_yanet env)) || existsb (λ w, bool_decide (d_Name w = d_Name d)) ds) deps
  | Ev (ListConfigMaps _ _) (Ok cms) => forallb (λ c, negb (controlledByYanet (cm_Meta c) (re_yanet env))) cms
  | _ => true
  end.

Lemma world_check_sound e : world_check wanted e = true → settled_world id env nodes refs e.
Proof.
  intros Hw. split_and!.
  - destruct e as [c a]; destruct c; simpl in Hw; try done; [by apply negb_true_iff|]. by destruct dryRun.
  - intros d Hd. destruct e as [c a]; destruct c; try done. intros _ ->. simpl in Hw. destruct a as [live|]; [|done].
    exists live. split; [done|]. apply settled_check_sound. rewrite List.forallb_forall in Hw.
    specialize (Hw d (proj1 (list_elem_of_In _ _) Hd)). by rewrite bool_decide_true in Hw.
  - destruct e as [c a]; destruct c; cbn [world_check] in Hw; try done.
    + destruct a as [deps|]; [|done]. intros d Hd Hc. rewrite List.forallb_forall in Hw.
      specialize (Hw d (proj1 (list_elem_of_In _ _) Hd)). rewrite Hc in Hw. cbn [negb orb] in Hw.
      apply existsb_exists in Hw as (w & Hin & Hn). exists w. split; [by apply list_elem_of_In|].
      by apply bool_decide_eq_true_1 in Hn.
    + destruct a as [cms|]; [|done]. intros c Hin Hc. rewrite List.forallb_forall in Hw.
      specialize (Hw c (proj1 (list_elem_of_In _ _) Hin)). by rewrite Hc in Hw.
Qed.

Lemma second_settled : Forall (settled_world id env nodes refs) second.
Proof.
  assert (Hw : forallb (world_check wanted) second = true) by (vm_compute; reflexivity).
  rewrite List.forallb_forall in Hw. apply Forall_forall. intros e He.
  apply world_check_sound, Hw. exact (proj1 (list_elem_of_In _ _) He).
Qed.

Lemma wanted_plain d : d ∈ wanted → plain_keys (om_Labels (d_Meta d)) ∧ plain_keys (om_Annotations (d_Meta d)).
Proof.
  assert (Hw : forallb (λ d, forallb (λ k, bool_decide (k ≠ "") && negb (contains_char "," k))
    ((map_to_list (om_Labels (d_Meta d))).*1 ++ (map_to_list (om_Annotations (d_Meta d))).*1)) wanted = true)
    by (vm_compute; reflexivity).
  intros Hd. rewrite List.forallb_forall in Hw. specialize (Hw d (proj1 (list_elem_of_In _ _) Hd)).
  rewrite forallb_app, andb_true_iff in Hw. destruct Hw. split; by apply plain_keys_check.
Qed.
End Passes.

Import Concrete.

Lemma passes_converge_witness :
  length Passes.wanted = 2%nat ∧ Forall (λ e, undisturbing (ev_call e)) Passes.second.
Proof.
  split; [vm_compute; reflexivity|].
  refine (proj2 (passes_converge id Fake.small_config (Fake.small_yanet true None) Passes.nodes Passes.refs ∅
            Passes.second (exec Fake.server Passes.created Passes.pass).2 _ _) Passes.second_settled).
  - exact (exec_run Fake.server Passes.created Passes.pass).
  - exact Passes.wanted_plain.
Defined.
