(* ===== verification/ResolveSpec.v ===== *)
(** * Resolution and sizing

    Which dataplane palettes resolve and to what, the port slots of the resolved
    sidecars, the hugepages a dataplane asks for, and the names of generated
    objects. *)

From Stdlib Require Import Ascii.
From S2P Require Import Prelude GoLib Sha256 K8s Api Resolve Labels Listeners Builder Service Render.
From S2P Require Import LabelsSpec PodsSpec RenderSpec Instances.
#[local] Open Scope Z_scope.

(** ** Dataplane sidecars *)

Definition valid_listeners (listeners : option (list string)) : Prop :=
  match listeners with
  | None => True
  | Some l => NoDup l ∧ ∀ x, x ∈ l → x = "grpc" ∨ x = "http"
  end.

Lemma ValidateListeners_Ok name l : ValidateListeners name l = Ok tt ↔ valid_listeners l.
Proof.
  destruct l as [l|]; simpl; [|done].
  pose proof (collect_names_Ok (A := string) id (λ x, bool_decide (x ≠ "grpc") && bool_decide (x ≠ "http"))
    (λ listener, Errorf "role %q has unsupported or duplicate listener %q" [AStr name; AStr listener]) l ∅) as Hc.
  rewrite bind_Ok. split.
  - intros (s & E & _). apply Hc in E as (H1 & H2 & _). rewrite list_fmap_id in H2. split; [done|].
    intros x Hx. specialize (H1 x Hx). apply andb_false_iff in H1 as [H1|H1];
      apply bool_decide_eq_false_1, dec_stable in H1; auto.
  - intros [H1 H2]. eexists. split; [|done]. apply Hc. rewrite list_fmap_id. split_and!; [|done|set_solver|done].
    intros x Hx. apply andb_false_iff. destruct (H2 x Hx) as [-> | ->]; [left|right]; by apply bool_decide_eq_false_2; intros [].
Qed.

Section sidecars.
Context `{MapOrder}.
Variables (config : YanetConfigSpec) (yanet : YanetSpec) (slot : BoxDataplane).

Notation step := (resolve_sidecar_step config yanet slot).
Notation keys l := (ShortNodeKey ∘ sd_Name <$> l).

(** The state of the loop after a prefix of the palette. *)
Definition resolved_prefix (l : list SidecarSpec)
    (st : gset string * gmap string string * list ResolvedComponent) : Prop :=
  let '(declared, identities, resolved) := st in
  NoDup (keys l) ∧ (∀ s, s ∈ l → valid_listeners (sd_Listeners s))
  ∧ declared = list_to_set (sd_Name <$> l) ∧ dom identities = list_to_set (keys l)
  ∧ resolved = imap (resolve_sidecar config yanet slot) l.

Lemma resolve_step_iff l s st :
  resolved_prefix l st →
  (∃ st', step st (length l, s) = Ok st') ↔
  ShortNodeKey (sd_Name s) ∉ keys l ∧ valid_listeners (sd_Listeners s).
Proof.
  destruct st as [[declared identities] resolved]. intros (H1 & H2 & -> & H4 & ->).
  unfold resolve_sidecar_step. rewrite <-(ValidateListeners_Ok (sd_Name s)).
  assert (Hid : ∀ k, identities !! k = None ↔ k ∉ keys l).
  { intros k. rewrite <-not_elem_of_dom, H4. by rewrite elem_of_list_to_set. }
  case_bool_decide as Hd; simpl.
  - split; [by intros []|]. intros [Hk _]. destruct Hk. apply elem_of_list_to_set in Hd.
    apply list_elem_of_fmap in Hd as (x & -> & Hx). apply list_elem_of_fmap. by exists x.
  - destruct (identities !! ShortNodeKey (sd_Name s)) eqn:E.
    + split; [by intros []|]. intros [Hk _]. apply Hid in Hk. congruence.
    + apply Hid in E. destruct (ValidateListeners _ _) as [[]|]; simpl; naive_solver.
Qed.

Lemma resolve_step_inv l s st st' :
  resolved_prefix l st → step st (length l, s) = Ok st' → resolved_prefix (l ++ [s]) st'.
Proof.
  intros Hp E. destruct (proj1 (resolve_step_iff l s st Hp)) as [Hk Hl]; [eauto|].
  destruct st as [[declared identities] resolved]. destruct Hp as (H1 & H2 & -> & H4 & ->).
  unfold resolve_sidecar_step in E. inv_ok.
  destruct (identities !! ShortNodeKey (sd_Name s)); [done|]. inv_ok. unfold resolved_prefix. rewrite !fmap_app. split_and!.
  - apply NoDup_app. split_and!; [done| |apply NoDup_singleton]. set_solver.
  - set_solver.
  - rewrite list_to_set_app_L. simpl. set_solver.
  - rewrite dom_insert_L, H4, list_to_set_app_L. simpl. set_solver.
  - rewrite imap_app. simpl. by rewrite Nat.add_0_r.
Qed.

Lemma resolved_prefix_nil : resolved_prefix [] (∅, ∅, []).
Proof. unfold resolved_prefix. split_and!; try done; [constructor|set_solver]. Qed.

(** The loop over the palette runs to its end exactly on palettes without a
    duplicate identity or a bad listener. *)
Lemma resolve_loop l :
  (∀ st, foldM step (∅, ∅, []) (enumerate l) = Ok st → resolved_prefix l st)
  ∧ (NoDup (keys l) → (∀ s, s ∈ l → valid_listeners (sd_Listeners s)) →
     ∃ st, foldM step (∅, ∅, []) (enumerate l) = Ok st).
Proof.
  induction l as [|s l [IH1 IH2]] using rev_ind.
  { split; [intros st [= <-]; apply resolved_prefix_nil|eauto]. }
  rewrite enumerate_snoc, foldM_app. split.
  - intros st (st0 & E0 & E)%bind_Ok. simpl in E. apply bind_Ok in E as (st1 & E & [= <-]).
    eapply resolve_step_inv; eauto.
  - rewrite fmap_app, NoDup_app. intros (Hn & Hd & _) Hl. destruct IH2 as [st0 E0]; [done|set_solver|].
    rewrite E0. cbn [mbind result_bind].
    destruct (proj2 (resolve_step_iff l s st0 (IH1 _ E0))) as [st E]; [|exists st; simpl; by rewrite E].
    split; [|set_solver]. intros Hin. apply (Hd _ Hin). set_solver.
Qed.
End sidecars.

(** C33: the sidecars of a dataplane resolve exactly when the palette fits the port
    range, no two sidecars share a role identity, every listener list is a set of
    known protocols and every sidecar the box wires is declared; the result is then
    every sidecar of the palette in order, each on the port slot of its position,
    whether or not the box wires or enables it. *)
Theorem sidecar_resolution_exact `{MapOrder} (config : YanetConfigSpec) (yanet : YanetSpec) (slot : BoxDataplane)
    (box : string) (resolved : list ResolvedComponent) :
  let palette := dpl_Sidecars (cmp_Dataplane (yc_Components config)) in
  resolveDataplaneSidecars config yanet slot box = Ok resolved ↔
  Z.of_nat (length palette) ≤ MaxDataplaneSidecars
  ∧ NoDup (ShortNodeKey ∘ sd_Name <$> palette)
  ∧ (∀ s, s ∈ palette → valid_listeners (sd_Listeners s))
  ∧ (∀ name, is_Some (bd_Sidecars slot !! name) → name ∈ sd_Name <$> palette)
  ∧ resolved = imap (resolve_sidecar config yanet slot) palette.
Proof.
  intros palette. unfold resolveDataplaneSidecars. fold palette.
  destruct (resolve_loop config yanet slot palette) as [Hl Ht]. split.
  - intros E. apply bind_Ok in E as ([] & E1 & E). apply err_if_Ok, bool_decide_eq_false_1 in E1.
    apply bind_Ok in E as ([[declared ids] res] & E2 & E). apply bind_Ok in E as ([] & E3 & [= ->]).
    destruct (Hl _ E2) as (H1 & H2 & -> & _ & ->). split_and!; [lia|done..| |done].
    intros name [x Hx]. pose proof (proj1 (check_all_range _ _) E3 name x Hx) as E4.
    apply err_if_Ok, bool_decide_eq_false_1, dec_stable in E4. by apply elem_of_list_to_set in E4.
  - intros (H0 & H1 & H2 & H3 & ->). destruct (Ht H1 H2) as [[[declared ids] res] E].
    rewrite bool_decide_false by lia. rewrite E. destruct (Hl _ E) as (_ & _ & -> & _ & ->). simpl.
    rewrite (proj2 (check_all_range _ _)); [done|]. intros name x Hx. apply err_if_Ok, bool_decide_eq_false_2.
    rewrite elem_of_list_to_set. intros Hn. apply Hn, H3. eauto.
Qed.

(** ** Port slots *)

Lemma resolved_sidecar_slot `{MapOrder} config yanet slot box resolved i a :
  resolveDataplaneSidecars config yanet slot box = Ok resolved → resolved !! i = Some a →
  IsColocated a = true ∧ rc_PortIndex a = Z.of_nat i ∧ Z.of_nat i < MaxDataplaneSidecars.
Proof.
  unfold resolveDataplaneSidecars. intros E Hi. apply bind_Ok in E as ([] & E1 & E).
  apply err_if_Ok, bool_decide_eq_false_1 in E1.
  apply bind_Ok in E as ([[declared ids] res] & E2 & E). apply bind_Ok in E as ([] & _ & [= ->]).
  apply (proj1 (resolve_loop config yanet slot _)) in E2 as (_ & _ & _ & _ & ->).
  rewrite list_lookup_imap in Hi. apply fmap_Some in Hi as (s & Hs & ->). apply lookup_lt_Some in Hs.
  split_and!; [done..|lia].
Qed.

Lemma slot_pair a i :
  IsColocated a = true → rc_PortIndex a = i → 0 ≤ i < MaxDataplaneSidecars →
  runtimePortPair a = Ok (RuntimeGRPCPort + 2 * i, RuntimeHTTPPort + 2 * i) ∧ RuntimeHTTPPort + 2 * i ≤ 65535.
Proof.
  intros Hc Hidx Hi. unfold runtimePortPair. rewrite Hc, Hidx.
  change MaxDataplaneSidecars with 28728 in *. rewrite !bool_decide_false by lia. simpl.
  unfold ServiceGRPCPort, ServiceHTTPPort, RuntimeGRPCPort, RuntimeHTTPPort.
  rewrite (wrap_int32_id i) by (unfold is_int32; lia). rewrite (wrap_int32_id (2 * i)) by (unfold is_int32; lia).
  rewrite !wrap_int32_id by (unfold is_int32; lia). split; [done|lia].
Qed.

(** Every sidecar of a resolved palette gets a pair of ports of its own: all in
    the valid range without any int32 wrap-around, and no port of one sidecar equals a
    port of another. *)
Theorem sidecar_ports_are_disjoint `{MapOrder} (config : YanetConfigSpec) (yanet : YanetSpec) (slot : BoxDataplane)
    (box : string) (resolved : list ResolvedComponent) (i j : nat) (a b : ResolvedComponent) :
  resolveDataplaneSidecars config yanet slot box = Ok resolved →
  resolved !! i = Some a → resolved !! j = Some b → i ≠ j →
  ∃ ga ha gb hb, runtimePortPair a = Ok (ga, ha) ∧ runtimePortPair b = Ok (gb, hb)
    ∧ NoDup [ga; ha; gb; hb] ∧ Forall (λ p, RuntimeGRPCPort ≤ p ≤ 65535) [ga; ha; gb; hb].
Proof.
  intros E Hi Hj Hne. destruct (resolved_sidecar_slot _ _ _ _ _ _ _ E Hi) as (Ca & Ia & La).
  destruct (resolved_sidecar_slot _ _ _ _ _ _ _ E Hj) as (Cb & Ib & Lb).
  destruct (slot_pair a _ Ca Ia) as [Pa Ma]; [lia|]. destruct (slot_pair b _ Cb Ib) as [Pb Mb]; [lia|].
  do 4 eexists. split_and!; [exact Pa|exact Pb| |].
  - unfold RuntimeGRPCPort, RuntimeHTTPPort. rewrite !NoDup_cons, !not_elem_of_cons.
    split_and!; try apply not_elem_of_nil; try apply NoDup_nil_2; lia.
  - unfold RuntimeGRPCPort, RuntimeHTTPPort in *. repeat constructor; lia.
Qed.

(** ** Hugepages *)

Section hugepages.
Context `{QuantityLib, MapOrder}.

(** The total is the exact product, and it fits an int64. *)
Lemma TotalQuantity_exact h q :
  TotalQuantity h = Ok q →
  ∃ page, ParseQuantity (hg_Size h) = Ok (MkQuantity (page * nano)) ∧ 0 < page ∧ 0 < hg_Count h
    ∧ page * hg_Count h ≤ MaxInt64 ∧ q = MkQuantity (page * hg_Count h * nano)
    ∧ QValue (MkQuantity (page * nano)) = page.
Proof.
  unfold TotalQuantity. intros E. inv_ok. rename a into page.
  match goal with Hx : ¬ QCmp _ _ ≠ Eq |- _ => rename Hx into Hcmp end. apply dec_stable in Hcmp.
  rewrite QCmp_spec, NewQuantity_spec, Z.compare_eq_iff in Hcmp. simpl in Hcmp. destruct page as [n]. simpl in Hcmp.
  set (p := QValue (MkQuantity n)) in *. exists p. rewrite Hcmp. unfold go_div in *.
  assert (Hle : p * hg_Count h ≤ MaxInt64).
  { rewrite Z.quot_div_nonneg in * by (unfold MaxInt64; lia).
    transitivity (MaxInt64 / hg_Count h * hg_Count h); [nia|]. rewrite Z.mul_comm. apply Z.mul_div_le. lia. }
  split_and!; [done|lia..|done| |done].
  rewrite NewQuantity_spec, wrap_int64_id; [done|]. unfold is_int64, MaxInt64 in *. nia.
Qed.

Lemma TotalQuantity_intro size count page :
  ParseQuantity size = Ok (MkQuantity (page * nano)) → QValue (MkQuantity (page * nano)) = page →
  0 < page → 0 < count → page * count ≤ MaxInt64 →
  TotalQuantity (MkHugepages size count) = Ok (MkQuantity (page * count * nano)).
Proof.
  intros Hp Hv Hpos Hc Hle. unfold TotalQuantity. simpl. rewrite Hp. simpl. rewrite Hv.
  rewrite QSign_spec, QCmp_spec, !NewQuantity_spec. cbn [q_nano]. rewrite Z.compare_refl.
  rewrite (bool_decide_false (Z.sgn (page * nano) ≤ 0)) by (unfold nano; lia).
  simpl. rewrite (bool_decide_false (count ≤ 0)) by lia. simpl. rewrite (bool_decide_false (page ≤ 0)) by lia.
  simpl. rewrite bool_decide_false.
  2:{ unfold go_div. rewrite Z.quot_div_nonneg by (unfold MaxInt64; lia).
      assert (page ≤ MaxInt64 / count) by (apply Z.div_le_lower_bound; lia). lia. }
  simpl. rewrite wrap_int64_id; [done|]. unfold is_int64, MaxInt64 in *. nia.
Qed.

(** The page count the node supports, for one page size. *)
Lemma whole_node_pages size q page bytes count :
  TotalQuantity (MkHugepages size 1) = Ok page → AsInt64 q = Some bytes → count = go_div bytes (QValue page) →
  go_mod bytes (QValue page) = 0 → 1 ≤ count → TotalQuantity (MkHugepages size count) = Ok q.
Proof.
  intros (p & Hp & Hpos & _ & Hle & -> & Hv)%TotalQuantity_exact [Hq Hb]%AsInt64_exact -> Hmod Hc. simpl in *.
  rewrite Z.mul_1_r in *. rewrite Hv in *. unfold go_div, go_mod in *.
  assert (Hprod : p * (bytes ÷ p) = bytes) by (pose proof (Z.quot_rem' bytes p); lia).
  rewrite (TotalQuantity_intro size _ p) by (try done; unfold is_int64, MaxInt64 in *; lia).
  rewrite Hprod. f_equal. destruct q. simpl in *. by f_equal.
Qed.
End hugepages.

(** C34: a dataplane that leaves the hugepage count to the operator asks for exactly
    what its node has: the resolved size is the requested one or, without a request, the
    only size of which the node has any pages at all; the resolved count is in int32
    range; and count times size is the node's allocatable quantity of that size to the
    byte. *)
Theorem automatic_hugepages_are_exact `{QuantityLib, MapOrder} (ctx : BuildContext)
    (requested : option Hugepages) (h : Hugepages) :
  resolveNodeHugepages ctx requested = Ok (Some h) → (∀ r, requested = Some r → hg_Count r = 0) →
  ∃ q, bx_NodeAllocatable ctx !! (ResourceHugePagesPrefix +:+ hg_Size h) = Some q
    ∧ TotalQuantity h = Ok q ∧ 1 ≤ hg_Count h ≤ MaxInt32
    ∧ (∀ r, requested = Some r → hg_Size h = hg_Size r)
    ∧ (requested = None → ∀ size q', bx_NodeAllocatable ctx !! (ResourceHugePagesPrefix +:+ size) = Some q' →
         0 < q_nano q' → size = hg_Size h).
Proof.
  unfold resolveNodeHugepages. intros E Hreq.
  assert (Hauto : ∀ r, node_hugepages ctx r = Ok (Some h) →
    hg_Size h = hg_Size r ∧ 1 ≤ hg_Count h ≤ MaxInt32
    ∧ ∃ q, bx_NodeAllocatable ctx !! (ResourceHugePagesPrefix +:+ hg_Size h) = Some q ∧ TotalQuantity h = Ok q).
  { clear E. intros r E. unfold node_hugepages in E. simpl in E.
    apply bind_Ok in E as (page & Hpage & E). apply bind_Ok in E as ([] & Hs%err_if_Ok%bool_decide_eq_false_1 & E).
    destruct (bx_NodeAllocatable ctx !! (ResourceHugePagesPrefix +:+ hg_Size r)) as [q|] eqn:Hq; simpl in *.
    2:{ rewrite QSign_spec in Hs. simpl in Hs. lia. }
    destruct (AsInt64 q) as [bytes|] eqn:Hb; [|done].
    apply bind_Ok in E as ([] & Hm%err_if_Ok%bool_decide_eq_false_1%dec_stable & E).
    apply bind_Ok in E as ([] & Hc & E). apply err_if_Ok, range_false in Hc.
    rewrite wrap_int32_id in E by (unfold is_int32, MaxInt32 in *; lia). injection E as <-. simpl.
    split_and!; [done|lia..|]. exists q. split; [done|]. eapply whole_node_pages; eauto. lia. }
  destruct requested as [r|].
  - rewrite bool_decide_false in E by (intros Hn; by apply Hn, Hreq).
    destruct (Hauto r E) as (? & ? & q & ? & ?). exists q. split_and!; try done || lia. intros r' [= <-]. done.
  - match type of E with match ?l with _ => _ end = _ => destruct l as [|size [|]] eqn:El end; [done| |done].
    destruct (Hauto _ E) as (Hs & ? & q & ? & ?). simpl in Hs. exists q. split_and!; try done || lia.
    intros _ size' q' Hq' Hpos. rewrite Hs. apply list_elem_of_singleton. rewrite <-El.
    apply list_elem_of_fmap. exists (ResourceHugePagesPrefix +:+ size', q'). split; [cbn [fst]; by rewrite TrimPrefix_app|].
    apply list_elem_of_filter. split; [split; [cbn [fst]; by rewrite HasPrefix_app|cbn [snd]; rewrite QSign_spec; lia]|by apply elem_of_map_range].
Qed.

(** ** Names *)

Lemma round_length s kw : length s = 8%nat → length (Sha256.round s kw) = 8%nat.
Proof. intros Hs. do 9 (destruct s as [|? s]; try discriminate Hs). done. Qed.

Lemma compress_length h block : length h = 8%nat → length (Sha256.compress h block) = 8%nat.
Proof.
  intros Hh. unfold Sha256.compress. rewrite length_zip_with, Hh.
  assert (Hf : ∀ l s, length s = 8%nat → length (foldl Sha256.round s l) = 8%nat).
  { induction l as [|x l IH]; intros s Hs; [done|]. apply IH. by apply round_length. }
  by rewrite Hf.
Qed.

Lemma foldl_compress_length bs h : length h = 8%nat → length (foldl Sha256.compress h bs) = 8%nat.
Proof. revert h. induction bs as [|b bs IH]; intros h Hh; [done|]. apply IH. by apply compress_length. Qed.

Lemma length_sum256 msg : length (Sha256.sum256 msg) = 32%nat.
Proof.
  unfold Sha256.sum256. set (words := foldl _ _ _).
  assert (Hw : length words = 8%nat) by (by apply foldl_compress_length). clearbody words.
  do 9 (destruct words as [|? words]; try discriminate Hw). done.
Qed.

Lemma slen_hex_encode l : slen (hex_encode l) = (2 * length l)%nat.
Proof. induction l as [|b l IH]; simpl; [done|]. rewrite IH. lia. Qed.

Lemma slen_shortHash s : slen (shortHash s) = 8%nat.
Proof. unfold shortHash, ShortNodeKey. by rewrite slen_hex_encode, length_take, length_sum256. Qed.

(** The hash starts with a hexadecimal digit. *)
Lemma shortHash_head s : ∃ a t, shortHash s = String a t ∧ a ≠ "-"%char.
Proof.
  unfold shortHash, ShortNodeKey, Sha256.sum256. set (words := foldl _ _ _).
  assert (Hw : length words = 8%nat) by (by apply foldl_compress_length). clearbody words.
  destruct words as [|w words]; [done|]. cbn [fmap list_fmap mjoin list_join app Sha256.be_bytes take hex_encode].
  do 2 eexists. split; [reflexivity|]. set (b := Z.land _ 255).
  assert (Hb : 0 ≤ b < 256).
  { unfold b. change 255 with (Z.ones 8). rewrite Z.land_ones by lia. apply Z.mod_pos_bound. lia. }
  clearbody b. assert (Hd : 0 ≤ Z.shiftr b 4 < 16).
  { rewrite Z.shiftr_div_pow2 by lia. split; [apply Z.div_pos; lia|]. apply Z.div_lt_upper_bound; lia. }
  set (d := Z.shiftr b 4) in *. clearbody d. clear b Hb Hw words w.
  assert (Hcases : d ∈ seqZ 0 16) by (apply elem_of_seqZ; lia). clear Hd. unfold hex_digit. intros Heq.
  assert (Hall : Forall (λ d, ascii_of_N (Z.to_N (if d <? 10 then 48 + d else 87 + d)) ≠ "-"%char) (seqZ 0 16)).
  { by apply (bool_decide_eq_true_1 _). }
  rewrite Forall_forall in Hall. by apply (Hall d Hcases).
Qed.

(** Trimming stops at the last other character. *)
Lemma TrimRight_stops c (a : Ascii.ascii) p t :
  a ≠ c → ∃ t', TrimRight (p +:+ String a t) c = p +:+ String a t'.
Proof.
  intros Ha. induction p as [|b p IH].
  - change ("" +:+ String a t) with (String a t). simpl. destruct (TrimRight t c) eqn:E.
    + rewrite decide_False by done. by exists "".
    + by eexists.
  - destruct IH as [t' IH]. exists t'. change (String b p +:+ String a t) with (String b (p +:+ String a t)).
    simpl. rewrite IH. destruct (p +:+ String a t') eqn:E; [destruct p; discriminate E|]. by rewrite <-E.
Qed.

(** The names the operator derives for scoped containers, volumes and shared
    Services fit the 63 bytes of a DNS label whatever the length of the role, box and
    container names, and a scoped name always keeps the prefix by which managed
    sidecars are recognised. *)
Theorem derived_names_fit (operator name boxType component : string) (numa : option Z) :
  (slen (scopedOperatorName operator name) ≤ 63)%nat
  ∧ isManagedNativeContainer (scopedOperatorName operator name) = true
  ∧ (slen (SharedServiceName boxType component numa) ≤ 63)%nat.
Proof.
  assert (Hcut : ∀ s n, (n + 9 ≤ 63)%nat → (slen (TrimRight (take_str n s) "-"%char +:+ "-" +:+ shortHash s) ≤ 63)%nat).
  { intros s n Hn. rewrite !slen_app, slen_shortHash. pose proof (slen_TrimRight (take_str n s) "-"%char).
    rewrite slen_take in *. simpl. lia. }
  split_and!.
  - unfold scopedOperatorName. destruct (_ <? _)%nat eqn:E; [apply Hcut; lia|]. apply Nat.ltb_ge in E. lia.
  - unfold isManagedNativeContainer, scopedOperatorName.
    destruct (shortHash_head operator) as (a & t & -> & Ha). destruct (_ <? _)%nat; [|apply HasPrefix_app].
    change (operatorContainerPrefix +:+ String a t +:+ "-" +:+ name) with
      (operatorContainerPrefix +:+ String a (t +:+ "-" +:+ name)).
    set (tail := shortHash _). set (rest := t +:+ "-" +:+ name).
    change (take_str 54 (operatorContainerPrefix +:+ String a rest)) with
      (operatorContainerPrefix +:+ String a (take_str 50 rest)).
    destruct (TrimRight_stops "-" a operatorContainerPrefix (take_str 50 rest) Ha) as [t' ->].
    rewrite <-app_str_assoc. apply HasPrefix_app.
  - unfold SharedServiceName. set (full := match numa with Some _ => _ | None => _ end).
    destruct (_ <=? _)%nat eqn:E; [by apply Nat.leb_le in E|]. apply Hcut. lia.
Qed.

(** ** Witnesses *)

Import Concrete.

Definition sample_slot : BoxDataplane :=
  match bcs_Dataplane (bt_Components Sample.box) with Some slot => slot | None => MkBoxDataplane [] ∅ end.

Lemma sidecar_ports_are_disjoint_witness :
  ∃ resolved a b, resolveDataplaneSidecars Sample.config Sample.spec sample_slot "release" = Ok resolved
    ∧ resolved !! 0%nat = Some a ∧ resolved !! 2%nat = Some b
    ∧ ∃ ga ha gb hb, runtimePortPair a = Ok (ga, ha) ∧ runtimePortPair b = Ok (gb, hb)
      ∧ NoDup [ga; ha; gb; hb] ∧ Forall (λ p, RuntimeGRPCPort ≤ p ≤ 65535) [ga; ha; gb; hb].
Proof.
  destruct (proj1 (is_ok_spec (resolveDataplaneSidecars Sample.config Sample.spec sample_slot "release")))
    as [resolved E]; [vm_compute; reflexivity|].
  assert (Hlen : length resolved = 3%nat).
  { assert (Hl : length <$> resolveDataplaneSidecars Sample.config Sample.spec sample_slot "release" = Ok 3%nat)
      by (vm_compute; reflexivity). rewrite E in Hl. by injection Hl. }
  destruct resolved as [|a [|m [|b rest]]]; try discriminate Hlen. exists (a :: m :: b :: rest), a, b.
  split_and!; [exact E|reflexivity..|].
  apply (sidecar_ports_are_disjoint _ _ _ _ _ 0 2 a b E eq_refl eq_refl). discriminate.
Defined.

(** A node with eight gibibytes of 1Gi pages. *)
Definition huge_ctx : BuildContext :=
  MkBuildContext "w" "ns" "release" "node-a"
    {["hugepages-1Gi" := MkQuantity (8 * 1073741824 * nano)]} "" [] Sample.owner [].

Lemma automatic_hugepages_are_exact_witness :
  ∃ q, bx_NodeAllocatable huge_ctx !! (ResourceHugePagesPrefix +:+ "1Gi") = Some q
    ∧ TotalQuantity (MkHugepages "1Gi" 8) = Ok q ∧ 1 ≤ 8 ≤ MaxInt32
    ∧ (∀ r, None = Some r → "1Gi" = hg_Size r)
    ∧ ((None : option Hugepages) = None → ∀ size q', bx_NodeAllocatable huge_ctx !! (ResourceHugePagesPrefix +:+ size) = Some q' →
         0 < q_nano q' → size = "1Gi").
Proof.
  apply (automatic_hugepages_are_exact huge_ctx None (MkHugepages "1Gi" 8)).
  - vm_compute. reflexivity.
  - intros r Hr. discriminate Hr.
Defined.
