(* ===== verification/SidecarSpec.v ===== *)
(** * Sidecars of the dataplane Pod

    A sidecar role has no Deployment of its own: it is composed into the dataplane
    Pod and its shared Service selects that Pod by a membership label.  The composed
    Pod carries the label and the ports of every enabled sidecar, through patches,
    overrides and the configuration of its neighbours. *)

From S2P Require Import Prelude GoLib Sha256 K8s Api Resolve Labels Listeners Builder Service Render.
From S2P Require Import LabelsSpec PodsSpec RenderSpec ResolveSpec Instances.
#[local] Open Scope Z_scope.

(** ** Derived names are injective in the role identity *)

Lemma membership_inj a b : OperatorMembershipLabel a = OperatorMembershipLabel b → shortHash a = shortHash b.
Proof. unfold OperatorMembershipLabel. apply app_str_inj_l. Qed.

Lemma target_port_inj a b p q : colocatedTargetPort a p = colocatedTargetPort b q → shortHash a = shortHash b.
Proof.
  unfold colocatedTargetPort. intros E%app_str_inj_l. apply app_str_inj_length in E as [E _]; [done|].
  by rewrite !slen_shortHash.
Qed.

Definition role_identity (s : ResolvedComponent) : string := shortHash (rc_Name s).

(** ** The membership label *)
Definition member_labels (labels : gmap string string) (sidecars : list ResolvedComponent) : gmap string string :=
  foldl (λ m s, if rc_Enabled s then <[OperatorMembershipLabel (rc_Name s) := rc_Name s]> m else m) labels sidecars.

Lemma member_labels_other labels sidecars k :
  k ∉ (OperatorMembershipLabel ∘ rc_Name <$> sidecars) → member_labels labels sidecars !! k = labels !! k.
Proof.
  revert labels. induction sidecars as [|s l IH]; intros labels Hk; [done|].
  rewrite fmap_cons, not_elem_of_cons in Hk. destruct Hk as [Hs Hk]. unfold member_labels in *. simpl. rewrite IH by done.
  destruct (rc_Enabled s); [|done]. by rewrite lookup_insert_ne.
Qed.

Lemma member_labels_lookup labels sidecars s :
  NoDup (role_identity <$> sidecars) → s ∈ sidecars →
  member_labels labels sidecars !! OperatorMembershipLabel (rc_Name s)
  = if rc_Enabled s then Some (rc_Name s) else labels !! OperatorMembershipLabel (rc_Name s).
Proof.
  revert labels. induction sidecars as [|x l IH]; intros labels Hn Hs; [by apply elem_of_nil in Hs|].
  rewrite fmap_cons, NoDup_cons in Hn. destruct Hn as [Hx Hn].
  apply elem_of_cons in Hs as [->|Hs].
  - change (member_labels labels (x :: l)) with
      (member_labels (if rc_Enabled x then <[OperatorMembershipLabel (rc_Name x) := rc_Name x]> labels else labels) l).
    rewrite member_labels_other; [destruct (rc_Enabled x); [apply lookup_insert_eq|done]|].
    intros (y & E%membership_inj & Hy)%list_elem_of_fmap. apply Hx. unfold role_identity at 1. rewrite E.
    by apply (list_elem_of_fmap_2 role_identity).
  - unfold member_labels in *. simpl. rewrite IH by done. destruct (rc_Enabled s); [done|].
    destruct (rc_Enabled x); [|done]. apply lookup_insert_ne. intros E%membership_inj. apply Hx.
    unfold role_identity at 1. rewrite E. by apply (list_elem_of_fmap_2 role_identity).
Qed.

Section sidecars.
Context `{PatchLib, QuantityLib, K8sValidation, MapOrder}.

Lemma composed_labels ctx d sidecars registry d' :
  foldM (λ d s, wrap_err (λ e, Errorf "compose sidecar %q: %w" [AStr (rc_Name s); AErr e])
                  (composeSidecar ctx d s registry)) d sidecars = Ok d' →
  pt_Labels (d_Template d') = member_labels (pt_Labels (d_Template d)) sidecars.
Proof.
  apply (foldM_ind (λ l d', pt_Labels (d_Template d') = member_labels (pt_Labels (d_Template d)) l)); [done|].
  intros k s x x' Hx E%wrap_err_Ok. unfold member_labels in *. rewrite foldl_app. simpl. rewrite <-Hx.
  unfold composeSidecar in E. do 8 (apply bind_Ok in E as (? & _ & E)).
  destruct (rc_Enabled s); simpl in E; by injection E as <-.
Qed.

(** The dataplane Deployment before composition. *)
Lemma built_dataplane ctx c ds :
  BuildDeployments ctx c = Ok ds → rc_Kind c = KindDataplane → ∃ c', ds = [buildSingle ctx c'] ∧ rc_Name c' = rc_Name c.
Proof.
  unfold BuildDeployments. intros (c' & [h ->]%resolved_hugepages & E)%bind_Ok Hk.
  do 2 (apply bind_Ok in E as (? & _ & E)). simpl in E. rewrite Hk in E. simpl in E.
  unfold configureComponentListeners, ListenerPorts in E. simpl in E. rewrite bool_decide_true in E by done. simpl in E.
  injection E as <-. by exists (set_rc_Hugepages h c).
Qed.

Lemma base_not_member ctx c k :
  HasPrefix k operatorMembershipPrefix = true → pt_Labels (d_Template (buildSingle ctx c)) !! k = None.
Proof.
  intros Hk. unfold buildSingle. destruct (buildConfigVolumes ctx c) as [[[vols mounts] cm] args]. simpl.
  rewrite copyMap_id. destruct (workloadLabels_spec ctx (baseLabels ctx c)) as [Hl _].
  rewrite Hl by (intros ->; by vm_compute in Hk).
  destruct (baseLabels ctx c !! k) eqn:E; [|done].
  destruct (identity_keys ctx c None k) as [Hin _]; [simpl; by rewrite E|].
  apply identity_reserved in Hin as [_ Hin]. congruence.
Qed.

(** ** Ports *)

(** A named port of a named container. *)
Definition declares (d : Deployment) (container : string) (q : ContainerPort) : Prop :=
  ∃ ports, (container, ports) ∈ port_view d ∧ q ∈ ports.

(** Configuring a role keeps the ports of the others: it replaces only the port
    names it owns. *)
Lemma declares_kept d s composed d' container q :
  configureComponentListeners d s composed = Ok d' → declares d container q →
  cp_Name q ∉ (listenerTargetPortName <$> ListenerPorts s) → declares d' container q.
Proof.
  unfold configureComponentListeners. intros E (ports & Hv & Hq) Hname.
  destruct (ListenerPorts s) as [|l0 ls] eqn:El; [injection E as <-; by exists ports|]. rewrite <-El in *.
  apply bind_Ok in E as (k & Hfound & E). apply bind_Ok in E as (pair & _ & E). apply bind_Ok in E as (u & _ & E).
  injection E as <-. apply list_elem_of_fmap in Hv as (x & [= -> ->] & Hx).
  match goal with |- context [upd_container ?n (set_c_Ports ?p) d] =>
    set (n0 := n) in *; set (p0 := p); exists (if bool_decide (c_Name x = n0) then p0 else c_Ports x) end.
  split.
  - unfold port_view, pod_containers. simpl. rewrite <-fmap_app. fold (pod_containers (d_Pod d)).
    rewrite <-list_fmap_compose. apply list_elem_of_fmap. exists x. split; [|done]. simpl. by case_bool_decide.
  - case_bool_decide as Hn; [|done]. apply elem_of_app. right. apply list_elem_of_filter. split; [by rewrite elem_of_list_to_set|].
    by rewrite <-(findContainer_unique _ _ _ _ Hfound Hx Hn).
Qed.

(** The listeners of an enabled sidecar, with the ports of its slot. *)
Lemma sidecar_configured d s d' l :
  configureComponentListeners d s true = Ok d' → rc_Kind s = KindSidecar → l ∈ ListenerPorts s →
  ∃ pair, runtimePortPair s = Ok pair
    ∧ declares d' (scopedOperatorName (rc_Name s) (rc_Name s)) (listener_port pair l).
Proof.
  intros E Hk Hl. destruct (listeners_configured _ _ _ _ _ E Hl) as (pair & ports & Hp & Hv & Hport).
  exists pair. split; [done|]. exists ports. split; [|done].
  unfold listening_container, ListenerContainerName in Hv. by rewrite Hk in Hv.
Qed.

(** Port names of different roles differ. *)
Lemma foreign_port s x pair l :
  rc_Kind s = KindSidecar → rc_Kind x = KindSidecar → role_identity s ≠ role_identity x → l ∈ ListenerPorts s →
  cp_Name (listener_port pair l) ∉ (listenerTargetPortName <$> ListenerPorts x).
Proof.
  assert (Hname : ∀ c l, rc_Kind c = KindSidecar → l ∈ ListenerPorts c →
    ∃ p, listenerTargetPortName l = colocatedTargetPort (rc_Name c) p).
  { intros c l' Hc. unfold ListenerPorts, IsColocated. rewrite Hc, bool_decide_false, bool_decide_true by done.
    intros (p & -> & _)%list_elem_of_fmap. exists p. reflexivity. }
  intros Hs Hx Hid Hl (l' & E & Hl')%list_elem_of_fmap. destruct (Hname s l Hs Hl) as [p Hp].
  destruct (Hname x l' Hx Hl') as [q Hq]. simpl in E. rewrite Hp, Hq in E. by apply target_port_inj in E.
Qed.

Lemma sidecars_configured d sidecars d' s l :
  foldM configure_sidecar_listeners d sidecars = Ok d' →
  NoDup (role_identity <$> sidecars) → Forall (λ x, rc_Kind x = KindSidecar) sidecars →
  s ∈ sidecars → rc_Enabled s = true → l ∈ ListenerPorts s →
  ∃ pair, runtimePortPair s = Ok pair
    ∧ declares d' (scopedOperatorName (rc_Name s) (rc_Name s)) (listener_port pair l).
Proof.
  intros E Hn Hkinds Hs Hen Hl. revert E Hn Hkinds Hs.
  apply (foldM_ind (λ k d', NoDup (role_identity <$> k) → Forall (λ x, rc_Kind x = KindSidecar) k → s ∈ k →
    ∃ pair, runtimePortPair s = Ok pair
      ∧ declares d' (scopedOperatorName (rc_Name s) (rc_Name s)) (listener_port pair l))).
  { intros _ _ Hs. by apply elem_of_nil in Hs. }
  intros k x d0 d1 IH Ex Hn [Hk Hx]%Forall_app Hin. apply Forall_cons in Hx as [Hx _].
  rewrite fmap_app, NoDup_app in Hn. destruct Hn as (Hn & Hdis & _).
  unfold configure_sidecar_listeners in Ex. apply bind_Ok in Ex as (u & _ & Ex).
  apply elem_of_app in Hin as [Hin|Hin]; [|apply list_elem_of_singleton in Hin as ->].
  - destruct (IH Hn Hk Hin) as (pair & Hp & Hd). exists pair. split; [done|].
    destruct (rc_Enabled x); [|by injection Ex as <-]. eapply declares_kept; [done..|].
    apply (foreign_port s x); [by eapply (proj1 (Forall_forall _ _) Hk)|done| |done].
    intros Eid. apply (Hdis (role_identity s)); [by apply list_elem_of_fmap_2|]. rewrite Eid. left.
  - rewrite Hen in Ex. by eapply sidecar_configured.
Qed.

(** ** The rendered Pod *)
Lemma dataplane_rendered ctx c registry ds d :
  RenderDeployments ctx c registry = Ok ds → rc_Kind c = KindDataplane → d ∈ ds →
  (∃ c', rc_Name c' = rc_Name c ∧ render_one ctx c registry (buildSingle ctx c') = Ok d) ∧ instance_of ctx c None d.
Proof.
  unfold RenderDeployments, IsColocated. intros E Hk Hd. rewrite Hk, bool_decide_false in E by done.
  apply bind_Ok in E as (built & Hb & E%mapR_Ok). pose proof (built_instances _ _ _ Hb) as Hinst.
  apply built_dataplane in Hb as (c' & -> & Hname); [|done].
  destruct ds as [|d' [|]]; inversion E as [|? ? ? ? Hr Hnil]; subst; [|inversion Hnil].
  apply list_elem_of_singleton in Hd as ->. split; [by exists c'|].
  destruct (render_one_identity _ _ _ _ _ Hr) as (base & Hc & Hs). eapply instance_same; [done|].
  eapply instance_composed; [done|]. unfold instances in Hinst. rewrite bool_decide_false in Hinst by (by rewrite Hk).
  by inversion Hinst.
Qed.

Lemma rendered_membership ctx c c' registry d s :
  render_one ctx c registry (buildSingle ctx c') = Ok d → NoDup (role_identity <$> rc_Sidecars c) → s ∈ rc_Sidecars c →
  pt_Labels (d_Template d) !! OperatorMembershipLabel (rc_Name s) = if rc_Enabled s then Some (rc_Name s) else None.
Proof.
  intros (base & Hbase & (_ & _ & _ & _ & _ & _ & _ & _ & Hl))%render_one_base Hn Hs.
  assert (Hp : HasPrefix (OperatorMembershipLabel (rc_Name s)) operatorMembershipPrefix = true) by apply HasPrefix_app.
  rewrite Hl by (unfold reserved_label; by rewrite Hp, orb_true_r).
  rewrite (composed_labels _ _ _ _ _ Hbase), member_labels_lookup by done.
  destruct (rc_Enabled s); [done|]. by apply base_not_member.
Qed.

Lemma rendered_sidecar_ports ctx c d0 registry d s l :
  render_one ctx c registry d0 = Ok d →
  NoDup (role_identity <$> rc_Sidecars c) → Forall (λ x, rc_Kind x = KindSidecar) (rc_Sidecars c) →
  s ∈ rc_Sidecars c → rc_Enabled s = true → l ∈ ListenerPorts s →
  ∃ pair, runtimePortPair s = Ok pair ∧ declares d (scopedOperatorName (rc_Name s) (rc_Name s)) (listener_port pair l).
Proof.
  unfold render_one. intros E Hn Hk Hs Hen Hl. do 6 (apply bind_Ok in E as (? & _ & E)).
  apply bind_Ok in E as (d4 & E4 & E). apply bind_Ok in E as (d5 & E5 & E). do 2 (apply bind_Ok in E as (? & _ & E)).
  injection E as <-. unfold ConfigureListeners in E4. apply bind_Ok in E4 as (d4' & _ & Efold).
  destruct (sidecars_configured _ _ _ _ _ Efold Hn Hk Hs Hen Hl) as (pair & Hp & ports & Hv & Hq).
  exists pair. split; [done|]. exists ports. by rewrite (port_view_ConfigureRuntimeNetwork _ _ _ _ E5).
Qed.
End sidecars.

(** A sidecar's pair of ports, without int32 wrap-around. *)
Lemma sidecar_pair s pair :
  rc_Kind s = KindSidecar → runtimePortPair s = Ok pair →
  0 ≤ rc_PortIndex s < MaxDataplaneSidecars
  ∧ pair = (RuntimeGRPCPort + 2 * rc_PortIndex s, RuntimeHTTPPort + 2 * rc_PortIndex s).
Proof.
  intros Hk Hp. assert (Hc : IsColocated s = true) by (unfold IsColocated; by rewrite bool_decide_true).
  assert (Hi : 0 ≤ rc_PortIndex s < MaxDataplaneSidecars).
  { unfold runtimePortPair in Hp. rewrite Hc in Hp. apply bind_Ok in Hp as ([] & Hr%err_if_Ok & _).
    apply orb_false_iff in Hr as [?%bool_decide_eq_false ?%bool_decide_eq_false]. lia. }
  split; [done|]. destruct (slot_pair s _ Hc eq_refl Hi) as [Hp' _]. congruence.
Qed.

(** C24: the Services of sidecar roles reach the dataplane Pod exactly when the role is
    enabled.  In every rendered dataplane Deployment whose sidecars have distinct role
    identities: the Service plan of an enabled sidecar with ports is the one that is built
    for it, its selector matches the Pod, and each of its ports targets by name a TCP port
    that the sidecar's own container declares, numbered by the slot of the sidecar; the
    selector of a disabled sidecar does not match the Pod, whatever labels patches add. *)
Theorem sidecar_services_follow_enablement `{PatchLib, QuantityLib, K8sValidation, MapOrder}
    (ctx : BuildContext) (c : ResolvedComponent) (registry : gmap string NamedPatch) (ds : list Deployment)
    (d : Deployment) (s : ResolvedComponent) :
  RenderDeployments ctx c registry = Ok ds → d ∈ ds →
  rc_Kind c = KindDataplane → rc_Name c = kind_string KindDataplane → bx_BoxType ctx ≠ "" →
  NoDup (role_identity <$> rc_Sidecars c) → Forall (λ x, rc_Kind x = KindSidecar) (rc_Sidecars c) →
  s ∈ rc_Sidecars c →
  let plan := buildServicePlan ctx s None (ListenerPorts s) in
  if rc_Enabled s then
    (ListenerPorts s ≠ [] → BuildServices ctx s = [plan])
    ∧ pl_Selector plan ⊆ pt_Labels (d_Template d)
    ∧ ∀ p, p ∈ pl_Ports plan → ∃ k q,
        k ∈ pod_containers (d_Pod d) ∧ c_Name k = scopedOperatorName (rc_Name s) (rc_Name s)
        ∧ q ∈ c_Ports k ∧ cp_Name q = spp_TargetPortName p ∧ cp_Protocol q = ProtocolTCP
        ∧ 0 ≤ rc_PortIndex s < MaxDataplaneSidecars
        ∧ cp_ContainerPort q =
            2 * rc_PortIndex s + (if decide (spp_Name p = ListenerHTTP) then RuntimeHTTPPort else RuntimeGRPCPort)
  else pt_Labels (d_Template d) !! OperatorMembershipLabel (rc_Name s) = None ∧ ¬ pl_Selector plan ⊆ pt_Labels (d_Template d).
Proof.
  intros E Hd Hkc Hname Hbox Hn Hkinds Hs plan.
  assert (Hks : rc_Kind s = KindSidecar) by (by eapply (proj1 (Forall_forall _ _) Hkinds)).
  destruct (dataplane_rendered _ _ _ _ _ E Hkc Hd) as [(c' & _ & Er) Hinst].
  pose proof (rendered_membership _ _ _ _ _ _ Er Hn Hs) as Hmember.
  assert (Hsel : pl_Selector plan = <[OperatorMembershipLabel (rc_Name s) := rc_Name s]>
    (<[labelComponent := kind_string KindDataplane]> (<[labelBoxType := bx_BoxType ctx]> ∅))).
  { unfold plan, buildServicePlan, IsColocated. rewrite bool_decide_true by done. simpl. by rewrite insert_insert_eq. }
  destruct (rc_Enabled s) eqn:Hen; [split_and!|split; [done|]].
  - unfold BuildServices, plan. destruct (ListenerPorts s); [done|]. intros _. by rewrite bool_decide_true by (by rewrite Hks).
  - rewrite Hsel. apply insert_subseteq_l; [done|]. apply insert_subseteq_l; [|].
    + rewrite <-Hname. exact (instance_component _ _ _ _ Hinst).
    + apply insert_subseteq_l; [|apply map_empty_subseteq]. destruct Hinst as (_ & _ & _ & _ & _ & _ & _ & _ & _ & Hb). by apply Hb.
  - intros p (l & -> & Hl)%list_elem_of_fmap. destruct (rendered_sidecar_ports _ _ _ _ _ _ _ Er Hn Hkinds Hs Hen Hl) as (pair & Hp & ports & Hv & Hq).
    apply list_elem_of_fmap in Hv as (k & [= Hkn ->] & Hkin). exists k, (listener_port pair l).
    destruct (sidecar_pair s pair Hks Hp) as [Hi ->]. split_and!; try done || lia. simpl.
    case_bool_decide; case_decide; try done; lia.
  - rewrite Hsel. intros Hsub. eapply lookup_weaken in Hsub; [|apply lookup_insert_eq]. congruence.
Qed.

Import Concrete.

Definition sample_dataplane : ResolvedComponent := Sample.resolved KindDataplane "dataplane".
Definition sample_sidecar : ResolvedComponent := default zero_component (head (rc_Sidecars sample_dataplane)).

Lemma sidecar_services_follow_enablement_witness :
  ∃ ds d, RenderDeployments Sample.ctx sample_dataplane Sample.registry = Ok ds ∧ d ∈ ds
    ∧ rc_Enabled sample_sidecar = true
    ∧ pl_Selector (buildServicePlan Sample.ctx sample_sidecar None (ListenerPorts sample_sidecar)) ⊆ pt_Labels (d_Template d).
Proof.
  destruct (proj1 (is_ok_spec (RenderDeployments Sample.ctx sample_dataplane Sample.registry))) as [ds E];
    [vm_compute; reflexivity|].
  assert (Hl : length <$> RenderDeployments Sample.ctx sample_dataplane Sample.registry = Ok 1%nat)
    by (vm_compute; reflexivity).
  rewrite E in Hl. destruct ds as [|d ds]; [discriminate Hl|]. exists (d :: ds), d.
  assert (Hen : rc_Enabled sample_sidecar = true) by (vm_compute; reflexivity).
  assert (Hk : rc_Kind sample_dataplane = KindDataplane) by (vm_compute; reflexivity).
  assert (Hname : rc_Name sample_dataplane = kind_string KindDataplane) by (vm_compute; reflexivity).
  assert (Hbox : bx_BoxType Sample.ctx ≠ "") by (vm_compute; discriminate).
  assert (Hn : NoDup (role_identity <$> rc_Sidecars sample_dataplane))
    by (apply (bool_decide_eq_true_1 (NoDup _)); vm_compute; reflexivity).
  assert (Hkinds : Forall (λ x, rc_Kind x = KindSidecar) (rc_Sidecars sample_dataplane))
    by (apply (bool_decide_eq_true_1 (Forall _ _)); vm_compute; reflexivity).
  assert (Hs : sample_sidecar ∈ rc_Sidecars sample_dataplane)
    by (apply list_elem_of_lookup; exists 0%nat; vm_compute; reflexivity).
  assert (Hd : d ∈ d :: ds) by left.
  pose proof (sidecar_services_follow_enablement Sample.ctx sample_dataplane Sample.registry (d :: ds) d
                sample_sidecar E Hd Hk Hname Hbox Hn Hkinds Hs) as Hth.
  cbv zeta in Hth. rewrite Hen in Hth. destruct Hth as (_ & Hsel & _).
  split; [exact E|]. split; [exact Hd|]. split; [exact Hen|exact Hsel].
Defined.
