(* ===== verification/WebhookSpec.v ===== *)
(** * What admission guarantees

    The facts a YanetConfig and a Yanet satisfy once the webhooks admitted them,
    and what the reconciler can rely on because of them. *)

From S2P Require Import Prelude GoLib Sha256 K8s Api Resolve Labels Listeners Builder Service Render Webhook.
From S2P Require Import PodsSpec RenderSpec ResolveSpec Instances.
#[local] Open Scope Z_scope.

(** ** Lookups by name *)

Lemma find_by_name {A} (name : A → string) (l : list A) n :
  n ∈ name <$> l → ∃ i x, list_find (λ x, name x = n) l = Some (i, x) ∧ x ∈ l ∧ name x = n.
Proof.
  intros (x & Hn & Hx)%list_elem_of_fmap.
  destruct (list_find_elem_of (λ x, name x = n) l x Hx (eq_sym Hn)) as [[i y] E]. exists i, y. split; [done|].
  apply list_find_Some in E as (Hy & Hyn & _). split; [by eapply list_elem_of_lookup_2|done].
Qed.

Lemma find_unique {A} (name : A → string) (l : list A) x :
  NoDup (name <$> l) → x ∈ l → ∃ i, list_find (λ y, name y = name x) l = Some (i, x).
Proof.
  intros Hnd Hx. destruct (find_by_name name l (name x)) as (i & y & E & Hy & Hn); [by apply list_elem_of_fmap_2|].
  exists i. rewrite E. do 2 f_equal. by eapply NoDup_key_inj.
Qed.

(** A loop over an enumerated list that collects distinct names. *)
Lemma collect_enumerated {A} (name : A → string) (good : A → Prop)
    (f : gset string → nat * A → result (gset string)) s0 l s :
  (∀ s i x s', f s (i, x) = Ok s' → good x ∧ name x ∉ s ∧ s' = {[name x]} ∪ s) →
  foldM f s0 (enumerate l) = Ok s →
  NoDup (name <$> l) ∧ (∀ x, x ∈ l → good x ∧ name x ∉ s0).
Proof.
  intros Hf E.
  assert (Hinv : NoDup (name <$> (enumerate l).*2) ∧ s = list_to_set (name <$> (enumerate l).*2) ∪ s0
    ∧ ∀ x, x ∈ (enumerate l).*2 → good x ∧ name x ∉ s0).
  { revert E. apply (foldM_ind (λ k s, NoDup (name <$> k.*2) ∧ s = list_to_set (name <$> k.*2) ∪ s0
                                       ∧ ∀ x, x ∈ k.*2 → good x ∧ name x ∉ s0)).
    { split_and!; [constructor|set_solver|set_solver]. }
    intros k [i x] st st' (I1 & -> & I3) (Hg & Hn & ->)%Hf. rewrite !fmap_app. simpl.
    rewrite not_elem_of_union, elem_of_list_to_set in Hn. destruct Hn as [Hn1 Hn2]. split_and!.
    - apply NoDup_app. split_and!; [done| |apply NoDup_singleton]. set_solver.
    - rewrite list_to_set_app_L. simpl. set_solver.
    - intros y [Hy|Hy%list_elem_of_singleton]%elem_of_app; [by apply I3|by subst]. }
  rewrite snd_enumerate in Hinv. naive_solver.
Qed.

(** ** The facts of an admitted configuration *)

Section facts.
Context `{PatchLib, K8sValidation, MapOrder, QuantityLib}.

Record admitted_config (spec : YanetConfigSpec) : Prop := {
  ad_boxes : NoDup (bt_Name <$> yc_BoxTypes spec);
  ad_operators : NoDup (op_Name <$> cmp_Operators (yc_Components spec));
  ad_operator : ∀ op, op ∈ cmp_Operators (yc_Components spec) →
    valid_listeners (op_Listeners op) ∧ op_Containers op ≠ [];
  ad_sidecars : Z.of_nat (length (dpl_Sidecars (cmp_Dataplane (yc_Components spec)))) ≤ MaxDataplaneSidecars;
  ad_listeners : ∀ s, s ∈ dpl_Sidecars (cmp_Dataplane (yc_Components spec)) → valid_listeners (sd_Listeners s);
  ad_networks : ValidateNetworkAttachments (default [] (dpl_Networks (cmp_Dataplane (yc_Components spec)))) = Ok tt;
  ad_numa : validateDisabledNuma (cmp_Controlplane (yc_Components spec)) = Ok tt;
  ad_box : ∀ box, box ∈ yc_BoxTypes spec →
    is_Some (bcs_Controlplane (bt_Components box))
    ∧ (∃ slot, bcs_Dataplane (bt_Components box) = Some slot
         ∧ ∀ name, is_Some (bd_Sidecars slot !! name) →
             name ∈ sd_Name <$> dpl_Sidecars (cmp_Dataplane (yc_Components spec)))
    ∧ (is_Some (bcs_BirdAdapter (bt_Components box)) → is_Some (cmp_BirdAdapter (yc_Components spec)))
    ∧ (∀ name, is_Some (bt_Operators box !! name) → name ∈ op_Name <$> cmp_Operators (yc_Components spec));
}.

Lemma operators_admitted ops :
  validateOperatorUniqueness ops = Ok tt →
  NoDup (op_Name <$> ops) ∧ ∀ op, op ∈ ops → valid_listeners (op_Listeners op) ∧ op_Containers op ≠ [].
Proof.
  unfold validateOperatorUniqueness. intros (s & E & _)%bind_Ok.
  apply (collect_enumerated op_Name (λ op, valid_listeners (op_Listeners op) ∧ op_Containers op ≠ [])) in E.
  { destruct E as [Hn Hg]. split; [done|]. intros op Hop. by apply Hg. }
  intros st i op st' Es. unfold operator_unique_step in Es.
  do 3 (apply bind_Ok in Es as (? & _ & Es)).
  apply bind_Ok in Es as ([] & Hin%err_if_Ok%bool_decide_eq_false_1 & Es).
  apply bind_Ok in Es as ([] & Hl & Es). apply bind_Ok in Es as ([] & Hc & Es).
  apply bind_Ok in Es as (? & _ & Es). injection Es as <-.
  apply ValidateListeners_Ok in Hl. apply err_if_Ok, orb_false_iff in Hc as [Hc _].
  apply bool_decide_eq_false_1 in Hc. split_and!; [done| |done|done]. intros Hnil. rewrite Hnil in Hc. simpl in Hc. lia.
Qed.

Lemma sidecars_admitted components :
  validateSidecarUniqueness components = Ok tt →
  Z.of_nat (length (dpl_Sidecars (cmp_Dataplane components))) ≤ MaxDataplaneSidecars
  ∧ ∀ s, s ∈ dpl_Sidecars (cmp_Dataplane components) → valid_listeners (sd_Listeners s).
Proof.
  unfold validateSidecarUniqueness. intros ([] & Hlen%err_if_Ok%bool_decide_eq_false_1 & E)%bind_Ok.
  apply bind_Ok in E as (s & E & _). split; [lia|]. intros x Hx.
  apply (collect_enumerated sd_Name (λ s, valid_listeners (sd_Listeners s))) in E; [by apply E|].
  intros st i y st' Es. unfold sidecar_unique_step in Es. apply bind_Ok in Es as (? & _ & Es).
  apply bind_Ok in Es as ([] & Hin%err_if_Ok%bool_decide_eq_false_1 & Es).
  apply bind_Ok in Es as ([] & Hl%ValidateListeners_Ok & Es). injection Es as <-. done.
Qed.

Lemma boxes_admitted boxes : validateBoxTypeUniqueness boxes = Ok tt → NoDup (bt_Name <$> boxes).
Proof.
  unfold validateBoxTypeUniqueness. intros ([] & _ & E)%bind_Ok. apply bind_Ok in E as (s & E & _).
  apply (collect_enumerated bt_Name (λ _, True)) in E; [by apply E|].
  intros st i b st' Es. unfold box_unique_step in Es. do 2 (apply bind_Ok in Es as (? & _ & Es)).
  apply bind_Ok in Es as ([] & Hin%err_if_Ok%bool_decide_eq_false_1 & Es). injection Es as <-. done.
Qed.

Lemma box_refs_admitted spec patchSet (operatorSet : gset string) i box :
  validate_box_refs spec patchSet operatorSet (i, box) = Ok tt →
  is_Some (bcs_Controlplane (bt_Components box))
  ∧ (∃ slot, bcs_Dataplane (bt_Components box) = Some slot
       ∧ ∀ name, is_Some (bd_Sidecars slot !! name) →
           name ∈ sd_Name <$> dpl_Sidecars (cmp_Dataplane (yc_Components spec)))
  ∧ (is_Some (bcs_BirdAdapter (bt_Components box)) → is_Some (cmp_BirdAdapter (yc_Components spec)))
  ∧ (∀ name, is_Some (bt_Operators box !! name) → name ∈ operatorSet).
Proof.
  unfold validate_box_refs. destruct (bcs_Controlplane (bt_Components box)); [|done].
  destruct (bcs_Dataplane (bt_Components box)) as [slot|]; [|done]. intros E.
  do 2 (apply bind_Ok in E as ([] & _ & E)). apply bind_Ok in E as ([] & Hside & E).
  apply bind_Ok in E as ([] & Hbird & E). apply bind_Ok in E as ([] & Hops & _).
  unfold validateDataplaneSidecarRefs in Hside. split_and!.
  - eauto.
  - exists slot. split; [done|]. intros name [x Hx]. apply (proj1 (check_all_range _ _)) with (k := name) (v := x) in Hside; [|done].
    unfold validate_sidecar_slot in Hside. apply bind_Ok in Hside as ([] & Hd%err_if_Ok%bool_decide_eq_false_1%dec_stable & _).
    by apply elem_of_list_to_set in Hd.
  - intros [x Hx]. rewrite Hx in Hbird. destruct (cmp_BirdAdapter (yc_Components spec)); [eauto|done].
  - intros name [x Hx]. apply (proj1 (check_all_range _ _)) with (k := name) (v := x) in Hops; [|done].
    by apply bind_Ok in Hops as ([] & Hd%err_if_Ok%bool_decide_eq_false_1%dec_stable & _).
Qed.

Lemma config_admission_facts name spec : config_admission name spec = Ok tt → admitted_config spec.
Proof.
  unfold config_admission, validateYanetConfig. intros (? & _ & E)%bind_Ok.
  do 4 (apply bind_Ok in E as (? & _ & E)).
  apply bind_Ok in E as ([] & [Ho1 Ho2]%operators_admitted & E).
  apply bind_Ok in E as ([] & [Hs1 Hs2]%sidecars_admitted & E).
  apply bind_Ok in E as ([] & Hb%boxes_admitted & E). apply bind_Ok in E as ([] & Hrefs & E).
  apply bind_Ok in E as (? & _ & E). apply bind_Ok in E as ([] & Hn%wrap_err_Ok & E).
  do 2 (apply bind_Ok in E as (? & _ & E)).
  constructor; try done. intros box [i Hi]%list_elem_of_lookup.
  unfold validateBoxTypeRefs in Hrefs. apply check_all_member with (x := (i, box)) in Hrefs; [|by apply fst_enumerate_snd].
  apply box_refs_admitted in Hrefs as (H1' & H2' & H3' & H4'). split_and!; [done..|].
  intros n Hn'. specialize (H4' n Hn'). by apply elem_of_list_to_set in H4'.
Qed.
End facts.

(** ** Admitted installations resolve *)

Section resolution.
Context `{PatchLib, K8sValidation, MapOrder, QuantityLib}.

Lemma shape_networks o dp :
  validateYanetComponentOverrideShape (Some o) = Ok tt → yo_Dataplane o = Some dp →
  ValidateNetworkAttachments (default [] (dpo_Networks dp)) = Ok tt.
Proof.
  simpl. intros (? & _ & E)%bind_Ok Hdp. apply bind_Ok in E as ([] & E & _). rewrite Hdp in E. simpl in E.
  apply bind_Ok in E as (? & _ & E). by apply bind_Ok in E as ([] & E%wrap_err_Ok & _).
Qed.

Lemma networks_resolve (defaults : option (list NetworkAttachment)) y :
  ValidateNetworkAttachments (default [] defaults) = Ok tt →
  validateYanetComponentOverrideShape (ys_Components y) = Ok tt →
  ∃ r, resolveDataplaneNetworks defaults y = Ok r.
Proof.
  intros Hd Hs. unfold resolveDataplaneNetworks. rewrite Hd. simpl.
  destruct (ys_Components y) as [o|] eqn:Eo; simpl; [|rewrite Hd; simpl; eauto].
  destruct (yo_Dataplane o) as [dp|] eqn:Edp; simpl; [|rewrite Hd; simpl; eauto].
  destruct (dpo_Networks dp) as [n|] eqn:En; simpl; [|rewrite Hd; simpl; eauto].
  pose proof (shape_networks o dp Hs Edp) as Hn. rewrite En in Hn. simpl in Hn. rewrite Hn. simpl. eauto.
Qed.

Variables (spec : YanetConfigSpec) (y : YanetSpec) (box : BoxType).
Hypothesis (Hadm : admitted_config spec) (Hbox : box ∈ yc_BoxTypes spec) (Hy : ys_BoxType y = bt_Name box).
Hypothesis (Hshape : validateYanetComponentOverrideShape (ys_Components y) = Ok tt).
Hypothesis (Hkeys : NoDup (ShortNodeKey ∘ sd_Name <$> dpl_Sidecars (cmp_Dataplane (yc_Components spec)))).

Lemma box_found : FindBoxType (Some spec) (bt_Name box) = Ok box.
Proof. unfold FindBoxType. destruct (find_unique bt_Name _ box (ad_boxes _ Hadm) Hbox) as [i ->]. done. Qed.

Lemma sidecars_resolve y' slot name :
  bcs_Dataplane (bt_Components box) = Some slot →
  resolveDataplaneSidecars spec y' slot name
  = Ok (imap (resolve_sidecar spec y' slot) (dpl_Sidecars (cmp_Dataplane (yc_Components spec)))).
Proof.
  intros Hslot. destruct (ad_box _ Hadm box Hbox) as (_ & (slot' & Hs' & Hw) & _). simplify_eq.
  unfold resolveDataplaneSidecars.
  destruct (resolve_loop spec y' slot (dpl_Sidecars (cmp_Dataplane (yc_Components spec)))) as [Hl Ht].
  destruct (Ht Hkeys (ad_listeners _ Hadm)) as [[[declared ids] res] E].
  rewrite bool_decide_false by (pose proof (ad_sidecars _ Hadm); lia). rewrite E.
  destruct (Hl _ E) as (_ & _ & -> & _ & ->). simpl.
  rewrite (proj2 (check_all_range _ _)); [done|]. intros n x Hx. apply err_if_Ok, bool_decide_eq_false_2.
  rewrite elem_of_list_to_set. intros Hn. apply Hn, Hw. eauto.
Qed.

Lemma operator_found name : is_Some (bt_Operators box !! name) →
  ∃ op, FindOperator (Some spec) name = Ok op ∧ op ∈ cmp_Operators (yc_Components spec).
Proof.
  intros Hn. apply (ad_box _ Hadm box Hbox) in Hn.
  destruct (find_by_name op_Name _ _ Hn) as (i & op & E & Hop & _). exists op. split; [|done].
  unfold FindOperator. by rewrite E.
Qed.

Lemma resolve_controlplane : ∃ c, ResolveBoxComponent (Some spec) (Some y) KindControlplane "" = Ok (Some c)
  ∧ rc_Kind c = KindControlplane.
Proof.
  unfold ResolveBoxComponent. rewrite Hy, box_found. simpl. destruct (ad_box _ Hadm box Hbox) as ([x ->] & _).
  pose proof (ad_numa _ Hadm) as Hn. unfold validateDisabledNuma in Hn. apply bind_Ok in Hn as ([] & Hn & _).
  destruct (cpl_Numa (cmp_Controlplane (yc_Components spec))); [rewrite Hn|]; simpl; eauto.
Qed.

Lemma resolve_dataplane : ∃ c, ResolveBoxComponent (Some spec) (Some y) KindDataplane "" = Ok (Some c)
  ∧ rc_Kind c = KindDataplane.
Proof.
  unfold ResolveBoxComponent. rewrite Hy, box_found. simpl.
  destruct (ad_box _ Hadm box Hbox) as (_ & (slot & Hs & _) & _). rewrite Hs, (sidecars_resolve y slot _ Hs). simpl.
  destruct (networks_resolve _ y (ad_networks _ Hadm) Hshape) as [[n r] ->]. simpl. eauto.
Qed.

Lemma resolve_bird_adapter : is_Some (bcs_BirdAdapter (bt_Components box)) →
  ∃ c, ResolveBoxComponent (Some spec) (Some y) KindBirdAdapter "" = Ok (Some c) ∧ rc_Kind c = KindBirdAdapter.
Proof.
  intros Hb. unfold ResolveBoxComponent. rewrite Hy, box_found. simpl.
  destruct (ad_box _ Hadm box Hbox) as (_ & _ & Hbird & _). destruct (Hbird Hb) as [a ->]. destruct Hb as [b ->]. eauto.
Qed.

Lemma resolve_operator name : is_Some (bt_Operators box !! name) →
  ∃ c, ResolveBoxComponent (Some spec) (Some y) KindOperator name = Ok (Some c) ∧ rc_Kind c = KindOperator.
Proof.
  intros Ho. unfold ResolveBoxComponent. rewrite Hy, box_found. simpl. unfold resolveOperator.
  destruct (operator_found name Ho) as (op & -> & Hop). destruct Ho as [s ->]. simpl.
  destruct (ad_operator _ Hadm op Hop) as [Hl Hc]. destruct (op_Containers op); [done|].
  rewrite (proj2 (ValidateListeners_Ok _ _) Hl). simpl. eauto.
Qed.

Lemma resolve_wired_sidecar slot name :
  bcs_Dataplane (bt_Components box) = Some slot → is_Some (bd_Sidecars slot !! name) →
  ∃ c, ResolveBoxComponent (Some spec) (Some y) KindSidecar name = Ok (Some c) ∧ rc_Kind c = KindSidecar.
Proof.
  intros Hs Hw. unfold ResolveBoxComponent. rewrite Hy, box_found. simpl. rewrite Hs.
  destruct (ad_box _ Hadm box Hbox) as (_ & (slot'' & Hs' & Hd) & _). assert (slot'' = slot) as -> by congruence.
  specialize (Hd name Hw). destruct Hw as [w ->]. rewrite (sidecars_resolve y slot _ Hs). simpl.
  destruct (find_by_name rc_Name (imap (resolve_sidecar spec y slot) (dpl_Sidecars (cmp_Dataplane (yc_Components spec)))) name)
    as (i & c & -> & Hc & _).
  - apply list_elem_of_fmap in Hd as (s & -> & Hin). apply list_elem_of_lookup in Hin as [i Hi].
    apply list_elem_of_fmap. exists (resolve_sidecar spec y slot i s). split; [done|].
    apply list_elem_of_lookup. exists i. by rewrite list_lookup_imap, Hi.
  - exists c. split; [done|]. apply list_elem_of_lookup in Hc as [j Hj]. rewrite list_lookup_imap in Hj.
    by apply fmap_Some in Hj as (s & _ & ->).
Qed.

Lemma enabled_components : ∃ refs, EnabledComponentsForBox spec (bt_Name box) = Ok refs
  ∧ ∀ ref, ref ∈ refs → ∃ c, ResolveBoxComponent (Some spec) (Some y) (ref_Kind ref) (ref_OperatorName ref) = Ok (Some c)
      ∧ rc_Kind c = ref_Kind ref.
Proof.
  unfold EnabledComponentsForBox. rewrite box_found. cbn [mbind result_bind].
  rewrite (proj2 (check_all_range _ _)).
  2:{ intros n x Hx. destruct (operator_found n) as (op & E & _); [eauto|]. cbv beta iota. by rewrite E. }
  simpl. destruct (ad_box _ Hadm box Hbox) as ([cp Hcp] & (slot & Hs & _) & _). rewrite Hs, (sidecars_resolve _ slot _ Hs).
  simpl. eexists. split; [reflexivity|]. rewrite Hcp. intros ref Hr.
  apply elem_of_app in Hr as [->%list_elem_of_singleton|Hr]; [apply resolve_controlplane|].
  apply elem_of_cons in Hr as [->|Hr]; [apply resolve_dataplane|]. apply elem_of_app in Hr as [Hr|Hr].
  - apply list_elem_of_fmap in Hr as (s & -> & [Hw _]%list_elem_of_filter). by eapply resolve_wired_sidecar.
  - apply elem_of_app in Hr as [Hr|Hr].
    + destruct (bcs_BirdAdapter (bt_Components box)) eqn:Eb; [|by apply elem_of_nil in Hr].
      apply list_elem_of_singleton in Hr as ->. apply resolve_bird_adapter. by rewrite Eb.
    + apply list_elem_of_fmap in Hr as (o & -> & [Hw _]%list_elem_of_filter). by apply resolve_operator.
Qed.
End resolution.

(** C13: once both webhooks admitted a configuration and an installation of one of its
    box types, every component the box enables resolves for that installation: the
    reconciler gets a component of the right kind for each reference and no resolution
    error, provided no two sidecars of the palette collide on their short identity
    (the only check of the resolver that admission does not make). *)
Theorem admitted_installations_resolve `{PatchLib, K8sValidation, MapOrder, QuantityLib}
    (name yanetName : string) (spec : YanetConfigSpec) (y : YanetSpec) (warnings : list goerror) :
  config_admission name spec = Ok tt → validate_yanet yanetName y (Ok spec) = Ok warnings →
  NoDup (ShortNodeKey ∘ sd_Name <$> dpl_Sidecars (cmp_Dataplane (yc_Components spec))) →
  ∃ refs, EnabledComponentsForBox spec (ys_BoxType y) = Ok refs
    ∧ ∀ ref, ref ∈ refs → ∃ c, ResolveBoxComponent (Some spec) (Some y) (ref_Kind ref) (ref_OperatorName ref) = Ok (Some c)
        ∧ rc_Kind c = ref_Kind ref.
Proof.
  intros Hadm%config_admission_facts E Hkeys. unfold validate_yanet in E.
  do 3 (apply bind_Ok in E as (? & _ & E)). apply bind_Ok in E as ([] & Hs & E).
  destruct (list_find _ _) as [[i box]|] eqn:Ef; [|done]. apply list_find_Some in Ef as (Hi & Hn & _).
  rewrite <-Hn. apply enabled_components; try done. by eapply list_elem_of_lookup_2.
Qed.

(** ** NUMA fan-out *)

Section numa.

Lemma collect_disabled l (seen seen' : gset Z) :
  foldM (λ (seen : gset Z) n,
    err_if (bool_decide (n < 0))
      (Errorf "spec.components.controlplane.disabledNuma must contain non-negative indices, got %d" [AInt n]);;
    Ok ({[n]} ∪ seen)) seen l = Ok seen' →
  (∀ n, n ∈ l → 0 ≤ n) ∧ seen' = list_to_set l ∪ seen.
Proof.
  revert seen. induction l as [|n l IH]; intros seen; simpl; [intros [= <-]; set_solver|].
  intros (s & E & Er)%bind_Ok. case_bool_decide; simpl in E; [done|]. injection E as <-.
  destruct (IH _ Er) as [I1 ->]. split; [intros x [->|Hx]%elem_of_cons; [lia|auto]|set_solver].
Qed.

(** Fewer disabled indices below [count] than domains: one is left. *)
Lemma some_domain_left (count : Z) (disabled : gset Z) :
  (∀ n, n ∈ disabled → 0 ≤ n) →
  Z.of_nat (length (filter (λ index, index < count) (elements disabled))) < count →
  ∃ i, 0 ≤ i < count ∧ i ∉ disabled.
Proof.
  intros Hpos Hlen. destruct (decide (Exists (λ i, i ∉ disabled) (seqZ 0 count))) as [He|Hn].
  - apply Exists_exists in He as (i & Hi%elem_of_seqZ & Hd). exists i. split; [lia|done].
  - exfalso. apply not_Exists_Forall in Hn; [|apply _]. rewrite Forall_forall in Hn.
    assert (Hsub : seqZ 0 count ⊆+ filter (λ index, index < count) (elements disabled)).
    { apply NoDup_submseteq; [apply NoDup_seqZ|]. intros i Hi. specialize (Hn i Hi). apply elem_of_seqZ in Hi.
      apply list_elem_of_filter. split; [lia|]. apply elem_of_elements. by apply dec_stable. }
    apply submseteq_length in Hsub. rewrite length_seqZ in Hsub. lia.
Qed.

Lemma disabled_leaves_one cp :
  validateDisabledNuma cp = Ok tt →
  ∃ i, 0 ≤ i < default_Z 1 (cpl_Numa cp) ∧ i ∉ cpl_DisabledNuma cp.
Proof.
  unfold validateDisabledNuma. intros ([] & Hn & E)%bind_Ok.
  assert (Hc : 1 ≤ default_Z 1 (cpl_Numa cp)).
  { destruct (cpl_Numa cp); simpl in *; [|lia]. apply err_if_Ok, range_false in Hn. lia. }
  destruct (cpl_DisabledNuma cp) as [|d ds] eqn:Ed.
  { exists 0. split; [lia|]. apply not_elem_of_nil. }
  rewrite <-Ed in *. apply bind_Ok in E as (seen & [Hpos ->]%collect_disabled & E).
  apply err_if_Ok, bool_decide_eq_false_1 in E. rewrite union_empty_r_L in E.
  destruct (some_domain_left (default_Z 1 (cpl_Numa cp)) (list_to_set (cpl_DisabledNuma cp))) as (i & Hi & Hd).
  - intros n Hin%elem_of_list_to_set. auto.
  - lia.
  - exists i. split; [done|]. by rewrite elem_of_list_to_set in Hd.
Qed.
End numa.

(** An admitted configuration always runs a controlplane: for an installation
    that does not override the disabled NUMA list, the fan-out of the resolved
    controlplane has at least one instance, every instance is a physical domain below
    the declared count, and no domain is served twice. *)
Theorem admitted_config_runs_controlplane `{PatchLib, K8sValidation, MapOrder, QuantityLib}
    (name : string) (spec : YanetConfigSpec) (y : YanetSpec) (c : ResolvedComponent) :
  config_admission name spec = Ok tt →
  (ys_Components y ≫= yo_Controlplane) ≫= cpo_DisabledNuma = None →
  ResolveBoxComponent (Some spec) (Some y) KindControlplane "" = Ok (Some c) →
  enabled_numa c ≠ [] ∧ NoDup (enabled_numa c) ∧ Forall (λ i, 0 ≤ i < effectiveNuma c) (enabled_numa c).
Proof.
  intros Hadm%config_admission_facts Hov E. pose proof (ad_numa _ Hadm) as Hn.
  assert (Hc : rc_DisabledNuma c = cpl_DisabledNuma (cmp_Controlplane (yc_Components spec))
               ∧ rc_Numa c = Int32Value (cpl_Numa (cmp_Controlplane (yc_Components spec))) 0).
  { unfold ResolveBoxComponent in E. apply bind_Ok in E as (b & _ & E). destruct (bcs_Controlplane (bt_Components b)); [|done].
    apply bind_Ok in E as (? & _ & [= <-]). simpl. split; [|done]. unfold resolveDisabledNuma. by rewrite Hov. }
  destruct Hc as [Hd Hnuma]. destruct (disabled_leaves_one _ Hn) as (i & Hi & Hid).
  assert (Heff : effectiveNuma c = default_Z 1 (cpl_Numa (cmp_Controlplane (yc_Components spec)))).
  { unfold effectiveNuma. rewrite Hnuma. unfold validateDisabledNuma in Hn. apply bind_Ok in Hn as ([] & Hn & _).
    destruct (cpl_Numa _) as [n|]; simpl in *; [|done].
    apply err_if_Ok, range_false in Hn. rewrite bool_decide_true by lia. done. }
  unfold enabled_numa. split_and!.
  - intros Hnil. assert (Hin : i ∈ filter (λ i, i ∉ disabledNumaSet c) (seqZ 0 (effectiveNuma c))).
    { apply list_elem_of_filter. split; [|apply elem_of_seqZ; lia]. unfold disabledNumaSet.
      by rewrite elem_of_list_to_set, Hd. }
    rewrite Hnil in Hin. by apply elem_of_nil in Hin.
  - apply NoDup_filter, NoDup_seqZ.
  - apply Forall_forall. intros x [_ Hx%elem_of_seqZ]%list_elem_of_filter. lia.
Qed.

(** ** Overrides that survive a change of the configuration *)

Section effective.
Context `{PatchLib, K8sValidation, MapOrder, QuantityLib}.

(** [for k, v := range m { if p(k) { delete(m, k) } else { m[k] = f(k, v) } }]. *)
Lemma lookup_rewrite_range {A} (p : string → bool) (f : string → A → A) (m : gmap string A) k :
  foldl (λ m kv, if p kv.1 then delete kv.1 m else <[kv.1 := f kv.1 kv.2]> m) m (map_range m) !! k =
  if p k then None else f k <$> m !! k.
Proof.
  assert (Hl : ∀ (l : list (string * A)) (out : gmap string A), NoDup l.*1 →
    foldl (λ m kv, if p kv.1 then delete kv.1 m else <[kv.1 := f kv.1 kv.2]> m) out l !! k =
    match (list_to_map l : gmap string A) !! k with
    | Some v => if p k then None else Some (f k v)
    | None => out !! k
    end).
  { induction l as [|[k' v] l IH]; intros out Hnd; csimpl in *; [by rewrite lookup_empty|].
    apply NoDup_cons in Hnd as [Hni Hnd]. rewrite IH by done. destruct (decide (k' = k)) as [->|Hne].
    - rewrite lookup_insert_eq, not_elem_of_list_to_map_1 by done.
      destruct (p k); [by rewrite lookup_delete_eq|by rewrite lookup_insert_eq].
    - rewrite (lookup_insert_ne _ k' k) by done. destruct (list_to_map l !! k); [done|].
      destruct (p k'); [by rewrite lookup_delete_ne|by rewrite lookup_insert_ne]. }
  rewrite Hl by apply map_range_NoDup. rewrite list_to_map_range. destruct (m !! k) eqn:E; simpl; [done|].
  by destruct (p k).
Qed.

Lemma effective_operator_containers declared name ovr k v :
  cov_Containers (effective_operator declared name ovr) !! k = Some v → cov_Containers ovr !! k = Some v.
Proof.
  unfold effective_operator. destruct (list_find _ _) as [[i op]|]; [|done]. cbn [cov_Containers].
  set (names := list_to_set (oc_Name <$> op_Containers op) : gset string). clearbody names.
  pose proof (lookup_delete_range (λ k, bool_decide (k ∉ names)) (cov_Containers ovr) (cov_Containers ovr) k) as Hdel.
  rewrite Hdel. by destruct (_ && _).
Qed.

Variables (spec : YanetConfigSpec) (box : BoxType) (o : YanetComponentsOverride).
Hypothesis (Hadm : admitted_config spec) (Hbox : box ∈ yc_BoxTypes spec).
Hypothesis (Hshape : validateYanetComponentOverrideShape (Some o) = Ok tt).
Notation declared := (yc_Components spec).
Notation eff := (effective_overrides o declared box).

Lemma effective_operators_lookup name :
  yo_Operators eff !! name =
  if bool_decide (bt_Operators box !! name = None) then None
  else effective_operator declared name <$> yo_Operators o !! name.
Proof. exact (lookup_rewrite_range (λ k, bool_decide (bt_Operators box !! k = None)) (effective_operator declared) _ name). Qed.

Lemma effective_dataplane_lookup slot dp :
  bcs_Dataplane (bt_Components box) = Some slot → yo_Dataplane o = Some dp →
  ∃ dp', yo_Dataplane eff = Some dp' ∧ dpo_Component dp' = dpo_Component dp ∧ dpo_Hugepages dp' = dpo_Hugepages dp
    ∧ dpo_Networks dp' = dpo_Networks dp
    ∧ ∀ n, dpo_Sidecars dp' !! n = if bool_decide (bd_Sidecars slot !! n = None) then None else dpo_Sidecars dp !! n.
Proof.
  intros Hs Hd. unfold effective_overrides. simpl. rewrite Hs, Hd. simpl. eexists. split; [reflexivity|]. split_and!; try done.
  intros n. cbn [dpo_Sidecars].
  pose proof (lookup_delete_range (λ k, bool_decide (bd_Sidecars slot !! k = None)) (dpo_Sidecars dp) (dpo_Sidecars dp) n)
    as Hdel. rewrite Hdel.
  destruct (bool_decide (bd_Sidecars slot !! n = None)); simpl; [|done].
  case_bool_decide as Hk; [done|]. destruct (dpo_Sidecars dp !! n); [destruct Hk; eauto|done].
Qed.

Lemma effective_shape : validateYanetComponentOverrideShape (Some eff) = Ok tt.
Proof.
  pose proof Hshape as E. cbn [validateYanetComponentOverrideShape] in E.
  apply bind_Ok in E as ([] & Ecp & E). apply bind_Ok in E as ([] & Edp & E).
  apply bind_Ok in E as ([] & Ebird & Eops).
  destruct (ad_box _ Hadm box Hbox) as ([cp Hcp] & (slot & Hslot & _) & _).
  cbn [validateYanetComponentOverrideShape].
  assert (Hcp' : yo_Controlplane eff = yo_Controlplane o) by (unfold effective_overrides; simpl; by rewrite Hcp).
  rewrite Hcp', Ecp. cbn [mbind result_bind].
  assert (Hdp : validateDataplaneOverrideShape (yo_Dataplane eff) = Ok tt).
  { destruct (yo_Dataplane o) as [dp|] eqn:Eo.
    - destruct (effective_dataplane_lookup slot dp Hslot Eo) as (dp' & -> & E1 & E2 & E3 & E4).
      simpl in Edp |- *. rewrite E1, E2, E3. apply bind_Ok in Edp as ([] & F1 & Edp). rewrite F1. simpl.
      apply bind_Ok in Edp as ([] & F2 & Edp). rewrite F2. simpl.
      apply bind_Ok in Edp as ([] & F3 & Edp). rewrite F3. simpl.
      apply check_all_range. intros k v Hk. rewrite E4 in Hk. case_bool_decide; [done|].
      exact (proj1 (check_all_range _ _) Edp k v Hk).
    - assert (yo_Dataplane eff = None) as -> by (unfold effective_overrides; simpl; by rewrite Hslot, Eo). done. }
  rewrite Hdp. cbn [mbind result_bind].
  assert (Hb : validateHardcodedContainerKeys "birdAdapter" "bird-adapter" (yo_BirdAdapter eff) = Ok tt).
  { unfold effective_overrides. cbn [yo_BirdAdapter]. by destruct (bcs_BirdAdapter (bt_Components box)). }
  rewrite Hb. cbn [mbind result_bind].
  apply check_all_range. intros name ovr' Hn. rewrite effective_operators_lookup in Hn.
  case_bool_decide; [done|]. apply fmap_Some in Hn as (ovr & Hovr & ->).
  pose proof (proj1 (check_all_range _ _) Eops name ovr Hovr) as Ec. cbv beta iota in Ec |- *.
  apply check_all_range. intros k v Hk%effective_operator_containers.
  exact (proj1 (check_all_range _ _) Ec k v Hk).
Qed.

Lemma declared_set_lookup (ops : list OperatorSpec) op :
  NoDup (op_Name <$> ops) → op ∈ ops → declared_set ops !! op_Name op = Some op.
Proof.
  unfold declared_set. induction ops as [|x ops IH] using rev_ind; [set_solver|].
  rewrite fmap_app, NoDup_app. intros (Hnd & Hdis & _) Hop. rewrite foldl_app. simpl.
  apply elem_of_app in Hop as [Hop|Hop]; [|apply list_elem_of_singleton in Hop as ->; by rewrite lookup_insert_eq].
  rewrite lookup_insert_ne; [by apply IH|]. intros Heq. apply (Hdis (op_Name op)); [by apply list_elem_of_fmap_2|].
  rewrite <-Heq. simpl. left.
Qed.

Lemma effective_operator_valid name ovr :
  yo_Operators eff !! name = Some ovr → validate_operator_override declared box (name, ovr) = Ok tt.
Proof.
  rewrite effective_operators_lookup. case_bool_decide as Hw; [done|]. intros (ov & Hov & ->)%fmap_Some.
  unfold validate_operator_override. rewrite (bool_decide_false _ Hw).
  assert (Hin : name ∈ op_Name <$> cmp_Operators declared).
  { apply (ad_box _ Hadm box Hbox). destruct (bt_Operators box !! name); [eauto|done]. }
  destruct (find_by_name op_Name _ _ Hin) as (i & op & Ef & Hop & <-).
  rewrite (declared_set_lookup _ _ (ad_operators _ Hadm) Hop). simpl.
  apply check_all_range. intros k v Hk. apply err_if_Ok, bool_decide_eq_false_2. intros Hn.
  unfold effective_operator in Hk. rewrite Ef in Hk. cbn [cov_Containers] in Hk.
  set (names := list_to_set (oc_Name <$> op_Containers op) : gset string) in *. clearbody names.
  pose proof (lookup_delete_range (λ k, bool_decide (k ∉ names)) (cov_Containers ov) (cov_Containers ov) k) as Hdel.
  rewrite Hdel in Hk.
  rewrite bool_decide_true in Hk by done. simpl in Hk. case_bool_decide as Hs; [done|]. destruct Hs. eauto.
Qed.

Lemma effective_valid : ValidateYanetComponentOverrides (Some eff) (Some declared) (Some box) = Ok tt.
Proof.
  unfold ValidateYanetComponentOverrides. rewrite effective_shape. cbn [mbind result_bind].
  destruct (ad_box _ Hadm box Hbox) as (_ & (slot & Hslot & Hw) & Hbird & _).
  assert (Hd : validateDataplaneOverride (yo_Dataplane eff) (cmp_Dataplane declared) (bcs_Dataplane (bt_Components box)) = Ok tt).
  { rewrite Hslot. destruct (yo_Dataplane o) as [dp|] eqn:Eo.
    - destruct (effective_dataplane_lookup slot dp Hslot Eo) as (dp' & -> & _ & _ & _ & E4).
      apply check_all_range. intros n v Hn. rewrite E4 in Hn. case_bool_decide as Hs; [done|].
      assert (Hin : n ∈ sd_Name <$> dpl_Sidecars (cmp_Dataplane declared)).
      { apply Hw. destruct (bd_Sidecars slot !! n); [eauto|done]. }
      rewrite bool_decide_false by (rewrite elem_of_list_to_set; tauto).
      destruct (bd_Sidecars slot !! n); done.
    - assert (yo_Dataplane eff = None) as -> by (unfold effective_overrides; simpl; by rewrite Hslot, Eo). done. }
  rewrite Hd. cbn [mbind result_bind].
  assert (Hb : match yo_BirdAdapter eff with
    | None => Ok tt
    | Some _ =>
        err_if (bool_decide (¬ is_Some (cmp_BirdAdapter declared)))
          (Errorf "spec.components.birdAdapter override has no matching YanetConfig component" []);;
        err_if (bool_decide (¬ is_Some (bcs_BirdAdapter (bt_Components box))))
          (Errorf "spec.components.birdAdapter override is not wired by the selected boxType" [])
    end = Ok tt).
  { unfold effective_overrides. cbn [yo_BirdAdapter]. destruct (bcs_BirdAdapter (bt_Components box)) eqn:Eb; [|done].
    destruct (yo_BirdAdapter o); [|done]. destruct Hbird as [x ->]; [eauto|]. done. }
  rewrite Hb. cbn [mbind result_bind]. apply check_all_range. intros name ovr. apply effective_operator_valid.
Qed.
End effective.

(** C31: the overrides of an installation keep working across every later
    configuration: if their shape was admitted once, then for any admitted
    configuration and any of its box types, whatever roles and containers were added,
    removed or unwired in between, the validation the reconciler makes of the
    effective overrides succeeds. *)
Theorem effective_overrides_survive `{PatchLib, K8sValidation, MapOrder, QuantityLib}
    (name : string) (spec : YanetConfigSpec) (box : BoxType) (overrides : option YanetComponentsOverride) :
  config_admission name spec = Ok tt → box ∈ yc_BoxTypes spec →
  validateYanetComponentOverrideShape overrides = Ok tt →
  ValidateEffectiveYanetComponentOverrides overrides (Some (yc_Components spec)) (Some box) = Ok tt.
Proof.
  intros Hadm%config_admission_facts Hbox Hs. destruct overrides as [o|]; [|done].
  by apply effective_valid.
Qed.

(** ** Witnesses *)

Import Concrete.

Lemma admitted_installations_resolve_witness :
  ∃ refs, EnabledComponentsForBox Sample.config (ys_BoxType Sample.spec) = Ok refs
    ∧ ∀ ref, ref ∈ refs →
        ∃ c, ResolveBoxComponent (Some Sample.config) (Some Sample.spec) (ref_Kind ref) (ref_OperatorName ref) = Ok (Some c)
             ∧ rc_Kind c = ref_Kind ref.
Proof.
  apply (admitted_installations_resolve YanetConfigName "w" Sample.config Sample.spec []).
  - vm_compute. reflexivity.
  - vm_compute. reflexivity.
  - apply (bool_decide_eq_true_1 _). vm_compute. reflexivity.
Defined.

Lemma admitted_config_runs_controlplane_witness :
  ∃ c, ResolveBoxComponent (Some Sample.config) (Some (bare_spec "release")) KindControlplane "" = Ok (Some c)
    ∧ enabled_numa c ≠ [] ∧ NoDup (enabled_numa c) ∧ Forall (λ i, 0 ≤ i < effectiveNuma c) (enabled_numa c).
Proof.
  eexists. split; [reflexivity|].
  apply (admitted_config_runs_controlplane YanetConfigName Sample.config (bare_spec "release")).
  - vm_compute. reflexivity.
  - reflexivity.
  - reflexivity.
Defined.

Lemma effective_overrides_survive_witness :
  ValidateEffectiveYanetComponentOverrides (ys_Components Sample.spec) (Some (yc_Components Sample.config)) (Some Sample.box)
  = Ok tt.
Proof.
  apply (effective_overrides_survive YanetConfigName).
  - vm_compute. reflexivity.
  - left.
  - vm_compute. reflexivity.
Defined.
