(* ===== verification/StartupSpec.v ===== *)
(** * The process that starts, and what wakes it

    A manager runs only when everything before it succeeded, with the defaults the
    command line did not change; and once it runs, no change of an object that
    concerns an installation, or the shared Services, goes unnoticed. *)

From S2P Require Import Prelude GoLib Sha256 K8s Api Resolve Labels Listeners Builder Service Render.
From S2P Require Import Webhook Metrics Program Managed YanetController Reconciler Reconcile ConfigController System.
From S2P Require Import Flags Startup Instances.
#[local] Open Scope Z_scope.

(** ** Sequences of calls *)
Lemma attempt_spec fails calls made status :
  attempt fails calls = (made, status) →
  match status with
  | None => made = calls ∧ Forall (λ c, fails c = false) made
  | Some n => ∃ before c after,
      made = before ++ [c] ∧ calls = before ++ c :: after ∧ Forall (λ c, fails c = false) before ∧
      fails c = true ∧ n = exit_status c
  end.
Proof.
  revert made status. induction calls as [|c calls IH]; intros made status; simpl; [by intros [= <- <-]|].
  destruct (fails c) eqn:Ec; [intros [= <- <-]; by exists [], c, calls|].
  destruct (attempt fails calls) as [made' status'] eqn:Ea. intros [= <- <-].
  specialize (IH _ _ eq_refl). destruct status' as [n|].
  - destruct IH as (before & c' & after & -> & -> & Hb & Hc & ->).
    exists (c :: before), c', after. split_and!; try done. by constructor.
  - destruct IH as [-> Hok]. split; [done|by constructor].
Qed.

Lemma exit_status_fails c : exit_status c ≠ 0.
Proof. by destruct c. Qed.

(** Everything that happens before the manager starts. *)
Definition before_start (f : flags) : list startup_call :=
  init_calls ++ [GetConfigOrDie; NewManager (manager_options f);
     CompleteController (YanetReconciler GlobalConfig); CompleteController (YanetConfigReconciler GlobalConfig)]
  ++ SetupWebhooks f ++ [AddHealthzCheck "healthz"; AddReadyzCheck "readyz"].

Lemma before_start_calls f : init_calls ++ setup_calls f = before_start f ++ [StartManager].
Proof. unfold before_start, setup_calls. by rewrite <-!app_assoc. Qed.

Lemma before_start_not_started f : StartManager ∉ before_start f.
Proof.
  unfold before_start, SetupWebhooks, init_calls. destruct (fl_enableWebhook f); simpl;
    rewrite !not_elem_of_cons; split_and!; try done; apply not_elem_of_nil.
Qed.

Section startup.
Context `{OtherFlags}.

Lemma main_started fails args made status :
  main fails args = (made, status) → StartManager ∈ made →
  ∃ f rest, parse_flags args = Parsed f rest ∧ made = before_start f ++ [StartManager] ∧
    Forall (λ c, fails c = false) (before_start f) ∧ (status = 0 ↔ fails StartManager = false).
Proof.
  unfold main. intros E Hin. destruct (attempt fails init_calls) as [made1 status1] eqn:E1.
  pose proof (attempt_spec _ _ _ _ E1) as S1.
  assert (Hinit : StartManager ∉ init_calls) by (intros Hc; eapply (before_start_not_started default_flags), elem_of_app; by left).
  destruct status1 as [n|].
  { injection E as -> <-. destruct S1 as (before & c & after & -> & Hi & _). exfalso. apply Hinit.
    rewrite Hi. set_solver. }
  destruct S1 as [-> Hok1]. destruct (parse_flags args) as [f rest| |] eqn:Ep;
    [|by injection E as <- <-|by injection E as <- <-].
  destruct (attempt fails (setup_calls f)) as [made2 status2] eqn:E2. injection E as <- <-.
  pose proof (attempt_spec _ _ _ _ E2) as S2. exists f, rest. split; [done|].
  pose proof (before_start_calls f) as Hcalls. destruct status2 as [n|].
  - destruct S2 as (before & c & after & -> & Hs & Hok2 & Hc & ->). rewrite Hs in Hcalls.
    destruct (decide (after = [])) as [->|Hne].
    + rewrite app_assoc in Hcalls. apply app_inj_tail in Hcalls as [Hb <-].
      split; [by rewrite <-Hb|]. split; [rewrite <-Hb; by apply Forall_app|].
      split; [intros Hst; exfalso; by eapply exit_status_fails|by rewrite Hc].
    + exfalso. apply (before_start_not_started f).
      destruct (exists_last Hne) as (after' & x & ->).
      rewrite app_comm_cons, !app_assoc in Hcalls. apply app_inj_tail in Hcalls as [<- _]. set_solver.
  - destruct S2 as [-> Hok2]. split; [exact Hcalls|].
    assert (Hall : Forall (λ c, fails c = false) (before_start f ++ [StartManager])).
    { rewrite <-Hcalls. by apply Forall_app. }
    apply Forall_app in Hall as [Hb Hlast]. split; [done|]. inversion Hlast; subst. by split.
Qed.

Lemma main_not_started fails args made status :
  main fails args = (made, status) → StartManager ∉ made →
  status ≠ 0 ∨ parse_flags args = ErrHelp.
Proof.
  unfold main. intros E Hin. destruct (attempt fails init_calls) as [made1 status1] eqn:E1.
  pose proof (attempt_spec _ _ _ _ E1) as S1. destruct status1 as [n|].
  { injection E as _ <-. destruct S1 as (? & c & ? & _ & _ & _ & _ & ->). left. apply exit_status_fails. }
  destruct (parse_flags args) as [f rest| |]; [|by right|left; by injection E as _ <-].
  destruct (attempt fails (setup_calls f)) as [made2 status2] eqn:E2. injection E as <- <-.
  pose proof (attempt_spec _ _ _ _ E2) as S2. left. destruct status2 as [n|].
  - destruct S2 as (? & c & ? & _ & _ & _ & _ & ->). apply exit_status_fails.
  - destruct S2 as [-> _]. exfalso. apply Hin. unfold setup_calls. set_solver.
Qed.

Lemma attempt_healthy fails calls : (∀ c, fails c = false) → attempt fails calls = (calls, None).
Proof. intros Hok. induction calls as [|c calls IH]; simpl; [done|]. by rewrite Hok, IH. Qed.

Lemma main_healthy fails args f rest :
  (∀ c, fails c = false) → parse_flags args = Parsed f rest → main fails args = (before_start f ++ [StartManager], 0).
Proof.
  intros Hok Ep. unfold main. rewrite (attempt_healthy fails init_calls), Ep, attempt_healthy by done.
  exact (f_equal (λ l, (l, 0)) (before_start_calls f)).
Qed.

(** A flag keeps its default unless an argument names it. *)
Lemma flag_default {A} (field : flags → A) name args f rest :
  (∀ f name' value f', name' ≠ name → set_flag f name' value = Ok f' → field f' = field f) →
  parse_flags args = Parsed f rest →
  field f = field default_flags ∨ Exists (names_flag name) args.
Proof.
  intros Hset Ep. destruct (decide (Exists (names_flag name) args)) as [|Hno]; [by right|left].
  refine (Parse_preserves formal set_flag (λ f, field f = field default_flags) name _ args _ rest _ _ _ Ep); [|by apply Forall_Exists_neg|done].
  intros f1 name' value f2 Hne E1 E2. by rewrite (Hset _ _ _ _ Hne E2).
Qed.

Ltac other_flags :=
  let f := fresh "f" in let name' := fresh "name'" in let Hne := fresh "Hne" in let E := fresh "E" in
  intros f name' ? ? Hne E; unfold set_flag, set_own_flag in E;
  destruct f, (own_flag name'); repeat (case_bool_decide; simplify_eq/=; try done); inv_ok; done.

Lemma leader_default args f rest :
  parse_flags args = Parsed f rest → fl_enableLeaderElection f = true ∨ Exists (names_flag "leader-elect") args.
Proof. apply (flag_default fl_enableLeaderElection). other_flags. Qed.

Lemma http2_default args f rest :
  parse_flags args = Parsed f rest → fl_enableHTTP2 f = false ∨ Exists (names_flag "enable-http2") args.
Proof. apply (flag_default fl_enableHTTP2). other_flags. Qed.

Lemma webhook_default args f rest :
  parse_flags args = Parsed f rest → fl_enableWebhook f = true ∨ Exists (names_flag "webhook-enabled") args.
Proof. apply (flag_default fl_enableWebhook). other_flags. Qed.
End startup.

Section controllers.
Context `{OtherFlags}.

Lemma before_start_controllers f :
  controllers (before_start f ++ [StartManager]) = [YanetReconciler GlobalConfig; YanetConfigReconciler GlobalConfig].
Proof. unfold before_start, SetupWebhooks. by destruct (fl_enableWebhook f). Qed.

(** For every command line and every outcome of the calls into the manager
    library, the manager starts only after every earlier call succeeded, with both
    controllers set up on one shared snapshot; leader election is on, neither the
    metrics nor the webhook server negotiates HTTP/2, and both admission webhooks are
    registered, unless an argument names the flag that changes it.  The process exits
    with status 0 only when the manager ran and ended without an error, or for the
    usage text; and when nothing fails a well-formed command line starts the manager. *)
Theorem process_starts_complete (fails : startup_call → bool) (args : list string) made status :
  main fails args = (made, status) →
  (StartManager ∈ made →
     (∀ c, c ∈ made → c ≠ StartManager → fails c = false) ∧
     (status = 0 ↔ fails StartManager = false) ∧
     ct_For <$> controllers made = [KindYanet; KindYanetConfig] ∧
     (∃ snapshot, Forall (λ c, ct_GlobalConfig c = Some snapshot) (controllers made)) ∧
     ((CompleteWebhook KindYanet ∈ made ∧ CompleteWebhook KindYanetConfig ∈ made)
      ∨ Exists (names_flag "webhook-enabled") args) ∧
     ∃ o, NewManager o ∈ made ∧
       (op_LeaderElection o = true ∨ Exists (names_flag "leader-elect") args) ∧
       ((∀ protos, foldl apply_tls_option protos (op_MetricsTLSOpts o) = ["http/1.1"] ∧
                   foldl apply_tls_option protos (op_WebhookTLSOpts o) = ["http/1.1"])
        ∨ Exists (names_flag "enable-http2") args)) ∧
  (StartManager ∉ made → status ≠ 0 ∨ parse_flags args = ErrHelp) ∧
  ((∀ c, fails c = false) → (∃ f rest, parse_flags args = Parsed f rest) → StartManager ∈ made ∧ status = 0).
Proof.
  intros E. split_and!; [|by eapply main_not_started|].
  - intros Hin. destruct (main_started _ _ _ _ E Hin) as (f & rest & Ep & -> & Hok & Hst).
    split_and!; [| |by rewrite before_start_controllers| | |].
    + intros c [Hc| ->%list_elem_of_singleton]%elem_of_app Hne; [|done]. rewrite Forall_forall in Hok. by apply Hok.
    + done.
    + exists GlobalConfig. rewrite before_start_controllers. by repeat constructor.
    + destruct (webhook_default _ _ _ Ep) as [Hw|]; [left|by right].
      unfold before_start, SetupWebhooks, SetupYanetWebhookWithManager, SetupYanetConfigWebhookWithManager.
      rewrite Hw. set_solver.
    + exists (manager_options f). split; [unfold before_start; set_solver|]. split; [by eapply leader_default|].
      destruct (http2_default _ _ _ Ep) as [Hh|]; [left|by right]. intros protos.
      unfold manager_options, tlsOpts. by rewrite Hh.
  - intros Hok (f & rest & Ep). rewrite (main_healthy _ _ _ _ Hok Ep) in E. injection E as <- <-.
    split; [set_solver|done].
Qed.
End controllers.

(** ** Changes wake the controllers *)
Section wake.
Context `{MetaLib, ClientUtil, PatchLib, QuantityLib, K8sValidation, MapOrder}.
Context `{!EventHandlers} `{OtherFlags}.

(** The objects whose changes matter to an installation: itself, the
    configuration, the Nodes its selector matches, the Pods of its workloads, and
    the Deployments and ConfigMaps it controls. *)
Definition concerns (y : Yanet) (o : object) : Prop :=
  match o with
  | OYanet y' => key_of y' = key_of y
  | OYanetConfig _ => True
  | ONode n => SelectorMatches (ys_NodeSelector (y_Spec y)) (n_Labels n) = true
  | OPod p => om_Namespace (p_Meta p) = y_Namespace y ∧ om_Labels (p_Meta p) !! labelYanet = Some (y_Name y) ∧ y_Name y ≠ ""
  | ODeployment d => controlledByYanet (d_Meta d) y = true
  | OConfigMap c => controlledByYanet (cm_Meta c) y = true
  | OService _ => False
  end.

(** To the shared Services: the installations, the configuration, and the Services
    it controls. *)
Definition concerns_services (o : object) : Prop :=
  match o with
  | OYanet _ | OYanetConfig _ => True
  | OService s => ∃ ref, GetControllerOf (sv_Meta s) = Some ref ∧ or_APIVersion ref = GroupVersion ∧ or_Kind ref = "YanetConfig"
  | _ => False
  end.

(** Every list of installations in the run holds [y]. *)
Definition lists_installation (y : Yanet) (e : event) : Prop :=
  match e with Ev ListYanets a => ∃ ys, a = Ok ys ∧ y ∈ ys | _ => True end.

(** A controller for [y] runs its reconcile, or a mapper that asks for it. *)
Definition wakes (made : list startup_call) (e : change) (y : Yanet) : Prop :=
  ∃ c, c ∈ controllers made ∧ ct_For c = KindYanet ∧
    (YanetJob (y_Namespace y) (y_Name y) ∈ controller_jobs c e ∨
     ∃ j, j ∈ controller_jobs c e ∧
       ∀ t r, run (job_prog j) t r → Forall (lists_installation y) t → ∃ reqs, r = Mapped reqs ∧ key_of y ∈ reqs).

Definition wakes_services (made : list startup_call) (e : change) : Prop :=
  ∃ c, c ∈ controllers made ∧ ct_For c = KindYanetConfig ∧
    (YanetConfigJob ∈ controller_jobs c e ∨
     ∃ j, j ∈ controller_jobs c e ∧ ∀ t r, run (job_prog j) t r → ∃ req reqs, r = Mapped (req :: reqs)).

Lemma controlled_owner meta y :
  controlledByYanet meta y = true →
  ∃ ref, GetControllerOf meta = Some ref ∧ or_APIVersion ref = GroupVersion ∧ or_Kind ref = "Yanet" ∧
    (om_Namespace meta, or_Name ref) = (y_Namespace y, y_Name y).
Proof.
  unfold controlledByYanet. case_bool_decide as Hns; [done|]. destruct (GetControllerOf meta) as [ref|]; [|done].
  destruct (_ || _) eqn:Eo; [done|]. intros _.
  repeat match goal with Hor : _ || _ = false |- _ => apply orb_false_iff in Hor as [? ?] end.
  repeat match goal with Hb : bool_decide _ = false |- _ => apply bool_decide_eq_false_1, dec_stable in Hb end.
  exists ref. split_and!; congruence.
Qed.

Lemma coherent_object e o :
  coherent e → o ∈ objects e →
  object_kind o = object_kind (final_object e) ∧ object_key o = object_key (final_object e).
Proof. unfold coherent. rewrite Forall_forall. auto. Qed.

(** The three kinds of watches of a controller. *)
Lemma for_jobs c e o :
  coherent e → o ∈ objects e → ct_For c = object_kind o → reconcile_job c (object_key o) ∈ controller_jobs c e.
Proof.
  intros Hco Ho Hk. destruct (coherent_object _ _ Hco Ho) as [Ek Ey].
  unfold controller_jobs. apply elem_of_app. left. rewrite bool_decide_true by congruence.
  rewrite Ey. apply list_elem_of_fmap_2, object_requests_final.
Qed.

Lemma watch_jobs c e o m j :
  coherent e → o ∈ objects e → (object_kind o, m) ∈ ct_Watches c → mapper_job m o = Some j → j ∈ controller_jobs c e.
Proof.
  intros Hco Ho Hw Hj. destruct (coherent_object _ _ Hco Ho) as [Ek _].
  unfold controller_jobs. rewrite !elem_of_app. right. left. apply list_elem_of_In, in_concat.
  eexists. rewrite <-!list_elem_of_In. split; [by apply list_elem_of_fmap_2|]. simpl. rewrite bool_decide_true by done.
  apply list_elem_of_omap. exists o. split; [by apply mapped_objects_all|done].
Qed.

Lemma owns_jobs c e o meta ref :
  coherent e → o ∈ objects e → object_kind o ∈ ct_Owns c → object_meta o = Some meta →
  GetControllerOf meta = Some ref → or_APIVersion ref = GroupVersion → or_Kind ref = owner_kind c →
  reconcile_job c ((if bool_decide (ct_For c = KindYanet) then om_Namespace meta else ""), or_Name ref)
    ∈ controller_jobs c e.
Proof.
  intros Hco Ho Hk Hm Hr Ha Hkind. destruct (coherent_object _ _ Hco Ho) as [Ek _].
  unfold controller_jobs. rewrite !elem_of_app. right. right.
  rewrite (bool_decide_true (object_kind (final_object e) ∈ ct_Owns c)) by (by rewrite <-Ek).
  apply list_elem_of_fmap_2. by eapply owner_requests_all.
Qed.

(** What the mappers answer when the installation is listed. *)
Lemma config_mapper_asks y t r :
  run (job_prog MapConfigJob) t r → Forall (lists_installation y) t → ∃ reqs, r = Mapped reqs ∧ key_of y ∈ reqs.
Proof.
  simpl. intros (a & t1 & -> & listed & t2 & -> & -> & ->) Hl.
  destruct (Forall_inv (Forall_inv_tail Hl) : ∃ ys, listed = Ok ys ∧ y ∈ ys) as (ys & -> & Hy).
  eexists. split; [done|]. by apply list_elem_of_fmap_2.
Qed.

Lemma node_mapper_asks y node t r :
  SelectorMatches (ys_NodeSelector (y_Spec y)) (n_Labels node) = true →
  run (job_prog (MapNodeJob node)) t r → Forall (lists_installation y) t → ∃ reqs, r = Mapped reqs ∧ key_of y ∈ reqs.
Proof.
  simpl. intros Hsel (listed & t1 & -> & -> & ->) Hl.
  destruct (Forall_inv Hl : ∃ ys, listed = Ok ys ∧ y ∈ ys) as (ys & -> & Hy).
  eexists. split; [done|]. apply list_elem_of_fmap_2. by apply list_elem_of_filter.
Qed.

Lemma pod_mapper_asks y pod t r :
  concerns y (OPod pod) → run (job_prog (MapPodJob pod)) t r → ∃ reqs, r = Mapped reqs ∧ key_of y ∈ reqs.
Proof.
  simpl. intros (Hns & Hlabel & Hname) (_ & ->). eexists. split; [done|].
  unfold mapPodToYanet, get. rewrite Hlabel. simpl. rewrite bool_decide_false by done.
  rewrite Hns. apply list_elem_of_singleton. done.
Qed.

Lemma yanet_wakes c made e y o :
  c = YanetReconciler GlobalConfig → c ∈ controllers made → coherent e → o ∈ objects e → concerns y o → wakes made e y.
Proof.
  intros Ec Hin Hco Ho Hy. exists c. split; [done|]. split; [by subst|].
  assert (Hown : ∀ meta, object_kind o ∈ ct_Owns c → object_meta o = Some meta → controlledByYanet meta y = true →
                   YanetJob (y_Namespace y) (y_Name y) ∈ controller_jobs c e).
  { intros meta Hk Hm (ref & Hr & Ha & Hkind & Hkey)%controlled_owner.
    pose proof (owns_jobs c e o meta ref Hco Ho Hk Hm Hr Ha) as Hj. subst c. simpl in Hj.
    injection Hkey as Hns Hn. unfold reconcile_job in Hj. simpl in Hj. rewrite Hns, Hn in Hj. by apply Hj. }
  destruct o as [y'|cfg|n|p|d|cm|s]; simpl in Hy; [left| | | |left|left|done].
  - pose proof (for_jobs c e _ Hco Ho) as Hj. subst c. simpl in Hj. unfold key_of in Hy. injection Hy as Hns Hn.
    unfold reconcile_job in Hj. simpl in Hj. unfold y_Namespace, y_Name in *. rewrite Hns, Hn in Hj. by apply Hj.
  - right. exists MapConfigJob. split; [|exact (config_mapper_asks y)].
    apply (watch_jobs c e _ MapConfigToYanets _ Hco Ho); [subst c; simpl; set_solver|done].
  - right. exists (MapNodeJob n). split; [|by intros; eapply node_mapper_asks].
    apply (watch_jobs c e _ MapNodeToYanets _ Hco Ho); [subst c; simpl; set_solver|done].
  - right. exists (MapPodJob p). split; [|intros; by eapply pod_mapper_asks].
    apply (watch_jobs c e _ MapPodToYanet _ Hco Ho); [subst c; simpl; set_solver|done].
  - eapply Hown; [|done|done]. subst c. simpl. set_solver.
  - eapply Hown; [|done|done]. subst c. simpl. set_solver.
Qed.

Lemma services_wake c made e o :
  c = YanetConfigReconciler GlobalConfig → c ∈ controllers made → coherent e → o ∈ objects e → concerns_services o →
  wakes_services made e.
Proof.
  intros Ec Hin Hco Ho Hs. exists c. split; [done|]. split; [by subst|].
  destruct o as [y|cfg|n|p|d|cm|s]; simpl in Hs; try done.
  - right. exists MapYanetJob. split.
    + apply (watch_jobs c e _ EnqueueYanetConfigSingleton _ Hco Ho); [subst c; simpl; set_solver|done].
    + simpl. intros t r (_ & ->). by eexists _, _.
  - left. pose proof (for_jobs c e _ Hco Ho) as Hj. subst c. by apply Hj.
  - left. destruct Hs as (ref & Hr & Ha & Hk).
    pose proof (owns_jobs c e (OService s) (sv_Meta s) ref Hco Ho) as Hj. subst c.
    apply Hj; try done. simpl. set_solver.
Qed.

(** C19: once the manager runs, no change goes unnoticed that concerns an
    installation: a created, deleted or updated Yanet, YanetConfig, matching Node,
    labelled Pod, or controlled Deployment or ConfigMap, where either side of an update
    counts (so that a Node that stops matching and a Pod that loses its label are
    seen), starts its reconcile, or a mapper whose every run asks for it when the
    installation is listed, also when refreshing the snapshot fails.  Likewise a change
    of a Yanet, of the YanetConfig or of a Service it controls wakes the reconcile of
    the shared Services. *)
Theorem changes_wake_reconcilers (fails : startup_call → bool) (args : list string) made status (e : change) (o : object) :
  main fails args = (made, status) → StartManager ∈ made → coherent e → o ∈ objects e →
  (∀ y, concerns y o → wakes made e y) ∧ (concerns_services o → wakes_services made e).
Proof.
  intros E Hin Hco Ho. destruct (main_started _ _ _ _ E Hin) as (f & rest & _ & -> & _).
  split; [intros y Hy; eapply yanet_wakes|intros Hs; eapply services_wake]; try done;
    rewrite before_start_controllers; set_solver.
Qed.
End wake.

(** ** Examples *)
Import Concrete.

Module Process.
(** Two flags of the logger. *)
Definition logger_flag (name : string) : option flag_kind :=
  if bool_decide (name = "zap-devel") then Some BoolFlag
  else if bool_decide (name = "zap-encoder") then Some ValueFlag else None.

Lemma logger_flag_fresh name : is_Some (own_flag name) → logger_flag name = None.
Proof.
  intros [k Hk]. unfold logger_flag.
  destruct (decide (name = "zap-devel")) as [->|Hd]; [vm_compute in Hk; discriminate Hk|].
  destruct (decide (name = "zap-encoder")) as [->|He]; [vm_compute in Hk; discriminate Hk|].
  by rewrite !bool_decide_false.
Qed.

#[export] Instance logger : OtherFlags :=
  {| other_flag := logger_flag; set_other_flag _ _ := Ok tt; other_flag_fresh := logger_flag_fresh |}.

(** The handlers, as their documentation describes them. *)
Definition owner_request (ownerKind : string) (namespaced : bool) (o : object) : option request :=
  meta ← object_meta o; ref ← GetControllerOf meta;
  if bool_decide (or_APIVersion ref = GroupVersion ∧ or_Kind ref = ownerKind)
  then Some ((if namespaced then om_Namespace meta else ""), or_Name ref) else None.

Lemma owner_request_all ownerKind (namespaced : bool) e o meta ref :
  o ∈ objects e → object_meta o = Some meta → GetControllerOf meta = Some ref →
  or_APIVersion ref = GroupVersion → or_Kind ref = ownerKind →
  ((if namespaced then om_Namespace meta else ""), or_Name ref) ∈ omap (owner_request ownerKind namespaced) (objects e).
Proof.
  intros Ho Hm Hr Ha Hk. apply list_elem_of_omap. exists o. split; [done|].
  unfold owner_request. rewrite Hm. simpl. simpl in Hr. rewrite Hr. simpl. by rewrite bool_decide_true.
Qed.

#[export] Instance handlers : EventHandlers := {|
  object_requests e := [object_key (final_object e)];
  object_requests_final e := list_elem_of_here _ _;
  mapped_objects := objects;
  mapped_objects_all e o Ho := Ho;
  owner_requests ownerKind namespaced e := omap (owner_request ownerKind namespaced) (objects e);
  owner_requests_all := owner_request_all;
|}.

Definition healthy (c : startup_call) : bool := false.
Definition args : list string := ["--webhook-port=0x24_e3"; "-zap-encoder"; "--leader-elect=false"; "--metrics-secure"].

(** A Node that leaves the pool. *)
Definition leaving : change := Updated (ONode Fake.node) (ONode (MkNode "node-a" ∅ ∅)).
End Process.
Import Process.

(** The value of a flag is not a flag. *)
Example encoder_value :
  parse_flags args = Parsed (MkFlags ":8080" true ":8081" true false true 9443) [].
Proof. vm_compute. reflexivity. Qed.

Lemma process_starts_complete_witness :
  (main healthy ["--webhook-port=0x24_e3"; "--metrics-secure"]).2 = 0 ∧
  ∃ o, NewManager o ∈ (main healthy ["--webhook-port=0x24_e3"; "--metrics-secure"]).1 ∧
    (op_LeaderElection o = true ∨ Exists (names_flag "leader-elect") ["--webhook-port=0x24_e3"; "--metrics-secure"]).
Proof.
  split; [vm_compute; reflexivity|].
  destruct (process_starts_complete healthy ["--webhook-port=0x24_e3"; "--metrics-secure"] _ _ eq_refl) as (Hs & _ & Hh).
  destruct Hs as (_ & _ & _ & _ & _ & o & Hin & Hleader & _).
  - apply Hh; [intros c; reflexivity|]. eexists _, _. vm_compute. reflexivity.
  - exists o. split; assumption.
Defined.

Lemma changes_wake_reconcilers_witness :
  SelectorMatches (ys_NodeSelector (y_Spec Fake.yanet)) ∅ = false ∧ wakes (main healthy args).1 leaving Fake.yanet.
Proof.
  split; [vm_compute; reflexivity|].
  destruct (changes_wake_reconcilers healthy args (main healthy args).1 (main healthy args).2 leaving (ONode Fake.node))
    as [Hw _].
  - vm_compute. reflexivity.
  - vm_compute. repeat constructor.
  - repeat constructor.
  - apply list_elem_of_here.
  - apply Hw. vm_compute. reflexivity.
Defined.
