(* ===== verification/DeepCopySpec.v ===== *)
(** * Deep copies are faithful and separate

    Every statement form of the generated code preserves [deep_copies], so that the
    theorem for each type follows the structure of its function. *)

From S2P Require Import Prelude GoHeap DeepCopy.
#[local] Open Scope Z_scope.

(** ** Regions *)
Lemma closed_mono h h' R : h ⊆ h' → closed h R → closed h' R.
Proof.
  intros Hsub Hcl l Hl. destruct (Hcl l Hl) as (c & Hc & Hr). exists c. split; [by eapply lookup_weaken|done].
Qed.

Lemma closed_union h R R' : closed h R → closed h R' → closed h (R ∪ R').
Proof.
  intros H1' H2' l [Hl|Hl]%elem_of_union; [destruct (H1' l Hl) as (c & ? & ?)|destruct (H2' l Hl) as (c & ? & ?)];
    exists c; set_solver.
Qed.

Lemma new_region_refl h : new_region h h ∅.
Proof. split_and!; [done|set_solver|]. intros l Hl. set_solver. Qed.

Lemma new_region_trans h h1 h2 R1 R2 :
  new_region h h1 R1 → new_region h1 h2 R2 → new_region h h2 (R1 ∪ R2).
Proof.
  intros (Hs1 & Hd1 & Hc1) (Hs2 & Hd2 & Hc2). split_and!; [by etransitivity| |].
  - assert (dom h ⊆ dom h1) by (by apply subseteq_dom). set_solver.
  - apply closed_union; [by eapply closed_mono|done].
Qed.

Lemma alloc_fresh (h : heap) : h !! fresh (dom h) = None.
Proof. apply not_elem_of_dom, is_fresh. Qed.

(** A cell that refers to a new region extends it. *)
Lemma alloc_region h h1 R c :
  new_region h h1 R → crefs c ⊆ R →
  ∃ l, alloc c h1 = Some (l, <[l := c]> h1) ∧ new_region h (<[l := c]> h1) ({[l]} ∪ R).
Proof.
  intros (Hs & Hd & Hc) Hr. exists (fresh (dom h1)). split; [done|].
  generalize (fresh (dom h1)), (alloc_fresh h1). intros l Hf.
  assert (Hsub : h1 ⊆ <[l := c]> h1) by (by apply insert_subseteq). split_and!.
  - by etransitivity.
  - assert (Hl : l ∉ (dom h : gset loc)); [|clear -Hd Hl; set_solver]. apply not_elem_of_dom. by eapply lookup_weaken_None.
  - intros l' [->%elem_of_singleton|Hl']%elem_of_union.
    + exists c. rewrite lookup_insert_eq. set_solver.
    + destruct (closed_mono _ _ _ Hsub Hc l' Hl') as (c' & Hc' & Hr'). exists c'. set_solver.
Qed.

Lemma read_flat h h' t v x : flat t = true → read h t v = Some x → vrefs v = ∅ ∧ read h' t v = Some x.
Proof.
  revert v x. induction t as [| | |t IH|t IH|t IH| |name t IH rest IHr]; intros v x; simpl; try done;
    try (intros _; destruct v; done).
  intros [Ht Hr]%andb_true_iff. destruct v as [| | | | | | |n y vs]; try done. case_bool_decide; [|done].
  rewrite !bind_Some. intros (a & Ha & Hb). rewrite bind_Some in Hb. destruct Hb as (b & Hb & [= <-]).
  destruct (IH _ _ Ht Ha) as [Hv Ha']. destruct (IHr _ _ Hr Hb) as [Hvs Hb'].
  simpl. split; [set_solver|]. exists a. split; [done|]. rewrite bind_Some. by exists b.
Qed.

(** ** The statements *)
Lemma bind_eq {A B} (p : M A) (f : A → M B) h a h' : p h = Some (a, h') → (p ≫= f) h = f a h'.
Proof. unfold mbind, M_bind. by intros ->. Qed.

Lemma load_eq h l c : h !! l = Some c → load l h = Some (c, h).
Proof. unfold load. by intros ->. Qed.

Lemma alloc_grows c h l h' : alloc c h = Some (l, h') → h ⊆ h'.
Proof. intros [= <- <-]. apply insert_subseteq, alloc_fresh. Qed.

Lemma deep_assign t : flat t = true → deep_copies assign t.
Proof.
  intros Hf h v x Hx. destruct (read_flat h h t v x Hf Hx) as [Hv _].
  exists v, h, ∅. split_and!; [done|apply new_region_refl|set_solver|done].
Qed.

Lemma deep_ptr f t : deep_copies f t → deep_copies (copy_ptr f) (TPtr t).
Proof.
  intros Hf h v x Hx. simpl in Hx. destruct v as [| | | |l| | |]; try done.
  { injection Hx as <-. exists VNil, h, ∅. split_and!; [done|apply new_region_refl|done|done]. }
  destruct (h !! l) as [[y| |]|] eqn:El; try done. apply fmap_Some in Hx as (y' & Hy & ->).
  destruct (Hf h y y' Hy) as (z & h1 & R & Ef & Hnew & Hz & Hr).
  destruct (alloc_region h h1 R (Var z) Hnew Hz) as (l' & Ea & Hnew').
  exists (VRef l'), (<[l' := Var z]> h1), ({[l']} ∪ R). split_and!; [|done|set_solver|].
  - unfold copy_ptr. by rewrite (bind_eq _ _ _ _ _ (load_eq _ _ _ El)), (bind_eq _ _ _ _ _ Ef), (bind_eq _ _ _ _ _ Ea).
  - simpl. rewrite lookup_insert_eq. by rewrite (read_mono _ _ _ _ _ (alloc_grows _ _ _ _ Ea) Hr).
Qed.

Lemma deep_deref f t : deep_copies f t → deep_copies (deref_copy f) t.
Proof.
  intros Hf h v x Hx. destruct (Hf h v x Hx) as (z & h1 & R & Ef & Hnew & Hz & Hr).
  destruct (alloc_region h h1 R (Var z) Hnew Hz) as (l' & Ea & Hnew').
  exists z, (<[l' := Var z]> h1), ({[l']} ∪ R). split_and!; [|done|set_solver|].
  - unfold deref_copy. rewrite (bind_eq _ _ _ _ _ Ef), (bind_eq _ _ _ _ _ Ea).
    by rewrite (bind_eq _ _ _ _ _ (load_eq _ _ (Var z) (lookup_insert_eq _ _ _))).
  - exact (read_mono _ _ _ _ _ (alloc_grows _ _ _ _ Ea) Hr).
Qed.

(** A loop over elements that each end in a region of their own. *)
Lemma each_region {A B} (f : A → M B) (Q : gset loc → heap → A → B → Prop) xs h :
  (∀ x h1, x ∈ xs → h ⊆ h1 → ∃ y h' R, f x h1 = Some (y, h') ∧ new_region h1 h' R ∧ Q R h' x y) →
  (∀ R R' h1 h2 x y, Q R h1 x y → R ⊆ R' → h1 ⊆ h2 → Q R' h2 x y) →
  ∃ ys h' R, each f xs h = Some (ys, h') ∧ new_region h h' R ∧ Forall2 (Q R h') xs ys.
Proof.
  intros Hf Hmono. revert h Hf. induction xs as [|x xs IH]; intros h Hf.
  { exists [], h, ∅. split_and!; [done|apply new_region_refl|done]. }
  destruct (Hf x h) as (y & h1 & R1 & E1 & Hn1 & Hq); [set_solver|done|].
  destruct (IH h1) as (ys & h2 & R2 & E2 & Hn2 & Hqs).
  { intros x' h' Hx' Hs. apply Hf; [set_solver|]. etransitivity; [apply Hn1|done]. }
  exists (y :: ys), h2, (R1 ∪ R2). split_and!.
  - simpl. by rewrite (bind_eq _ _ _ _ _ E1), (bind_eq _ _ _ _ _ E2).
  - by eapply new_region_trans.
  - constructor; [eapply Hmono; [exact Hq|set_solver|apply Hn2]|].
    eapply Forall2_impl; [exact Hqs|]. intros ? ? Hq'. eapply Hmono; [exact Hq'|set_solver|done].
Qed.

(** The copy of one element of a slice or a map. *)
Definition element_copied (h : heap) (t : ty) (R : gset loc) (h' : heap) (v v' : val) : Prop :=
  vrefs v' ⊆ R ∧ read h' t v' = read h t v ∧ is_Some (read h t v).

Lemma element_copied_mono h t R R' h1 h2 v v' :
  element_copied h t R h1 v v' → R ⊆ R' → h1 ⊆ h2 → element_copied h t R' h2 v v'.
Proof.
  intros (Hv & Hr & [x Hx]) HR Hh. split_and!; [set_solver| |by exists x].
  rewrite Hx in *. by eapply read_mono.
Qed.

Lemma deep_element f t h v h1 :
  deep_copies f t → is_Some (read h t v) → h ⊆ h1 →
  ∃ v' h' R, f v h1 = Some (v', h') ∧ new_region h1 h' R ∧ element_copied h t R h' v v'.
Proof.
  intros Hf [x Hx] Hs. destruct (Hf h1 v x) as (v' & h' & R & E & Hn & Hv & Hr); [by eapply read_mono|].
  exists v', h', R. split_and!; [done|done|]. split_and!; [done|by rewrite Hr|by exists x].
Qed.

Lemma mapM_copied h t R h' vs vs' :
  Forall2 (element_copied h t R h') vs vs' → mapM (read h' t) vs' = mapM (read h t) vs.
Proof. induction 1 as [|v v' vs vs' (_ & Hr & _) _ IH]; simpl; [done|]. by rewrite Hr, IH. Qed.

Lemma deep_slice f t : deep_copies f t → deep_copies (copy_slice f) (TSlice t).
Proof.
  intros Hf h v x Hx. simpl in Hx. destruct v as [| | | | |l off len| |]; try done.
  { injection Hx as <-. exists VNil, h, ∅. split_and!; [done|apply new_region_refl|done|done]. }
  destruct (h !! l) as [[|xs|]|] eqn:El; try done. case_bool_decide as Hlen; [|done].
  apply fmap_Some in Hx as (ys & Hys & ->). set (part := take len (drop off xs)) in *.
  destruct (each_region f (element_copied h t) part h) as (zs & h1 & R & Ee & Hnew & Hzs).
  { intros y h1 Hy Hs. apply deep_element; [done| |done].
    apply mapM_Some in Hys. apply list_elem_of_lookup in Hy as [i Hi].
    destruct (Forall2_lookup_l _ _ _ _ _ Hys Hi) as (z & _ & Hz). by exists z. }
  { intros. by eapply element_copied_mono. }
  assert (Hl : length zs = len).
  { rewrite <-(Forall2_length _ _ _ Hzs). unfold part. rewrite length_take, length_drop. lia. }
  destruct (alloc_region h h1 R (Arr zs) Hnew) as (l' & Ea & Hnew').
  { apply crefs_Arr_subseteq. intros z [i Hi]%list_elem_of_lookup.
    destruct (Forall2_lookup_r _ _ _ _ _ Hzs Hi) as (y & _ & Hv & _). exact Hv. }
  exists (VSlice l' 0 len), (<[l' := Arr zs]> h1), ({[l']} ∪ R). split_and!; [|done|set_solver|].
  - unfold copy_slice. rewrite (bind_eq _ _ _ _ _ (load_eq _ _ _ El)), bool_decide_true by done.
    by rewrite (bind_eq _ _ _ _ _ Ee), (bind_eq _ _ _ _ _ Ea).
  - simpl. rewrite lookup_insert_eq, bool_decide_true by lia. rewrite drop_0, take_ge by lia.
    rewrite (mapM_copied h t R _ part zs), Hys; [done|]. eapply Forall2_impl; [exact Hzs|].
    intros ? ? Hc. eapply element_copied_mono; [exact Hc|done|]. by eapply alloc_grows.
Qed.

Lemma list_to_map_Forall2 {A B} (P : A → B → Prop) (l : list (string * A)) (l' : list (string * B)) k :
  Forall2 (λ kv kv', kv'.1 = kv.1 ∧ P kv.2 kv'.2) l l' →
  match (list_to_map l : gmap string A) !! k, (list_to_map l' : gmap string B) !! k with
  | Some a, Some b => P a b | None, None => True | _, _ => False
  end.
Proof.
  induction 1 as [|[k1 a] [k2 b] l l' [Hk HP] _ IH]; simpl in *; [by rewrite !lookup_empty|]. subst.
  destruct (decide (k1 = k)) as [->|Hne]; [by rewrite !lookup_insert_eq|]. by rewrite !lookup_insert_ne.
Qed.

Section maps.
Context `{MapOrder}.

Lemma deep_map f t : deep_copies f t → deep_copies (copy_map f) (TMap t).
Proof.
  intros Hf h v x Hx. simpl in Hx. destruct v as [| | | |l| | |]; try done.
  { injection Hx as <-. exists VNil, h, ∅. split_and!; [done|apply new_region_refl|done|done]. }
  destruct (h !! l) as [[| |m]|] eqn:El; try done. case_bool_decide as Hm; [|done]. injection Hx as <-.
  set (g := λ kv : string * val, y ← f kv.2; mret (kv.1, y)).
  destruct (each_region g (λ R h' kv kv', kv'.1 = kv.1 ∧ element_copied h t R h' kv.2 kv'.2) (map_range m) h)
    as (kvs & h1 & R & Ee & Hnew & Hkvs).
  { intros [k y] h1 Hy Hs. apply elem_of_map_range in Hy.
    destruct (deep_element f t h y h1 Hf (Hm k y Hy) Hs) as (y' & h' & R & E & Hn & Hc).
    exists (k, y'), h', R. split_and!; [|done|done|done]. unfold g. by rewrite (bind_eq _ _ _ _ _ E). }
  { intros ? ? ? ? ? ? [Hk Hc] ? ?. split; [done|]. by eapply element_copied_mono. }
  set (m' := list_to_map kvs : gmap string val).
  assert (Hm' : ∀ k, match m !! k, m' !! k with
                     | Some v, Some v' => element_copied h t R h1 v v' | None, None => True | _, _ => False end).
  { intros k. pose proof (list_to_map_Forall2 (element_copied h t R h1) _ _ k Hkvs) as Hk.
    by rewrite list_to_map_range in Hk. }
  destruct (alloc_region h h1 R (Hash m') Hnew) as (l' & Ea & Hnew').
  { apply crefs_Hash_subseteq. intros k y Hy. specialize (Hm' k). rewrite Hy in Hm'.
    destruct (m !! k); [apply Hm'|done]. }
  exists (VRef l'), (<[l' := Hash m']> h1), ({[l']} ∪ R). split_and!; [|done|set_solver|].
  - unfold copy_map. rewrite (bind_eq _ _ _ _ _ (load_eq _ _ _ El)).
    by rewrite (bind_eq _ _ _ _ _ Ee), (bind_eq _ _ _ _ _ Ea).
  - assert (Hlook : ∀ k v v', m !! k = Some v → m' !! k = Some v' →
                      read (<[l' := Hash m']> h1) t v' = read h t v ∧ is_Some (read h t v)).
    { intros k v v' Ev Ev'. specialize (Hm' k). rewrite Ev, Ev' in Hm'.
      by destruct (element_copied_mono _ _ _ R _ _ _ _ Hm' ltac:(done) (alloc_grows _ _ _ _ Ea)) as (_ & ? & ?). }
    simpl. rewrite lookup_insert_eq, bool_decide_true.
    + do 2 f_equal. apply map_eq. intros k. rewrite !lookup_omap. specialize (Hm' k).
      destruct (m !! k) as [v|] eqn:Ev, (m' !! k) as [v'|] eqn:Ev'; try done. simpl. by apply (Hlook k).
    + intros k v' Ev'. specialize (Hm' k). rewrite Ev' in Hm'. destruct (m !! k) as [v|] eqn:Ev; [|done].
      destruct (Hlook k v v' Ev Ev') as [-> ?]. done.
Qed.
End maps.

(** ** Structs *)
Fixpoint is_struct (t : ty) : bool :=
  match t with TEnd => true | TField _ _ rest => is_struct rest | _ => false end.

(** Every field is copied by a statement, or needs none. *)
Fixpoint covered (D : list string) (t : ty) : bool :=
  match t with
  | TField name t rest => (bool_decide (name ∈ D) || flat t) && covered D rest
  | _ => true
  end.

(** After the statements for the fields [D]: those are copied, the others are still
    the ones of the original. *)
Fixpoint copied_fields (D : list string) (h0 h : heap) (R : gset loc) (t : ty) (v0 v : val) : Prop :=
  match t, v0, v with
  | TEnd, VEnd, VEnd => True
  | TField name t rest, VField n0 x0 vs0, VField n x vs =>
      n0 = name ∧ n = name ∧ is_Some (read h0 t x0) ∧ (if decide (name ∈ D) then element_copied h0 t R h x0 x else x = x0) ∧
      copied_fields D h0 h R rest vs0 vs
  | _, _, _ => False
  end.

Lemma copied_fields_init h t v x : is_struct t = true → read h t v = Some x → copied_fields [] h h ∅ t v v.
Proof.
  revert v x. induction t as [| | |t IH|t IH|t IH| |name t IH rest IHr]; intros v x Hs; simpl in *; try done.
  { destruct v; done. }
  destruct v as [| | | | | | |n y vs]; try done. case_bool_decide; [|done].
  rewrite bind_Some. intros (a & Ha & Hb). rewrite bind_Some in Hb. destruct Hb as (b & Hb & _).
  split_and!; [done|done|by exists a|done|by eapply IHr].
Qed.

Lemma copied_fields_mono D h0 h h' R R' t v0 v :
  copied_fields D h0 h R t v0 v → h ⊆ h' → R ⊆ R' → copied_fields D h0 h' R' t v0 v.
Proof.
  intros Hc Hh HR. revert v0 v Hc.
  induction t as [| | |t IH|t IH|t IH| |name t IH rest IHr]; intros v0 v Hc; simpl in *; try done.
  destruct v0 as [| | | | | | |n0 x0 vs0], v as [| | | | | | |n1 x vs]; try done.
  destruct Hc as (-> & -> & Hx & Hc & Hr). split_and!; [done|done|done| |by apply IHr].
  case_decide; [by eapply element_copied_mono|done].
Qed.

Lemma copied_fields_other D name h0 h R t v0 v :
  name ∉ field_names t → copied_fields D h0 h R t v0 v → copied_fields (name :: D) h0 h R t v0 v.
Proof.
  revert v0 v. induction t as [| | |t IH|t IH|t IH| |n' t IH rest IHr]; intros v0 v Hn Hc; simpl in *; try done.
  destruct v0 as [| | | | | | |n0 x0 vs0], v as [| | | | | | |n1 x vs]; try done.
  destruct Hc as (-> & -> & Hx & Hc & Hr). apply not_elem_of_cons in Hn as [Hne Hn].
  split_and!; [done|done|done| |by apply IHr]. repeat case_decide; set_solver.
Qed.

Lemma copy_field_spec name f tn D h0 h R t v0 v :
  NoDup (field_names t) → name ∉ D → field_type t name = Some tn → deep_copies f tn → h0 ⊆ h →
  copied_fields D h0 h R t v0 v →
  ∃ v' h' R', copy_field name f v h = Some (v', h') ∧ new_region h h' R' ∧
    copied_fields (name :: D) h0 h' (R ∪ R') t v0 v'.
Proof.
  intros Hnd HD Ht Hf Hh. revert v0 v Hnd Ht.
  induction t as [| | |t IH|t IH|t IH| |n' t IH rest IHr]; intros v0 v Hnd Ht Hc; simpl in *; try done.
  destruct v0 as [| | | | | | |n0 x0 vs0], v as [| | | | | | |n1 x vs]; try done.
  destruct Hc as (-> & -> & Hx & Hc & Hr). apply NoDup_cons in Hnd as [Hni Hnd].
  case_bool_decide as Hn.
  - subst n'. injection Ht as ->. rewrite decide_False in Hc by done. subst x.
    destruct (deep_element f tn h0 x0 h Hf Hx Hh) as (y & h' & R' & E & Hnew & Hy).
    exists (VField name y vs), h', R'. split; [|split; [done|]].
    { cbn [copy_field]. rewrite bool_decide_true by done. by rewrite (bind_eq _ _ _ _ _ E). }
    split_and!; [done|done|done| |].
    + rewrite decide_True by set_solver. eapply element_copied_mono; [exact Hy|set_solver|done].
    + apply copied_fields_other; [done|]. eapply copied_fields_mono; [exact Hr|apply Hnew|set_solver].
  - destruct (IHr vs0 vs Hnd Ht Hr) as (vs' & h' & R' & E & Hnew & Hr').
    exists (VField n' x vs'), h', R'. split; [|split; [done|]].
    { cbn [copy_field]. rewrite bool_decide_false by done. by rewrite (bind_eq _ _ _ _ _ E). }
    split_and!; [done|done|done| |done]. rewrite (decide_ext _ (n' ∈ D)) by set_solver.
    case_decide; [|done]. eapply element_copied_mono; [exact Hc|set_solver|apply Hnew].
Qed.

Lemma copied_fields_final D h0 h R t v0 v :
  h0 ⊆ h → covered D t = true → copied_fields D h0 h R t v0 v → vrefs v ⊆ R ∧ read h t v = read h0 t v0.
Proof.
  intros Hh. revert v0 v. induction t as [| | |t IH|t IH|t IH| |n' t IH rest IHr]; intros v0 v Hcov Hc; simpl in *; try done.
  { destruct v0, v; try done. }
  destruct v0 as [| | | | | | |n0 x0 vs0], v as [| | | | | | |n1 x vs]; try done.
  destruct Hc as (-> & -> & [y Hy] & Hc & Hr). apply andb_true_iff in Hcov as [Hn Hcov].
  destruct (IHr vs0 vs Hcov Hr) as [Hvs Hrest]. rewrite Hrest.
  assert (Hx : vrefs x ⊆ R ∧ read h t x = read h0 t x0).
  { case_decide as Hd; [by destruct Hc as (? & ? & _)|]. subst x. apply orb_true_iff in Hn as [Hn|Hn].
    - by apply bool_decide_eq_true_1 in Hn.
    - destruct (read_flat h0 h t x0 y Hn Hy) as [-> ->]. split; [set_solver|done]. }
  destruct Hx as [Hx ->]. split; [simpl; set_solver|done].
Qed.

Lemma deep_statements statements D h0 h R t v0 v :
  NoDup (field_names t) → NoDup (statements.*1 ++ D) →
  Forall (λ st, ∃ tn, field_type t st.1 = Some tn ∧ deep_copies st.2 tn) statements →
  new_region h0 h R → copied_fields D h0 h R t v0 v →
  ∃ v' h' R', copy_fields statements v h = Some (v', h') ∧ new_region h0 h' R' ∧
    copied_fields (reverse statements.*1 ++ D) h0 h' R' t v0 v'.
Proof.
  intros Hnd. revert D h R v. induction statements as [|[name f] statements IH]; intros D h R v HD Hst Hnew Hc.
  { exists v, h, R. done. }
  csimpl in *. apply NoDup_cons in HD as [Hni HD]. inversion Hst as [|? ? (tn & Htn & Hf) Hrest]; subst. simpl in *.
  destruct (copy_field_spec name f tn D h0 h R t v0 v) as (v1 & h1 & R1 & E1 & Hn1 & Hc1);
    [done|set_solver|done|done|apply Hnew|done|].
  destruct (IH (name :: D) h1 (R ∪ R1) v1) as (v2 & h2 & R2 & E2 & Hn2 & Hc2); [|done|by eapply new_region_trans|done|].
  { rewrite <-Permutation_middle. by apply NoDup_cons. }
  exists v2, h2, R2. rewrite (bind_eq _ _ _ _ _ E1). rewrite reverse_cons, <-app_assoc. done.
Qed.

Lemma deep_struct statements t :
  is_struct t = true → bool_decide (NoDup (field_names t)) = true → bool_decide (NoDup statements.*1) = true →
  covered (reverse statements.*1) t = true →
  Forall (λ st, ∃ tn, field_type t st.1 = Some tn ∧ deep_copies st.2 tn) statements →
  deep_copies (copy_fields statements) t.
Proof.
  intros Hs Hn%bool_decide_eq_true_1 Hnd%bool_decide_eq_true_1 Hcov Hst h v x Hx.
  destruct (deep_statements statements [] h h ∅ t v v) as (v' & h' & R & E & Hnew & Hc);
    [done|by rewrite app_nil_r|done|apply new_region_refl|by eapply copied_fields_init|].
  rewrite app_nil_r in Hc. destruct (copied_fields_final _ _ _ _ _ _ _ (proj1 Hnew) Hcov Hc) as [Hv Hr].
  exists v', h', R. split_and!; [done|done|done|by rewrite Hr].
Qed.

(** ** The generated functions *)
Create HintDb deepcopy discriminated.
#[export] Hint Resolve deep_ptr deep_slice deep_map deep_deref foreign_deep_copies : deepcopy.
#[export] Hint Extern 1 (deep_copies assign _) => (apply deep_assign; reflexivity) : deepcopy.

Ltac deep_struct_tac :=
  apply deep_struct; [reflexivity|reflexivity|reflexivity|reflexivity|];
  repeat (apply Forall_cons; split; [eexists; split; [reflexivity|simpl; eauto with deepcopy]|]); apply Forall_nil; exact I.

Section generated.
Context `{ForeignTypes, MapOrder}.

Lemma ImageRef_copies : deep_copies ImageRef_DeepCopyInto ImageRef_type.
Proof. deep_struct_tac. Qed.
#[local] Hint Resolve ImageRef_copies : deepcopy.
Lemma ConfigSource_copies : deep_copies ConfigSource_DeepCopyInto ConfigSource_type.
Proof. deep_struct_tac. Qed.
#[local] Hint Resolve ConfigSource_copies : deepcopy.
Lemma BirdAdapterComp_copies : deep_copies BirdAdapterComp_DeepCopyInto BirdAdapterComp_type.
Proof. deep_struct_tac. Qed.
#[local] Hint Resolve BirdAdapterComp_copies : deepcopy.
Lemma BoxComponent_copies : deep_copies BoxComponent_DeepCopyInto BoxComponent_type.
Proof. deep_struct_tac. Qed.
#[local] Hint Resolve BoxComponent_copies : deepcopy.
Lemma BoxDataplaneSidecar_copies : deep_copies BoxDataplaneSidecar_DeepCopyInto BoxDataplaneSidecar_type.
Proof. deep_struct_tac. Qed.
#[local] Hint Resolve BoxDataplaneSidecar_copies : deepcopy.
Lemma BoxDataplane_copies : deep_copies BoxDataplane_DeepCopyInto BoxDataplane_type.
Proof. deep_struct_tac. Qed.
#[local] Hint Resolve BoxDataplane_copies : deepcopy.
Lemma BoxComponents_copies : deep_copies BoxComponents_DeepCopyInto BoxComponents_type.
Proof. deep_struct_tac. Qed.
#[local] Hint Resolve BoxComponents_copies : deepcopy.
Lemma BoxOperator_copies : deep_copies BoxOperator_DeepCopyInto BoxOperator_type.
Proof. deep_struct_tac. Qed.
#[local] Hint Resolve BoxOperator_copies : deepcopy.
Lemma BoxType_copies : deep_copies BoxType_DeepCopyInto BoxType_type.
Proof. deep_struct_tac. Qed.
#[local] Hint Resolve BoxType_copies : deepcopy.
Lemma ControlplaneSpec_copies : deep_copies ControlplaneSpec_DeepCopyInto ControlplaneSpec_type.
Proof. deep_struct_tac. Qed.
#[local] Hint Resolve ControlplaneSpec_copies : deepcopy.
Lemma Hugepages_copies : deep_copies Hugepages_DeepCopyInto Hugepages_type.
Proof. apply deep_assign; reflexivity. Qed.
#[local] Hint Resolve Hugepages_copies : deepcopy.
Lemma NetworkAttachment_copies : deep_copies NetworkAttachment_DeepCopyInto NetworkAttachment_type.
Proof. apply deep_assign; reflexivity. Qed.
#[local] Hint Resolve NetworkAttachment_copies : deepcopy.
Lemma SidecarSpec_copies : deep_copies SidecarSpec_DeepCopyInto SidecarSpec_type.
Proof. deep_struct_tac. Qed.
#[local] Hint Resolve SidecarSpec_copies : deepcopy.
Lemma DataplaneSpec_copies : deep_copies DataplaneSpec_DeepCopyInto DataplaneSpec_type.
Proof. deep_struct_tac. Qed.
#[local] Hint Resolve DataplaneSpec_copies : deepcopy.
Lemma OperatorContainer_copies : deep_copies OperatorContainer_DeepCopyInto OperatorContainer_type.
Proof. deep_struct_tac. Qed.
#[local] Hint Resolve OperatorContainer_copies : deepcopy.
Lemma OperatorSpec_copies : deep_copies OperatorSpec_DeepCopyInto OperatorSpec_type.
Proof. deep_struct_tac. Qed.
#[local] Hint Resolve OperatorSpec_copies : deepcopy.
Lemma ComponentsSpec_copies : deep_copies ComponentsSpec_DeepCopyInto ComponentsSpec_type.
Proof. deep_struct_tac. Qed.
#[local] Hint Resolve ComponentsSpec_copies : deepcopy.
Lemma ImagesSpec_copies : deep_copies ImagesSpec_DeepCopyInto ImagesSpec_type.
Proof. deep_struct_tac. Qed.
#[local] Hint Resolve ImagesSpec_copies : deepcopy.
Lemma NamedPatch_copies : deep_copies NamedPatch_DeepCopyInto NamedPatch_type.
Proof. deep_struct_tac. Qed.
#[local] Hint Resolve NamedPatch_copies : deepcopy.
Lemma NodeStatus_copies : deep_copies NodeStatus_DeepCopyInto NodeStatus_type.
Proof. deep_struct_tac. Qed.
#[local] Hint Resolve NodeStatus_copies : deepcopy.
Lemma SyncStatus_copies : deep_copies SyncStatus_DeepCopyInto SyncStatus_type.
Proof. deep_struct_tac. Qed.
#[local] Hint Resolve SyncStatus_copies : deepcopy.
Lemma YanetContainerOverride_copies : deep_copies YanetContainerOverride_DeepCopyInto YanetContainerOverride_type.
Proof. deep_struct_tac. Qed.
#[local] Hint Resolve YanetContainerOverride_copies : deepcopy.
Lemma YanetComponentOverride_copies : deep_copies YanetComponentOverride_DeepCopyInto YanetComponentOverride_type.
Proof. deep_struct_tac. Qed.
#[local] Hint Resolve YanetComponentOverride_copies : deepcopy.
Lemma YanetControlplaneOverride_copies : deep_copies YanetControlplaneOverride_DeepCopyInto YanetControlplaneOverride_type.
Proof. deep_struct_tac. Qed.
#[local] Hint Resolve YanetControlplaneOverride_copies : deepcopy.
Lemma YanetDataplaneOverride_copies : deep_copies YanetDataplaneOverride_DeepCopyInto YanetDataplaneOverride_type.
Proof. deep_struct_tac. Qed.
#[local] Hint Resolve YanetDataplaneOverride_copies : deepcopy.
Lemma YanetComponentsOverride_copies : deep_copies YanetComponentsOverride_DeepCopyInto YanetComponentsOverride_type.
Proof. deep_struct_tac. Qed.
#[local] Hint Resolve YanetComponentsOverride_copies : deepcopy.
Lemma YanetSpec_copies : deep_copies YanetSpec_DeepCopyInto YanetSpec_type.
Proof. deep_struct_tac. Qed.
#[local] Hint Resolve YanetSpec_copies : deepcopy.
Lemma YanetStatus_copies : deep_copies YanetStatus_DeepCopyInto YanetStatus_type.
Proof. deep_struct_tac. Qed.
#[local] Hint Resolve YanetStatus_copies : deepcopy.
Lemma Yanet_copies : deep_copies Yanet_DeepCopyInto Yanet_type.
Proof. deep_struct_tac. Qed.
#[local] Hint Resolve Yanet_copies : deepcopy.
Lemma YanetConfigSpec_copies : deep_copies YanetConfigSpec_DeepCopyInto YanetConfigSpec_type.
Proof. deep_struct_tac. Qed.
#[local] Hint Resolve YanetConfigSpec_copies : deepcopy.
Lemma YanetConfigStatus_copies : deep_copies YanetConfigStatus_DeepCopyInto YanetConfigStatus_type.
Proof. deep_struct_tac. Qed.
#[local] Hint Resolve YanetConfigStatus_copies : deepcopy.
Lemma YanetConfig_copies : deep_copies YanetConfig_DeepCopyInto YanetConfig_type.
Proof. deep_struct_tac. Qed.
#[local] Hint Resolve YanetConfig_copies : deepcopy.
Lemma YanetConfigList_copies : deep_copies YanetConfigList_DeepCopyInto YanetConfigList_type.
Proof. deep_struct_tac. Qed.
#[local] Hint Resolve YanetConfigList_copies : deepcopy.
Lemma YanetList_copies : deep_copies YanetList_DeepCopyInto YanetList_type.
Proof. deep_struct_tac. Qed.
#[local] Hint Resolve YanetList_copies : deepcopy.

Lemma DeepCopyInto_copies T : deep_copies (DeepCopyInto T) (type_of T).
Proof. destruct T; simpl; eauto with deepcopy. Qed.
End generated.

(** C23: [DeepCopy] of every API type is a deep copy.  On memory that holds a value of
    the type it never panics, returns nil for nil, and leaves everything there was as
    it is.  The result denotes the same value, in memory that did not exist before and
    refers to nothing else; so whatever is written elsewhere later does not change the
    copy, and whatever is written to the copy does not change the original.  The types
    registered with the scheme have a [DeepCopyObject], which agrees with it and answers
    the nil interface for nil. *)
Theorem deep_copies_are_separate `{ForeignTypes, MapOrder} (T : api_type) (h : heap) (v : val)
    (x : option (interp (type_of T))) :
  read h (TPtr (type_of T)) v = Some x →
  ∃ v' h' R, DeepCopy T v h = Some (v', h') ∧ read h' (TPtr (type_of T)) v' = Some x
    ∧ h ⊆ h' ∧ R ## dom h ∧ closed h' R ∧ vrefs v' ⊆ R
    ∧ (∀ later, agree R h' later → read later (TPtr (type_of T)) v' = Some x)
    ∧ (∀ later, agree (dom h) h' later → read later (TPtr (type_of T)) v = Some x)
    ∧ (∀ f, DeepCopyObject T = Some f → f v h = Some ((if x then Some v' else None), h'))
    ∧ (T ∈ yanet_types_init ++ yanetconfig_types_init → is_Some (DeepCopyObject T)).
Proof.
  intros Hx. destruct (deep_ptr _ _ (DeepCopyInto_copies T) h v x Hx) as (v' & h' & R & E & (Hs & Hd & Hc) & Hv & Hr).
  assert (E' : DeepCopy T v h = Some (v', h')) by (rewrite <-E; by destruct T).
  exists v', h', R. split_and!; try done.
  - intros later Hl. by rewrite (read_agree R h').
  - intros later Hl. eapply read_mono; [|exact Hx]. apply map_subseteq_spec. intros l c Hc'.
    rewrite (Hl l) by (by eapply elem_of_dom_2). by eapply lookup_weaken.
  - intros f Hf. assert (Ho : f v h = runtime_object (DeepCopy T) v h) by (destruct T; first [discriminate Hf|by injection Hf as <-]).
    rewrite Ho. unfold runtime_object. rewrite (bind_eq _ _ _ _ _ E').
    destruct v' as [| | | | | | |]; simpl in Hr; try done; [by injection Hr as <-|].
    destruct (h' !! l) as [[| |]|]; try done. apply fmap_Some in Hr as (y & _ & ->). done.
  - intros HT. destruct T; simpl; try (by eexists); exfalso; clear -HT; set_solver.
Qed.

(** ** An example

    Simple instances of the foreign types. *)
Module Memory.
Definition simple_ty (F : foreign) : ty :=
  match F with
  | ObjectMetaType => struct [("Name", TStr); ("Labels", TMap TStr)]
  | ListMetaType => struct [("ResourceVersion", TStr)]
  | ConditionType => struct [("Type", TStr); ("Status", TStr)]
  | TimeType => TInt
  | RawExtensionType => struct [("Raw", TSlice TInt)]
  end.

Definition simple_copy (F : foreign) : val → M val :=
  match F with
  | ObjectMetaType => copy_fields [("Labels", copy_map assign)]
  | RawExtensionType => copy_fields [("Raw", copy_slice assign)]
  | _ => assign
  end.

Lemma simple_copies F : deep_copies (simple_copy F) (simple_ty F).
Proof. destruct F; try (apply deep_assign; reflexivity); deep_struct_tac. Qed.

#[export] Instance simple : ForeignTypes :=
  {| foreign_ty := simple_ty; foreign_DeepCopyInto := simple_copy; foreign_deep_copies := simple_copies |}.

(** A dataplane slot with two patches and one sidecar, whose array is part of a
    larger one. *)
Definition before : heap :=
  {[1%positive := Var (VField "Patches" (VSlice 2 1 2) (VField "Sidecars" (VRef 3) VEnd));
    2%positive := Arr [VStr "x"; VStr "a"; VStr "b"; VStr "y"];
    3%positive := Hash {["bird" := VField "Enabled" (VRef 4) (VField "Patches" VNil VEnd)]};
    4%positive := Var (VBool true)]}.

(** The original array is overwritten after the copy. *)
Definition changed (h : heap) : heap := <[2%positive := Arr [VStr "x"; VStr "gone"; VStr "b"; VStr "y"]]> h.
End Memory.
Import Memory.

Lemma deep_copies_are_separate_witness :
  read (changed before) (TPtr BoxDataplane_type) (VRef 1) ≠ read before (TPtr BoxDataplane_type) (VRef 1)
  ∧ ∃ v' h', DeepCopy ApiBoxDataplane (VRef 1) before = Some (v', h')
    ∧ read (changed h') (TPtr BoxDataplane_type) v' = read before (TPtr BoxDataplane_type) (VRef 1).
Proof.
  split; [vm_compute; discriminate|].
  destruct (deep_copies_are_separate ApiBoxDataplane before (VRef 1)
              (Some (Some ["a"; "b"], (Some {["bird" := (Some true, (None, tt))]}, tt))))
    as (v' & h' & R & E & _ & _ & Hd & _ & _ & Hkept & _).
  - vm_compute. reflexivity.
  - exists v', h'. split; [exact E|]. etransitivity; [apply Hkept|vm_compute; reflexivity].
    intros l Hl. unfold changed. rewrite lookup_insert_ne; [reflexivity|]. intros <-. apply (Hd 2%positive Hl).
    apply (bool_decide_unpack _). vm_compute. exact I.
Defined.
