(* ===== verification/SnapshotSpec.v ===== *)
(** * The snapshot is isolated

    The memory of the published configuration and the memory each goroutine reaches
    stay in disjoint closed regions, because both sides of the hand-over are deep
    copies.  So a goroutine may do what it likes with the configuration it was given:
    the development's immutable values are what the process observes. *)

From S2P Require Import Prelude GoLib K8s Metrics Api Resolve Labels Builder Service Program Managed YanetController Reconciler.
From S2P Require Import Reconcile ConfigController GoHeap DeepCopy Snapshot DeepCopySpec.
#[local] Open Scope Z_scope.

Lemma reaches_closed h R roots l : closed h R → roots ⊆ R → reaches h roots l → l ∈ R.
Proof.
  intros Hc Hr. induction 1 as [l Hl|l c l' _ IH Hl Hl']; [by apply Hr|].
  destruct (Hc l IH) as (c' & Hc' & Hrefs). simplify_eq. by apply Hrefs.
Qed.

Lemma closed_allocated h R : closed h R → R ⊆ dom h.
Proof. intros Hc l Hl. destruct (Hc l Hl) as (c & Hl' & _). by eapply elem_of_dom_2. Qed.

Lemma closed_write h R l c : closed h R → (l ∈ R → crefs c ⊆ R) → closed (<[l := c]> h) R.
Proof.
  intros Hc Hl l' Hl'. destruct (decide (l' = l)) as [->|Hne].
  - exists c. rewrite lookup_insert_eq. auto.
  - rewrite lookup_insert_ne by done. auto.
Qed.

Lemma read_zero h t : read h t (zero_val t) = Some (zero t).
Proof.
  induction t as [| | |t IH|t IH|t IH| |name t IH rest IHr]; simpl; try done.
  by rewrite bool_decide_true, IH, IHr by done.
Qed.

Lemma vrefs_zero t : vrefs (zero_val t) = ∅.
Proof. induction t as [| | | | | | |name t IH rest IHr]; simpl; [set_solver..|]. rewrite IH, IHr. set_solver. Qed.

Lemma read_field h name t rest v (y : interp (TField name t rest)) :
  read h (TField name t rest) v = Some y →
  ∃ x vs, v = VField name x vs ∧ read h t x = Some y.1 ∧ read h rest vs = Some y.2.
Proof.
  cbn [read]. destruct v as [| | | | | | |n x vs]; try done. case_bool_decide; [|done]. subst.
  rewrite bind_Some. intros (a & Ha & Hb). rewrite bind_Some in Hb. destruct Hb as (b & Hb & [= <-]). by exists x, vs.
Qed.

Lemma read_ptr h t l (y : interp t) :
  read h (TPtr t) (VRef l) = Some (Some y) → ∃ x, h !! l = Some (Var x) ∧ read h t x = Some y.
Proof.
  cbn [read]. destruct (h !! l) as [[x| |]|]; try done. intros (z & Hz & [= <-])%fmap_Some. by exists x.
Qed.

Lemma read_slice_length h t v (y : interp (TSlice t)) :
  read h (TSlice t) v = Some y → length (default [] y) = match v with VSlice _ _ len => len | _ => O end.
Proof.
  cbn [read]. destruct v as [| | | | |l off len| |]; try done; [by intros [= <-]|].
  destruct (h !! l) as [[|xs|]|]; try done. case_bool_decide; [|done].
  intros (ys & Hys & ->)%fmap_Some. apply mapM_Some in Hys.
  transitivity (length (take len (drop off xs))); [symmetry; exact (Forall2_length _ _ _ Hys)|].
  rewrite length_take, length_drop. lia.
Qed.

#[local] Arguments read : simpl never.
#[local] Arguments interp : simpl never.

Section isolation.
Context `{ForeignTypes, MapOrder}.
Context (raw_of : interp (foreign_ty RawExtensionType) → RawExtension).
Context (meta_of : interp (foreign_ty ObjectMetaType) → ObjectMeta).

(** Disjoint closed regions: [S] for the snapshot, [O i] for goroutine [i]. *)
Definition separated (s : process) (S : gset loc) (O : nat → gset loc) : Prop :=
  closed (ps_heap s) S ∧ vrefs (ps_config s) ⊆ S
  ∧ (∀ i, closed (ps_heap s) (O i) ∧ ps_roots s i ⊆ O i ∧ O i ## S)
  ∧ ∀ i j, i ≠ j → O i ## O j.

Definition isolated (s : process) (hist : list label) : Prop :=
  (∃ S O, separated s S O) ∧
  read (ps_heap s) YanetConfigSpec_type (ps_config s) = Some (newest_published hist).

(** A copy of a specification. *)
Lemma copy_spec h v x :
  read h YanetConfigSpec_type v = Some x →
  ∃ v' h' R, deref_copy YanetConfigSpec_DeepCopyInto v h = Some (v', h') ∧ new_region h h' R ∧ vrefs v' ⊆ R
    ∧ read h' YanetConfigSpec_type v' = Some x.
Proof. exact (deep_deref _ _ (DeepCopyInto_copies ApiYanetConfigSpec) h v x). Qed.

(** New memory goes to one goroutine. *)
Lemma separated_extend s S O h' R i ls :
  separated s S O → ps_heap s ⊆ h' → R ## dom (ps_heap s) → closed h' (R ∪ O i) → ls ⊆ R ∪ O i →
  separated (MkProcess h' (ps_config s) (holds_also i ls (ps_roots s))) S (λ j, if decide (j = i) then R ∪ O i else O j).
Proof.
  intros (HS & Hv & HO & Hdis) Hs Hd Hc Hls.
  assert (HRX : ∀ X, closed (ps_heap s) X → R ## X) by (intros X HX%closed_allocated; set_solver).
  split_and!; simpl; [by eapply closed_mono|done| |].
  - intros j. destruct (HO j) as (Hcj & Hrj & Hdj). unfold holds_also. case_decide as Hj; [subst j|].
    + split_and!; [done|set_solver|]. specialize (HRX S HS). set_solver.
    + split_and!; [by eapply closed_mono|done|done].
  - intros j k Hjk. pose proof (HRX _ (proj1 (HO j))). pose proof (HRX _ (proj1 (HO k))).
    pose proof (Hdis j k Hjk). pose proof (Hdis i k). pose proof (Hdis j i). repeat case_decide; subst; set_solver.
Qed.

(** A write stays in the region of the goroutine. *)
Lemma separated_write h config roots S O i l c :
  separated (MkProcess h config roots) S O → l ∈ O i → crefs c ⊆ O i →
  separated (MkProcess (<[l := c]> h) config roots) S O.
Proof.
  intros (HS & Hv & HO & Hdis) Hl Hc. simpl in *. split_and!; simpl; [|done| |done].
  - apply closed_write; [done|]. destruct (HO i) as (_ & _ & Hd). set_solver.
  - intros j. destruct (HO j) as (Hcj & Hrj & Hdj). split_and!; [|done|done].
    apply closed_write; [done|]. destruct (decide (j = i)) as [->|Hne]; [done|]. specialize (Hdis j i Hne). set_solver.
Qed.

(** A refresh replaces the region of the snapshot. *)
Lemma separated_refresh h config roots S O h' config' R :
  separated (MkProcess h config roots) S O → new_region h h' R → vrefs config' ⊆ R →
  separated (MkProcess h' config' roots) R O.
Proof.
  intros (HS & Hv & HO & Hdis) (Hs & Hd & Hc) Hv'. simpl in *. split_and!; simpl; [done|done| |done].
  intros i. destruct (HO i) as (Hci & Hri & _). split_and!; [by eapply closed_mono|done|].
  apply closed_allocated in Hci. set_solver.
Qed.

Lemma get_Spec h object y :
  read h YanetConfig_type object = Some y →
  ∃ spec, get_field "Spec" object = Some spec ∧ read h YanetConfigSpec_type spec = Some y.2.2.1.
Proof.
  intros (x1 & v1 & -> & _ & Hy1)%read_field. apply read_field in Hy1 as (x2 & v2 & -> & _ & Hy2).
  apply read_field in Hy2 as (x3 & v3 & -> & Hx3 & _). by exists x3.
Qed.

Lemma unpopulated_spec h config x :
  read h YanetConfigSpec_type config = Some x → given x = if unpopulated_in_memory config then None else Some x.
Proof.
  destruct x as (stop & window & images & components & patches & boxes & u).
  intros (x1 & v1 & -> & H1' & Hr)%read_field. apply read_field in Hr as (x2 & v2 & -> & _ & Hr).
  apply read_field in Hr as (x3 & v3 & -> & _ & Hr). apply read_field in Hr as (x4 & v4 & -> & _ & Hr).
  apply read_field in Hr as (x5 & v5 & -> & _ & Hr). apply read_field in Hr as (x6 & v6 & -> & H6' & _).
  change (read h TBool x1 = Some stop) in H1'. change (read h (TSlice BoxType_type) x6 = Some boxes) in H6'.
  assert (E1 : x1 = VBool stop) by (destruct x1; try done; by injection H1' as <-). subst x1.
  apply read_slice_length in H6'. unfold unpopulated_in_memory, given.
  change (get_field "BoxTypes" _) with (Some x6). change (get_field "Stop" _) with (Some (VBool stop)). cbv iota.
  erewrite bool_decide_ext; [reflexivity|]. by rewrite <-H6'.
Qed.

(** A refresh never panics, and stores what it should in new memory. *)
Lemma refresh_spec h got value :
  denotes h got value →
  ∃ config' h' R, refreshInMemory got h = Some (config', h') ∧ new_region h h' R ∧ vrefs config' ⊆ R
    ∧ read h' YanetConfigSpec_type config' = Some (published value).
Proof.
  destruct got as [cfg|e], value as [y|e']; unfold denotes, refreshInMemory, published; try done.
  - intros (object & Ec & Hy)%read_ptr. destruct (get_Spec h object y Hy) as (spec & Hspec & Hx).
    destruct (copy_spec h spec _ Hx) as (v' & h' & R & E & Hrest). exists v', h', R. split; [|done].
    rewrite (bind_eq _ _ _ _ _ (load_eq _ _ _ Ec)), Hspec. exact E.
  - intros ->. exists (zero_val YanetConfigSpec_type), h, ∅. split_and!; [done|apply new_region_refl| |apply read_zero].
    by rewrite vrefs_zero.
Qed.

Lemma newest_published_snoc hist e :
  newest_published (hist ++ [e]) = match e with Refreshed got => published got | _ => newest_published hist end.
Proof. unfold newest_published. by rewrite foldl_app. Qed.

(** Memory outside the region of the snapshot does not matter to it. *)
Lemma snapshot_kept h h' config S x :
  closed h S → vrefs config ⊆ S → agree S h h' →
  read h YanetConfigSpec_type config = Some x → read h' YanetConfigSpec_type config = Some x.
Proof. intros Hc Hv Ha <-. by eapply read_agree. Qed.

Lemma isolated_step s hist e s' :
  isolated s hist → process_step s e s' →
  isolated s' (hist ++ [e]) ∧ (∀ i x, e = Took i x → x = given (newest_published hist)).
Proof.
  intros [(S & O & Hsep) Hread] Hstep. unfold isolated. rewrite newest_published_snoc.
  pose proof Hsep as (HS & Hv & HO & _).
  destruct Hstep as [i h h' config roots l N Hs Hd Hc Hl|i h h' config roots c l Hc Ea|i h config roots l c Hl Hc
    |h config roots roots' Hr|i h h' config config' roots got value Hgot Hx E|i h h' config roots E|i h h' config roots v x E Hx]; simpl in *.
  - split; [|done]. split; [|by eapply read_mono]. eexists S, _.
    apply (separated_extend (MkProcess h config roots)); [exact Hsep|done|done| |set_solver].
    apply closed_union; [done|]. eapply closed_mono; [exact Hs|]. apply HO.
  - split; [|done]. assert (Hci : crefs c ⊆ O i).
    { intros l' Hl'. eapply reaches_closed; [apply (HO i)|apply (HO i)|]. by apply Hc. }
    pose proof (alloc_grows _ _ _ _ Ea) as Hs. split; [|by eapply read_mono]. eexists S, _.
    apply (separated_extend (MkProcess h config roots) S O h' {[l]}); [exact Hsep|done| | |set_solver].
    + injection Ea as <- _. simpl. pose proof (is_fresh (dom h)). set_solver.
    + intros l' [->%elem_of_singleton|Hl']%elem_of_union.
      * exists c. injection Ea as <- <-. rewrite lookup_insert_eq. set_solver.
      * destruct (closed_mono _ _ _ Hs (proj1 (HO i)) l' Hl') as (c' & Hc' & Hr'). exists c'. set_solver.
  - split; [|done]. assert (Hli : l ∈ O i) by (eapply reaches_closed; [apply (HO i)|apply (HO i)|done]).
    assert (Hci : crefs c ⊆ O i).
    { intros l' Hl'. eapply reaches_closed; [apply (HO i)|apply (HO i)|]. by apply Hc. }
    split; [eexists S, O; by eapply separated_write|]. eapply snapshot_kept; [exact HS|done| |done].
    intros l' Hl'. rewrite lookup_insert_ne; [done|]. intros ->. destruct (HO i) as (_ & _ & Hd). set_solver.
  - split; [|done]. split; [|done]. exists S, O. destruct Hsep as (_ & _ & _ & Hdis). split_and!; try done.
    intros i. destruct (HO i) as (Hc & Hri & Hd). split_and!; [done| |done]. simpl. specialize (Hr i). set_solver.
  - split; [|done]. destruct (refresh_spec h got value Hx) as (config1 & h1 & R & E1 & Hnew & Hv1 & Hr1).
    rewrite E in E1. injection E1 as <- <-. split; [|done]. exists R, O. by eapply separated_refresh.
  - unfold snapshotInMemory in E. rewrite (unpopulated_spec _ _ _ Hread).
    destruct (unpopulated_in_memory config).
    + injection E as <-. split; [|by intros ? ? [= _ <-]]. split; [by exists S, O|done].
    + destruct (copy_spec h config _ Hread) as (v1 & h1 & R & E1 & _). by rewrite (bind_eq _ _ _ _ _ E1) in E.
  - unfold snapshotInMemory in E. rewrite (unpopulated_spec _ _ _ Hread).
    destruct (unpopulated_in_memory config); [done|].
    destruct (copy_spec h config _ Hread) as (v1 & h1 & R & E1 & Hnew & Hv1 & Hr1).
    rewrite (bind_eq _ _ _ _ _ E1) in E. injection E as <- <-. rewrite Hr1 in Hx. injection Hx as <-.
    split; [|by intros ? ? [= _ <-]]. pose proof Hnew as (Hs & Hd & Hc). split; [|by eapply read_mono].
    eexists S, _. apply (separated_extend (MkProcess h config roots)); [exact Hsep|done|exact Hd| |set_solver].
    apply closed_union; [done|]. eapply closed_mono; [exact Hs|]. apply HO.
Qed.

Lemma process_isolated s hist : process_reachable s hist → isolated s hist.
Proof.
  induction 1 as [|s hist e s' _ IH Hstep]; [|by destruct (isolated_step _ _ _ _ IH Hstep)].
  split; [|apply read_zero]. exists ∅, (λ _, ∅). split_and!; simpl; try (intros ? ?; set_solver); try set_solver.
Qed.

Lemma process_takes s hist h1 i x h2 :
  process_reachable s hist → hist = h1 ++ Took i x :: h2 → x = given (newest_published h1).
Proof.
  intros Hs. revert h2. induction Hs as [|s hist e s' Hs IH Hstep]; intros h2 Eh; [by destruct h1|].
  destruct (decide (h2 = [])) as [->|Hne].
  - apply app_inj_tail in Eh as [-> ->]. by eapply (isolated_step _ _ _ _ (process_isolated _ _ Hs) Hstep).
  - destruct (exists_last Hne) as (h3 & e' & ->). rewrite app_comm_cons, app_assoc in Eh.
    apply app_inj_tail in Eh as [-> _]. by eapply IH.
Qed.

(** The records of the model follow. *)
Lemma snapshot_after_newest hist :
  snapshot_after raw_of meta_of hist = Some (config_of raw_of (newest_published hist)).
Proof.
  induction hist as [|e hist IH] using rev_ind; [done|]. rewrite newest_published_snoc.
  unfold snapshot_after in *. rewrite foldl_app, IH. simpl. destruct e as [[y|e]| |]; simpl; [|by case_match|done|done].
  by destruct y as (? & ? & ? & ?).
Qed.

Lemma snapshot_given hist r :
  run snapshotYanetConfig [Ev ReadGlobal (snapshot_after raw_of meta_of hist)] r →
  r = config_of raw_of <$> given (newest_published hist).
Proof.
  rewrite snapshot_after_newest. intros (a & t & Ht & _ & ->).
  apply (f_equal (λ t, match t with Ev ReadGlobal a :: _ => a | _ => None end)) in Ht. simpl in Ht. subst a.
  destruct (newest_published hist) as (stop & window & images & components & patches & boxes & u).
  unfold given. simpl. unfold list_of. rewrite length_fmap. by destruct (_ && _).
Qed.

(** C15: the published configuration is isolated, so that it behaves as an immutable
    value.  However goroutines interleave, and whatever each writes to the memory it
    reaches (the objects it received, its own copies of the configuration, what it
    allocated): the snapshot always denotes the value published last; every reconcile
    is given exactly that value, or nothing while it is empty; no goroutine reaches the memory of the snapshot, nor
    that of another goroutine, so there is nothing to race on; and neither taking a
    copy nor publishing an object can panic.  As a record of the model that value is what
    [refreshYanetConfigSnapshot] computes from the same reads, and what a reconcile is
    given is what [snapshotYanetConfig] returns. *)
Theorem snapshots_are_isolated (s : process) (hist : list label) :
  process_reachable s hist →
  read (ps_heap s) YanetConfigSpec_type (ps_config s) = Some (newest_published hist)
  ∧ (∀ h1 i x h2, hist = h1 ++ Took i x :: h2 → x = given (newest_published h1))
  ∧ (∀ i l, reaches (ps_heap s) (ps_roots s i) l →
       ¬ reaches (ps_heap s) (vrefs (ps_config s)) l ∧ ∀ j, j ≠ i → ¬ reaches (ps_heap s) (ps_roots s j) l)
  ∧ (∀ i, ∃ s', process_step s (Took i (given (newest_published hist))) s')
  ∧ (∀ i got value, got_by (ps_heap s) (ps_roots s i) got → denotes (ps_heap s) got value →
       ∃ s', process_step s (Refreshed value) s')
  ∧ snapshot_after raw_of meta_of hist = Some (config_of raw_of (newest_published hist))
  ∧ (∀ r, run snapshotYanetConfig [Ev ReadGlobal (snapshot_after raw_of meta_of hist)] r →
       r = config_of raw_of <$> given (newest_published hist)).
Proof.
  intros Hs. destruct (process_isolated s hist Hs) as [(S & O & HS & Hv & HO & Hdis) Hread].
  split_and!; [done|by intros; eapply process_takes| | | |apply snapshot_after_newest|].
  - intros i l Hl. assert (Hi : l ∈ O i) by (eapply reaches_closed; [apply (HO i)|apply (HO i)|done]). split.
    + intros Hl'. apply (reaches_closed _ S) in Hl'; [|done|done]. destruct (HO i) as (_ & _ & Hd). set_solver.
    + intros j Hj Hl'. apply (reaches_closed _ (O j)) in Hl'; [|apply HO|apply HO]. specialize (Hdis i j). set_solver.
  - intros i. destruct s as [h config roots].
    simpl in Hread. rewrite (unpopulated_spec h config _ Hread). destruct (unpopulated_in_memory config) eqn:Eu.
    + eexists. eapply take_none_step. unfold snapshotInMemory. simpl. by rewrite Eu.
    + destruct (copy_spec h config _ Hread) as (v & h' & R & E & _ & _ & Hr). eexists. eapply take_step; [|exact Hr].
      unfold snapshotInMemory. simpl. rewrite Eu. by rewrite (bind_eq _ _ _ _ _ E).
  - intros i got value Hgot Hx. destruct s as [h config roots].
    destruct (refresh_spec h got value Hx) as (config' & h' & R & E & _). eexists. by eapply refresh_step.
  - apply snapshot_given.
Qed.
End isolation.

(** ** An example: the object is overwritten after it was published *)
Import Memory.

Module Handover.
Definition spec_val (stop : bool) : val :=
  match zero_val YanetConfigSpec_type with VField n _ rest => VField n (VBool stop) rest | v => v end.
Definition object (stop : bool) : cell :=
  Var (VField "TypeMeta" (zero_val TypeMeta_type)
        (VField "ObjectMeta" (zero_val (foreign_ty ObjectMetaType))
           (VField "Spec" (spec_val stop) (VField "Status" (zero_val YanetConfigStatus_type) VEnd)))).

Lemma object_refs stop : crefs (object stop) = ∅.
Proof. destruct stop; vm_compute; reflexivity. Qed.

Definition stopped : interp YanetConfigSpec_type := (true, (zero YanetConfigSpec_type).2).
Definition value : interp YanetConfig_type :=
  (zero TypeMeta_type, (zero (foreign_ty ObjectMetaType), (stopped, (zero YanetConfigStatus_type, tt)))).
Definition received : heap := {[1%positive := object true]}.
Definition stored : heap := match refreshInMemory (Ok 1%positive) received with Some (_, h) => h | None => ∅ end.
Definition after : process :=
  MkProcess (<[1%positive := object false]> stored) (spec_val true) (holds_also 0 {[1%positive]} (λ _, ∅)).

Lemma handed_over : process_reachable after [Local; Refreshed (Ok value); Local].
Proof.
  assert (Hroot : ∀ h, reaches h (holds_also 0 {[1%positive]} (λ _, ∅) 0%nat) 1%positive).
  { intros h. apply reaches_root. unfold holds_also. simpl. set_solver. }
  eapply (process_more _ [Local; Refreshed (Ok value)]); [eapply (process_more _ [Local]); [eapply (process_more _ [])|]|].
  - apply process_initial.
  - apply (receive_step 0 ∅ received _ _ 1%positive {[1%positive]}); [apply map_empty_subseteq|set_solver| |set_solver].
    intros l ->%elem_of_singleton. exists (object true). split; [reflexivity|]. by rewrite object_refs.
  - apply (refresh_step 0 received stored (zero_val YanetConfigSpec_type) (spec_val true) _ (Ok 1%positive)).
    + apply Hroot.
    + vm_compute. reflexivity.
    + vm_compute. reflexivity.
  - apply (write_step 0); [apply Hroot|]. intros l' Hl'. rewrite object_refs in Hl'. set_solver.
Qed.
End Handover.

Lemma snapshots_are_isolated_witness :
  read (ps_heap Handover.after) YanetConfigSpec_type (ps_config Handover.after) = Some Handover.stopped
  ∧ ∃ s', process_step Handover.after (Took 1 (Some Handover.stopped)) s'.
Proof.
  destruct (snapshots_are_isolated (λ _, RawEmpty) (λ _, empty_meta) Handover.after _ Handover.handed_over) as (Hread & _ & _ & Htake & _).
  split; [exact Hread|exact (Htake 1%nat)].
Defined.
